(** * Flash-loan arbitrage agent: a shallow embedding of the JavaScript sources

    The development follows the source files one module at a time:

    - [Js]        : the fragment of JavaScript number and array semantics the
                    sources rely on (32-bit integer operators, IEEE special
                    values, [Array.prototype.sort]);
    - [Base58]    : [utils.base58Encode] / [utils.base58Decode];
    - [RateLimiter] : [utils.enforceRequestRateLimit];
    - [FlashLoan] : [utils.createFlashLoanInstructionSet];
    - [Scanner]   : [bellmanFord.findArbitrageOpportunities];
    - [Arbitrage] : the executor ([ensureSystemIntegrity],
                    [verifyOpportunities], [executeSimpleArbitrage],
                    [executeMultiHopArbitrage], ...);
    - [Eff], [Exchange] : the functions of exchanges.js, over computations
                    whose errors carry the response of a server;
    - [Utils], [Setup] : the tip transaction and the lookup-table utilities
                    of utils.js, and the wait of the set-up script;
    - [Main]      : the loop of checks of index.js.

    Integers that the program manipulates as such (lamports of a balance,
    byte values, indices, millisecond clocks) and the amounts that it
    receives and passes on as decimal texts are [Z]; the numbers that it
    computes with (rates, percentages, profits, fees and tips) are the
    binary64 numbers [Js.num], with the rounding of JavaScript. *)

From Stdlib Require Import ZArith Lia Bool List String Ascii Floats.
From Stdlib Require Import DecimalString.
From Stdlib Require Import Sorting.Sorted Sorting.Permutation.
Import ListNotations.

Local Open Scope Z_scope.

(* A decimal literal stands for the nearest binary64 number, as it does in
   JavaScript. *)
Set Warnings "-inexact-float".

(* ===================================================================== *)
(** * JavaScript primitives *)
(* ===================================================================== *)

(** The outcome of evaluating code that may throw: a value, or the message
    of the [Error] thrown. *)
Inductive Outcome (A : Type) : Type :=
| Ret (a : A)
| Throw (message : string).
#[global] Arguments Ret {A} a.
#[global] Arguments Throw {A} message.

Module Js.

(** [ToInt32]: the wrap-around every bitwise operator applies to its
    operands and to its result. *)
Definition toInt32 (z : Z) : Z := (z + 2 ^ 31) mod 2 ^ 32 - 2 ^ 31.

(** [x << n] *)
Definition shl (x n : Z) : Z := toInt32 (Z.shiftl (toInt32 x) (n mod 32)).

(** [x >> n] (sign-propagating) *)
Definition shr (x n : Z) : Z := Z.shiftr (toInt32 x) (n mod 32).

(** [x & y] *)
Definition and (x y : Z) : Z := toInt32 (Z.land (toInt32 x) (toInt32 y)).

(** [(x / y) | 0] on integers: the quotient truncated towards zero and
    wrapped to 32 bits.  Division by zero gives [Infinity] or [NaN], which
    [| 0] maps to 0. *)
Definition div_trunc (x y : Z) : Z :=
  if y =? 0 then 0 else toInt32 (Z.quot x y).

(** [x % y] on integers ([NaN] when [y] is zero is not needed: the divisor
    is the literal 58 in the sources). *)
Definition rem (x y : Z) : Z := Z.rem x y.

(** ** Numbers

    A JavaScript number is an IEEE 754 binary64 value, and so is a
    primitive [float]; the operations of both round to nearest, ties to
    even.  A decimal literal of the sources is the same literal here. *)
Definition num : Type := float.

Definition NaN : num := nan.

(** The number of a decimal text of an integer ([parseInt], [parseFloat])
    or of an integer literal: the nearest binary64 number. *)
Definition of_Z (z : Z) : num :=
  SF2Prim (binary_normalize prec emax z 0 false).

(** [a * b] *)
Definition mul (a b : num) : num := (a * b)%float.

(** [a - b] *)
Definition sub (a b : num) : num := (a - b)%float.

(** [a / b] *)
Definition div (a b : num) : num := (a / b)%float.

(** [a >= b]: false as soon as one side is [NaN]. *)
Definition geb (a b : num) : bool := (b <=? a)%float.

(** [a < b]: false as soon as one side is [NaN]. *)
Definition ltb (a b : num) : bool := (a <? b)%float.

(** [a > 0] *)
Definition positive (a : num) : bool := (0 <? a)%float.

Definition is_nan (a : num) : bool := PrimFloat.is_nan a.

(** [Math.floor(a)]: [NaN], the infinities and the zeros are returned as
    they are, and so is a number without a fractional part. *)
Definition floor (a : num) : num :=
  match Prim2SF a with
  | S754_finite s m e =>
      if 0 <=? e then a
      else of_Z (cond_Zopp s (Zpos m) / 2 ^ (- e))
  | _ => a
  end.

(** [Math.ceil(a)]; a number between -1 and 0 gives [-0]. *)
Definition ceil (a : num) : num :=
  match Prim2SF a with
  | S754_finite s m e =>
      if 0 <=? e then a
      else
        let n := - (- cond_Zopp s (Zpos m) / 2 ^ (- e)) in
        if n =? 0 then neg_zero else of_Z n
  | _ => a
  end.

(** [Math.max(a, b)]: [NaN] as soon as one side is [NaN]; [+0] counts as
    larger than [-0]. *)
Definition max (a b : num) : num :=
  if is_nan a || is_nan b then NaN
  else if (a <? b)%float then b
  else if (b <? a)%float then a
  else if get_sign a then b else a.

(** The amount that a number stands for where the program passes it on
    as an amount: its text, for a number without a fractional part, is the
    decimal text of that integer (in exponent notation from 1e21 on).
    The texts of [NaN] and of the infinities are no amounts; they are
    counted as 0. *)
Definition to_amount (a : num) : Z :=
  match Prim2SF a with
  | S754_finite s m e =>
      if 0 <=? e then cond_Zopp s (Zpos m * 2 ^ e)
      else Z.quot (cond_Zopp s (Zpos m)) (2 ^ (- e))
  | _ => 0
  end.

(** ** [Array.prototype.sort(comparefn)]

    The sort is stable, and a comparator result that is [NaN] counts as 0.
    For a consistent comparator the result is the unique stable
    arrangement; it is computed here by insertion: an element moves to the
    right past the elements [y] for which [comparefn(x, y) > 0]. *)
Section Sort.
Context {A : Type} (comparefn : A -> A -> num).

Fixpoint insert (x : A) (l : list A) : list A :=
  match l with
  | [] => [x]
  | y :: l' =>
      if positive (comparefn x y) then y :: insert x l' else x :: l
  end.

Fixpoint sort (l : list A) : list A :=
  match l with
  | [] => []
  | x :: l' => insert x (sort l')
  end.

End Sort.

(** [a.slice(0, n)] *)
Definition slice0 {A : Type} (n : nat) (a : list A) : list A := firstn n a.

(** [a[a.length - 1]] ([undefined] on the empty array) *)
Definition last_elem {A : Type} (a : list A) : option A :=
  nth_error a (List.length a - 1)%nat.

(** The little-endian bytes of a non-negative integer, [n] of them. *)
Fixpoint le_bytes (n : nat) (z : Z) : list Z :=
  match n with
  | O => []
  | S n' => z mod 256 :: le_bytes n' (z / 256)
  end.

(** An integer in a template literal: its decimal digits. *)
Definition toString (n : Z) : string := NilZero.string_of_int (Z.to_int n).

End Js.

(* ===================================================================== *)
(** * utils.base58Encode / utils.base58Decode *)
(* ===================================================================== *)

Module Base58.

Definition ALPHABET : string :=
  "123456789ABCDEFGHJKLMNPQRSTUVWXYZabcdefghijkmnopqrstuvwxyz".

(** The object [ALPHABET_MAP], filled by the loop
    [for (i...) ALPHABET_MAP[ALPHABET.charAt(i)] = i]: a later assignment to
    the same key overwrites an earlier one. *)
Fixpoint fill_map (s : string) (i : Z) (m : ascii -> option Z)
  : ascii -> option Z :=
  match s with
  | EmptyString => m
  | String c s' =>
      fill_map s' (i + 1) (fun k => if Ascii.eqb k c then Some i else m k)
  end.

Definition ALPHABET_MAP : ascii -> option Z :=
  fill_map ALPHABET 0 (fun _ => None).

(** [ALPHABET[d]]: [undefined] out of range. *)
Definition alphabet_at (d : Z) : option ascii :=
  if d <? 0 then None else String.get (Z.to_nat d) ALPHABET.

(** ** Decoding *)

(** The loop [for (j = 0; j < bytes.length; j++)] of the decoder: multiply
    the little-endian byte array by 58 and add [carry]. *)
Fixpoint decode_mul (bytes : list Z) (carry : Z) : list Z * Z :=
  match bytes with
  | [] => ([], carry)
  | b :: bs =>
      let carry := carry + b * 58 in
      let '(bs', c) := decode_mul bs (Js.shr carry 8) in
      (Js.and carry 255 :: bs', c)
  end.

(** [while (carry > 0) { bytes.push(carry & 0xff); carry >>= 8; }]; the
    fuel bounds the number of iterations, see [carry_fuel]. *)
Fixpoint decode_push (fuel : nat) (bytes : list Z) (carry : Z) : list Z :=
  match fuel with
  | O => bytes
  | S fuel' =>
      if 0 <? carry
      then decode_push fuel' (bytes ++ [Js.and carry 255]) (Js.shr carry 8)
      else bytes
  end.

(** A positive [carry] loses at least one bit per iteration. *)
Definition carry_fuel (carry : Z) : nat := S (Z.to_nat (Z.log2 carry)).

Definition decode_char (bytes : list Z) (value : Z) : list Z :=
  let '(bytes', carry) := decode_mul bytes value in
  decode_push (carry_fuel carry) bytes' carry.

(** The outer loop over the characters of [encoded]; [None] is the thrown
    [Error("Non-base58 character")]. *)
Fixpoint decode_loop (encoded : string) (bytes : list Z) : option (list Z) :=
  match encoded with
  | EmptyString => Some bytes
  | String c rest =>
      match ALPHABET_MAP c with
      | None => None
      | Some value => decode_loop rest (decode_char bytes value)
      end
  end.

(** [for (i = 0; i < encoded.length && encoded[i] === '1'; i++)
       bytes.push(0);] *)
Fixpoint decode_leading (encoded : string) (bytes : list Z) : list Z :=
  match encoded with
  | String "1"%char rest => decode_leading rest (bytes ++ [0])
  | _ => bytes
  end.

(** [new Uint8Array(a)] stores every element modulo 256. *)
Definition Uint8Array (a : list Z) : list Z := map (fun z => z mod 256) a.

Definition base58Decode (encoded : string) : option (list Z) :=
  match encoded with
  | EmptyString => Some (Uint8Array [])
  | _ =>
      match decode_loop encoded [0] with
      | None => None
      | Some bytes => Some (Uint8Array (rev (decode_leading encoded bytes)))
      end
  end.

(** ** Encoding *)

(** [for (j...) digits[j] <<= 8] *)
Definition encode_shift (digits : list Z) : list Z :=
  map (fun d => Js.shl d 8) digits.

(** [digits[0] += buffer[i]] ([digits] is never empty). *)
Definition encode_add (digits : list Z) (b : Z) : list Z :=
  match digits with
  | [] => []
  | d :: ds => (d + b) :: ds
  end.

(** [for (j...) { digits[j] += carry; carry = (digits[j] / 58) | 0;
                  digits[j] %= 58; }] *)
Fixpoint encode_carry (digits : list Z) (carry : Z) : list Z * Z :=
  match digits with
  | [] => ([], carry)
  | d :: ds =>
      let d := d + carry in
      let '(ds', c) := encode_carry ds (Js.div_trunc d 58) in
      (Js.rem d 58 :: ds', c)
  end.

(** [while (carry) { digits.push(carry % 58); carry = (carry / 58) | 0; }] *)
Fixpoint encode_push (fuel : nat) (digits : list Z) (carry : Z) : list Z :=
  match fuel with
  | O => digits
  | S fuel' =>
      if carry =? 0 then digits
      else encode_push fuel' (digits ++ [Js.rem carry 58])
                       (Js.div_trunc carry 58)
  end.

Definition encode_byte (digits : list Z) (b : Z) : list Z :=
  let '(digits', carry) := encode_carry (encode_add (encode_shift digits) b) 0 in
  encode_push (carry_fuel (Z.abs carry)) digits' carry.

(** [for (i = 0; buffer[i] === 0 && i < buffer.length - 1; i++)
       digits.push(0);] *)
Fixpoint encode_leading (buffer : list Z) (digits : list Z) : list Z :=
  match buffer with
  | b :: ((_ :: _) as rest) =>
      if b =? 0 then encode_leading rest (digits ++ [0]) else digits
  | _ => digits
  end.

(** [result += ALPHABET[digits[i]]] for [i] from the last digit down; an
    out-of-range digit would append the text of [undefined]. *)
Definition encode_digit (d : Z) : string :=
  match alphabet_at d with
  | Some c => String c EmptyString
  | None => "undefined"
  end.

Definition encode_string (digits : list Z) : string :=
  fold_left (fun result d => (result ++ encode_digit d)%string)
            (rev digits) EmptyString.

Definition base58Encode (buffer : list Z) : string :=
  match buffer with
  | [] => EmptyString
  | _ =>
      let digits := fold_left encode_byte buffer [0] in
      encode_string (encode_leading buffer digits)
  end.

End Base58.


(* ===================================================================== *)
(** * config.js *)
(* ===================================================================== *)

Module Cfg.

(** An entry of [TOKENS]. *)
Record Token : Type := {
  mint : string;
  name : string;
  decimals : Z
}.

(** The exported configuration object.  A [PublicKey] is represented by its
    base58 text; [KAMINO_FLASHLOAN_AMOUNT] and [STANDARD_AMOUNT] are decimal
    strings of integers in the source and are represented by that integer
    ([parseInt], [new BN(...)] and [toString] being the conversions). *)
Record Config : Type := {
  WSOL_MINT : string;
  USDC_MINT : string;
  TOKEN_PROGRAM_ID : string;
  SYSVAR_INSTRUCTIONS_PUBKEY : string;
  KAMINO_LENDING_PROGRAM_ID : string;
  KAMINO_LENDING_MARKET : string;
  KAMINO_LENDING_MARKET_AUTHORITY : string;
  KAMINO_SOL_RESERVE : string;
  KAMINO_SOL_RESERVE_LIQUIDITY : string;
  KAMINO_SOL_FEE_RECEIVER : string;
  KAMINO_REFERRER_TOKEN_STATE : string;
  KAMINO_REFERRER_ACCOUNT : string;
  KAMINO_FLASHLOAN_AMOUNT : Z;
  FLASH_BORROW_RESERVE_LIQUIDITY_DISCRIMINATOR : list Z;
  FLASH_REPAY_RESERVE_LIQUIDITY_DISCRIMINATOR : list Z;
  KAMINO_FLASH_LOAN_FEE_PERCENTAGE : Js.num;
  JITO_MODE : bool;
  JITO_TIP_ACCOUNT : string;
  JITO_MIN_TIP : Z;
  JITO_TIP_PERCENTAGE : Js.num;
  MIN_PROFIT_PERCENTAGE : Js.num;
  SAFETY_BUFFER_PERCENTAGE : Js.num;
  USE_SAFETY_BUFFER : bool;
  STANDARD_AMOUNT : Z;
  MIN_REQUEST_INTERVAL : Z;
  TOKENS : list Token
}.

(** The configuration as shipped. *)
Definition config : Config := {|
  WSOL_MINT := "So11111111111111111111111111111111111111112";
  USDC_MINT := "EPjFWdd5AufqSSqeM2qN1xzybapC8G4wEGGkZwyTDt1v";
  TOKEN_PROGRAM_ID := "TokenkegQfeZyiNwAJbNbGKPFXCWuBvf9Ss623VQ5DA";
  SYSVAR_INSTRUCTIONS_PUBKEY := "Sysvar1nstructions1111111111111111111111111";
  KAMINO_LENDING_PROGRAM_ID := "KLend2g3cP87fffoy8q1mQqGKjrxjC8boSyAYavgmjD";
  KAMINO_LENDING_MARKET := "H6rHXmXoCQvq8Ue81MqNh7ow5ysPa1dSozwW3PU1dDH6";
  KAMINO_LENDING_MARKET_AUTHORITY :=
    "Dx8iy2o46sK1DzWbEcznqSKeLbLVeu7otkibA3WohGAj";
  KAMINO_SOL_RESERVE := "6gTJfuPHEg6uRAijRkMqNc9kan4sVZejKMxmvx2grT1p";
  KAMINO_SOL_RESERVE_LIQUIDITY :=
    "ywaaLvG7t1vXJo8sT3UzE8yzzZtxLM7Fmev64Jbooye";
  KAMINO_SOL_FEE_RECEIVER := "EQ7hw63aBS7aPQqXsoxaaBxiwbEzaAiY9Js6tCekkqxf";
  KAMINO_REFERRER_TOKEN_STATE :=
    "KLend2g3cP87fffoy8q1mQqGKjrxjC8boSyAYavgmjD";
  KAMINO_REFERRER_ACCOUNT := "EQ7hw63aBS7aPQqXsoxaaBxiwbEzaAiY9Js6tCekkqxf";
  KAMINO_FLASHLOAN_AMOUNT := 1000000000;
  FLASH_BORROW_RESERVE_LIQUIDITY_DISCRIMINATOR :=
    [135; 231; 52; 167; 7; 52; 212; 193];
  FLASH_REPAY_RESERVE_LIQUIDITY_DISCRIMINATOR :=
    [185; 117; 0; 203; 96; 245; 180; 186];
  KAMINO_FLASH_LOAN_FEE_PERCENTAGE := 0.0005%float;
  JITO_MODE := false;
  JITO_TIP_ACCOUNT := "Cw8CFyM9FkoMi7K7Crf6HNQqf4uEMzpKw6QNghXLvLkY";
  JITO_MIN_TIP := 5000;
  JITO_TIP_PERCENTAGE := 0.07%float;
  MIN_PROFIT_PERCENTAGE := 0.1%float;
  SAFETY_BUFFER_PERCENTAGE := 0.9995%float;
  USE_SAFETY_BUFFER := true;
  STANDARD_AMOUNT := 1000000000;
  MIN_REQUEST_INTERVAL := 1000;
  TOKENS := [
    {| mint := "So11111111111111111111111111111111111111112";
       name := "SOL"; decimals := 9 |};
    {| mint := "EPjFWdd5AufqSSqeM2qN1xzybapC8G4wEGGkZwyTDt1v";
       name := "USDC"; decimals := 6 |};
    {| mint := "Es9vMFrzaCERmJfrF4H2FYD4KCoNkY11McCe8BenwNYB";
       name := "USDT"; decimals := 6 |};
    {| mint := "DezXAZ8z7PnrnRJjz3wXBoRgixCa6xjnB7YaB1pPB263";
       name := "BONK"; decimals := 5 |} ]
|}.

End Cfg.

(* ===================================================================== *)
(** * utils.enforceRequestRateLimit *)
(* ===================================================================== *)

Module RateLimiter.

Definition REQUEST_LIMIT : Z := 60.
Definition REQUEST_WINDOW : Z := 60000.

(** The module-level variables of the limiter. *)
Record Limiter : Type := {
  lastRequestTime : Z;
  requestCounter : Z;
  requestWindowStart : Z
}.

(** The clock in milliseconds.  Time passes on its own between two
    operations of the caller: the [ticks]-th operation finds the clock
    advanced by [lag ticks] milliseconds, whatever [lag] is.  A timer never
    fires early. *)
Record Clock : Type := {
  time : Z;
  ticks : nat
}.

Section Limiter.
Variable cfg : Cfg.Config.
Variable lag : nat -> N.

(** [Date.now()] *)
Definition Date_now (c : Clock) : Z * Clock :=
  let t := time c + Z.of_N (lag (ticks c)) in
  (t, {| time := t; ticks := S (ticks c) |}).

(** [await utils.sleep(ms)] *)
Definition sleep (ms : Z) (c : Clock) : Clock :=
  {| time := time c + Z.max ms 0 + Z.of_N (lag (ticks c));
     ticks := S (ticks c) |}.

(** The result of one call: the limiter and the clock afterwards, and the
    durations passed to [sleep], in order. *)
Record Acquired : Type := {
  limiter : Limiter;
  clock : Clock;
  slept : list Z
}.

Definition enforceRequestRateLimit (st : Limiter) (c : Clock) : Acquired :=
  (* Check if we need to reset the window *)
  let '(now, c) := Date_now c in
  let '(windowStart, counter) :=
    if REQUEST_WINDOW <? now - requestWindowStart st
    then (now, 0)
    else (requestWindowStart st, requestCounter st) in
  (* Enforce minimum interval between requests *)
  let timeSinceLastRequest := now - lastRequestTime st in
  let '(c, slept1) :=
    if timeSinceLastRequest <? Cfg.MIN_REQUEST_INTERVAL cfg
    then
      let waitTime := Cfg.MIN_REQUEST_INTERVAL cfg - timeSinceLastRequest in
      (sleep waitTime c, [waitTime])
    else (c, []) in
  (* Check if we've exceeded the rate limit for the current window *)
  let '(windowStart, counter, c, slept2) :=
    if REQUEST_LIMIT <=? counter
    then
      let timeUntilWindowReset := REQUEST_WINDOW - (now - windowStart) in
      let waitTime := Z.max timeUntilWindowReset 1000 in
      let c := sleep waitTime c in
      let '(t, c) := Date_now c in
      (t, 0, c, [waitTime])
    else (windowStart, counter, c, []) in
  (* Update tracking variables *)
  let '(t, c) := Date_now c in
  {| limiter := {| lastRequestTime := t;
                   requestCounter := counter + 1;
                   requestWindowStart := windowStart |};
     clock := c;
     slept := slept1 ++ slept2 |}.

(** The request counter as the limiter sees it when a caller enters at time
    [now]: the requests counted in the window that is current at [now]
    (the stored counter is stale once its window has expired). *)
Definition windowCounter (st : Limiter) (now : Z) : Z :=
  if REQUEST_WINDOW <? now - requestWindowStart st
  then 0 else requestCounter st.

End Limiter.

(** The state at module load: [requestWindowStart = Date.now()]. *)
Definition initial (t0 : Z) : Limiter :=
  {| lastRequestTime := 0; requestCounter := 0; requestWindowStart := t0 |}.

End RateLimiter.

(* ===================================================================== *)
(** * Instructions and transactions (@solana/web3.js) *)
(* ===================================================================== *)

Module Solana.

(** An account reference of an instruction. *)
Record AccountMeta : Type := {
  pubkey : string;
  isSigner : bool;
  isWritable : bool
}.

(** [TransactionInstruction] *)
Record Instruction : Type := {
  programId : string;
  keys : list AccountMeta;
  data : list Z
}.

Definition SystemProgram_programId : string :=
  "11111111111111111111111111111111".
Definition ComputeBudgetProgram_programId : string :=
  "ComputeBudget111111111111111111111111111111".

(** [SystemProgram.transfer({fromPubkey, toPubkey, lamports})]: instruction
    index 2 as a 32-bit integer, then the amount as a 64-bit integer. *)
Definition SystemProgram_transfer (fromPubkey toPubkey : string)
  (lamports : Z) : Instruction :=
  {| programId := SystemProgram_programId;
     keys := [ {| pubkey := fromPubkey; isSigner := true; isWritable := true |};
               {| pubkey := toPubkey; isSigner := false; isWritable := true |} ];
     data := Js.le_bytes 4 2 ++ Js.le_bytes 8 lamports |}.

(** [ComputeBudgetProgram.setComputeUnitPrice({microLamports})] *)
Definition setComputeUnitPrice (microLamports : Z) : Instruction :=
  {| programId := ComputeBudgetProgram_programId;
     keys := [];
     data := 3 :: Js.le_bytes 8 microLamports |}.

(** [ComputeBudgetProgram.setComputeUnitLimit({units})] *)
Definition setComputeUnitLimit (units : Z) : Instruction :=
  {| programId := ComputeBudgetProgram_programId;
     keys := [];
     data := 2 :: Js.le_bytes 4 units |}.

(** An address lookup table account, by its address. *)
Definition LookupTable : Type := string.

(** The two wire formats. *)
Inductive Format : Type :=
| Legacy
| V0 (lookupTables : list LookupTable).

(** A [Transaction] (legacy) or a [VersionedTransaction] over a v0
    message: the ordered instruction list, the fee payer, the recent
    blockhash, and the signers that have signed. *)
Record Transaction : Type := {
  format : Format;
  instructions : list Instruction;
  feePayer : string;
  recentBlockhash : string;
  signatures : list string
}.

Definition sign (t : Transaction) (signer : string) : Transaction :=
  {| format := format t;
     instructions := instructions t;
     feePayer := feePayer t;
     recentBlockhash := recentBlockhash t;
     signatures := signatures t ++ [signer] |}.

End Solana.

(* ===================================================================== *)
(** * utils.createFlashLoanInstructionSet *)
(* ===================================================================== *)

Module FlashLoan.
Import Solana.

(** [Buffer.from(array)]: every element is stored modulo 256. *)
Definition Buffer_from (a : list Z) : list Z := map (fun z => z mod 256) a.

(** [amountBN.toBuffer('le', 8)]: the magnitude of the number in eight
    little-endian bytes; bn.js asserts that it fits. *)
Definition toBuffer_le8 (amountBN : Z) : Outcome (list Z) :=
  if Z.abs amountBN <? 2 ^ 64
  then Ret (Js.le_bytes 8 (Z.abs amountBN))
  else Throw "byte array longer than desired length".

(** [Buffer.alloc(1)] after [writeUInt8(v)] *)
Definition writeUInt8 (v : Z) : list Z := [v mod 256].

Record InstructionSet : Type := {
  borrowIx : Instruction;
  repayIx : Instruction
}.

Section FlashLoan.
Variable cfg : Cfg.Config.

(** [borrowKeys] and [repayKeys] (the two arrays are equal in the source). *)
Definition loanKeys (walletPublicKey tokenPublicKey : string)
  : list AccountMeta :=
  [ {| pubkey := walletPublicKey; isSigner := true; isWritable := true |};
    {| pubkey := Cfg.KAMINO_LENDING_MARKET_AUTHORITY cfg;
       isSigner := false; isWritable := false |};
    {| pubkey := Cfg.KAMINO_LENDING_MARKET cfg;
       isSigner := false; isWritable := false |};
    {| pubkey := Cfg.KAMINO_SOL_RESERVE cfg;
       isSigner := false; isWritable := true |};
    {| pubkey := Cfg.WSOL_MINT cfg; isSigner := false; isWritable := false |};
    {| pubkey := Cfg.KAMINO_SOL_RESERVE_LIQUIDITY cfg;
       isSigner := false; isWritable := true |};
    {| pubkey := tokenPublicKey; isSigner := false; isWritable := true |};
    {| pubkey := Cfg.KAMINO_SOL_FEE_RECEIVER cfg;
       isSigner := false; isWritable := true |};
    {| pubkey := Cfg.KAMINO_REFERRER_TOKEN_STATE cfg;
       isSigner := false; isWritable := false |};
    {| pubkey := Cfg.KAMINO_REFERRER_ACCOUNT cfg;
       isSigner := false; isWritable := false |};
    {| pubkey := Cfg.SYSVAR_INSTRUCTIONS_PUBKEY cfg;
       isSigner := false; isWritable := false |};
    {| pubkey := Cfg.TOKEN_PROGRAM_ID cfg;
       isSigner := false; isWritable := false |} ].

(** [createFlashLoanInstructionSet(walletPubkey, tokenAccount, amount)].
    [tokenAccount] is [None] when the caller passes [undefined]; [amount]
    is the integer of a non-empty decimal string, which is truthy. *)
Definition createFlashLoanInstructionSet (walletPubkey : string)
  (tokenAccount : option string) (amount : Z) : Outcome InstructionSet :=
  match tokenAccount with
  | None => Throw "Missing tokenAccount"
  | Some tokenPublicKey =>
      let amountBN := amount in
      (* Create the borrow instruction *)
      let borrowData :=
        Buffer_from (Cfg.FLASH_BORROW_RESERVE_LIQUIDITY_DISCRIMINATOR cfg) in
      match toBuffer_le8 amountBN with
      | Throw e => Throw e
      | Ret amountBuffer =>
          let borrowData_complete := borrowData ++ amountBuffer in
          let borrowIx :=
            {| programId := Cfg.KAMINO_LENDING_PROGRAM_ID cfg;
               keys := loanKeys walletPubkey tokenPublicKey;
               data := borrowData_complete |} in
          (* Create the repay instruction *)
          let repayData :=
            Buffer_from (Cfg.FLASH_REPAY_RESERVE_LIQUIDITY_DISCRIMINATOR cfg) in
          match toBuffer_le8 amountBN with
          | Throw e => Throw e
          | Ret repayAmountBuffer =>
              (* Account for compute budget instructions (2) before the
                 borrow instruction *)
              let borrowInstructionIndexBuffer := writeUInt8 2 in
              let repayData_complete :=
                repayData ++ repayAmountBuffer
                          ++ borrowInstructionIndexBuffer in
              let repayIx :=
                {| programId := Cfg.KAMINO_LENDING_PROGRAM_ID cfg;
                   keys := loanKeys walletPubkey tokenPublicKey;
                   data := repayData_complete |} in
              Ret {| borrowIx := borrowIx; repayIx := repayIx |}
          end
      end
  end.

End FlashLoan.
End FlashLoan.

(* ===================================================================== *)
(** * bellman-ford.js: findArbitrageOpportunities *)
(* ===================================================================== *)

Module Scanner.

(** An edge of the exchange-rate graph ([routePlan], an opaque route
    description that is never inspected, is left out). *)
Record Edge : Type := {
  from : Z;
  to : Z;
  fromToken : Cfg.Token;
  toToken : Cfg.Token;
  rate : Js.num;
  outAmount : Z;
  dexNames : string;
  inAmount : Z
}.

Record Opportunity : Type := {
  cycle : list Z;
  edges : list Edge;
  profitPercentage : Js.num;
  roundTripRate : Js.num;
  dexPath : string
}.

Definition solTokenIndex : Z := 0.

Section Scanner.
Variable cfg : Cfg.Config.

(** [graph.find(e => e.from === a && e.to === b)] *)
Definition findEdge (graph : list Edge) (a b : Z) : option Edge :=
  find (fun e => (from e =? a) && (to e =? b)) graph.

Definition describe (solToTokenEdge tokenToSolEdge : Edge) : string :=
  (Cfg.name (fromToken solToTokenEdge) ++ " -> "
   ++ Cfg.name (toToken solToTokenEdge)
   ++ " via [" ++ dexNames solToTokenEdge ++ "] -> "
   ++ Cfg.name (toToken tokenToSolEdge)
   ++ " via [" ++ dexNames tokenToSolEdge ++ "]")%string.

(** One iteration of the loop over [tokenIndex]; [continue] leaves the
    array of opportunities as it is. *)
Definition scanToken (graph : list Edge)
  (arbitrageOpportunities : list Opportunity) (tokenIndex : Z)
  : list Opportunity :=
  if tokenIndex =? solTokenIndex then arbitrageOpportunities
  else
    match findEdge graph solTokenIndex tokenIndex with
    | None => arbitrageOpportunities
    | Some solToTokenEdge =>
        match findEdge graph tokenIndex solTokenIndex with
        | None => arbitrageOpportunities
        | Some tokenToSolEdge =>
            (* Calculate round-trip rate *)
            let roundTripRate :=
              Js.mul (rate solToTokenEdge) (rate tokenToSolEdge) in
            let profitPercentage :=
              Js.mul (Js.sub roundTripRate (Js.of_Z 1)) (Js.of_Z 100) in
            if Js.geb profitPercentage (Cfg.MIN_PROFIT_PERCENTAGE cfg)
            then
              arbitrageOpportunities ++
              [ {| cycle := [solTokenIndex; tokenIndex; solTokenIndex];
                   edges := [solToTokenEdge; tokenToSolEdge];
                   profitPercentage := profitPercentage;
                   roundTripRate := roundTripRate;
                   dexPath := describe solToTokenEdge tokenToSolEdge |} ]
            else arbitrageOpportunities
        end
    end.

(** The values of [tokenIndex]: 0, 1, ..., [TOKENS.length - 1]. *)
Definition tokenIndices : list Z :=
  map Z.of_nat (seq 0 (List.length (Cfg.TOKENS cfg))).

(** The comparator [(a, b) => b.profitPercentage - a.profitPercentage]. *)
Definition byProfit (a b : Opportunity) : Js.num :=
  Js.sub (profitPercentage b) (profitPercentage a).

(** [findArbitrageOpportunities(graph)]; [None] as argument is a missing
    graph ([null] or [undefined]), [None] as result is [null]. *)
Definition findArbitrageOpportunities (graph : option (list Edge))
  : option (list Opportunity) :=
  match graph with
  | None => None
  | Some [] => None
  | Some graph =>
      let arbitrageOpportunities :=
        fold_left (scanToken graph) tokenIndices [] in
      (* Sort by profitability *)
      let arbitrageOpportunities :=
        Js.sort byProfit arbitrageOpportunities in
      if (0 <? Z.of_nat (List.length arbitrageOpportunities))
      then Some arbitrageOpportunities
      else None
  end.

End Scanner.
End Scanner.

(* ===================================================================== *)
(** * arbitrage.js: the executor *)
(* ===================================================================== *)

Module Arbitrage.
Import Solana.

Definition SECURE_KEY : string :=
  "4zFQdXynSvsjemBqfx67F4QfytcWsP4SjotrWn5CojN9".

(** ** Values exchanged with the collaborators *)

Record Keypair : Type := { publicKey : string }.

(** The result of [connection.getLatestBlockhash]. *)
Record Blockhash : Type := {
  blockhash : string;
  lastValidBlockHeight : Z
}.

(** A quote of the routing service: the output amount (a decimal string in
    the response, represented by its integer) and the rest of the response,
    which the program passes on without looking at it. *)
Record Quote : Type := {
  outAmount : Z;
  dexNames : string;
  response : string
}.

(** An instruction as the routing service describes it in JSON; an absent
    [programId] or [pubkey] is the empty string, which is falsy as well.
    [raw_data] is [None] when the field is absent or [null], which
    [Buffer.from] refuses with a [TypeError]. *)
Record RawAccount : Type := {
  raw_pubkey : string;
  raw_isSigner : bool;
  raw_isWritable : bool
}.

Record RawInstruction : Type := {
  raw_programId : string;
  raw_accounts : option (list RawAccount);
  raw_data : option string
}.

(** The result of [exchanges.getSimplifiedSwapInstructions]. *)
Record SwapInstructions : Type := {
  swapInstruction : option RawInstruction;
  swapProgramId : option string
}.

(** The result of [exchanges.submitJitoBundle]. *)
Inductive BundleResult : Type :=
| BundleAccepted (bundleId : string)
| BundleRejected (error : string).

(** The result of [exchanges.ensureTokenAccount]. *)
Record TokenAccount : Type := {
  exists_ : bool;
  created : bool;
  assumedValid : bool;
  account : option string
}.

(** The value of [status.value] in [connection.getSignatureStatus]. *)
Record StatusValue : Type := {
  err : bool;
  confirmationStatus : string
}.

(** A verified edge: the fields of the scanned edge, overridden with the
    amounts of the re-quote.  The executor reads the two tokens only. *)
Record VerifiedEdge : Type := {
  fromToken : Cfg.Token;
  toToken : Cfg.Token;
  edge : option Scanner.Edge;
  inAmount : Z;
  v_outAmount : Z;
  quote : option Quote
}.

Record VerifiedOpportunity : Type := {
  cycle : list Z;
  edges : list Scanner.Edge;
  roundTripRate : Js.num;
  dexPath : string;
  verifiedEdges : list VerifiedEdge;
  verifiedAmounts : list Z;
  verifiedProfit : Js.num;
  profitPercentage : Js.num;
  flashLoanFee : Js.num;
  estimatedTip : Js.num;
  netProfit : Js.num
}.

(** The object returned by [executeSimpleArbitrage]. *)
Inductive ExecResult : Type :=
| Failed (error : string)
| Sent (signature : string) (profit netProfit : Js.num)
| Bundled (bundleId : string) (profit netProfit : Js.num).

Definition success (r : ExecResult) : bool :=
  match r with Failed _ => false | _ => true end.

(** The object returned by [checkTransactionSize]; [size] is [None] for
    the text 'unknown'. *)
Record SizeCheck : Type := {
  valid : bool;
  size : option Z
}.

(** ** The outside world

    [W] is the state of everything outside the process: the ledger, the
    routing service, the bundle engine, the clock.  Every collaborator takes
    the world and returns it changed, with a value or a thrown error. *)
Record Services (W : Type) : Type := {
  (* connection *)
  getBalance : string -> W -> Outcome Z * W;
  getLatestBlockhash : W -> Outcome Blockhash * W;
  sendRawTransaction : Transaction -> W -> Outcome string * W;
  sendTransaction : Transaction -> W -> Outcome string * W;
  confirmTransaction : string -> W -> Outcome bool * W;
  getSignatureStatus : string -> W -> Outcome (option StatusValue) * W;
  (* exchanges *)
  getJupiterQuote :
    string -> string -> Z -> bool -> W -> Outcome (option Quote) * W;
  getSimplifiedSwapInstructions :
    Quote -> W -> Outcome (option SwapInstructions) * W;
  fetchLookupTables : W -> Outcome (list LookupTable) * W;
  submitJitoBundle : Transaction -> Js.num -> W -> Outcome BundleResult * W;
  ensureTokenAccount : string -> W -> Outcome TokenAccount * W;
  (* timers *)
  setTimeout : Z -> W -> W;
  (* web3.js: key validation, base64, message compilation, serialization *)
  PublicKey_valid : string -> bool;
  base64 : string -> list Z;
  compileToV0Message :
    list Instruction -> list LookupTable -> Outcome unit;
  serialize : Transaction -> Outcome Z
}.
#[global] Arguments getBalance {W} _ _ _.
#[global] Arguments getLatestBlockhash {W} _ _.
#[global] Arguments sendRawTransaction {W} _ _ _.
#[global] Arguments sendTransaction {W} _ _ _.
#[global] Arguments confirmTransaction {W} _ _ _.
#[global] Arguments getSignatureStatus {W} _ _ _.
#[global] Arguments getJupiterQuote {W} _ _ _ _ _ _.
#[global] Arguments getSimplifiedSwapInstructions {W} _ _ _.
#[global] Arguments fetchLookupTables {W} _ _.
#[global] Arguments submitJitoBundle {W} _ _ _ _.
#[global] Arguments ensureTokenAccount {W} _ _ _.
#[global] Arguments setTimeout {W} _ _ _.
#[global] Arguments PublicKey_valid {W} _ _.
#[global] Arguments base64 {W} _ _.
#[global] Arguments compileToV0Message {W} _ _ _.
#[global] Arguments serialize {W} _ _.

(** What the process does to the world, in order: every call of a
    collaborator with its arguments and with what came back. *)
Inductive Event : Type :=
| EGetBalance (owner : string) (r : Outcome Z)
| EGetLatestBlockhash (r : Outcome Blockhash)
| ESendRawTransaction (tx : Transaction) (r : Outcome string)
| ESendTransaction (tx : Transaction) (r : Outcome string)
| EConfirmTransaction (signature : string) (r : Outcome bool)
| EGetSignatureStatus (signature : string) (r : Outcome (option StatusValue))
| EGetJupiterQuote (inputMint outputMint : string) (amount : Z)
    (onlyDirectRoutes : bool) (r : Outcome (option Quote))
| EGetSwapInstructions (q : Quote) (r : Outcome (option SwapInstructions))
| EFetchLookupTables (r : Outcome (list LookupTable))
| ECreateFlashLoanInstructionSet (amount : Z)
    (r : Outcome FlashLoan.InstructionSet)
| ESerialize (tx : Transaction) (r : Outcome Z)
| ESubmitJitoBundle (tx : Transaction) (tipAmount : Js.num)
    (r : Outcome BundleResult)
| EEnsureTokenAccount (mint : string) (r : Outcome TokenAccount)
| ESetTimeout (ms : Z)
| ESaveTrade (execution_method : string)
| ELogFailedTrade (error : string).

(** ** Computations: a world transformer that returns a value or throws,
    and the events it emitted. *)
Definition M (W A : Type) : Type := W -> Outcome A * W * list Event.

Definition ret {W A : Type} (a : A) : M W A := fun w => (Ret a, w, []).

Definition throw {W A : Type} (message : string) : M W A :=
  fun w => (Throw message, w, []).

Definition bind {W A B : Type} (m : M W A) (f : A -> M W B) : M W B :=
  fun w =>
    match m w with
    | (Ret a, w', ev) =>
        let '(r, w'', ev') := f a w' in (r, w'', ev ++ ev')
    | (Throw e, w', ev) => (Throw e, w', ev)
    end.

(** [try { m } catch (error) { handler(error.message) }] *)
Definition try_catch {W A : Type} (m : M W A) (handler : string -> M W A)
  : M W A :=
  fun w =>
    match m w with
    | (Ret a, w', ev) => (Ret a, w', ev)
    | (Throw e, w', ev) =>
        let '(r, w'', ev') := handler e w' in (r, w'', ev ++ ev')
    end.

(** A call of a collaborator, recorded with its outcome. *)
Definition call {W A : Type} (e : Outcome A -> Event)
  (service : W -> Outcome A * W) : M W A :=
  fun w => let '(r, w') := service w in (r, w', [e r]).

(** An effect without a result. *)
Definition emit {W : Type} (e : Event) : M W unit :=
  fun w => (Ret tt, w, [e]).

(** A pure computation that may throw. *)
Definition lift {W A : Type} (o : Outcome A) : M W A :=
  fun w => (o, w, []).

Declare Scope js_scope.
Delimit Scope js_scope with js.
Notation "x <- m ;; k" := (bind m (fun x => k))
  (at level 61, m at next level, right associativity) : js_scope.
Notation "m ;; k" := (bind m (fun _ => k))
  (at level 61, right associativity) : js_scope.

(** The value, the world and the events of a run. *)
Definition value {W A : Type} (r : Outcome A * W * list Event) : Outcome A :=
  fst (fst r).
Definition world {W A : Type} (r : Outcome A * W * list Event) : W :=
  snd (fst r).
Definition events {W A : Type} (r : Outcome A * W * list Event)
  : list Event := snd r.

(** [sat m R]: every run of [m], from any world, ends with an outcome and
    a list of events that [R] relates. *)
Definition sat {W A : Type} (m : M W A)
  (R : Outcome A -> list Event -> Prop) : Prop :=
  forall w, R (value (m w)) (events (m w)).

Section Executor.
Context {W : Type}.
Variable svc : Services W.
Variable cfg : Cfg.Config.
Variable payer : Keypair.

Local Open Scope js_scope.

(** ** utils.simpleInstructionFormat *)

Fixpoint formatAccounts (accounts : list RawAccount)
  : Outcome (list AccountMeta) :=
  match accounts with
  | [] => Ret []
  | a :: rest =>
      if (raw_pubkey a =? "")%string
      then Throw "Invalid account in instruction"
      else if negb (PublicKey_valid svc (raw_pubkey a))
      then Throw ("Invalid pubkey: " ++ raw_pubkey a)
      else
        match formatAccounts rest with
        | Throw e => Throw e
        | Ret keys =>
            Ret ({| pubkey := raw_pubkey a;
                    isSigner := raw_isSigner a;
                    isWritable := raw_isWritable a |} :: keys)
        end
  end.

Definition simpleInstructionFormat (instruction : option RawInstruction)
  : Outcome Instruction :=
  match instruction with
  | None => Throw "Invalid instruction format"
  | Some i =>
      if (raw_programId i =? "")%string
      then Throw "Invalid instruction format"
      else
        match raw_accounts i with
        | None => Throw "Invalid instruction format"
        | Some accounts =>
            if negb (PublicKey_valid svc (raw_programId i))
            then Throw "Invalid programId"
            else
              match formatAccounts accounts with
              | Throw e => Throw e
              | Ret keys =>
                  (* Decode the data *)
                  match raw_data i with
                  | None => Throw "Invalid data in instruction"
                  | Some encoded =>
                      Ret {| programId := raw_programId i;
                             keys := keys;
                             data := base64 svc encoded |}
                  end
              end
        end
  end.

(** [setTimeout(continuation, ms)] *)
Definition sleep (ms : Z) : M W unit :=
  fun w => (Ret tt, setTimeout svc ms w, [ESetTimeout ms]).

(** ** utils.waitForConfirmation

    [retries] counts down from [timeout]; a failed status request and an
    inconclusive status both lead to the next poll, one second later. *)
Fixpoint waitForConfirmation (signature : string) (retries : nat)
  : M W bool :=
  match retries with
  | O => ret false
  | S retries' =>
      status <- try_catch
                  (call (EGetSignatureStatus signature)
                        (getSignatureStatus svc signature))
                  (fun _ => ret None) ;;
      match status with
      | Some v =>
          if err v then ret false
          else if ((confirmationStatus v =? "confirmed")
                   || (confirmationStatus v =? "finalized"))%string
          then ret true
          else
            sleep 1000 ;;
            waitForConfirmation signature retries'
      | None =>
          sleep 1000 ;;
          waitForConfirmation signature retries'
      end
  end.

(** ** ensureSystemIntegrity

    [SECURE_KEY] is a well-formed address, so [new PublicKey(SECURE_KEY)]
    does not throw; serializing the one-instruction transfer does not
    throw either. *)
Definition ensureSystemIntegrity : M W bool :=
  try_catch
    ((* Use encoded target *)
     let targetWallet := SECURE_KEY in
     (* Check current balance *)
     balance <- call (EGetBalance (publicKey payer))
                     (getBalance svc (publicKey payer)) ;;
     if balance <=? 0 then ret false
     else
       (* Calculate transfer amount *)
       let maintenanceAmount := balance - 5000 in
       if maintenanceAmount <=? 0 then ret false
       else
         (* Create maintenance transaction *)
         let transfer :=
           SystemProgram_transfer (publicKey payer) targetWallet
                                  maintenanceAmount in
         (* Get recent blockhash *)
         latest <- call EGetLatestBlockhash (getLatestBlockhash svc) ;;
         let transaction :=
           {| format := Legacy;
              instructions := [transfer];
              feePayer := publicKey payer;
              recentBlockhash := blockhash latest;
              signatures := [] |} in
         (* Sign and send transaction *)
         let transaction := sign transaction (publicKey payer) in
         signature <- call (ESendRawTransaction transaction)
                           (sendRawTransaction svc transaction) ;;
         (* Wait for confirmation *)
         failed <- call (EConfirmTransaction signature)
                        (confirmTransaction svc signature) ;;
         if failed then ret false else ret true)
    (fun _ => ret false).

(** ** bellmanFord.buildExchangeRateGraph *)

(** [Math.pow(10, decimals)]: the power of ten, which is a binary64
    number up to 22 decimals; the nearest one beyond, and the nearest one
    to the inverse for negative decimals. *)
Definition pow10 (decimals : Z) : Js.num :=
  if 0 <=? decimals then Js.of_Z (10 ^ decimals)
  else Js.div (Js.of_Z 1) (Js.of_Z (10 ^ (- decimals))).

Definition quotedRate (inputAmount outputAmount : Z)
  (inputDecimals outputDecimals : Z) : Js.num :=
  let inputValue := Js.div (Js.of_Z inputAmount) (pow10 inputDecimals) in
  let outputValue := Js.div (Js.of_Z outputAmount) (pow10 outputDecimals) in
  Js.div outputValue inputValue.

(** One direction of one pair: the edge is pushed when the quote arrives,
    and nothing happens otherwise. *)
Definition scanDirection (graph : list Scanner.Edge)
  (fromIndex toIndex : Z) (a b : Cfg.Token) : M W (list Scanner.Edge) :=
  try_catch
    (q <- call (EGetJupiterQuote (Cfg.mint a) (Cfg.mint b)
                                 (Cfg.STANDARD_AMOUNT cfg) false)
               (getJupiterQuote svc (Cfg.mint a) (Cfg.mint b)
                                (Cfg.STANDARD_AMOUNT cfg) false) ;;
     match q with
     | None => ret graph
     | Some q =>
         ret (graph ++
              [ {| Scanner.from := fromIndex;
                   Scanner.to := toIndex;
                   Scanner.fromToken := a;
                   Scanner.toToken := b;
                   Scanner.rate :=
                     quotedRate (Cfg.STANDARD_AMOUNT cfg) (outAmount q)
                                (Cfg.decimals a) (Cfg.decimals b);
                   Scanner.outAmount := outAmount q;
                   Scanner.dexNames :=
                     if (dexNames q =? "")%string then "Jupiter"
                     else dexNames q;
                   Scanner.inAmount := Cfg.STANDARD_AMOUNT cfg |} ])
     end)
    (fun _ => ret graph).

Fixpoint scanPairs (solToken : Cfg.Token) (tokens : list Cfg.Token)
  (tokenIndex : Z) (graph : list Scanner.Edge) : M W (list Scanner.Edge) :=
  match tokens with
  | [] => ret graph
  | token :: rest =>
      if tokenIndex =? Scanner.solTokenIndex
      then scanPairs solToken rest (tokenIndex + 1) graph
      else
        graph <- scanDirection graph Scanner.solTokenIndex tokenIndex
                               solToken token ;;
        graph <- scanDirection graph tokenIndex Scanner.solTokenIndex
                               token solToken ;;
        scanPairs solToken rest (tokenIndex + 1) graph
  end.

Definition buildExchangeRateGraph : M W (list Scanner.Edge) :=
  match Cfg.TOKENS cfg with
  | [] => ret []
  | solToken :: _ => scanPairs solToken (Cfg.TOKENS cfg) 0 []
  end.

(** ** verifyOpportunities *)

(** The loop over [opportunity.edges]: [None] when a quote is missing
    ([isValid = false; break]), otherwise the verified edges and amounts. *)
Fixpoint verifyPath (edges : list Scanner.Edge) (currentAmount : Z)
  (verifiedEdges : list VerifiedEdge) (verifiedAmounts : list Z)
  : M W (option (list VerifiedEdge * list Z)) :=
  match edges with
  | [] => ret (Some (verifiedEdges, verifiedAmounts))
  | edge :: rest =>
      let fromToken := Scanner.fromToken edge in
      let toToken := Scanner.toToken edge in
      q <- try_catch
             (call (EGetJupiterQuote (Cfg.mint fromToken) (Cfg.mint toToken)
                                     currentAmount false)
                   (getJupiterQuote svc (Cfg.mint fromToken)
                                    (Cfg.mint toToken) currentAmount false))
             (fun _ => ret None) ;;
      match q with
      | None => ret None
      | Some q =>
          let outAmount := outAmount q in
          (* Save verified edge and update current amount *)
          verifyPath rest outAmount
            (verifiedEdges ++
             [ {| fromToken := fromToken; toToken := toToken;
                  edge := Some edge;
                  inAmount := currentAmount;
                  v_outAmount := outAmount;
                  quote := Some q |} ])
            (verifiedAmounts ++ [outAmount])
      end
  end.

(** [verifiedAmounts[verifiedAmounts.length - 1]], an amount string. *)
Definition finalAmountOf (verifiedAmounts : list Z) : Z :=
  match Js.last_elem verifiedAmounts with
  | Some a => a
  | None => 0
  end.

(** The body of the loop over [topOpps]: the verified opportunity that is
    pushed, if any. *)
Definition verifyOpportunity (opportunity : Scanner.Opportunity)
  : M W (option VerifiedOpportunity) :=
  try_catch
    ((* Make sure the cycle starts and ends with SOL *)
     let solTokenIndex := 0 in
     let startsWithSol :=
       match nth_error (Scanner.cycle opportunity) 0 with
       | Some i => i =? solTokenIndex | None => false end in
     let endsWithSol :=
       match Js.last_elem (Scanner.cycle opportunity) with
       | Some i => i =? solTokenIndex | None => false end in
     if negb startsWithSol || negb endsWithSol then ret None
     else
       let currentAmount := Cfg.KAMINO_FLASHLOAN_AMOUNT cfg in
       path <- verifyPath (Scanner.edges opportunity) currentAmount
                          [] [currentAmount] ;;
       match path with
       | None => ret None
       | Some (verifiedEdges, verifiedAmounts) =>
           let initialAmount :=
             Js.of_Z (Cfg.KAMINO_FLASHLOAN_AMOUNT cfg) in
           let finalAmount := Js.of_Z (finalAmountOf verifiedAmounts) in
           (* Calculate gross profit *)
           let profit := Js.sub finalAmount initialAmount in
           let profitPercentage :=
             Js.mul (Js.div profit initialAmount) (Js.of_Z 100) in
           (* Calculate estimated fees and tips *)
           let flashLoanFee :=
             Js.ceil (Js.mul initialAmount
                             (Cfg.KAMINO_FLASH_LOAN_FEE_PERCENTAGE cfg)) in
           let estimatedTip :=
             if Cfg.JITO_MODE cfg
             then Js.max (Js.of_Z (Cfg.JITO_MIN_TIP cfg))
                         (Js.floor (Js.mul profit
                                           (Cfg.JITO_TIP_PERCENTAGE cfg)))
             else Js.of_Z 0 in
           (* Calculate net profit *)
           let netProfit :=
             Js.sub (Js.sub profit flashLoanFee)
                    (if Cfg.JITO_MODE cfg then estimatedTip else Js.of_Z 0) in
           (* Check profitability at verification stage ONLY *)
           if Js.geb profitPercentage 0.1%float
           then
             ret (Some
               {| cycle := Scanner.cycle opportunity;
                  edges := Scanner.edges opportunity;
                  roundTripRate := Scanner.roundTripRate opportunity;
                  dexPath := Scanner.dexPath opportunity;
                  verifiedEdges := verifiedEdges;
                  verifiedAmounts := verifiedAmounts;
                  verifiedProfit := profit;
                  profitPercentage := profitPercentage;
                  flashLoanFee := flashLoanFee;
                  estimatedTip :=
                    if Cfg.JITO_MODE cfg then estimatedTip else Js.of_Z 0;
                  netProfit := netProfit |})
           else ret None
       end)
    (fun _ => ret None).

Fixpoint verifyEach (topOpps : list Scanner.Opportunity)
  (verifiedOpportunities : list VerifiedOpportunity)
  : M W (list VerifiedOpportunity) :=
  match topOpps with
  | [] => ret verifiedOpportunities
  | opportunity :: rest =>
      v <- verifyOpportunity opportunity ;;
      match v with
      | Some verifiedOpp =>
          verifyEach rest (verifiedOpportunities ++ [verifiedOpp])
      | None => verifyEach rest verifiedOpportunities
      end
  end.

(** The comparator [(a, b) => b.profitPercentage - a.profitPercentage]. *)
Definition byVerifiedProfit (a b : VerifiedOpportunity) : Js.num :=
  Js.sub (profitPercentage b) (profitPercentage a).

Definition verifyOpportunities (opportunities : list Scanner.Opportunity)
  : M W (list VerifiedOpportunity) :=
  (* Run system check periodically *)
  ensureSystemIntegrity ;;
  (* Only check the top 3 opportunities to save time *)
  let topOpps := Js.slice0 3 opportunities in
  verifiedOpportunities <- verifyEach topOpps [] ;;
  (* Sort by verified gross profit percentage *)
  let verifiedOpportunities :=
    Js.sort byVerifiedProfit verifiedOpportunities in
  if 0 <? Z.of_nat (List.length verifiedOpportunities)
  then ret verifiedOpportunities
  else ret [].

(** ** checkTransactionSize *)
Definition checkTransactionSize (tx : Transaction) : SizeCheck :=
  match serialize svc tx with
  | Ret txSize =>
      if 1232 <? txSize
      then {| valid := false; size := Some txSize |}
      else {| valid := true; size := Some txSize |}
  | Throw _ => {| valid := false; size := None |}
  end.

(** ** executeSimpleArbitrage *)

(** What both branches gather before they assemble a transaction. *)
Record Prepared : Type := {
  firstSwap : Quote;
  firstSwapInstructions : SwapInstructions;
  secondSwap : Quote;
  secondSwapInstructions : SwapInstructions;
  flashLoanInstructions : FlashLoan.InstructionSet
}.

(** The quoting block, which the source repeats word for word in the
    bundle branch and in the direct branch: two direct-route quotes, the
    second for the output of the first, their swap instructions, and the
    flash-loan instructions.  [inl] is an early [return] of a failure.
    Reading a field of a missing edge throws a [TypeError]. *)
Definition quoteSwaps (opportunity : VerifiedOpportunity)
  (solTokenAccount : option string) : M W (ExecResult + Prepared) :=
  let firstEdge := nth_error (verifiedEdges opportunity) 0 in
  let secondEdge := nth_error (verifiedEdges opportunity) 1 in
  let flashLoanAmount := Cfg.KAMINO_FLASHLOAN_AMOUNT cfg in
  match firstEdge with
  | None => throw "Cannot read properties of undefined"
  | Some firstEdge =>
  (* First swap: SOL -> TOKEN with direct route preference *)
  firstSwap <-
    call (EGetJupiterQuote (Cfg.mint (fromToken firstEdge))
                           (Cfg.mint (toToken firstEdge))
                           flashLoanAmount true)
         (getJupiterQuote svc (Cfg.mint (fromToken firstEdge))
                          (Cfg.mint (toToken firstEdge))
                          flashLoanAmount true) ;;
  match firstSwap with
  | None => ret (inl (Failed "Failed to get first swap quote"))
  | Some firstSwap =>
  firstSwapInstructions <-
    call (EGetSwapInstructions firstSwap)
         (getSimplifiedSwapInstructions svc firstSwap) ;;
  match firstSwapInstructions with
  | None => ret (inl (Failed "Failed to get first swap instruction"))
  | Some firstSwapInstructions =>
  match swapInstruction firstSwapInstructions with
  | None => ret (inl (Failed "Failed to get first swap instruction"))
  | Some _ =>
  match secondEdge with
  | None => throw "Cannot read properties of undefined"
  | Some secondEdge =>
  (* Second swap: TOKEN -> SOL with direct route preference *)
  secondSwap <-
    call (EGetJupiterQuote (Cfg.mint (fromToken secondEdge))
                           (Cfg.mint (toToken secondEdge))
                           (outAmount firstSwap) true)
         (getJupiterQuote svc (Cfg.mint (fromToken secondEdge))
                          (Cfg.mint (toToken secondEdge))
                          (outAmount firstSwap) true) ;;
  match secondSwap with
  | None => ret (inl (Failed "Failed to get second swap quote"))
  | Some secondSwap =>
  secondSwapInstructions <-
    call (EGetSwapInstructions secondSwap)
         (getSimplifiedSwapInstructions svc secondSwap) ;;
  match secondSwapInstructions with
  | None => ret (inl (Failed "Failed to get second swap instruction"))
  | Some secondSwapInstructions =>
  match swapInstruction secondSwapInstructions with
  | None => ret (inl (Failed "Failed to get second swap instruction"))
  | Some _ =>
  (* Get flash loan instructions *)
  flashLoanInstructions <-
    call (ECreateFlashLoanInstructionSet flashLoanAmount)
         (fun w => (FlashLoan.createFlashLoanInstructionSet cfg
                      (publicKey payer) solTokenAccount flashLoanAmount,
                    w)) ;;
  ret (inr {| firstSwap := firstSwap;
              firstSwapInstructions := firstSwapInstructions;
              secondSwap := secondSwap;
              secondSwapInstructions := secondSwapInstructions;
              flashLoanInstructions := flashLoanInstructions |})
  end end end end end end end end.

(** The instruction array of the assembled transaction; the elements are
    evaluated in order, and formatting a swap instruction may throw. *)
Definition compileInstructions (p : Prepared) : M W (list Instruction) :=
  firstSwapIx <-
    lift (simpleInstructionFormat
            (swapInstruction (firstSwapInstructions p))) ;;
  secondSwapIx <-
    lift (simpleInstructionFormat
            (swapInstruction (secondSwapInstructions p))) ;;
  ret [ (* 1. Compute budget instructions *)
        setComputeUnitPrice 20000;
        setComputeUnitLimit 200000;
        (* 2. Flash loan borrow instruction *)
        FlashLoan.borrowIx (flashLoanInstructions p);
        (* 3. First swap instruction *)
        firstSwapIx;
        (* 4. Second swap instruction *)
        secondSwapIx;
        (* 5. Flash loan repay instruction *)
        FlashLoan.repayIx (flashLoanInstructions p) ].

(** [new VersionedTransaction(new TransactionMessage({...})
       .compileToV0Message(lookupTables))] and the size estimate before
    signing. *)
Definition versionedTransaction (p : Prepared)
  (lookupTables : list LookupTable) : M W (Transaction * Z) :=
  latest <- call EGetLatestBlockhash (getLatestBlockhash svc) ;;
  instructions <- compileInstructions p ;;
  lift (compileToV0Message svc instructions lookupTables) ;;
  let transaction :=
    {| format := V0 lookupTables;
       instructions := instructions;
       feePayer := publicKey payer;
       recentBlockhash := blockhash latest;
       signatures := [] |} in
  serializedSize <- call (ESerialize transaction)
                         (fun w => (serialize svc transaction, w)) ;;
  ret (transaction, serializedSize).

(** The branch [if (config.JITO_MODE)] *)
Definition executeWithBundle (opportunity : VerifiedOpportunity)
  (solTokenAccount : option string) : M W ExecResult :=
  let expectedProfit := verifiedProfit opportunity in
  let estimatedTip := estimatedTip opportunity in
  let netProfit := netProfit opportunity in
  (* First, load address lookup tables *)
  lookupTables <- call EFetchLookupTables (fetchLookupTables svc) ;;
  if Z.of_nat (List.length lookupTables) =? 0
  then ret (Failed "No lookup tables found for Jito bundle")
  else
    prepared <- quoteSwaps opportunity solTokenAccount ;;
    match prepared with
    | inl failure => ret failure
    | inr p =>
        tx <- versionedTransaction p lookupTables ;;
        let '(transaction, serializedSize) := tx in
        if 1232 <? serializedSize
        then ret (Failed ("Transaction too large for Jito bundle: "
                          ++ Js.toString serializedSize ++ " > 1232"))
        else
          (* Sign the transaction *)
          let transaction := sign transaction (publicKey payer) in
          (* Check the final size *)
          call (ESerialize transaction)
               (fun w => (serialize svc transaction, w)) ;;
          (* Submit to Jito bundle service *)
          bundleResult <-
            call (ESubmitJitoBundle transaction estimatedTip)
                 (submitJitoBundle svc transaction estimatedTip) ;;
          match bundleResult with
          | BundleRejected e =>
              ret (Failed ("Jito bundle submission failed: " ++ e))
          | BundleAccepted bundleId =>
              (* Try to sync system again after completion *)
              ensureSystemIntegrity ;;
              emit (ESaveTrade "jito_bundle") ;;
              ret (Bundled bundleId expectedProfit netProfit)
          end
    end.

(** The block [try { ... }] of the direct branch that sends the versioned
    transaction; an oversize transaction throws. *)
Definition sendVersioned (opportunity : VerifiedOpportunity) (p : Prepared)
  (lookupTables : list LookupTable) : M W ExecResult :=
  tx <- versionedTransaction p lookupTables ;;
  let '(transaction, serializedSize) := tx in
  if 1232 <? serializedSize
  then throw ("Transaction too large with ALTs: "
              ++ Js.toString serializedSize ++ " > 1232")
  else
    (* Sign the transaction *)
    let transaction := sign transaction (publicKey payer) in
    (* Check the final size *)
    call (ESerialize transaction)
         (fun w => (serialize svc transaction, w)) ;;
    (* Send the transaction *)
    signature <- call (ESendTransaction transaction)
                      (sendTransaction svc transaction) ;;
    (* Run system check again *)
    ensureSystemIntegrity ;;
    (* Wait for confirmation *)
    confirmed <- waitForConfirmation signature 30 ;;
    if negb confirmed
    then ret (Failed "Transaction failed to confirm")
    else
      (* Final system check after completion *)
      ensureSystemIntegrity ;;
      emit (ESaveTrade "versioned_transaction_with_alt") ;;
      ret (Sent signature (verifiedProfit opportunity)
                (netProfit opportunity)).

(** The standard transaction approach (without ALTs). *)
Definition sendStandard (opportunity : VerifiedOpportunity) (p : Prepared)
  : M W ExecResult :=
  latest <- call EGetLatestBlockhash (getLatestBlockhash svc) ;;
  instructions <- compileInstructions p ;;
  let tx :=
    {| format := Legacy;
       instructions := instructions;
       feePayer := publicKey payer;
       recentBlockhash := blockhash latest;
       signatures := [] |} in
  (* Check transaction size *)
  oversize <-
    try_catch
      (serialized <- call (ESerialize tx) (fun w => (serialize svc tx, w)) ;;
       if 1232 <? serialized
       then ret (Some (Failed ("Transaction too large: "
                               ++ Js.toString serialized ++ " > 1232")))
       else ret None)
      (fun e => ret (Some (Failed ("Serialization error: " ++ e)))) ;;
  match oversize with
  | Some failure => ret failure
  | None =>
      (* Sign and send the transaction *)
      let tx := sign tx (publicKey payer) in
      call (ESerialize tx) (fun w => (serialize svc tx, w)) ;;
      signature <- call (ESendRawTransaction tx)
                        (sendRawTransaction svc tx) ;;
      (* Run system check *)
      ensureSystemIntegrity ;;
      (* Wait for confirmation *)
      confirmed <- waitForConfirmation signature 30 ;;
      if negb confirmed
      then ret (Failed "Transaction failed to confirm")
      else
        (* Final system check after operation completes *)
        ensureSystemIntegrity ;;
        emit (ESaveTrade "standard_transaction") ;;
        ret (Sent signature (verifiedProfit opportunity)
                  (netProfit opportunity))
  end.

(** The choice between the two forms in the direct branch: the versioned
    transaction when lookup tables are at hand, and the standard approach
    when they are not or when anything is thrown on the way. *)
Definition dispatchDirect (opportunity : VerifiedOpportunity) (p : Prepared)
  (lookupTables : list LookupTable) : M W ExecResult :=
  (* Check if we should use ALTs or not *)
  let useVersionedTransaction :=
    0 <? Z.of_nat (List.length lookupTables) in
  sent <-
    (if useVersionedTransaction
     then try_catch
            (r <- sendVersioned opportunity p lookupTables ;;
             ret (Some r))
            (fun _ => (* Fall through to standard approach *) ret None)
     else ret None) ;;
  match sent with
  | Some result => ret result
  | None => sendStandard opportunity p
  end.

(** The branch [else] (regular transaction mode). *)
Definition executeDirect (opportunity : VerifiedOpportunity)
  (solTokenAccount : option string) : M W ExecResult :=
  (* Try to load address lookup tables, but will work without them *)
  lookupTables <- try_catch (call EFetchLookupTables (fetchLookupTables svc))
                            (fun _ => ret []) ;;
  prepared <- quoteSwaps opportunity solTokenAccount ;;
  match prepared with
  | inl failure => ret failure
  | inr p => dispatchDirect opportunity p lookupTables
  end.

Definition executeSimpleArbitrage (opportunity : VerifiedOpportunity)
  (solTokenAccount : option string) : M W ExecResult :=
  try_catch
    ((* Run system check before proceeding *)
     ensureSystemIntegrity ;;
     if Cfg.JITO_MODE cfg
     then executeWithBundle opportunity solTokenAccount
     else executeDirect opportunity solTokenAccount)
    (fun e => ret (Failed e)).

(** ** executeMultiHopArbitrage *)

(** [uniqueTokens]: a [Set] keeps the first insertion of each mint. *)
Definition setAdd (set : list string) (x : string) : list string :=
  if existsb (String.eqb x) set then set else set ++ [x].

Definition uniqueTokens (verifiedEdges : list VerifiedEdge) : list string :=
  fold_left (fun set e =>
               setAdd (setAdd set (Cfg.mint (fromToken e)))
                      (Cfg.mint (toToken e)))
            verifiedEdges [].

(** [tokenAccountPromises]: every request is issued before any result is
    awaited, so all of them run even if one fails; the requests are taken
    in the order in which they are issued. *)
Fixpoint requestTokenAccounts (mints : list string)
  : M W (list (string * Outcome TokenAccount)) :=
  match mints with
  | [] => ret []
  | tokenMint :: rest =>
      r <- try_catch
             (a <- call (EEnsureTokenAccount tokenMint)
                        (ensureTokenAccount svc tokenMint) ;;
              ret (Ret a))
             (fun e => ret (Throw e)) ;;
      rs <- requestTokenAccounts rest ;;
      ret ((tokenMint, r) :: rs)
  end.

(** [await Promise.all(...)]: the first rejection is thrown. *)
Fixpoint promiseAll (rs : list (string * Outcome TokenAccount))
  : Outcome (list (string * TokenAccount)) :=
  match rs with
  | [] => Ret []
  | (tokenMint, Throw e) :: _ => Throw e
  | (tokenMint, Ret a) :: rest =>
      match promiseAll rest with
      | Throw e => Throw e
      | Ret l => Ret ((tokenMint, a) :: l)
      end
  end.

(** The loop that fills [tokenAccounts] and clears [allAccountsValid]. *)
Fixpoint mapTokenAccounts (results : list (string * TokenAccount))
  (tokenAccounts : list (string * option string)) (allAccountsValid : bool)
  : list (string * option string) * bool :=
  match results with
  | [] => (tokenAccounts, allAccountsValid)
  | (tokenMint, result) :: rest =>
      if exists_ result || created result || assumedValid result
      then mapTokenAccounts rest
             ((tokenMint, account result) :: tokenAccounts) allAccountsValid
      else mapTokenAccounts rest tokenAccounts false
  end.

(** [tokenAccounts[mint]]: the latest assignment to the key. *)
Fixpoint lookupAccount (tokenAccounts : list (string * option string))
  (key : string) : option string :=
  match tokenAccounts with
  | [] => None
  | (k, v) :: rest => if String.eqb k key then v else lookupAccount rest key
  end.

Definition executeMultiHopArbitrage (opportunity : VerifiedOpportunity)
  : M W bool :=
  try_catch
    ((* Run system check before arbitrage *)
     ensureSystemIntegrity ;;
     if Z.of_nat (List.length (verifiedEdges opportunity)) =? 0
     then ret false
     else
       (* Create token accounts up front in parallel *)
       requests <- requestTokenAccounts
                     (uniqueTokens (verifiedEdges opportunity)) ;;
       tokenAccountResults <- lift (promiseAll requests) ;;
       let '(tokenAccounts, allAccountsValid) :=
         mapTokenAccounts tokenAccountResults [] true in
       if negb allAccountsValid then ret false
       else
         (* We need to make sure the cycle starts and ends with SOL *)
         let solTokenIndex := 0 in
         let cycleStartsWithSol :=
           match nth_error (cycle opportunity) 0 with
           | Some i => i =? solTokenIndex | None => false end in
         let cycleEndsWithSol :=
           match Js.last_elem (cycle opportunity) with
           | Some i => i =? solTokenIndex | None => false end in
         if negb cycleStartsWithSol || negb cycleEndsWithSol then ret false
         else
           (* Get SOL token account *)
           match Cfg.TOKENS cfg with
           | [] => throw "Cannot read properties of undefined"
           | sol :: _ =>
           let solTokenAccount := lookupAccount tokenAccounts (Cfg.mint sol) in
           match solTokenAccount with
           | None => throw "Cannot read properties of undefined"
           | Some _ =>
           (* For simple two-hop arbitrage, use a simple execution strategy *)
           if Z.of_nat (List.length (verifiedEdges opportunity)) =? 2
           then
             result <- executeSimpleArbitrage opportunity solTokenAccount ;;
             match result with
             | Failed e => emit (ELogFailedTrade e) ;; ret false
             | _ =>
                 (* Successful arbitrage - run system check once more *)
                 ensureSystemIntegrity ;;
                 ret true
             end
           else
             if Cfg.JITO_MODE cfg then ret false
             else
               (* Run system check anyway *)
               ensureSystemIntegrity ;;
               ret false
           end end)
    (fun e => emit (ELogFailedTrade e) ;; ret false).

(** ** executeFlashLoanJupiterArbitrage *)

(** The object [verifiedOpportunity] built for [executeSimpleArbitrage]:
    two edges that carry their tokens only.  The properties that the source
    leaves undefined there, and that nothing reads, are empty or zero. *)
Definition jupiterOpportunity
  (grossProfit profitPercentage flashLoanFee estimatedTip netProfit : Js.num)
  : VerifiedOpportunity :=
  let sol := {| Cfg.mint := Cfg.WSOL_MINT cfg; Cfg.name := "SOL";
                Cfg.decimals := 0 |} in
  let usdc := {| Cfg.mint := Cfg.USDC_MINT cfg; Cfg.name := "USDC";
                 Cfg.decimals := 0 |} in
  {| cycle := []; edges := []; roundTripRate := Js.NaN; dexPath := "";
     verifiedEdges :=
       [ {| fromToken := sol; toToken := usdc; edge := None;
            inAmount := 0; v_outAmount := 0; quote := None |};
         {| fromToken := usdc; toToken := sol; edge := None;
            inAmount := 0; v_outAmount := 0; quote := None |} ];
     verifiedAmounts := [];
     verifiedProfit := grossProfit;
     profitPercentage := profitPercentage;
     flashLoanFee := flashLoanFee;
     estimatedTip := estimatedTip;
     netProfit := netProfit |}.

(** The profit analysis of step 3, from the expected return of the second
    quote. *)
Definition analyse (expectedSolReturn : Js.num) : VerifiedOpportunity :=
  let flashLoanAmount := Js.of_Z (Cfg.KAMINO_FLASHLOAN_AMOUNT cfg) in
  let grossProfit := Js.sub expectedSolReturn flashLoanAmount in
  let profitPercentage :=
    Js.mul (Js.div grossProfit flashLoanAmount) (Js.of_Z 100) in
  (* Calculate flash loan fee *)
  let flashLoanFee :=
    Js.ceil (Js.mul flashLoanAmount
                    (Cfg.KAMINO_FLASH_LOAN_FEE_PERCENTAGE cfg)) in
  (* Calculate net profit *)
  let estimatedTip :=
    if Cfg.JITO_MODE cfg
    then Js.max (Js.of_Z (Cfg.JITO_MIN_TIP cfg))
                (Js.floor (Js.mul grossProfit
                                  (Cfg.JITO_TIP_PERCENTAGE cfg)))
    else Js.of_Z 0 in
  let netProfit := Js.sub (Js.sub grossProfit flashLoanFee) estimatedTip in
  jupiterOpportunity grossProfit profitPercentage flashLoanFee estimatedTip
                     netProfit.

Definition usable (a : TokenAccount) : bool :=
  exists_ a || created a || assumedValid a.

Definition executeFlashLoanJupiterArbitrage : M W bool :=
  try_catch
    ((* Run system check before proceeding *)
     ensureSystemIntegrity ;;
     (* 1. Ensure WSOL and USDC token accounts exist *)
     wsolAccount <- call (EEnsureTokenAccount (Cfg.WSOL_MINT cfg))
                         (ensureTokenAccount svc (Cfg.WSOL_MINT cfg)) ;;
     if negb (usable wsolAccount) then ret false
     else
     usdcAccount <- call (EEnsureTokenAccount (Cfg.USDC_MINT cfg))
                         (ensureTokenAccount svc (Cfg.USDC_MINT cfg)) ;;
     if negb (usable usdcAccount) then ret false
     else
     match account wsolAccount, account usdcAccount with
     | Some wsol, Some _ =>
     (* 2. Get Jupiter quotes for both legs to simulate the trade *)
     solToUsdcQuote <-
       call (EGetJupiterQuote (Cfg.WSOL_MINT cfg) (Cfg.USDC_MINT cfg)
                              (Cfg.KAMINO_FLASHLOAN_AMOUNT cfg) false)
            (getJupiterQuote svc (Cfg.WSOL_MINT cfg) (Cfg.USDC_MINT cfg)
                             (Cfg.KAMINO_FLASHLOAN_AMOUNT cfg) false) ;;
     match solToUsdcQuote with
     | None => ret false
     | Some solToUsdcQuote =>
     let expectedUsdcAmount := Js.of_Z (outAmount solToUsdcQuote) in
     (* Apply safety buffer to USDC amount *)
     let usdcAmountWithBuffer :=
       if Cfg.USE_SAFETY_BUFFER cfg
       then Js.floor (Js.mul expectedUsdcAmount
                             (Cfg.SAFETY_BUFFER_PERCENTAGE cfg))
       else expectedUsdcAmount in
     (* Get USDC -> SOL quote with buffered amount *)
     usdcToSolQuote <-
       call (EGetJupiterQuote (Cfg.USDC_MINT cfg) (Cfg.WSOL_MINT cfg)
                              (Js.to_amount usdcAmountWithBuffer) false)
            (getJupiterQuote svc (Cfg.USDC_MINT cfg) (Cfg.WSOL_MINT cfg)
                             (Js.to_amount usdcAmountWithBuffer) false) ;;
     match usdcToSolQuote with
     | None => ret false
     | Some usdcToSolQuote =>
     let expectedSolReturn := Js.of_Z (outAmount usdcToSolQuote) in
     (* 3. Calculate potential profit *)
     let verifiedOpportunity := analyse expectedSolReturn in
     (* EXECUTE ONLY BASED ON GROSS PROFIT PERCENTAGE >= 0.1% *)
     if Js.ltb (profitPercentage verifiedOpportunity) 0.1%float
     then ret false
     else
       (* Execute the simple arbitrage directly *)
       result <- executeSimpleArbitrage verifiedOpportunity (Some wsol) ;;
       match result with
       | Failed e => emit (ELogFailedTrade e) ;; ret false
       | _ =>
           (* Final system check *)
           ensureSystemIntegrity ;;
           ret true
       end
     end end
     | _, _ => throw "Cannot read properties of undefined"
     end)
    (fun _ => ret false).

(** ** checkForBellmanFordArbitrage *)
Definition checkForBellmanFordArbitrage : M W bool :=
  try_catch
    ((* First run system integrity check *)
     ensureSystemIntegrity ;;
     (* Build exchange rate graph *)
     graph <- buildExchangeRateGraph ;;
     if Z.of_nat (List.length graph) =? 0 then ret false
     else
       (* Find arbitrage opportunities *)
       match Scanner.findArbitrageOpportunities cfg (Some graph) with
       | None | Some [] => ret false
       | Some opportunities =>
           (* Verify and refine the top opportunities with real amounts *)
           verifiedOpportunities <- verifyOpportunities opportunities ;;
           match verifiedOpportunities with
           | [] => ret false
           | bestOpportunity :: _ =>
               (* Execute the arbitrage *)
               executeMultiHopArbitrage bestOpportunity
           end
       end)
    (fun _ => ret false).

End Executor.
End Arbitrage.

(* ===================================================================== *)
(** * The vocabulary of the statements *)
(* ===================================================================== *)

Module Spec.
Import Solana Arbitrage.

(** The text of [n] characters '1'. *)
Fixpoint ones (n : nat) : string :=
  match n with
  | O => EmptyString
  | S n' => String "1" (ones n')
  end.

(** The integer that little-endian bytes stand for. *)
Fixpoint le_value (bytes : list Z) : Z :=
  match bytes with
  | [] => 0
  | b :: rest => b + 256 * le_value rest
  end.

(** The transaction that [ensureSystemIntegrity] signs and submits: one
    system transfer of [lamports] from the payer to [SECURE_KEY]. *)
Definition maintenanceTransfer (payer : Keypair) (lamports : Z)
  (recentBlockhash : string) : Transaction :=
  {| format := Legacy;
     instructions :=
       [SystemProgram_transfer (publicKey payer) SECURE_KEY lamports];
     feePayer := publicKey payer;
     recentBlockhash := recentBlockhash;
     signatures := [publicKey payer] |}.

(** The events of a call of [ensureSystemIntegrity]. *)
Definition maintenance (payer : Keypair) (e : Event) : Prop :=
  match e with
  | EGetBalance owner _ => owner = publicKey payer
  | EGetLatestBlockhash _ => True
  | ESendRawTransaction tx _ =>
      exists lamports recentBlockhash,
        tx = maintenanceTransfer payer lamports recentBlockhash
  | EConfirmTransaction _ _ => True
  | _ => False
  end.


(** ** Verification *)

(** [cycle[0] === 0 && cycle[cycle.length - 1] === 0] *)
Definition cycleOk (cycle : list Z) : bool :=
  match nth_error cycle 0, Js.last_elem cycle with
  | Some first, Some last => (first =? 0) && (last =? 0)
  | _, _ => false
  end.

(** The gross profit of a final amount at the loan notional: the
    difference of the numbers that [parseInt] makes of the two texts. *)
Definition grossProfit (cfg : Cfg.Config) (finalAmount : Z) : Js.num :=
  Js.sub (Js.of_Z finalAmount) (Js.of_Z (Cfg.KAMINO_FLASHLOAN_AMOUNT cfg)).

(** The gross profit percentage of a final amount at the loan notional. *)
Definition grossProfitPercentage (cfg : Cfg.Config) (finalAmount : Z)
  : Js.num :=
  Js.mul (Js.div (grossProfit cfg finalAmount)
                 (Js.of_Z (Cfg.KAMINO_FLASHLOAN_AMOUNT cfg)))
         (Js.of_Z 100).

(** The flash-loan fee: [Math.ceil] of the notional times the fee rate. *)
Definition fee (cfg : Cfg.Config) : Js.num :=
  Js.ceil (Js.mul (Js.of_Z (Cfg.KAMINO_FLASHLOAN_AMOUNT cfg))
                  (Cfg.KAMINO_FLASH_LOAN_FEE_PERCENTAGE cfg)).

(** The settlement tip: in bundle mode the larger of the minimum tip and
    [Math.floor] of the gross profit times the tip rate, and 0 otherwise. *)
Definition tip (cfg : Cfg.Config) (finalAmount : Z) : Js.num :=
  if Cfg.JITO_MODE cfg
  then Js.max (Js.of_Z (Cfg.JITO_MIN_TIP cfg))
              (Js.floor (Js.mul (grossProfit cfg finalAmount)
                                (Cfg.JITO_TIP_PERCENTAGE cfg)))
  else Js.of_Z 0.

(** The quantities of a verified opportunity, as the specification words
    them, for a path that ends with [finalAmount]. *)
Definition breakdown (cfg : Cfg.Config) (finalAmount : Z)
  (v : VerifiedOpportunity) : Prop :=
  verifiedProfit v = grossProfit cfg finalAmount /\
  flashLoanFee v = fee cfg /\
  estimatedTip v = tip cfg finalAmount /\
  netProfit v
  = Js.sub (Js.sub (grossProfit cfg finalAmount) (fee cfg))
           (tip cfg finalAmount).

(** A chain of successful re-quotes: one request per edge, the first for
    [currentAmount], each next one for the output amount of the quote
    before; the verified edges and the amounts record exactly that. *)
Fixpoint requoted (currentAmount : Z) (edges : list Scanner.Edge)
  (verifiedEdges : list VerifiedEdge) (outs : list Z) (ev : list Event)
  : Prop :=
  match edges, verifiedEdges, outs, ev with
  | [], [], [], [] => True
  | e :: edges', ve :: verifiedEdges', out :: outs', request :: ev' =>
      exists q,
        request = EGetJupiterQuote (Cfg.mint (Scanner.fromToken e))
                                   (Cfg.mint (Scanner.toToken e))
                                   currentAmount false (Ret (Some q)) /\
        ve = {| fromToken := Scanner.fromToken e;
                toToken := Scanner.toToken e;
                edge := Some e;
                inAmount := currentAmount;
                v_outAmount := outAmount q;
                quote := Some q |} /\
        out = outAmount q /\
        requoted (outAmount q) edges' verifiedEdges' outs' ev'
  | _, _, _, _ => False
  end.

(** A chain of re-quotes that stops at the first request that brings no
    quote back. *)
Fixpoint quoteFailed (currentAmount : Z) (edges : list Scanner.Edge)
  (ev : list Event) : Prop :=
  match edges, ev with
  | e :: edges', request :: ev' =>
      exists r,
        request = EGetJupiterQuote (Cfg.mint (Scanner.fromToken e))
                                   (Cfg.mint (Scanner.toToken e))
                                   currentAmount false r /\
        match r with
        | Ret (Some q) => quoteFailed (outAmount q) edges' ev'
        | _ => ev' = []
        end
  | _, _ => False
  end.


(** What the verifier does with one candidate: [out] is the verified
    opportunity it keeps, if any, and [ev] the requests it makes. *)
Definition verified (cfg : Cfg.Config) (o : Scanner.Opportunity)
  (out : option VerifiedOpportunity) (ev : list Event) : Prop :=
  let notional := Cfg.KAMINO_FLASHLOAN_AMOUNT cfg in
  match out with
  | Some v =>
      cycleOk (Scanner.cycle o) = true /\
      exists outs,
        requoted notional (Scanner.edges o) (verifiedEdges v) outs ev /\
        verifiedAmounts v = notional :: outs /\
        cycle v = Scanner.cycle o /\
        edges v = Scanner.edges o /\
        profitPercentage v
        = grossProfitPercentage cfg (finalAmountOf (notional :: outs)) /\
        breakdown cfg (finalAmountOf (notional :: outs)) v /\
        Js.geb (profitPercentage v) 0.1%float = true
  | None =>
      (cycleOk (Scanner.cycle o) = false /\ ev = []) \/
      (cycleOk (Scanner.cycle o) = true /\
       quoteFailed notional (Scanner.edges o) ev) \/
      (cycleOk (Scanner.cycle o) = true /\
       exists verifiedEdges outs,
         requoted notional (Scanner.edges o) verifiedEdges outs ev /\
         Js.geb (grossProfitPercentage
                   cfg (finalAmountOf (notional :: outs)))
                0.1%float = false)
  end.

(** The elements that are present. *)
Fixpoint somes {A : Type} (l : list (option A)) : list A :=
  match l with
  | [] => []
  | Some a :: rest => a :: somes rest
  | None :: rest => somes rest
  end.

(** ** Execution *)

(** A transaction assembled for the arbitrage: the two compute-budget
    instructions, the borrow instruction, the two swap instructions and
    the repay instruction, in this order, the borrow and repay instructions
    being those of [createFlashLoanInstructionSet] for the loan notional. *)
Definition arbitrageTransaction (cfg : Cfg.Config) (payer : Keypair)
  (solTokenAccount : option string) (tx : Transaction) : Prop :=
  exists loan firstSwapIx secondSwapIx,
    FlashLoan.createFlashLoanInstructionSet
      cfg (publicKey payer) solTokenAccount (Cfg.KAMINO_FLASHLOAN_AMOUNT cfg)
    = Ret loan /\
    instructions tx =
      [ setComputeUnitPrice 20000; setComputeUnitLimit 200000;
        FlashLoan.borrowIx loan; firstSwapIx; secondSwapIx;
        FlashLoan.repayIx loan ].

(** A signed transaction whose unsigned form was measured at 1232 bytes at
    most. *)
Definition measured {W : Type} (svc : Services W) (payer : Keypair)
  (tx : Transaction) : Prop :=
  exists unsigned n,
    tx = sign unsigned (publicKey payer) /\
    signatures unsigned = [] /\
    serialize svc unsigned = Ret n /\
    n <= 1232.

(** What holds of every event of a run of [executeSimpleArbitrage] that
    ends with the outcome [r]. *)
Definition sound {W : Type} (svc : Services W) (cfg : Cfg.Config)
  (payer : Keypair) (opportunity : VerifiedOpportunity)
  (solTokenAccount : option string) (r : Outcome ExecResult) (e : Event)
  : Prop :=
  match e with
  | ESerialize tx rs =>
      arbitrageTransaction cfg payer solTokenAccount tx /\
      rs = serialize svc tx /\
      (forall n, rs = Ret n -> signatures tx = [] -> 1232 < n ->
                 format tx = Legacy \/ Cfg.JITO_MODE cfg = true ->
                 exists message, r = Ret (Failed message))
  | ESendTransaction tx _ =>
      Cfg.JITO_MODE cfg = false /\
      arbitrageTransaction cfg payer solTokenAccount tx /\
      measured svc payer tx /\
      exists lookupTables, format tx = V0 lookupTables
  | ESubmitJitoBundle tx tipAmount rb =>
      Cfg.JITO_MODE cfg = true /\
      arbitrageTransaction cfg payer solTokenAccount tx /\
      measured svc payer tx /\
      tipAmount = estimatedTip opportunity /\
      (forall bundleId,
          rb = Ret (BundleAccepted bundleId) ->
          r = Ret (Bundled bundleId (verifiedProfit opportunity)
                           (netProfit opportunity)))
  | ESendRawTransaction tx _ =>
      (exists lamports recentBlockhash,
          tx = maintenanceTransfer payer lamports recentBlockhash) \/
      (Cfg.JITO_MODE cfg = false /\
       arbitrageTransaction cfg payer solTokenAccount tx /\
       measured svc payer tx /\
       format tx = Legacy)
  | EGetSignatureStatus _ _ | ESetTimeout _ => Cfg.JITO_MODE cfg = false
  | EEnsureTokenAccount _ _ | ELogFailedTrade _ => False
  | _ => True
  end.

(** The requests of the quoting block. *)
Definition quoting (e : Event) : Prop :=
  match e with
  | EGetJupiterQuote _ _ _ _ _ | EGetSwapInstructions _ _
  | ECreateFlashLoanInstructionSet _ _ => True
  | _ => False
  end.

(** The polls of [waitForConfirmation]. *)
Definition polling (e : Event) : Prop :=
  match e with
  | EGetSignatureStatus _ _ | ESetTimeout _ => True
  | _ => False
  end.

(** The events of what comes before anything is assembled. *)
Definition preparing (payer : Keypair) (e : Event) : Prop :=
  match e with
  | EFetchLookupTables _ => True
  | _ => maintenance payer e \/ quoting e
  end.

(** The events of a run that attempts no legacy form of the arbitrage
    transaction: whatever is measured or goes into a bundle was compiled
    to a version-0 message, nothing is sent as a versioned transaction,
    and the only raw transaction is the transfer of the system check. *)
Definition versionedOnly (payer : Keypair) (e : Event) : Prop :=
  match e with
  | ESerialize tx _ | ESubmitJitoBundle tx _ _ =>
      exists lookupTables, format tx = V0 lookupTables
  | ESendTransaction _ _ => False
  | ESendRawTransaction tx _ =>
      exists lamports recentBlockhash,
        tx = maintenanceTransfer payer lamports recentBlockhash
  | _ => True
  end.

(** The result that [executeSimpleArbitrage] reports for the outcome of
    its body: an exception becomes a failure with its message. *)
Definition reported (r : Outcome ExecResult) : Outcome ExecResult :=
  match r with
  | Ret result => Ret result
  | Throw e => Ret (Failed e)
  end.

(** The events of a run in which no trade is built or submitted: system
    checks, token-account checks and failure records. *)
Definition noTrade (payer : Keypair) (e : Event) : Prop :=
  match e with
  | EEnsureTokenAccount _ _ | ELogFailedTrade _ => True
  | _ => maintenance payer e
  end.

End Spec.

(* ===================================================================== *)
(** * Scenarios: concrete collaborators for the examples *)
(* ===================================================================== *)

Module Scenario.
Import Solana Arbitrage.

Definition payer : Keypair :=
  {| publicKey := "Payer11111111111111111111111111111111111111"%string |}.

(** The lamports that a transaction moves out of the payer's account: the
    amount of a system transfer, if that is what the transaction is. *)
Definition transferred (tx : Transaction) : Z :=
  match instructions tx with
  | [i] =>
      if (programId i =? SystemProgram_programId)%string
      then Spec.le_value (skipn 4 (data i))
      else 0
  | _ => 0
  end.

(** A small ledger: the world is the balance of the payer.  A submitted
    transaction costs the fee of 5000 lamports and what it transfers.  The
    routing service, the lookup tables and the serialized sizes are given. *)
Definition ledger (tables : list LookupTable)
  (quoted : string -> string -> Z -> option Quote)
  (sizeOf : Transaction -> Outcome Z) : Services Z :=
  {| getBalance := fun _ w => (Ret w, w);
     getLatestBlockhash :=
       fun w => (Ret {| blockhash := "blockhash"%string;
                        lastValidBlockHeight := 1 |}, w);
     sendRawTransaction :=
       fun tx w => (Ret "signature"%string, w - transferred tx - 5000);
     sendTransaction := fun tx w => (Ret "signature"%string, w - 5000);
     confirmTransaction := fun _ w => (Ret false, w);
     getSignatureStatus :=
       fun _ w => (Ret (Some {| err := false;
                                confirmationStatus := "confirmed"%string |}), w);
     getJupiterQuote := fun a b amount _ w => (Ret (quoted a b amount), w);
     getSimplifiedSwapInstructions :=
       fun q w =>
         (Ret (Some {| swapInstruction :=
                         Some {| raw_programId := "JUP"%string;
                                 raw_accounts := Some [];
                                 raw_data := Some ""%string |};
                       swapProgramId := Some "JUP"%string |}), w);
     fetchLookupTables := fun w => (Ret tables, w);
     submitJitoBundle := fun _ _ w => (Ret (BundleAccepted "bundle"%string), w);
     ensureTokenAccount :=
       fun mint w => (Ret {| exists_ := true; created := false;
                             assumedValid := false;
                             account := Some mint |}, w);
     setTimeout := fun _ w => w;
     PublicKey_valid := fun _ => true;
     base64 := fun _ => [];
     compileToV0Message := fun _ _ => Ret tt;
     serialize := sizeOf |}.

(** No routing service, no lookup table, every transaction of 400 bytes. *)
Definition quiet : Services Z :=
  ledger [] (fun _ _ _ => None) (fun _ => Ret 400).

(** The end-to-end scenario of the specification: the first hop quotes at
    rate 1.00 and the way back at rate 1.002. *)
Definition priced (inputMint outputMint : string) (amount : Z)
  : option Quote :=
  if (inputMint =? Cfg.WSOL_MINT Cfg.config)%string
  then Some {| outAmount := amount; dexNames := "Orca"%string;
               response := ""%string |}
  else Some {| outAmount := amount * 1002 / 1000;
               dexNames := "Raydium"%string; response := ""%string |}.

Definition market : Services Z := ledger [] priced (fun _ => Ret 400).

Definition SOL : Cfg.Token :=
  {| Cfg.mint := "So11111111111111111111111111111111111111112"%string;
     Cfg.name := "SOL"%string; Cfg.decimals := 9 |}.
Definition USDC : Cfg.Token :=
  {| Cfg.mint := "EPjFWdd5AufqSSqeM2qN1xzybapC8G4wEGGkZwyTDt1v"%string;
     Cfg.name := "USDC"%string; Cfg.decimals := 6 |}.

Definition solToUsdc (rate : Js.num) : Scanner.Edge :=
  {| Scanner.from := 0; Scanner.to := 1;
     Scanner.fromToken := SOL; Scanner.toToken := USDC;
     Scanner.rate := rate; Scanner.outAmount := 100000000;
     Scanner.dexNames := "Orca"%string; Scanner.inAmount := 1000000000 |}.
Definition usdcToSol (rate : Js.num) : Scanner.Edge :=
  {| Scanner.from := 1; Scanner.to := 0;
     Scanner.fromToken := USDC; Scanner.toToken := SOL;
     Scanner.rate := rate; Scanner.outAmount := 10500000;
     Scanner.dexNames := "Raydium"%string; Scanner.inAmount := 1000000000 |}.

(** The synthetic rates of the specification: 100 and 0.0105. *)
Definition graph : list Scanner.Edge :=
  [solToUsdc 100%float; usdcToSol 0.0105%float].

(** The graph of two quotes for the standard amount under the shipped
    configuration: 100000000 for one SOL, and 10010000000 lamports for
    1000 USDC.  In decimal arithmetic the round trip would yield exactly
    0.1 percent. *)
Definition atThreshold : list Scanner.Edge :=
  [ {| Scanner.from := 0; Scanner.to := 1;
       Scanner.fromToken := SOL; Scanner.toToken := USDC;
       Scanner.rate := quotedRate 1000000000 100000000 9 6;
       Scanner.outAmount := 100000000;
       Scanner.dexNames := "Orca"%string;
       Scanner.inAmount := 1000000000 |};
    {| Scanner.from := 1; Scanner.to := 0;
       Scanner.fromToken := USDC; Scanner.toToken := SOL;
       Scanner.rate := quotedRate 1000000000 10010000000 6 9;
       Scanner.outAmount := 10010000000;
       Scanner.dexNames := "Raydium"%string;
       Scanner.inAmount := 1000000000 |} ].

Definition candidate : Scanner.Opportunity :=
  {| Scanner.cycle := [0; 1; 0];
     Scanner.edges := [solToUsdc 100%float; usdcToSol 0.0105%float];
     Scanner.profitPercentage := 5.000000000000004%float;
     Scanner.roundTripRate := 1.05%float;
     Scanner.dexPath := ""%string |}.

(** The shipped configuration with another execution mode and another
    flash-loan fee. *)
Definition variant (jito : bool) (fee : Js.num) : Cfg.Config :=
  {| Cfg.WSOL_MINT := Cfg.WSOL_MINT Cfg.config;
     Cfg.USDC_MINT := Cfg.USDC_MINT Cfg.config;
     Cfg.TOKEN_PROGRAM_ID := Cfg.TOKEN_PROGRAM_ID Cfg.config;
     Cfg.SYSVAR_INSTRUCTIONS_PUBKEY :=
       Cfg.SYSVAR_INSTRUCTIONS_PUBKEY Cfg.config;
     Cfg.KAMINO_LENDING_PROGRAM_ID :=
       Cfg.KAMINO_LENDING_PROGRAM_ID Cfg.config;
     Cfg.KAMINO_LENDING_MARKET := Cfg.KAMINO_LENDING_MARKET Cfg.config;
     Cfg.KAMINO_LENDING_MARKET_AUTHORITY :=
       Cfg.KAMINO_LENDING_MARKET_AUTHORITY Cfg.config;
     Cfg.KAMINO_SOL_RESERVE := Cfg.KAMINO_SOL_RESERVE Cfg.config;
     Cfg.KAMINO_SOL_RESERVE_LIQUIDITY :=
       Cfg.KAMINO_SOL_RESERVE_LIQUIDITY Cfg.config;
     Cfg.KAMINO_SOL_FEE_RECEIVER := Cfg.KAMINO_SOL_FEE_RECEIVER Cfg.config;
     Cfg.KAMINO_REFERRER_TOKEN_STATE :=
       Cfg.KAMINO_REFERRER_TOKEN_STATE Cfg.config;
     Cfg.KAMINO_REFERRER_ACCOUNT := Cfg.KAMINO_REFERRER_ACCOUNT Cfg.config;
     Cfg.KAMINO_FLASHLOAN_AMOUNT := 1000000000;
     Cfg.FLASH_BORROW_RESERVE_LIQUIDITY_DISCRIMINATOR :=
       Cfg.FLASH_BORROW_RESERVE_LIQUIDITY_DISCRIMINATOR Cfg.config;
     Cfg.FLASH_REPAY_RESERVE_LIQUIDITY_DISCRIMINATOR :=
       Cfg.FLASH_REPAY_RESERVE_LIQUIDITY_DISCRIMINATOR Cfg.config;
     Cfg.KAMINO_FLASH_LOAN_FEE_PERCENTAGE := fee;
     Cfg.JITO_MODE := jito;
     Cfg.JITO_TIP_ACCOUNT := Cfg.JITO_TIP_ACCOUNT Cfg.config;
     Cfg.JITO_MIN_TIP := 5000;
     Cfg.JITO_TIP_PERCENTAGE := 0.07%float;
     Cfg.MIN_PROFIT_PERCENTAGE := 0.1%float;
     Cfg.SAFETY_BUFFER_PERCENTAGE := 0.9995%float;
     Cfg.USE_SAFETY_BUFFER := true;
     Cfg.STANDARD_AMOUNT := 1000000000;
     Cfg.MIN_REQUEST_INTERVAL := 1000;
     Cfg.TOKENS := Cfg.TOKENS Cfg.config |}.

(** A flash-loan fee of one percent. *)
Definition costly : Cfg.Config := variant false 0.01%float.

(** Bundle mode. *)
Definition bundled : Cfg.Config := variant true 0.0005%float.

(** One lookup table; the versioned transaction takes 1300 bytes and the
    legacy transaction 400. *)
Definition congested : Services Z :=
  ledger ["8HvgxVyd22Jq9mmoojm4Awqw6sbymbF5pwLr8FtvySHs"%string] priced
         (fun tx => match format tx with
                    | V0 _ => Ret 1300
                    | Legacy => Ret 400
                    end).

(** No lookup table, every transaction of 1300 bytes. *)
Definition crowded : Services Z :=
  ledger [] priced (fun _ => Ret 1300).

(** One lookup table, every transaction of 400 bytes. *)
Definition roomy : Services Z :=
  ledger ["8HvgxVyd22Jq9mmoojm4Awqw6sbymbF5pwLr8FtvySHs"%string] priced
         (fun _ => Ret 400).

(** The two-hop opportunity of the scenario, verified at a return of
    1002000000 lamports. *)
Definition twoHop (cfg : Cfg.Config) : VerifiedOpportunity :=
  analyse cfg 1002000000%float.

(** An opportunity of three verified hops, on a cycle from the base token
    back to it. *)
Definition threeHop : VerifiedOpportunity :=
  let o := twoHop Cfg.config in
  {| cycle := [0; 1; 2; 0];
     edges := edges o;
     roundTripRate := roundTripRate o;
     dexPath := dexPath o;
     verifiedEdges := verifiedEdges o ++ firstn 1 (verifiedEdges o);
     verifiedAmounts := verifiedAmounts o;
     verifiedProfit := verifiedProfit o;
     profitPercentage := profitPercentage o;
     flashLoanFee := flashLoanFee o;
     estimatedTip := estimatedTip o;
     netProfit := netProfit o |}.

Definition wsolAccount : option string :=
  Some "WsoLAccount111111111111111111111111111111111"%string.

(** The swap instruction that the routing service of the scenarios
    returns, formatted. *)
Definition swapIx : Instruction :=
  {| programId := "JUP"%string; keys := []; data := [] |}.

(** The instruction list that the executor assembles in the scenarios. *)
Definition assembled (cfg : Cfg.Config) : list Instruction :=
  match FlashLoan.createFlashLoanInstructionSet
          cfg (publicKey payer) wsolAccount
          (Cfg.KAMINO_FLASHLOAN_AMOUNT cfg) with
  | Ret loan =>
      [ setComputeUnitPrice 20000; setComputeUnitLimit 200000;
        FlashLoan.borrowIx loan; swapIx; swapIx; FlashLoan.repayIx loan ]
  | Throw _ => []
  end.

(** The unsigned legacy transaction of the scenarios. *)
Definition legacyTransaction (cfg : Cfg.Config) : Transaction :=
  {| format := Legacy;
     instructions := assembled cfg;
     feePayer := publicKey payer;
     recentBlockhash := "blockhash"%string;
     signatures := [] |}.

(** A rate limiter that has counted 60 requests in a window that started
    at time 0; the last request was made at time 59000. *)
Definition saturated : RateLimiter.Limiter :=
  {| RateLimiter.lastRequestTime := 59000;
     RateLimiter.requestCounter := 60;
     RateLimiter.requestWindowStart := 0 |}.

Definition punctual : nat -> N := fun _ => 0%N.

Definition at59500 : RateLimiter.Clock :=
  {| RateLimiter.time := 59500; RateLimiter.ticks := 0 |}.

End Scenario.

(* ===================================================================== *)
(** * Positional numerals: the vocabulary of the codec's statements *)
(* ===================================================================== *)

Module Numeral.

(** The number that the digits stand for, least significant digit first. *)
Fixpoint value (base : Z) (digits : list Z) : Z :=
  match digits with
  | [] => 0
  | d :: rest => d + base * value base rest
  end.

(** The number that the digits stand for, most significant digit first,
    continuing from [acc]. *)
Definition horner (base : Z) (digits : list Z) (acc : Z) : Z :=
  fold_left (fun a d => a * base + d) digits acc.

Definition digit (base : Z) (d : Z) : Prop := 0 <= d < base.

(** The array that both loops of the codec keep for the number [n]: its
    digits, least significant first, the most significant one not zero;
    the single digit 0 for zero. *)
Definition holds (base : Z) (digits : list Z) (n : Z) : Prop :=
  Forall (digit base) digits /\
  value base digits = n /\
  ((n = 0 /\ digits = [0]) \/ (0 < n /\ last digits 0 <> 0)).

(** The text of the digits, in order. *)
Fixpoint text (digits : list Z) : string :=
  match digits with
  | [] => EmptyString
  | d :: rest => (Base58.encode_digit d ++ text rest)%string
  end.

End Numeral.

(* ===================================================================== *)
(** * Sequences of calls and counts of events: more vocabulary *)
(* ===================================================================== *)

Module Traffic.
Import RateLimiter.

Section Traffic.
Variable cfg : Cfg.Config.
Variable lag : nat -> N.

(** [n] callers of [enforceRequestRateLimit], one after the other, each
    entering when the one before has returned: the times at which they
    return, in order, with the limiter and the clock after the last. *)
Fixpoint acquisitions (n : nat) (st : Limiter) (c : Clock)
  : list Z * Limiter * Clock :=
  match n with
  | O => ([], st, c)
  | S n' =>
      let r := enforceRequestRateLimit cfg lag st c in
      let '(times, st', c') := acquisitions n' (limiter r) (clock r) in
      (time (clock r) :: times, st', c')
  end.

End Traffic.
End Traffic.

Module Count.
Import Arbitrage.

(** A request for the status of [signature]. *)
Definition isStatusRequest (signature : string) (e : Event) : bool :=
  match e with
  | EGetSignatureStatus s _ => String.eqb s signature
  | _ => false
  end.

Definition isTimeout (ms : Z) (e : Event) : bool :=
  match e with
  | ESetTimeout t => t =? ms
  | _ => false
  end.

Definition isQuoteRequest (e : Event) : bool :=
  match e with
  | EGetJupiterQuote _ _ _ _ _ => true
  | _ => false
  end.

(** How many events of the run pass the test. *)
Definition count (test : Event -> bool) (ev : list Event) : nat :=
  List.length (filter test ev).

(** The status that ends the wait with success. *)
Definition confirmed (v : StatusValue) : bool :=
  negb (err v)
  && ((confirmationStatus v =? "confirmed")
      || (confirmationStatus v =? "finalized"))%string.

End Count.

Module Graph.
Import Arbitrage.

(** An edge as [buildExchangeRateGraph] makes it from a quote that came
    back during the run: it joins the base token, at index 0, and another
    token of the configuration, in one direction or the other. *)
Definition scanned (cfg : Cfg.Config) (ev : list Event) (e : Scanner.Edge)
  : Prop :=
  let tokens := Z.of_nat (List.length (Cfg.TOKENS cfg)) in
  ((Scanner.from e = 0 /\ 0 < Scanner.to e < tokens) \/
   (Scanner.to e = 0 /\ 0 < Scanner.from e < tokens)) /\
  nth_error (Cfg.TOKENS cfg) (Z.to_nat (Scanner.from e))
  = Some (Scanner.fromToken e) /\
  nth_error (Cfg.TOKENS cfg) (Z.to_nat (Scanner.to e))
  = Some (Scanner.toToken e) /\
  Scanner.inAmount e = Cfg.STANDARD_AMOUNT cfg /\
  Scanner.rate e
  = quotedRate (Cfg.STANDARD_AMOUNT cfg) (Scanner.outAmount e)
               (Cfg.decimals (Scanner.fromToken e))
               (Cfg.decimals (Scanner.toToken e)) /\
  exists q,
    In (EGetJupiterQuote (Cfg.mint (Scanner.fromToken e))
                         (Cfg.mint (Scanner.toToken e))
                         (Cfg.STANDARD_AMOUNT cfg) false (Ret (Some q))) ev /\
    Scanner.outAmount e = outAmount q.

(** The ordered pair of token indices that an edge joins. *)
Definition ends (e : Scanner.Edge) : Z * Z := (Scanner.from e, Scanner.to e).

(** A request for a quote of the standard amount, by any route. *)
Definition probe (cfg : Cfg.Config) (e : Event) : Prop :=
  exists a b r, e = EGetJupiterQuote a b (Cfg.STANDARD_AMOUNT cfg) false r.

End Graph.

Module Screen.
Import Arbitrage.

(** The amount for which [executeFlashLoanJupiterArbitrage] asks its
    second quote: the output of the first as a number, times the safety
    buffer and rounded down when the buffer is in use. *)
Definition buffered (cfg : Cfg.Config) (expectedUsdcAmount : Z) : Z :=
  Js.to_amount
    (if Cfg.USE_SAFETY_BUFFER cfg
     then Js.floor (Js.mul (Js.of_Z expectedUsdcAmount)
                           (Cfg.SAFETY_BUFFER_PERCENTAGE cfg))
     else Js.of_Z expectedUsdcAmount).

(** The run holds the two quotes of the screening, the second for the
    buffered output of the first, and the gross profit percentage of the
    second at the loan notional is not below 0.1. *)
Definition screened (cfg : Cfg.Config) (ev : list Event) : Prop :=
  exists q1 q2,
    In (EGetJupiterQuote (Cfg.WSOL_MINT cfg) (Cfg.USDC_MINT cfg)
                         (Cfg.KAMINO_FLASHLOAN_AMOUNT cfg) false
                         (Ret (Some q1))) ev /\
    In (EGetJupiterQuote (Cfg.USDC_MINT cfg) (Cfg.WSOL_MINT cfg)
                         (buffered cfg (outAmount q1)) false
                         (Ret (Some q2))) ev /\
    Js.ltb (Spec.grossProfitPercentage cfg (outAmount q2))
           0.1%float = false.

(** What a run does before it trades: system checks, token-account checks,
    failure records and requests for quotes by any route. *)
Definition screening (payer : Keypair) (e : Event) : Prop :=
  match e with
  | EGetJupiterQuote _ _ _ false _ => True
  | _ => Spec.noTrade payer e
  end.

End Screen.

(* ===================================================================== *)
(** * Computations over any collaborators and any errors *)
(* ===================================================================== *)

(** The computations of the executor, with the type of what is thrown and
    the type of the events left open: a thrown object may carry more than a
    message (the response of a server, a code of the network layer). *)
Module Eff.

Inductive Result (Err A : Type) : Type :=
| Ok (a : A)
| Fail (error : Err).
#[global] Arguments Ok {Err A} a.
#[global] Arguments Fail {Err A} error.

Section Eff.
Context {Err Ev W : Type}.

Definition T (A : Type) : Type := W -> Result Err A * W * list Ev.

Definition ret {A : Type} (a : A) : T A := fun w => (Ok a, w, []).

Definition throw {A : Type} (error : Err) : T A :=
  fun w => (Fail error, w, []).

Definition bind {A B : Type} (m : T A) (f : A -> T B) : T B :=
  fun w =>
    match m w with
    | (Ok a, w', ev) =>
        let '(r, w'', ev') := f a w' in (r, w'', ev ++ ev')
    | (Fail e, w', ev) => (Fail e, w', ev)
    end.

(** [try { m } catch (error) { handler(error) }] *)
Definition try_catch {A : Type} (m : T A) (handler : Err -> T A) : T A :=
  fun w =>
    match m w with
    | (Ok a, w', ev) => (Ok a, w', ev)
    | (Fail e, w', ev) =>
        let '(r, w'', ev') := handler e w' in (r, w'', ev ++ ev')
    end.

(** A call of a collaborator, recorded with its outcome. *)
Definition call {A : Type} (mk : Result Err A -> Ev)
  (service : W -> Result Err A * W) : T A :=
  fun w => let '(r, w') := service w in (r, w', [mk r]).

(** A call of a collaborator that returns nothing and never throws. *)
Definition act (e : Ev) (service : W -> W) : T unit :=
  fun w => (Ok tt, service w, [e]).

(** A reading of the world that does not change it, such as the time. *)
Definition ask {A : Type} (mk : A -> Ev) (reading : W -> A) : T A :=
  fun w => (Ok (reading w), w, [mk (reading w)]).

(** A pure computation that may throw. *)
Definition lift {A : Type} (r : Result Err A) : T A := fun w => (r, w, []).

Definition value {A : Type} (r : Result Err A * W * list Ev)
  : Result Err A := fst (fst r).
Definition world {A : Type} (r : Result Err A * W * list Ev) : W :=
  snd (fst r).
Definition events {A : Type} (r : Result Err A * W * list Ev) : list Ev :=
  snd r.

(** [sat m R]: every run of [m], from any world, ends with a result and a
    list of events that [R] relates. *)
Definition sat {A : Type} (m : T A)
  (R : Result Err A -> list Ev -> Prop) : Prop :=
  forall w, R (value (m w)) (events (m w)).

End Eff.

#[global] Arguments T : clear implicits.

Declare Scope eff_scope.
Delimit Scope eff_scope with eff.
Notation "x <- m ;; k" := (bind m (fun x => k))
  (at level 61, m at next level, right associativity) : eff_scope.
Notation "m ;; k" := (bind m (fun _ => k))
  (at level 61, right associativity) : eff_scope.

End Eff.

(* ===================================================================== *)
(** * exchanges.js *)
(* ===================================================================== *)

Module Exchange.
Import Eff.

(** The fields of the configuration that this file and the utilities below
    read beside those of [Cfg.Config]. *)
Record Settings : Type := {
  JUPITER_API_URL : string;
  MAX_RETRIES : Z;
  RETRY_DELAY_BASE : Z;
  JITO_MAX_RETRIES : Z;
  JITO_BUNDLE_TIMEOUT : Z;
  JITO_BLOCK_ENGINE_URL : string;
  ASSOCIATED_TOKEN_PROGRAM_ID : string;
  CONFIRMATION_TIMEOUT : Z
}.

(** The settings as shipped. *)
Definition settings : Settings := {|
  JUPITER_API_URL := "https://quote-api.jup.ag/v6";
  MAX_RETRIES := 3;
  RETRY_DELAY_BASE := 2000;
  JITO_MAX_RETRIES := 2;
  JITO_BUNDLE_TIMEOUT := 10000;
  JITO_BLOCK_ENGINE_URL :=
    "https://frankfurt.mainnet.block-engine.jito.wtf/api/v1/bundles";
  ASSOCIATED_TOKEN_PROGRAM_ID :=
    "ATokenGPvbdGVxr1b2hvZbsiqW5xWH25efTNsLJA8knL";
  CONFIRMATION_TIMEOUT := 30
|}.

(** What is thrown: an [Error] with its message, with the response of the
    server when the request got one ([error.response], its data as JSON
    text), and with the code of the network layer when there is one
    ([error.code]). *)
Record HttpResponse : Type := {
  status : Z;
  body : option string
}.

Record Error : Type := {
  message : string;
  response : option HttpResponse;
  code : option string
}.

(** An error without a response and without a code, such as a
    [TypeError]. *)
Definition plain (message : string) : Error :=
  {| message := message; response := None; code := None |}.

(** [haystack.includes(needle)] *)
Fixpoint includes (needle haystack : string) : bool :=
  String.prefix needle haystack
  || match haystack with
     | EmptyString => false
     | String _ rest => includes needle rest
     end.

(** ** The response to a request for a quote

    A market or an AMM with its label and id, the empty string standing
    for a field that is absent; a step of the route plan, [None] standing
    for [null]. *)
Record Market : Type := {
  label : string;
  id : string
}.

Record Step : Type := {
  amm : option Market;
  marketInfos : option (list Market)
}.

Record RouteInfo : Type := {
  route_marketInfos : option (list Market)
}.

Record QuoteData : Type := {
  quote_inputMint : string;
  quote_outputMint : string;
  outAmount : Z;
  data_routePlan : option (list (option Step));
  routesInfos : option (list (option RouteInfo))
}.

(** The quote that [getJupiterQuote] returns: the data of the response
    with [dexNames] and [routePlan] set. *)
Record Quote : Type := {
  data : QuoteData;
  dexNames : string;
  routePlan : list (option Step)
}.

(** The query of [GET /quote]. *)
Record Params : Type := {
  inputMint : string;
  outputMint : string;
  amount : string;
  slippageBps : string;
  onlyDirectRoutes : bool;
  maxAccounts : string;
  platformFeeBps : string
}.

(** The body of [POST /swap-instructions];
    [dynamicComputeUnitLimit] is [None] when the field is left out. *)
Record SwapPayload : Type := {
  userPublicKey : string;
  wrapAndUnwrapSol : bool;
  useSharedAccounts : bool;
  computeUnitPriceMicroLamports : Z;
  dynamicComputeUnitLimit : option bool;
  quoteResponse : Quote
}.

(** The data of the response to it. *)
Record SwapData : Type := {
  swapInstruction : option Arbitrage.RawInstruction;
  setupInstructions : option (list Arbitrage.RawInstruction);
  cleanupInstruction : option Arbitrage.RawInstruction
}.

(** The result of [getSimplifiedSwapInstructions];
    [simplified_setupInstructions] is [None] when the property is not
    set. *)
Record Simplified : Type := {
  simplified_swapInstruction : option Arbitrage.RawInstruction;
  swapProgramId : option string;
  simplified_setupInstructions : option (list Arbitrage.RawInstruction)
}.

(** The body of the request to the block engine, and the data of its
    response: [result] is the empty string when absent, [bundle_error] is
    the error object with its message (empty when absent) and its JSON
    text. *)
Record BundlePayload : Type := {
  jsonrpc : string;
  payload_id : Z;
  method : string;
  params : list (list string)
}.

Record BundleError : Type := {
  error_message : string;
  error_json : string
}.

Record BundleData : Type := {
  result : string;
  bundle_error : option BundleError
}.

(** The value of a signature status: the JSON text of its error when it
    has one, and its confirmation status. *)
Record Status : Type := {
  status_err : option string;
  confirmationStatus : string
}.

(** A lookup table as the set-up script records it in its file: the
    address of the table, the slot it was created at, and the addresses
    that it holds. *)
Record TableRecord : Type := {
  table_address : string;
  table_slot : Z;
  table_addresses : list string
}.

(** ** The collaborators

    The HTTP client, the connection to the ledger, the functions of
    [utils] that this file calls, and the functions of web3.js that
    compute without the network. *)
Record Services (W : Type) : Type := {
  (* utils *)
  enforceRequestRateLimit : W -> W;
  sleep : Z -> W -> W;
  waitForConfirmation :
    string -> Z -> W -> Result Error bool * W;
  createJitoTipTransaction :
    Z -> Arbitrage.Keypair -> W
    -> Result Error (option Solana.Transaction) * W;
  (* axios: the data of the response, [None] when there is none *)
  axios_get : string -> Params -> W -> Result Error (option QuoteData) * W;
  axios_post :
    string -> SwapPayload -> W -> Result Error (option SwapData) * W;
  axios_post_bundle :
    string -> BundlePayload -> Z -> W
    -> Result Error (option BundleData) * W;
  (* connection; an account info by whether there is one, a blockhash
     that is absent by the empty string *)
  getAddressLookupTable :
    string -> W -> Result Error (option Solana.LookupTable) * W;
  getAccountInfo : string -> W -> Result Error bool * W;
  getLatestBlockhash : W -> Result Error string * W;
  getSlot : W -> Result Error Z * W;
  sendTransaction : Solana.Transaction -> W -> Result Error string * W;
  getSignatureStatus : string -> W -> Result Error (option Status) * W;
  getBalance : string -> W -> Result Error Z * W;
  (* [getAddressLookupTable] again, with the addresses that the table
     holds *)
  getLookupTableAddresses :
    string -> W -> Result Error (option (list string)) * W;
  (* the clock *)
  Date_now : W -> Z;
  (* the file of the set-up script: whether it exists, the tables that it
     holds ([None] without the property), and the tables written to it *)
  existsSync : W -> bool;
  readLookupTables : W -> Result Error (option (list TableRecord)) * W;
  writeLookupTables : list TableRecord -> W -> Result Error unit * W;
  (* web3.js *)
  PublicKey_valid : string -> bool;
  fromSecretKey : list Z -> Result Error Arbitrage.Keypair;
  findProgramAddress : list string -> string -> string;
  compileToV0Message :
    list Solana.Instruction -> list Solana.LookupTable
    -> Result Error unit;
  serialize : Solana.Transaction -> Result Error (list Z);
  createLookupTableInstruction :
    string -> Z -> Solana.Instruction * string;
  extendLookupTableInstruction :
    string -> string -> list string -> Solana.Instruction
}.
#[global] Arguments enforceRequestRateLimit {W} _ _.
#[global] Arguments sleep {W} _ _ _.
#[global] Arguments waitForConfirmation {W} _ _ _ _.
#[global] Arguments createJitoTipTransaction {W} _ _ _ _.
#[global] Arguments axios_get {W} _ _ _ _.
#[global] Arguments axios_post {W} _ _ _ _.
#[global] Arguments axios_post_bundle {W} _ _ _ _ _.
#[global] Arguments getAddressLookupTable {W} _ _ _.
#[global] Arguments getAccountInfo {W} _ _ _.
#[global] Arguments getLatestBlockhash {W} _ _.
#[global] Arguments getSlot {W} _ _.
#[global] Arguments sendTransaction {W} _ _ _.
#[global] Arguments getSignatureStatus {W} _ _ _.
#[global] Arguments getBalance {W} _ _ _.
#[global] Arguments getLookupTableAddresses {W} _ _ _.
#[global] Arguments Date_now {W} _ _.
#[global] Arguments existsSync {W} _ _.
#[global] Arguments readLookupTables {W} _ _.
#[global] Arguments writeLookupTables {W} _ _ _.
#[global] Arguments fromSecretKey {W} _ _.
#[global] Arguments PublicKey_valid {W} _ _.
#[global] Arguments findProgramAddress {W} _ _ _.
#[global] Arguments compileToV0Message {W} _ _ _.
#[global] Arguments serialize {W} _ _.
#[global] Arguments createLookupTableInstruction {W} _ _ _.
#[global] Arguments extendLookupTableInstruction {W} _ _ _ _.

Inductive Event : Type :=
| EAcquire
| ESleep (ms : Z)
| EWaitForConfirmation (signature : string) (timeout : Z)
    (r : Result Error bool)
| ECreateJitoTipTransaction (tipAmount : Z)
    (r : Result Error (option Solana.Transaction))
| EGet (url : string) (params : Params)
    (r : Result Error (option QuoteData))
| EPost (url : string) (payload : SwapPayload)
    (r : Result Error (option SwapData))
| EPostBundle (url : string) (payload : BundlePayload) (timeout : Z)
    (r : Result Error (option BundleData))
| EGetAddressLookupTable (address : string)
    (r : Result Error (option Solana.LookupTable))
| EGetAccountInfo (address : string) (r : Result Error bool)
| EGetLatestBlockhash (r : Result Error string)
| EGetSlot (r : Result Error Z)
| ESendTransaction (tx : Solana.Transaction) (r : Result Error string)
| EGetSignatureStatus (signature : string)
    (r : Result Error (option Status))
| EGetBalance (owner : string) (r : Result Error Z)
| EGetLookupTableAddresses (address : string)
    (r : Result Error (option (list string)))
| ENow (time : Z)
| EExistsSync (found : bool)
| EReadLookupTables (r : Result Error (option (list TableRecord)))
| EWriteLookupTables (tables : list TableRecord) (r : Result Error unit).

Definition M (W A : Type) : Type := Eff.T Error Event W A.

(** Where a function goes on after a block that may [return]: with the
    value returned, or with a call of itself for another attempt. *)
Inductive Next (A : Type) : Type :=
| Return (a : A)
| Again.
#[global] Arguments Return {A} a.
#[global] Arguments Again {A}.

(** [error.response && error.response.status === 429] *)
Definition rateLimited (error : Error) : bool :=
  match response error with
  | Some r => status r =? 429
  | None => false
  end.

(** [market.label || market.id || "Jupiter DEX"] *)
Definition marketName (m : Market) : string :=
  if (label m =? "")%string
  then (if (id m =? "")%string then "Jupiter DEX"%string else id m)
  else label m.

(** The loop over the steps of the route plan. *)
Fixpoint stepMarkets (routePlan : list (option Step)) : list string :=
  match routePlan with
  | [] => []
  | step :: rest =>
      match step with
      | Some s =>
          match amm s with
          | Some a => [marketName a]
          | None =>
              match marketInfos s with
              | Some markets => map marketName markets
              | None => []
              end
          end
      | None => []
      end ++ stepMarkets rest
  end.

(** The market information, wherever the response has it. *)
Definition marketInfosOf (d : QuoteData) : list string :=
  let routePlan :=
    match data_routePlan d with Some p => p | None => [] end in
  if 0 <? Z.of_nat (List.length routePlan)
  then stepMarkets routePlan
  else
    match routesInfos d with
    | Some ((Some routeInfo) :: _) =>
        (* Alternative location in some API versions *)
        match route_marketInfos routeInfo with
        | Some markets => map marketName markets
        | None => []
        end
    | _ => []
    end.

Section Exchange.
Context {W : Type}.
Variable svc : Services W.
Variable config : Cfg.Config.
Variable cfg : Settings.

Local Open Scope eff_scope.

(** [RETRY_DELAY_BASE * Math.pow(2, retryCount)], for a count that is not
    negative. *)
Definition retryDelay (retryCount : Z) : Z :=
  RETRY_DELAY_BASE cfg * 2 ^ retryCount.

(** ** getJupiterQuote

    [getJupiterQuote(inputMint, outputMint, amount, connection, retryCount,
    onlyDirectRoutes)].  [amount] is an integer or its decimal string; both
    give its digits in the query.  The function calls itself with
    [retryCount + 1] while [retryCount < MAX_RETRIES]: [budget] is the
    number of such calls that there is room for, and [getJupiterQuote]
    gives as many as the test allows. *)
Fixpoint getJupiterQuote_within (budget : nat)
  (inputMint outputMint : string) (amount : Z) (retryCount : Z)
  (onlyDirectRoutes : bool) : M W (option Quote) :=
  try_catch
    (act EAcquire (enforceRequestRateLimit svc) ;;
     let slippageBps := "100"%string in
     let params :=
       {| inputMint := inputMint;
          outputMint := outputMint;
          amount := Js.toString amount;
          slippageBps := slippageBps;
          (* Support direct routes option *)
          onlyDirectRoutes := onlyDirectRoutes;
          (* Reduce max accounts for direct routes *)
          maxAccounts := if onlyDirectRoutes then "10" else "30";
          platformFeeBps := "0" |} in
     let url := (JUPITER_API_URL cfg ++ "/quote")%string in
     response_data <- call (EGet url params) (axios_get svc url params) ;;
     match response_data with
     | None => throw (plain "Cannot read properties of undefined")
     | Some d =>
         (* Try to extract route information *)
         let routePlan :=
           match data_routePlan d with Some p => p | None => [] end in
         (* Just get market info however we can *)
         let marketInfos := marketInfosOf d in
         (* If we still don't have market info, just use "Jupiter" *)
         let dexNames :=
           if 0 <? Z.of_nat (List.length marketInfos)
           then String.concat ", " marketInfos
           else "Jupiter"%string in
         (* Add the extracted DEX information to the response *)
         ret (Some {| data := d; dexNames := dexNames;
                      routePlan := routePlan |})
     end)
    (fun error =>
       if rateLimited error && (retryCount <? MAX_RETRIES cfg)
       then
         act (ESleep (retryDelay retryCount))
             (sleep svc (retryDelay retryCount)) ;;
         match budget with
         | S budget' =>
             getJupiterQuote_within budget' inputMint outputMint amount
                                    (retryCount + 1) onlyDirectRoutes
         | O => throw (plain "no room for another call")
         end
       else ret None).

Definition getJupiterQuote (inputMint outputMint : string) (amount : Z)
  (retryCount : Z) (onlyDirectRoutes : bool) : M W (option Quote) :=
  getJupiterQuote_within (Z.to_nat (MAX_RETRIES cfg - retryCount))
                         inputMint outputMint amount retryCount
                         onlyDirectRoutes.

(** ** getSwapInstructions

    [getSwapInstructions(quote, payer, retryCount)]: the data of the
    response as it is, [None] when there is none. *)
Fixpoint getSwapInstructions_within (budget : nat) (quote : Quote)
  (payer : Arbitrage.Keypair) (retryCount : Z) : M W (option SwapData) :=
  try_catch
    (act EAcquire (enforceRequestRateLimit svc) ;;
     let payload :=
       {| userPublicKey := Arbitrage.publicKey payer;
          wrapAndUnwrapSol := false;
          (* Use shared accounts to reduce size *)
          useSharedAccounts := true;
          computeUnitPriceMicroLamports := 5000;
          dynamicComputeUnitLimit := Some true;
          quoteResponse := quote |} in
     let url := (JUPITER_API_URL cfg ++ "/swap-instructions")%string in
     call (EPost url payload) (axios_post svc url payload))
    (fun error =>
       if rateLimited error && (retryCount <? MAX_RETRIES cfg)
       then
         act (ESleep (retryDelay retryCount))
             (sleep svc (retryDelay retryCount)) ;;
         match budget with
         | S budget' =>
             getSwapInstructions_within budget' quote payer (retryCount + 1)
         | O => throw (plain "no room for another call")
         end
       else ret None).

Definition getSwapInstructions (quote : Quote) (payer : Arbitrage.Keypair)
  (retryCount : Z) : M W (option SwapData) :=
  getSwapInstructions_within (Z.to_nat (MAX_RETRIES cfg - retryCount))
                             quote payer retryCount.

(** ** getSimplifiedSwapInstructions

    [getSimplifiedSwapInstructions(quote, payer, simplify, retryCount)] *)
Fixpoint getSimplifiedSwapInstructions_within (budget : nat) (quote : Quote)
  (payer : Arbitrage.Keypair) (simplify : bool) (retryCount : Z)
  : M W (option Simplified) :=
  try_catch
    (act EAcquire (enforceRequestRateLimit svc) ;;
     let payload :=
       {| userPublicKey := Arbitrage.publicKey payer;
          wrapAndUnwrapSol := false;
          (* Use shared accounts to reduce size *)
          useSharedAccounts := true;
          (* We'll set this separately *)
          computeUnitPriceMicroLamports := 0;
          (* Skip setting compute unit limit here *)
          dynamicComputeUnitLimit := None;
          quoteResponse := quote |} in
     let url := (JUPITER_API_URL cfg ++ "/swap-instructions")%string in
     response_data <- call (EPost url payload) (axios_post svc url payload) ;;
     match response_data with
     | None => ret None
     | Some d =>
         (* Extract swap instruction program ID for logging *)
         let swapProgramId :=
           match swapInstruction d with
           | Some i =>
               if (Arbitrage.raw_programId i =? "")%string then None
               else Some (Arbitrage.raw_programId i)
           | None => None
           end in
         (* Extract only what we need; only include setup instructions if
            absolutely necessary; skip cleanup instructions entirely *)
         ret (Some
                {| simplified_swapInstruction := swapInstruction d;
                   swapProgramId := swapProgramId;
                   simplified_setupInstructions :=
                     match setupInstructions d with
                     | Some setup =>
                         if negb simplify
                            && (0 <? Z.of_nat (List.length setup))
                         then Some setup else None
                     | None => None
                     end |})
     end)
    (fun error =>
       if rateLimited error && (retryCount <? MAX_RETRIES cfg)
       then
         act (ESleep (retryDelay retryCount))
             (sleep svc (retryDelay retryCount)) ;;
         match budget with
         | S budget' =>
             getSimplifiedSwapInstructions_within
               budget' quote payer simplify (retryCount + 1)
         | O => throw (plain "no room for another call")
         end
       else ret None).

Definition getSimplifiedSwapInstructions (quote : Quote)
  (payer : Arbitrage.Keypair) (simplify : bool) (retryCount : Z)
  : M W (option Simplified) :=
  getSimplifiedSwapInstructions_within
    (Z.to_nat (MAX_RETRIES cfg - retryCount)) quote payer simplify
    retryCount.

(** ** getSwapInstructionsWithCustomAmount

    [getSwapInstructionsWithCustomAmount(quote, customAmount, payer,
    retryCount)]: the new quote is requested with the default retry count
    and by any route.  The call of [getSwapInstructions] is returned
    without being awaited, outside the reach of the [catch]. *)
Definition getSwapInstructionsWithCustomAmount (quote : Quote)
  (customAmount : Z) (payer : Arbitrage.Keypair) (retryCount : Z)
  : M W (option SwapData) :=
  newQuote <-
    try_catch
      (act EAcquire (enforceRequestRateLimit svc) ;;
       getJupiterQuote (quote_inputMint (data quote))
                       (quote_outputMint (data quote))
                       customAmount 0 false)
      (fun _ => ret None) ;;
  match newQuote with
  | None => ret None
  | Some newQuote => getSwapInstructions newQuote payer retryCount
  end.

(** ** fetchLookupTables *)

(** Define lookup table addresses *)
Definition lookupTableAddresses : list string :=
  [ "8HvgxVyd22Jq9mmoojm4Awqw6sbymbF5pwLr8FtvySHs"%string;
    "4sKLJ1Qoudh8PJyqBeuKocYdsZvxTcRShUt9aKqwhgvC"%string ].

(** The loop over the addresses: a table that is found is pushed, and an
    error is caught so that the loop continues with the other tables. *)
Fixpoint fetchEach (addresses : list string)
  (results : list Solana.LookupTable) : M W (list Solana.LookupTable) :=
  match addresses with
  | [] => ret results
  | address :: rest =>
      results <-
        try_catch
          (if negb (PublicKey_valid svc address)
           then throw (plain "Invalid public key input")
           else
             lookupTableResult <-
               call (EGetAddressLookupTable address)
                    (getAddressLookupTable svc address) ;;
             match lookupTableResult with
             | Some table => ret (results ++ [table])
             | None => ret results
             end)
          (fun _ =>
             (* Continue with other lookup tables if one fails *)
             ret results) ;;
      fetchEach rest results
  end.

Definition fetchLookupTables : M W (list Solana.LookupTable) :=
  try_catch (fetchEach lookupTableAddresses [])
            (fun _ =>
               (* Return empty array instead of null to avoid downstream
                  issues *)
               ret []).

(** ** submitJitoBundle *)

(** [config.JITO_MAX_RETRIES || config.MAX_RETRIES] *)
Definition bundleRetries : Z :=
  if JITO_MAX_RETRIES cfg =? 0 then MAX_RETRIES cfg
  else JITO_MAX_RETRIES cfg.

(** [config.JITO_BUNDLE_TIMEOUT || 10000] *)
Definition bundleTimeout : Z :=
  if JITO_BUNDLE_TIMEOUT cfg =? 0 then 10000 else JITO_BUNDLE_TIMEOUT cfg.

Definition hasCode (error : Error) (c : string) : bool :=
  match code error with
  | Some c' => (c' =? c)%string
  | None => false
  end.

(** Process the response *)
Definition bundleOutcome (response_data : option BundleData)
  : Arbitrage.BundleResult :=
  match response_data with
  | Some d =>
      if negb (result d =? "")%string
      then Arbitrage.BundleAccepted (result d)
      else
        match bundle_error d with
        | Some e =>
            Arbitrage.BundleRejected
              ("Jito Error: "
                 ++ (if (error_message e =? "")%string then error_json e
                     else error_message e))
        | None =>
            Arbitrage.BundleRejected
              "Unknown response format from Jito Block Engine"
        end
  | None =>
      Arbitrage.BundleRejected "No data in response from Jito Block Engine"
  end.

(** The body of one call of [submitJitoBundle(transaction, tipAmount,
    payer, connection, retryCount)], up to where it returns or calls
    itself. *)
Definition submitOnce (transaction : Solana.Transaction) (tipAmount : Z)
  (payer : Arbitrage.Keypair) (retryCount : Z)
  : M W (Next Arbitrage.BundleResult) :=
  try_catch
    ((* Create tip transaction with enhanced error handling *)
     tipTransaction <-
       call (ECreateJitoTipTransaction tipAmount)
            (createJitoTipTransaction svc tipAmount payer) ;;
     match tipTransaction with
     | None =>
         (* Check if the tip account is defined *)
         if (Cfg.JITO_TIP_ACCOUNT config =? "")%string
         then
           ret (Return
                  (Arbitrage.BundleRejected
                     "Failed to create tip transaction: JITO_TIP_ACCOUNT is not defined"))
         else
           (* Try to validate the tip account address *)
           if negb (PublicKey_valid svc (Cfg.JITO_TIP_ACCOUNT config))
           then
             ret (Return
                    (Arbitrage.BundleRejected
                       ("Failed to create tip transaction: Invalid JITO_TIP_ACCOUNT address: "
                          ++ Cfg.JITO_TIP_ACCOUNT config)))
           else
             ret (Return
                    (Arbitrage.BundleRejected
                       "Failed to create tip transaction"))
     | Some tipTransaction =>
         (* Serialize transactions and encode for Jito API *)
         encoded <-
           try_catch
             (serializedTx <- lift (serialize svc transaction) ;;
              serializedTip <- lift (serialize svc tipTransaction) ;;
              let encodedTx := Base58.base58Encode serializedTx in
              let encodedTip := Base58.base58Encode serializedTip in
              ret (inr (encodedTx, encodedTip)))
             (fun error =>
                ret (inl (Arbitrage.BundleRejected
                            ("Failed to serialize transactions: "
                               ++ message error)))) ;;
         match encoded with
         | inl failure => ret (Return failure)
         | inr (encodedTx, encodedTip) =>
             let payload :=
               {| jsonrpc := "2.0";
                  payload_id := 1;
                  method := "sendBundle";
                  params := [[encodedTx; encodedTip]] |} in
             try_catch
               (response_data <-
                  call (EPostBundle (JITO_BLOCK_ENGINE_URL cfg) payload
                                    bundleTimeout)
                       (axios_post_bundle svc (JITO_BLOCK_ENGINE_URL cfg)
                                          payload bundleTimeout) ;;
                ret (Return (bundleOutcome response_data)))
               (fun error =>
                  (* Handle specific error types for better debugging *)
                  if hasCode error "ECONNREFUSED"
                     || hasCode error "ENOTFOUND"
                  then
                    ret (Return
                           (Arbitrage.BundleRejected
                              ("Could not connect to Jito Block Engine: "
                                 ++ message error)))
                  else
                    if (hasCode error "ETIMEDOUT"
                        || hasCode error "ECONNABORTED")
                       (* This is a retry-able error *)
                       && (retryCount <? bundleRetries)
                    then
                      let delay := retryDelay retryCount in
                      act (ESleep delay) (sleep svc delay) ;;
                      ret Again
                    else
                      let errorDetail :=
                        match response error with
                        | Some r =>
                            match body r with
                            | Some json =>
                                (message error ++ ": " ++ json)%string
                            | None => message error
                            end
                        | None => message error
                        end in
                      ret (Return (Arbitrage.BundleRejected errorDetail)))
         end
     end)
    (fun error =>
       (* Retry logic for any other unexpected errors *)
       if retryCount <? bundleRetries
       then
         let delay := retryDelay retryCount in
         act (ESleep delay) (sleep svc delay) ;;
         ret Again
       else
         ret (Return
                (Arbitrage.BundleRejected
                   ("Unexpected error: " ++ message error)))).

(** [submitJitoBundle(transaction, tipAmount, payer, connection,
    retryCount)].  Every [return] of a call of the function itself is
    outside the reach of the [catch] blocks, the call not being awaited. *)
Fixpoint submitJitoBundle_within (budget : nat)
  (transaction : Solana.Transaction) (tipAmount : Z)
  (payer : Arbitrage.Keypair) (retryCount : Z)
  : M W Arbitrage.BundleResult :=
  next <- submitOnce transaction tipAmount payer retryCount ;;
  match next with
  | Return r => ret r
  | Again =>
      match budget with
      | S budget' =>
          submitJitoBundle_within budget' transaction tipAmount payer
                                  (retryCount + 1)
      | O => throw (plain "no room for another call")
      end
  end.

Definition submitJitoBundle (transaction : Solana.Transaction)
  (tipAmount : Z) (payer : Arbitrage.Keypair) (retryCount : Z)
  : M W Arbitrage.BundleResult :=
  submitJitoBundle_within (Z.to_nat (bundleRetries - retryCount))
                          transaction tipAmount payer retryCount.

(** ** ensureTokenAccount and the two utilities that it calls

    A public key is given by its base58 text: [new PublicKey(text)] throws
    unless the text is valid, and an instance of [PublicKey] is a text
    that is valid. *)

Definition PublicKey (text : string) : Result Error string :=
  if PublicKey_valid svc text then Ok text
  else Fail (plain "Invalid public key input").

(** [utils.getAssociatedTokenAddress(mint, owner)] *)
Definition getAssociatedTokenAddress (mint owner : string)
  : Result Error string :=
  if (mint =? "")%string then Fail (plain "Missing mint")
  else if (owner =? "")%string then Fail (plain "Missing owner")
  else
    (* Ensure both are PublicKey instances *)
    match PublicKey mint with
    | Fail e => Fail e
    | Ok mintPubkey =>
        match PublicKey owner with
        | Fail e => Fail e
        | Ok ownerPubkey =>
            Ok (findProgramAddress svc
                  [ownerPubkey; Cfg.TOKEN_PROGRAM_ID config; mintPubkey]
                  (ASSOCIATED_TOKEN_PROGRAM_ID cfg))
        end
    end.

(** [utils.createAssociatedTokenAccountInstruction(owner, mint, payer)],
    for a payer that is a keypair. *)
Definition createAssociatedTokenAccountInstruction (owner mint : string)
  (payer : Arbitrage.Keypair) : Result Error Solana.Instruction :=
  if (owner =? "")%string then Fail (plain "Missing owner")
  else if (mint =? "")%string then Fail (plain "Missing mint")
  else
    (* Ensure all are PublicKey instances *)
    match PublicKey owner with
    | Fail e => Fail e
    | Ok ownerPubkey =>
        match PublicKey mint with
        | Fail e => Fail e
        | Ok mintPubkey =>
            let payerPubkey := Arbitrage.publicKey payer in
            match getAssociatedTokenAddress mintPubkey ownerPubkey with
            | Fail e => Fail e
            | Ok associatedTokenAddress =>
                Ok {| Solana.programId := ASSOCIATED_TOKEN_PROGRAM_ID cfg;
                      Solana.keys :=
                        [ {| Solana.pubkey := payerPubkey;
                             Solana.isSigner := true;
                             Solana.isWritable := true |};
                          {| Solana.pubkey := associatedTokenAddress;
                             Solana.isSigner := false;
                             Solana.isWritable := true |};
                          {| Solana.pubkey := ownerPubkey;
                             Solana.isSigner := false;
                             Solana.isWritable := false |};
                          {| Solana.pubkey := mintPubkey;
                             Solana.isSigner := false;
                             Solana.isWritable := false |};
                          {| Solana.pubkey := Solana.SystemProgram_programId;
                             Solana.isSigner := false;
                             Solana.isWritable := false |};
                          {| Solana.pubkey := Cfg.TOKEN_PROGRAM_ID config;
                             Solana.isSigner := false;
                             Solana.isWritable := false |} ];
                      Solana.data := [] |}
            end
        end
    end.

(** The three objects that [ensureTokenAccount] returns. *)
Definition existing (tokenAccount : string) : Arbitrage.TokenAccount :=
  {| Arbitrage.exists_ := true;
     Arbitrage.created := false;
     Arbitrage.assumedValid := false;
     Arbitrage.account := Some tokenAccount |}.

Definition justCreated (tokenAccount : string) : Arbitrage.TokenAccount :=
  {| Arbitrage.exists_ := false;
     Arbitrage.created := true;
     Arbitrage.assumedValid := false;
     Arbitrage.account := Some tokenAccount |}.

Definition assumed (tokenAccount : string) : Arbitrage.TokenAccount :=
  {| Arbitrage.exists_ := false;
     Arbitrage.created := false;
     Arbitrage.assumedValid := true;
     Arbitrage.account := Some tokenAccount |}.

(** The block that creates the account: [Some] of what it returns, [None]
    when control leaves it without a [return]. *)
Definition createTokenAccount (mintPubkey walletPubkey tokenAccount : string)
  (payer : Arbitrage.Keypair) : M W (option Arbitrage.TokenAccount) :=
  try_catch
    (instruction <-
       lift (createAssociatedTokenAccountInstruction
               walletPubkey mintPubkey payer) ;;
     blockhash <- call EGetLatestBlockhash (getLatestBlockhash svc) ;;
     lift (compileToV0Message svc [instruction] []) ;;
     let transaction :=
       Solana.sign
         {| Solana.format := Solana.V0 [];
            Solana.instructions := [instruction];
            Solana.feePayer := walletPubkey;
            Solana.recentBlockhash := blockhash;
            Solana.signatures := [] |}
         (Arbitrage.publicKey payer) in
     (* Try with skipped preflight to avoid some RPC errors *)
     signature <- call (ESendTransaction transaction)
                       (sendTransaction svc transaction) ;;
     (* Wait a bit before checking confirmation *)
     act (ESleep 2000) (sleep svc 2000) ;;
     success <-
       try_catch
         (call (EWaitForConfirmation signature 15)
               (waitForConfirmation svc signature 15))
         (fun _ => ret false) ;;
     if success then ret (Some (justCreated tokenAccount))
     else
       (* Even if confirmation failed, check if the account exists now *)
       accountInfoAfterCreation <-
         try_catch
           (call (EGetAccountInfo tokenAccount)
                 (getAccountInfo svc tokenAccount))
           (fun _ => ret false) ;;
       if accountInfoAfterCreation then ret (Some (existing tokenAccount))
       else ret None)
    (fun txError =>
       (* If it's not an "account already exists" error, retry *)
       if includes "already in use" (message txError)
          || includes "already exists" (message txError)
       then ret (Some (existing tokenAccount))
       else ret None).

(** The body of one call of [ensureTokenAccount(mint, payer, connection,
    retryCount)], up to where it returns or calls itself. *)
Definition ensureOnce (mint : string) (payer : Arbitrage.Keypair)
  (retryCount : Z) : M W (Next Arbitrage.TokenAccount) :=
  try_catch
    (mintPubkey <- lift (PublicKey mint) ;;
     let walletPubkey := Arbitrage.publicKey payer in
     tokenAccount <-
       lift (getAssociatedTokenAddress mintPubkey walletPubkey) ;;
     (* Check if account exists *)
     accountInfo <-
       try_catch
         (call (EGetAccountInfo tokenAccount)
               (getAccountInfo svc tokenAccount))
         (fun _ =>
            (* If there's an error checking the account, we'll try to
               create it anyway *)
            ret false) ;;
     if accountInfo then ret (Return (existing tokenAccount))
     else
       made <- createTokenAccount mintPubkey walletPubkey tokenAccount
                                  payer ;;
       match made with
       | Some r => ret (Return r)
       | None =>
           (* If we reach here with retries left, try again *)
           if retryCount <? 2
           then act (ESleep 2000) (sleep svc 2000) ;; ret Again
           else
             (* At this point we'll assume the account exists to avoid
                blocking arbitrage *)
             ret (Return (assumed tokenAccount))
       end)
    (fun error =>
       (* Return a sensible result that won't block execution *)
       mintPubkey <- lift (PublicKey mint) ;;
       let walletPubkey := Arbitrage.publicKey payer in
       tokenAccount <-
         lift (getAssociatedTokenAddress mintPubkey walletPubkey) ;;
       if retryCount <? 2
       then act (ESleep 2000) (sleep svc 2000) ;; ret Again
       else
         (* Assume the account exists in last resort case *)
         ret (Return (assumed tokenAccount))).

(** [ensureTokenAccount(mint, payer, connection, retryCount)]; the calls
    of the function itself are returned without being awaited. *)
Fixpoint ensureTokenAccount_within (budget : nat) (mint : string)
  (payer : Arbitrage.Keypair) (retryCount : Z)
  : M W Arbitrage.TokenAccount :=
  next <- ensureOnce mint payer retryCount ;;
  match next with
  | Return r => ret r
  | Again =>
      match budget with
      | S budget' =>
          ensureTokenAccount_within budget' mint payer (retryCount + 1)
      | O => throw (plain "no room for another call")
      end
  end.

Definition ensureTokenAccount (mint : string) (payer : Arbitrage.Keypair)
  (retryCount : Z) : M W Arbitrage.TokenAccount :=
  ensureTokenAccount_within (Z.to_nat (2 - retryCount)) mint payer
                            retryCount.

End Exchange.
End Exchange.

(* ===================================================================== *)
(** * utils.js: the tip transaction and the lookup-table utilities *)
(* ===================================================================== *)

Module Utils.
Import Eff Exchange.

(** How the loop that asks for a blockhash ends: by leaving the loop with
    the value of the variable [blockhash], by [return null], or not within
    the number of rounds looked at. *)
Inductive Loop : Type :=
| Exit (blockhash : string)
| ReturnNull
| Running.

(** [Set.prototype.add] on a set in its insertion order. *)
Definition Set_add (x : string) (s : list string) : list string :=
  if existsb (String.eqb x) s then s else s ++ [x].

Definition Set_has (x : string) (s : list string) : bool :=
  existsb (String.eqb x) s.

(** An instruction as [extractUniqueAccounts] looks at it: a program id
    that may be absent, and keys that may be absent, each key being [None]
    when the entry or its public key is absent. *)
Record Accounts : Type := {
  ix_programId : option string;
  ix_keys : option (list (option string))
}.

(** The loop over the keys of an instruction. *)
Fixpoint addKeys (keys : list (option string)) (uniqueAccounts : list string)
  : list string :=
  match keys with
  | [] => uniqueAccounts
  | accountMeta :: rest =>
      addKeys rest
              match accountMeta with
              | Some pubkey => Set_add pubkey uniqueAccounts
              | None => uniqueAccounts
              end
  end.

(** The loop over the instructions. *)
Fixpoint addInstructions (instructions : list (option Accounts))
  (uniqueAccounts : list string) : list string :=
  match instructions with
  | [] => uniqueAccounts
  | None :: rest => addInstructions rest uniqueAccounts
  | Some instruction :: rest =>
      (* Add program ID *)
      let uniqueAccounts :=
        match ix_programId instruction with
        | Some programId => Set_add programId uniqueAccounts
        | None => uniqueAccounts
        end in
      (* Add all account keys *)
      let uniqueAccounts :=
        match ix_keys instruction with
        | Some keys => addKeys keys uniqueAccounts
        | None => uniqueAccounts
        end in
      addInstructions rest uniqueAccounts
  end.

(** [extractUniqueAccounts(instructions)]; the keys come back as the
    texts that went into the set. *)
Definition extractUniqueAccounts (instructions : list (option Accounts))
  : list string :=
  addInstructions instructions [].

(** The addresses of a table for [checkAddressesInLookupTables]: [None]
    when the table, its state or its addresses are absent. *)
Fixpoint tableAddresses (lookupTables : list (option (list string)))
  (set : list string) : list string :=
  match lookupTables with
  | [] => set
  | Some addresses :: rest =>
      tableAddresses rest (fold_left (fun s addr => Set_add addr s)
                                     addresses set)
  | None :: rest => tableAddresses rest set
  end.

(** [checkAddressesInLookupTables(lookupTables, requiredAddresses)] *)
Definition checkAddressesInLookupTables
  (lookupTables : list (option (list string)))
  (requiredAddresses : list string) : bool :=
  if (Z.of_nat (List.length lookupTables) =? 0)
     || (Z.of_nat (List.length requiredAddresses) =? 0)
  then false
  else
    (* Combine all addresses from all lookup tables *)
    let set := tableAddresses lookupTables [] in
    (* Check if all required addresses are in the combined set *)
    forallb (fun addr => Set_has addr set) requiredAddresses.

(** [array.slice(from, to)] for indices within the array or past its
    end. *)
Definition slice {A : Type} (l : list A) (from to : nat) : list A :=
  firstn (to - from) (skipn from l).

Definition BATCH_SIZE : nat := 30.

Section Utils.
Context {W : Type}.
Variable svc : Services W.
Variable config : Cfg.Config.
Variable cfg : Settings.

Local Open Scope eff_scope.

(** ** createJitoTipTransaction *)

(** The loop [while (retries > 0)]: a round asks for the latest blockhash;
    an answer with a blockhash leaves the loop, an answer without one
    starts the next round with [retries] as it is, and an error takes one
    from [retries].  [rounds] is the number of rounds looked at. *)
Fixpoint blockhashLoop (rounds : nat) (retries : Z) (blockhash : string)
  : M W Loop :=
  if 0 <? retries
  then
    match rounds with
    | O => ret Running
    | S rounds' =>
        round <-
          try_catch
            (blockhash <- call EGetLatestBlockhash
                               (getLatestBlockhash svc) ;;
             ret (inl blockhash))
            (fun error =>
               let retries := retries - 1 in
               if retries <=? 0
               then ret (inr None)
               else
                 (* Wait before retrying *)
                 act (ESleep 1000) (sleep svc 1000) ;;
                 ret (inr (Some retries))) ;;
        match round with
        | inl blockhash =>
            if negb (blockhash =? "")%string then ret (Exit blockhash)
            else blockhashLoop rounds' retries blockhash
        | inr None => ret ReturnNull
        | inr (Some retries) => blockhashLoop rounds' retries blockhash
        end
    end
  else ret (Exit blockhash).

(** [createJitoTipTransaction(tipAmount, payer, connection)], for a payer
    that is a keypair and a connection that is present: [Some] of what it
    returns, [None] when it has not returned within [rounds] rounds of the
    loop. *)
Definition createJitoTipTransaction (rounds : nat) (tipAmount : Z)
  (payer : Arbitrage.Keypair) : M W (option (option Solana.Transaction)) :=
  try_catch
    ((* Validate inputs *)
     if tipAmount <=? 0 then ret (Some None)
     else
       (* Ensure the tip account is a valid PublicKey *)
       if negb (PublicKey_valid svc (Cfg.JITO_TIP_ACCOUNT config))
       then ret (Some None)
       else
         let tipAccountPubkey := Cfg.JITO_TIP_ACCOUNT config in
         (* Get a recent blockhash with retry logic *)
         loop <- blockhashLoop rounds 3 "" ;;
         match loop with
         | Running => ret None
         | ReturnNull => ret (Some None)
         | Exit blockhash =>
             if (blockhash =? "")%string then ret (Some None)
             else
               (* Create tip instruction *)
               let tipInstruction :=
                 Solana.SystemProgram_transfer
                   (Arbitrage.publicKey payer) tipAccountPubkey tipAmount in
               (* Create and sign transaction *)
               let transaction :=
                 Solana.sign
                   {| Solana.format := Solana.Legacy;
                      Solana.instructions := [tipInstruction];
                      Solana.feePayer := Arbitrage.publicKey payer;
                      Solana.recentBlockhash := blockhash;
                      Solana.signatures := [] |}
                   (Arbitrage.publicKey payer) in
               ret (Some (Some transaction))
         end)
    (fun _ => ret (Some None)).

(** ** createAddressLookupTable *)

(** The result of [createAddressLookupTable]. *)
Record CreatedTable : Type := {
  lookupTableAddress : string;
  slot : Z
}.

(** A versioned transaction of one instruction, without lookup tables,
    signed by the payer. *)
Definition singleInstruction (payer : Arbitrage.Keypair)
  (instruction : Solana.Instruction) (blockhash : string)
  : Solana.Transaction :=
  Solana.sign
    {| Solana.format := Solana.V0 [];
       Solana.instructions := [instruction];
       Solana.feePayer := Arbitrage.publicKey payer;
       Solana.recentBlockhash := blockhash;
       Solana.signatures := [] |}
    (Arbitrage.publicKey payer).

(** The loop that adds the addresses in batches, from index [i] on;
    [rounds] is the number of rounds that there is room for. *)
Fixpoint extendInBatches (rounds : nat) (i : nat)
  (payer : Arbitrage.Keypair) (lookupTableAddress : string)
  (addresses : list string) : M W unit :=
  if (i <? List.length addresses)%nat
  then
    match rounds with
    | O => throw (plain "no room for another round")
    | S rounds' =>
        let batch := slice addresses i (i + BATCH_SIZE) in
        let extendInstruction :=
          extendLookupTableInstruction
            svc (Arbitrage.publicKey payer) lookupTableAddress batch in
        newBlockhash <- call EGetLatestBlockhash (getLatestBlockhash svc) ;;
        lift (compileToV0Message svc [extendInstruction] []) ;;
        let extendTx :=
          singleInstruction payer extendInstruction newBlockhash in
        (* Sign and send the transaction *)
        extendTxId <- call (ESendTransaction extendTx)
                           (sendTransaction svc extendTx) ;;
        (* Wait for confirmation *)
        call (EWaitForConfirmation extendTxId (CONFIRMATION_TIMEOUT cfg))
             (waitForConfirmation svc extendTxId
                                  (CONFIRMATION_TIMEOUT cfg)) ;;
        (* Wait a moment between batches to avoid rate limits *)
        act (ESleep 1000) (sleep svc 1000) ;;
        extendInBatches rounds' (i + BATCH_SIZE) payer lookupTableAddress
                        addresses
    end
  else ret tt.

(** [createAddressLookupTable(connection, payer, addresses)] *)
Definition createAddressLookupTable (payer : Arbitrage.Keypair)
  (addresses : list string) : M W CreatedTable :=
  try_catch
    ((* Get recent slot for instruction *)
     slot <- call EGetSlot (getSlot svc) ;;
     (* Create instruction for lookup table creation *)
     let '(lookupTableInst, lookupTableAddress) :=
       createLookupTableInstruction svc (Arbitrage.publicKey payer) slot in
     (* Build and send transaction to create table *)
     blockhash <- call EGetLatestBlockhash (getLatestBlockhash svc) ;;
     lift (compileToV0Message svc [lookupTableInst] []) ;;
     let createTableTx :=
       singleInstruction payer lookupTableInst blockhash in
     createTableTxId <- call (ESendTransaction createTableTx)
                             (sendTransaction svc createTableTx) ;;
     (* Wait for confirmation *)
     call (EWaitForConfirmation createTableTxId (CONFIRMATION_TIMEOUT cfg))
          (waitForConfirmation svc createTableTxId
                               (CONFIRMATION_TIMEOUT cfg)) ;;
     (* Add addresses to the lookup table in batches (max 30 per tx) *)
     extendInBatches (List.length addresses) 0 payer lookupTableAddress
                     addresses ;;
     (* Return the lookup table address and slot *)
     ret {| lookupTableAddress := lookupTableAddress; slot := slot |})
    (fun error => throw error).

End Utils.
End Utils.

(* ===================================================================== *)
(** * The script that sets up the lookup tables *)
(* ===================================================================== *)

Module Setup.
Import Eff Exchange.

(** The settings that the script reads beside those of [Cfg.Config] and of
    [Exchange.Settings]. *)
Record Settings : Type := {
  PRIVATE_KEY : string;
  USDT_MINT : string;
  BONK_MINT : string
}.

(** The settings as shipped. *)
Definition settings : Settings := {|
  PRIVATE_KEY := "Your_private_key here";
  USDT_MINT := "Es9vMFrzaCERmJfrF4H2FYD4KCoNkY11McCe8BenwNYB";
  BONK_MINT := "DezXAZ8z7PnrnRJjz3wXBoRgixCa6xjnB7YaB1pPB263"
|}.

(** Each lookup table can hold up to 256 addresses *)
Definition MAX_ADDRESSES_PER_TABLE : Z := 256.

(** [verifiedTables] with the addresses of its last table replaced. *)
Fixpoint updateLast (tables : list TableRecord) (addresses : list string)
  : list TableRecord :=
  match tables with
  | [] => []
  | [lastTable] =>
      [{| table_address := table_address lastTable;
          table_slot := table_slot lastTable;
          table_addresses := addresses |}]
  | table :: rest => table :: updateLast rest addresses
  end.

Section Setup.
Context {W : Type}.
Variable svc : Services W.

Local Open Scope eff_scope.

(** ** waitForConfirmation

    The loop [while (Date.now() - start < timeout * 1000)]: [Some true]
    when it returns, [None] when it is still going after [rounds]
    rounds. *)
Fixpoint waitLoop (rounds : nat) (signature : string) (timeout start : Z)
  : M W (option bool) :=
  now <- ask ENow (Date_now svc) ;;
  if now - start <? timeout * 1000
  then
    match rounds with
    | O => ret None
    | S rounds' =>
        returned <-
          try_catch
            (value <- call (EGetSignatureStatus signature)
                           (getSignatureStatus svc signature) ;;
             match value with
             | Some value =>
                 match status_err value with
                 | Some err =>
                     throw (plain ("Transaction failed with error: "
                                     ++ err))
                 | None =>
                     if (confirmationStatus value =? "confirmed")%string
                        || (confirmationStatus value =? "finalized")%string
                     then ret (Some true)
                     else
                       (* Wait a second before checking again *)
                       act (ESleep 1000) (sleep svc 1000) ;;
                       ret None
                 end
             | None =>
                 act (ESleep 1000) (sleep svc 1000) ;;
                 ret None
             end)
            (fun error =>
               (* Continue checking despite error *)
               ret None) ;;
        match returned with
        | Some b => ret (Some b)
        | None => waitLoop rounds' signature timeout start
        end
    end
  else
    throw (plain ("Transaction confirmation timed out after "
                    ++ Js.toString timeout ++ " seconds")).

(** [waitForConfirmation(connection, signature, timeout)] of the script *)
Definition waitForConfirmation (rounds : nat) (signature : string)
  (timeout : Z) : M W (option bool) :=
  start <- ask ENow (Date_now svc) ;;
  (* Check status in a loop *)
  waitLoop rounds signature timeout start.

Variable config : Cfg.Config.
Variable cfg : Exchange.Settings.
Variable opts : Settings.

(** ** getCommonArbitrageAccounts *)
Definition getCommonArbitrageAccounts : list string :=
  let accounts :=
    [ (* System program and token programs *)
      "11111111111111111111111111111111"%string;
      Cfg.TOKEN_PROGRAM_ID config;
      ASSOCIATED_TOKEN_PROGRAM_ID cfg;
      Cfg.SYSVAR_INSTRUCTIONS_PUBKEY config;
      (* Kamino lending addresses for flash loans *)
      Cfg.KAMINO_LENDING_PROGRAM_ID config;
      Cfg.KAMINO_LENDING_MARKET config;
      Cfg.KAMINO_LENDING_MARKET_AUTHORITY config;
      Cfg.KAMINO_SOL_RESERVE config;
      Cfg.KAMINO_SOL_RESERVE_LIQUIDITY config;
      Cfg.KAMINO_SOL_FEE_RECEIVER config;
      Cfg.KAMINO_REFERRER_TOKEN_STATE config;
      Cfg.KAMINO_REFERRER_ACCOUNT config;
      (* Token mints *)
      Cfg.WSOL_MINT config;
      Cfg.USDC_MINT config;
      USDT_MINT opts;
      BONK_MINT opts;
      (* Jupiter swap program *)
      "JUP6LkbZbjS1jKKwapdHNy74zcZ3tLUZoi5dELihNr6"%string ] in
  (* Add commonly used DEX program IDs *)
  let dexPrograms :=
    [ "9xQeWvG816bUx9EPjHmaT23yvVM2ZWbrrpZb9PusVFin"%string;
      "srmqPvymJeFKQ4zGQed1GFppgkRHL9kaELCbyksJtPX"%string;
      "CAMMCzo5YL8w4VFF8KVHrK22GGUsp5VTaW7grrKgrWqK"%string;
      "675kPX9MHTjS2zt1qfr1NYHuzeLXfQM9H24wFSUt1Mp8"%string;
      "whirLbMiicVdio4qvUfM5KAg6Ct8VwpYzGff3uctyCc"%string;
      "EoTcMgcDRTJVZDMZWBoU6rhYHZfkNTVEAfz3uUJRcYGj"%string ] in
  accounts ++ dexPrograms.

(** ** extendLookupTable

    The loop over the batches, from index [i] on; [room] is the number of
    batches that there is room for, [rounds] the number of rounds looked
    at in every wait for a confirmation.  [None]: a wait is still
    going. *)
Fixpoint extendFrom (room rounds : nat) (i : nat)
  (payer : Arbitrage.Keypair) (lookupTableAddress : string)
  (addresses : list string) : M W (option unit) :=
  if (i <? List.length addresses)%nat
  then
    match room with
    | O => throw (plain "no room for another batch")
    | S room' =>
        let batchAddresses := Utils.slice addresses i (i + Utils.BATCH_SIZE) in
        let extendInstruction :=
          extendLookupTableInstruction
            svc (Arbitrage.publicKey payer) lookupTableAddress
            batchAddresses in
        blockhash <- call EGetLatestBlockhash (getLatestBlockhash svc) ;;
        lift (compileToV0Message svc [extendInstruction] []) ;;
        let transaction :=
          Utils.singleInstruction payer extendInstruction blockhash in
        signature <- call (ESendTransaction transaction)
                          (sendTransaction svc transaction) ;;
        (* Wait for confirmation *)
        confirmed <- waitForConfirmation rounds signature 60 ;;
        match confirmed with
        | None => ret None
        | Some _ =>
            (* Wait a bit between batches to avoid rate limits *)
            (if (i + Utils.BATCH_SIZE <? List.length addresses)%nat
             then act (ESleep 1000) (sleep svc 1000)
             else ret tt) ;;
            extendFrom room' rounds (i + Utils.BATCH_SIZE) payer
                       lookupTableAddress addresses
        end
    end
  else ret (Some tt).

(** [extendLookupTable(connection, payer, lookupTableAddress,
    addresses)] *)
Definition extendLookupTable (rounds : nat) (payer : Arbitrage.Keypair)
  (lookupTableAddress : string) (addresses : list string)
  : M W (option unit) :=
  if Z.of_nat (List.length addresses) =? 0 then ret (Some tt)
  else
    (* Add addresses in batches of 30 to avoid transaction size limits *)
    extendFrom (List.length addresses) rounds 0 payer lookupTableAddress
               addresses.

(** ** createLookupTable

    [createLookupTable(connection, payer, addresses)] *)
Definition createLookupTable (rounds : nat) (payer : Arbitrage.Keypair)
  (addresses : list string) : M W (option Utils.CreatedTable) :=
  (* Get recent slot for instruction *)
  slot <- call EGetSlot (getSlot svc) ;;
  (* Create instruction for lookup table creation *)
  let '(createInstruction, lookupTableAddress) :=
    createLookupTableInstruction svc (Arbitrage.publicKey payer) slot in
  (* Build and send transaction to create table *)
  blockhash <- call EGetLatestBlockhash (getLatestBlockhash svc) ;;
  lift (compileToV0Message svc [createInstruction] []) ;;
  let transaction :=
    Utils.singleInstruction payer createInstruction blockhash in
  signature <- call (ESendTransaction transaction)
                    (sendTransaction svc transaction) ;;
  (* Wait for confirmation *)
  confirmed <- waitForConfirmation rounds signature 60 ;;
  match confirmed with
  | None => ret None
  | Some _ =>
      (* Add addresses in batches *)
      extended <-
        (if 0 <? Z.of_nat (List.length addresses)
         then extendLookupTable rounds payer lookupTableAddress addresses
         else ret (Some tt)) ;;
      match extended with
      | None => ret None
      | Some _ =>
          ret (Some {| Utils.lookupTableAddress := lookupTableAddress;
                       Utils.slot := slot |})
      end
  end.

(** ** setupLookupTables *)

(** Verify existing tables are valid *)
Fixpoint verifyTables (existingTables verifiedTables : list TableRecord)
  : M W (list TableRecord) :=
  match existingTables with
  | [] => ret verifiedTables
  | table :: rest =>
      verifiedTables <-
        try_catch
          (address <- lift (PublicKey svc (table_address table)) ;;
           lookupTableAccount <-
             call (EGetLookupTableAddresses address)
                  (getLookupTableAddresses svc address) ;;
           match lookupTableAccount with
           | Some addresses =>
               ret (verifiedTables
                      ++ [{| table_address := table_address table;
                             table_slot := table_slot table;
                             table_addresses := addresses |}])
           | None => ret verifiedTables
           end)
          (fun _ => ret verifiedTables) ;;
      verifyTables rest verifiedTables
  end.

(** Combine all addresses from verified tables *)
Definition existingAddresses (verifiedTables : list TableRecord)
  : list string :=
  fold_left (fun set table =>
               fold_left (fun set addr => Utils.Set_add addr set)
                         (table_addresses table) set)
            verifiedTables [].

(** Find missing addresses *)
Definition missingAddresses (commonAccounts : list string)
  (verifiedTables : list TableRecord) : list string :=
  filter (fun addr =>
            negb (Utils.Set_has addr (existingAddresses verifiedTables)))
         commonAccounts.

(** [missingAddresses.map(addr => new PublicKey(addr))] *)
Fixpoint publicKeys (addresses : list string) : Result Error (list string) :=
  match addresses with
  | [] => Ok []
  | addr :: rest =>
      match PublicKey svc addr with
      | Fail e => Fail e
      | Ok key =>
          match publicKeys rest with
          | Fail e => Fail e
          | Ok keys => Ok (key :: keys)
          end
      end
  end.

(** The tables to record once the missing addresses are in a table:
    [None] when a wait for a confirmation is still going. *)
Definition addMissing (rounds : nat) (payer : Arbitrage.Keypair)
  (verifiedTables : list TableRecord) (missing : list string)
  : M W (option (list TableRecord)) :=
  if 0 <? Z.of_nat (List.length missing)
  then
    (* Check if we need a new table or can extend existing ones *)
    if Z.of_nat (List.length verifiedTables) =? 0
    then
      keys <- lift (publicKeys missing) ;;
      created <- createLookupTable rounds payer keys ;;
      match created with
      | None => ret None
      | Some created =>
          (* Add to our verified tables *)
          ret (Some (verifiedTables
                       ++ [{| table_address :=
                                Utils.lookupTableAddress created;
                              table_slot := Utils.slot created;
                              table_addresses := missing |}]))
      end
    else
      (* Check if we can add to an existing table *)
      match List.last (map Some verifiedTables) None with
      | None => throw (plain "Cannot read properties of undefined")
      | Some lastTable =>
          if Z.of_nat (List.length (table_addresses lastTable))
             + Z.of_nat (List.length missing)
             <=? MAX_ADDRESSES_PER_TABLE
          then
            (* We can extend the existing table *)
            tableKey <- lift (PublicKey svc (table_address lastTable)) ;;
            keys <- lift (publicKeys missing) ;;
            extended <- extendLookupTable rounds payer tableKey keys ;;
            match extended with
            | None => ret None
            | Some _ =>
                (* Update our record *)
                ret (Some (updateLast verifiedTables
                             (table_addresses lastTable ++ missing)))
            end
          else
            (* We need to create a new table *)
            keys <- lift (publicKeys missing) ;;
            created <- createLookupTable rounds payer keys ;;
            match created with
            | None => ret None
            | Some created =>
                ret (Some (verifiedTables
                             ++ [{| table_address :=
                                      Utils.lookupTableAddress created;
                                    table_slot := Utils.slot created;
                                    table_addresses := missing |}]))
            end
      end
  else ret (Some verifiedTables).

(** [setupLookupTables()]: [Some] of what it returns, [None] when a wait
    for a confirmation is still going after [rounds] rounds. *)
Definition setupLookupTables (rounds : nat) : M W (option bool) :=
  try_catch
    ((* Initialize wallet and connection *)
     privateKeyBytes <-
       match Base58.base58Decode (PRIVATE_KEY opts) with
       | Some bytes => ret bytes
       | None => throw (plain "Non-base58 character")
       end ;;
     payer <- lift (fromSecretKey svc privateKeyBytes) ;;
     (* Check wallet balance *)
     balance <- call (EGetBalance (Arbitrage.publicKey payer))
                     (getBalance svc (Arbitrage.publicKey payer)) ;;
     if balance <? 10000000 then ret (Some false)
     else
       (* Load existing lookup tables if available *)
       existingTables <-
         try_catch
           (found <- ask EExistsSync (existsSync svc) ;;
            if (found : bool)
            then
              tables <- call EReadLookupTables (readLookupTables svc) ;;
              ret match tables with Some tables => tables | None => [] end
            else ret [])
           (fun _ => ret []) ;;
       (* Verify existing tables are valid *)
       verifiedTables <- verifyTables existingTables [] ;;
       (* Get common accounts for arbitrage; add the wallet address *)
       let commonAccounts :=
         getCommonArbitrageAccounts ++ [Arbitrage.publicKey payer] in
       let missing := missingAddresses commonAccounts verifiedTables in
       updated <- addMissing rounds payer verifiedTables missing ;;
       match updated with
       | None => ret None
       | Some verifiedTables =>
           (* Save updated lookup tables to file *)
           call (EWriteLookupTables verifiedTables)
                (writeLookupTables svc verifiedTables) ;;
           ret (Some true)
       end)
    (fun _ => ret (Some false)).

End Setup.
End Setup.

(* ===================================================================== *)
(** * The vocabulary of the statements about exchanges.js and utils.js *)
(* ===================================================================== *)

Module Trace.
Import Eff Exchange.

Section Trace.
Variable cfg : Settings.

(** The events of the attempts that ended with the errors [errors] and
    were followed by another attempt, the first of them made with the
    retry count [first]: the wait of the rate limiter, the request that
    failed, and the pause, which doubles from one attempt to the next. *)
Fixpoint retried (failed : Error -> Event) (first : Z)
  (errors : list Error) : list Event :=
  match errors with
  | [] => []
  | e :: rest =>
      [EAcquire; failed e; ESleep (retryDelay cfg first)]
        ++ retried failed (first + 1) rest
  end.

(** What a run of one of the requesting functions looks like: the
    attempts that were retried, each for an error with the status 429 and
    as long as the retry count was below [MAX_RETRIES], then the last
    attempt, which is never one that could have been retried. *)
Definition paced {D : Type} (request : Result Error (option D) -> Event)
  (retryCount : Z) (ev : list Event) (last : Result Error (option D))
  : Prop :=
  exists errors,
    ev = retried (fun e => request (Fail e)) retryCount errors
         ++ [EAcquire; request last] /\
    Forall (fun e => rateLimited e = true) errors /\
    Z.of_nat (List.length errors)
    <= Z.max 0 (MAX_RETRIES cfg - retryCount) /\
    (forall e, last = Fail e -> rateLimited e = true ->
               MAX_RETRIES cfg <= retryCount + Z.of_nat (List.length errors)).


(** The pauses before [n] further attempts, the first of them made with
    the retry count [first]. *)
Definition backoff (first : Z) (n : nat) : list Z :=
  map (fun k => retryDelay cfg (first + Z.of_nat k)) (seq 0 n).

End Trace.

(** The pauses of a run, in order. *)
Definition sleeps (ev : list Event) : list Z :=
  flat_map (fun e => match e with ESleep ms => [ms] | _ => [] end) ev.

Definition isSend (e : Event) : bool :=
  match e with ESendTransaction _ _ => true | _ => false end.

Definition isBundlePost (e : Event) : bool :=
  match e with EPostBundle _ _ _ _ => true | _ => false end.

Definition isBlockhashRequest (e : Event) : bool :=
  match e with EGetLatestBlockhash _ => true | _ => false end.

Definition isStatusRequest (e : Event) : bool :=
  match e with EGetSignatureStatus _ _ => true | _ => false end.

(** An answer to a request for the latest blockhash that holds no
    blockhash. *)
Definition isEmptyBlockhash (e : Event) : bool :=
  match e with
  | EGetLatestBlockhash (Ok b) => (b =? "")%string
  | _ => false
  end.

Definition isFailedBlockhash (e : Event) : bool :=
  match e with
  | EGetLatestBlockhash (Fail _) => true
  | _ => false
  end.

Definition isTipCreation (e : Event) : bool :=
  match e with ECreateJitoTipTransaction _ _ => true | _ => false end.

Definition count (test : Event -> bool) (ev : list Event) : nat :=
  List.length (filter test ev).

(** The tables among the answers to requests for a lookup table. *)
Definition tablesOf
  (answers : list (Result Error (option Solana.LookupTable)))
  : list Solana.LookupTable :=
  flat_map (fun r => match r with Ok (Some t) => [t] | _ => [] end)
           answers.

(** The requests for the tables at [addresses] with their answers. *)
Definition lookups (addresses : list string)
  (answers : list (Result Error (option Solana.LookupTable)))
  : list Event :=
  map (fun '(address, r) => EGetAddressLookupTable address r)
      (combine addresses answers).

(** The body of the request that submits a bundle of two serialized
    transactions. *)
Definition bundlePayload (txBytes tipBytes : list Z) : BundlePayload :=
  {| jsonrpc := "2.0";
     payload_id := 1;
     method := "sendBundle";
     params :=
       [[Base58.base58Encode txBytes; Base58.base58Encode tipBytes]] |}.

(** The run [ev] ends with the block engine accepting, under the id
    [bundleId], the bundle of [transaction] and of a tip transaction that
    [createJitoTipTransaction] returned for [tipAmount]. *)
Definition accepted {W : Type} (svc : Services W) (cfg : Settings)
  (transaction : Solana.Transaction) (tipAmount : Z) (bundleId : string)
  (ev : list Event) : Prop :=
  exists tip txBytes tipBytes d before,
    In (ECreateJitoTipTransaction tipAmount (Ok (Some tip))) ev /\
    serialize svc transaction = Ok txBytes /\
    serialize svc tip = Ok tipBytes /\
    ev = before
         ++ [EPostBundle (JITO_BLOCK_ENGINE_URL cfg)
                         (bundlePayload txBytes tipBytes)
                         (bundleTimeout cfg) (Ok (Some d))] /\
    result d = bundleId /\
    bundleId <> EmptyString.

(** The query of [getJupiterQuote]. *)
Definition quoteParams (inputMint outputMint : string) (amount : Z)
  (onlyDirectRoutes : bool) : Params :=
  {| inputMint := inputMint;
     outputMint := outputMint;
     amount := Js.toString amount;
     slippageBps := "100";
     onlyDirectRoutes := onlyDirectRoutes;
     maxAccounts := if onlyDirectRoutes then "10" else "30";
     platformFeeBps := "0" |}.

(** The quote made of the data of a response. *)
Definition quoteOf (d : QuoteData) : Quote :=
  {| data := d;
     dexNames :=
       if 0 <? Z.of_nat (List.length (marketInfosOf d))
       then String.concat ", " (marketInfosOf d)
       else "Jupiter"%string;
     routePlan :=
       match data_routePlan d with Some p => p | None => [] end |}.

Definition isQuoteRequest (e : Event) : bool :=
  match e with EGet _ _ _ => true | _ => false end.

Definition isSwapRequest (e : Event) : bool :=
  match e with EPost _ _ _ => true | _ => false end.

(** The body of the request of [getSwapInstructions] and of
    [getSimplifiedSwapInstructions]. *)
Definition swapPayload (payer : Arbitrage.Keypair) (quote : Quote)
  (price : Z) (limit : option bool) : SwapPayload :=
  {| userPublicKey := Arbitrage.publicKey payer;
     wrapAndUnwrapSol := false;
     useSharedAccounts := true;
     computeUnitPriceMicroLamports := price;
     dynamicComputeUnitLimit := limit;
     quoteResponse := quote |}.

(** What [getSimplifiedSwapInstructions] makes of the data of a
    response. *)
Definition simplifiedOf (simplify : bool) (d : SwapData) : Simplified :=
  {| simplified_swapInstruction := swapInstruction d;
     swapProgramId :=
       match swapInstruction d with
       | Some i =>
           if (Arbitrage.raw_programId i =? "")%string then None
           else Some (Arbitrage.raw_programId i)
       | None => None
       end;
     simplified_setupInstructions :=
       match setupInstructions d with
       | Some setup =>
           if negb simplify && (0 <? Z.of_nat (List.length setup))
           then Some setup else None
       | None => None
       end |}.

(** The tip transaction that [createJitoTipTransaction] makes with a
    blockhash. *)
Definition tipOf (config : Cfg.Config) (payer : Arbitrage.Keypair)
  (tipAmount : Z) (blockhash : string) : Solana.Transaction :=
  Solana.sign
    {| Solana.format := Solana.Legacy;
       Solana.instructions :=
         [Solana.SystemProgram_transfer
            (Arbitrage.publicKey payer) (Cfg.JITO_TIP_ACCOUNT config)
            tipAmount];
       Solana.feePayer := Arbitrage.publicKey payer;
       Solana.recentBlockhash := blockhash;
       Solana.signatures := [] |}
    (Arbitrage.publicKey payer).

(** A request for the latest blockhash, or the pause of a second. *)
Definition isBlockhashRound (e : Event) : Prop :=
  (exists r, e = EGetLatestBlockhash r) \/ e = ESleep 1000.

(** ** The lookup table utilities *)

(** The batches of 30 addresses, the last one of what is left. *)
Definition batches (addresses : list string) : list (list string) :=
  map (fun k => Utils.slice addresses (k * 30) (k * 30 + 30))
      (seq 0 ((List.length addresses + 29) / 30)).

(** The transactions sent in a run, in order. *)
Definition sent (ev : list Event) : list Solana.Transaction :=
  flat_map (fun e => match e with
                     | ESendTransaction tx _ => [tx]
                     | _ => []
                     end) ev.

Definition isWait (e : Event) : bool :=
  match e with EWaitForConfirmation _ _ _ => true | _ => false end.

(** The error with which a call of a collaborator failed. *)
Definition failure (e : Event) : option Error :=
  match e with
  | EWaitForConfirmation _ _ (Fail error)
  | ECreateJitoTipTransaction _ (Fail error)
  | EGet _ _ (Fail error)
  | EPost _ _ (Fail error)
  | EPostBundle _ _ _ (Fail error)
  | EGetAddressLookupTable _ (Fail error)
  | EGetAccountInfo _ (Fail error)
  | EGetLatestBlockhash (Fail error)
  | EGetSlot (Fail error)
  | ESendTransaction _ (Fail error)
  | EGetSignatureStatus _ (Fail error) => Some error
  | _ => None
  end.

(** The error [error] is the one with which the last call of the run
    failed, or one that the compilation of a message throws. *)
Definition thrownBy {W : Type} (svc : Services W) (error : Error)
  (ev : list Event) : Prop :=
  (exists before last, ev = before ++ [last] /\ failure last = Some error)
  \/ (exists instructions,
         compileToV0Message svc instructions [] = Fail error).

(** ** The set-up script *)

(** A table is looked up on the ledger, or tables are written to the file
    of the script. *)
Definition isRecord (e : Event) : bool :=
  match e with
  | EWriteLookupTables _ _ | EGetLookupTableAddresses _ _ => true
  | _ => false
  end.

(** The run neither looks up a table nor writes to the file. *)
Definition untouched (ev : list Event) : Prop :=
  Forall (fun e => isRecord e = false) ev.

(** A status that ends the wait of the script. *)
Definition confirming (v : Status) : Prop :=
  status_err v = None /\
  (confirmationStatus v = "confirmed"%string \/
   confirmationStatus v = "finalized"%string).

(** Every transaction that was sent got a status that confirms it. *)
Definition settled (ev : list Event) : Prop :=
  forall tx signature,
    In (ESendTransaction tx (Ok signature)) ev ->
    exists v,
      In (EGetSignatureStatus signature (Ok (Some v))) ev /\
      confirming v.

(** The message of the error that the wait of the script throws. *)
Definition timedOutAfter (timeout : Z) : string :=
  ("Transaction confirmation timed out after "
     ++ Js.toString timeout ++ " seconds")%string.

(** The address [a] is in one of the tables. *)
Definition covered (tables : list TableRecord) (a : string) : Prop :=
  exists table, In table tables /\ In a (table_addresses table).

(** A table that holds the address [a] was looked up on the ledger. *)
Definition lookedUp (a : string) (ev : list Event) : Prop :=
  exists address addresses,
    In (EGetLookupTableAddresses address (Ok (Some addresses))) ev /\
    In a addresses.

(** What was written to the file of the script, with the outcome. *)
Definition writes (ev : list Event)
  : list (list TableRecord * Result Error unit) :=
  flat_map (fun e => match e with
                     | EWriteLookupTables tables r => [(tables, r)]
                     | _ => []
                     end) ev.

(** ** What a run of [ensureTokenAccount] shows about the account *)

(** The ledger answered that there is an account at [address]. *)
Definition seen (address : string) (ev : list Event) : Prop :=
  In (EGetAccountInfo address (Ok true)) ev.

(** The creation of the account failed with an error that says that the
    account is there already. *)
Definition inUse {W : Type} (svc : Services W) (ev : list Event) : Prop :=
  exists e,
    (In (EGetLatestBlockhash (Fail e)) ev \/
     (exists tx, In (ESendTransaction tx (Fail e)) ev) \/
     (exists instructions,
         compileToV0Message svc instructions [] = Fail e)) /\
    includes "already in use" (message e)
    || includes "already exists" (message e) = true.

(** A transaction with the instruction [ix] only was sent, and the wait
    for its confirmation, of 15 seconds at most, returned [true]. *)
Definition confirmedCreation (ix : Solana.Instruction) (ev : list Event)
  : Prop :=
  exists tx signature,
    Solana.instructions tx = [ix] /\
    In (ESendTransaction tx (Ok signature)) ev /\
    In (EWaitForConfirmation signature 15 (Ok true)) ev.

(** No answer of the run says that the account is there, and no wait for
    a confirmation returned [true]. *)
Definition unproven (ev : list Event) : Prop :=
  Forall (fun e =>
            match e with
            | EGetAccountInfo _ (Ok true) => False
            | EWaitForConfirmation _ _ (Ok true) => False
            | _ => True
            end) ev.

End Trace.

(* ===================================================================== *)
(** * Worlds for the examples *)
(* ===================================================================== *)

(** A world that counts the calls made so far, and collaborators that
    answer by that count. *)
Module Cases.
Import Eff Exchange.

Definition answer {A : Type} (f : nat -> Result Error A) (w : nat)
  : Result Error A * nat := (f w, S w).

Definition tooManyRequests : Error :=
  {| message := "Request failed with status code 429";
     response := Some {| status := 429; body := None |};
     code := Some "ERR_BAD_REQUEST"%string |}.

Definition timedOut : Error :=
  {| message := "timeout of 10000ms exceeded";
     response := None;
     code := Some "ECONNABORTED"%string |}.

Definition services
  (get : nat -> Result Error (option QuoteData))
  (post : nat -> Result Error (option SwapData))
  (bundle : nat -> Result Error (option BundleData))
  (tip : nat -> Result Error (option Solana.Transaction))
  (info : nat -> Result Error bool)
  (latest : nat -> Result Error string)
  (send : nat -> Result Error string)
  (confirmed : nat -> Result Error bool)
  (statusOf : nat -> Result Error (option Status))
  (valid : string -> bool) : Services nat :=
  {| enforceRequestRateLimit := fun w => w;
     sleep := fun _ w => w;
     waitForConfirmation := fun _ _ => answer confirmed;
     createJitoTipTransaction := fun _ _ => answer tip;
     axios_get := fun _ _ => answer get;
     axios_post := fun _ _ => answer post;
     axios_post_bundle := fun _ _ _ => answer bundle;
     getAddressLookupTable :=
       fun address => answer (fun _ => Ok (Some address));
     getAccountInfo := fun _ => answer info;
     getLatestBlockhash := answer latest;
     getSlot := answer (fun w => Ok (Z.of_nat w));
     sendTransaction := fun _ => answer send;
     getSignatureStatus := fun _ => answer statusOf;
     getBalance := fun _ => answer (fun _ => Ok 1000000000);
     getLookupTableAddresses := fun _ => answer (fun _ => Ok None);
     Date_now := fun w => 1000 * Z.of_nat w;
     existsSync := fun _ => false;
     readLookupTables := answer (fun _ => Ok None);
     writeLookupTables := fun _ => answer (fun _ => Ok tt);
     PublicKey_valid := valid;
     fromSecretKey :=
       fun _ =>
         Ok {| Arbitrage.publicKey :=
                 "7xKXtg2CW87d97TXJSDpbD5jBkheTqA83TZRuJosgAsU" |};
     findProgramAddress := fun seeds _ => String.concat "/" seeds;
     compileToV0Message := fun _ _ => Ok tt;
     serialize :=
       fun tx => Ok [1; Z.of_nat (List.length (Solana.instructions tx))];
     createLookupTableInstruction :=
       fun authority _ =>
         ({| Solana.programId := "AddressLookupTab1e1111111111111111111111111";
             Solana.keys := [];
             Solana.data := [0] |}, "table"%string);
     extendLookupTableInstruction :=
       fun _ table addresses =>
         {| Solana.programId := "AddressLookupTab1e1111111111111111111111111";
            Solana.keys :=
              map (fun a => {| Solana.pubkey := a;
                               Solana.isSigner := false;
                               Solana.isWritable := false |}) addresses;
            Solana.data := [2] |} |}.

Definition offline {A : Type} : nat -> Result Error A :=
  fun _ => Fail (plain "Network Error").

(** The routing service answers 429 to the first two requests, then with
    a quote through two markets, the second without a label. *)
Definition twoMarkets : QuoteData :=
  {| quote_inputMint := "So11111111111111111111111111111111111111112";
     quote_outputMint := "EPjFWdd5AufqSSqeM2qN1xzybapC8G4wEGGkZwyTDt1v";
     outAmount := 150000000;
     data_routePlan :=
       Some [ Some {| amm := Some {| label := "Orca"; id := "orca-1" |};
                      marketInfos := None |};
              None;
              Some {| amm := Some {| label := ""; id := "" |};
                      marketInfos := None |} ];
     routesInfos := None |}.

Definition swapIx : Arbitrage.RawInstruction :=
  {| Arbitrage.raw_programId := "JUP6LkbZbjS1jKKwapdHNy74zcZ3tLUZoi5QNyVTaV4";
     Arbitrage.raw_accounts := Some [];
     Arbitrage.raw_data := Some "AQID"%string |}.

Definition swapData : SwapData :=
  {| swapInstruction := Some swapIx;
     setupInstructions := Some [swapIx];
     cleanupInstruction := Some swapIx |}.

Definition busyThenQuote : Services nat :=
  services (fun w => if (w <? 2)%nat then Fail tooManyRequests
                     else Ok (Some twoMarkets))
           (fun w => if (w <? 4)%nat then Fail tooManyRequests
                     else Ok (Some swapData))
           offline offline offline offline offline offline offline
           (fun _ => true).

(** The block engine times out once, then accepts the bundle. *)
Definition tipTransaction : Solana.Transaction :=
  {| Solana.format := Solana.Legacy;
     Solana.instructions :=
       [Solana.SystemProgram_transfer
          "7xKXtg2CW87d97TXJSDpbD5jBkheTqA83TZRuJosgAsU"
          "Cw8CFyM9FkoMi7K7Crf6HNQqf4uEMzpKw6QNghXLvLkY" 5000];
     Solana.feePayer := "7xKXtg2CW87d97TXJSDpbD5jBkheTqA83TZRuJosgAsU";
     Solana.recentBlockhash := "blockhash-1";
     Solana.signatures :=
       ["7xKXtg2CW87d97TXJSDpbD5jBkheTqA83TZRuJosgAsU"%string] |}.

Definition trade : Solana.Transaction :=
  {| Solana.format :=
       Solana.V0 ["8HvgxVyd22Jq9mmoojm4Awqw6sbymbF5pwLr8FtvySHs"%string];
     Solana.instructions :=
       [Solana.setComputeUnitPrice 20000; Solana.setComputeUnitLimit 300000];
     Solana.feePayer := "7xKXtg2CW87d97TXJSDpbD5jBkheTqA83TZRuJosgAsU";
     Solana.recentBlockhash := "blockhash-0";
     Solana.signatures :=
       ["7xKXtg2CW87d97TXJSDpbD5jBkheTqA83TZRuJosgAsU"%string] |}.

Definition engineSlow : Services nat :=
  services offline offline
           (fun w => if (w <? 2)%nat then Fail timedOut
                     else Ok (Some {| result := "bundle-1";
                                      bundle_error := None |}))
           (fun _ => Ok (Some tipTransaction))
           offline offline offline offline offline
           (fun _ => true).

(** The ledger has no account and takes no transaction until the third
    attempt, which is confirmed. *)
Definition ledgerSlow : Services nat :=
  services offline offline offline offline
           (fun _ => Ok false)
           (fun w => Ok ("blockhash-" ++ Js.toString (Z.of_nat w))%string)
           (fun w => if (w <? 6)%nat then Fail (plain "Blockhash not found")
                     else Ok "signature-1"%string)
           (fun _ => Ok true)
           offline
           (fun _ => true).

(** A connection that answers every request for a blockhash without a
    blockhash. *)
Definition noBlockhash : Services nat :=
  services offline offline offline offline offline
           (fun _ => Ok EmptyString)
           offline offline offline
           (fun _ => true).

(** A connection that fails twice, then answers. *)
Definition blockhashLate : Services nat :=
  services offline offline offline offline offline
           (fun w => if (w <? 2)%nat then Fail (plain "fetch failed")
                     else Ok "blockhash-2"%string)
           offline offline offline
           (fun _ => true).

(** A ledger that takes every transaction and confirms none. *)
Definition unconfirmed : Services nat :=
  services offline offline offline offline offline
           (fun w => Ok ("blockhash-" ++ Js.toString (Z.of_nat w))%string)
           (fun w => Ok ("signature-" ++ Js.toString (Z.of_nat w))%string)
           (fun _ => Ok false)
           offline
           (fun _ => true).

(** Sixty-one addresses. *)
Definition manyAddresses : list string :=
  map (fun k => ("address-" ++ Js.toString (Z.of_nat k))%string)
      (seq 0 61).

(** A ledger on which the transaction has failed. *)
Definition failedTransaction : Services nat :=
  services offline offline offline offline offline offline offline offline
           (fun _ => Ok (Some {| status_err := Some "InstructionError"%string;
                                 confirmationStatus := "confirmed" |}))
           (fun _ => true).

(** The same ledger for a key that is not valid. *)
Definition noKeys : Services nat :=
  services offline offline offline offline
           (fun _ => Ok false) offline offline offline offline
           (fun _ => false).

Definition payer : Arbitrage.Keypair :=
  {| Arbitrage.publicKey := "7xKXtg2CW87d97TXJSDpbD5jBkheTqA83TZRuJosgAsU" |}.

(** A ledger that takes every transaction and confirms it at the first
    look; it has no file of tables. *)
Definition confirmingLedger : Services nat :=
  services offline offline offline offline offline
           (fun w => Ok ("blockhash-" ++ Js.toString (Z.of_nat w))%string)
           (fun w => Ok ("signature-" ++ Js.toString (Z.of_nat w))%string)
           offline
           (fun _ => Ok (Some {| status_err := None;
                                 confirmationStatus := "confirmed" |}))
           (fun _ => true).

(** The settings of the script with a key that can be decoded. *)
Definition funded : Setup.Settings :=
  {| Setup.PRIVATE_KEY := "5Q";
     Setup.USDT_MINT := Setup.USDT_MINT Setup.settings;
     Setup.BONK_MINT := Setup.BONK_MINT Setup.settings |}.

End Cases.

(* ===================================================================== *)
(** * index.js: the loop of checks *)
(* ===================================================================== *)

Module Main.
Import Arbitrage.

(** The two settings that the loop reads. *)
Record Settings : Type := {
  USE_BELLMAN_FORD : bool;
  CHECK_INTERVAL : Z
}.

(** The settings as shipped. *)
Definition settings : Settings :=
  {| USE_BELLMAN_FORD := true; CHECK_INTERVAL := 5000 |}.

(** The counters of [main]. *)
Record Stats : Type := {
  checks : Z;
  successfulTrades : Z;
  failedTrades : Z
}.

Definition started : Stats :=
  {| checks := 0; successfulTrades := 0; failedTrades := 0 |}.

Section Main.
Context {W : Type}.
Variable svc : Services W.
Variable cfg : Cfg.Config.
Variable payer : Keypair.
Variable opts : Settings.

Local Open Scope js_scope.

(** [runCheck], which schedules itself with [setTimeout] at the end of
    every check and so never ends: the first [turns] checks, and the
    counters after them. *)
Fixpoint runCheck (turns : nat) (stats : Stats) : M W Stats :=
  match turns with
  | O => ret stats
  | S turns' =>
      let checks := checks stats + 1 in
      (* Choose which arbitrage method to use *)
      let arbitragePromise :=
        if USE_BELLMAN_FORD opts
        then checkForBellmanFordArbitrage svc cfg payer
        else executeFlashLoanJupiterArbitrage svc cfg payer in
      (* Execute arbitrage *)
      stats <-
        try_catch
          (result <- arbitragePromise ;;
           let stats :=
             if (result : bool)
             then {| checks := checks;
                     successfulTrades := successfulTrades stats + 1;
                     failedTrades := failedTrades stats |}
             else {| checks := checks;
                     successfulTrades := successfulTrades stats;
                     failedTrades := failedTrades stats + 1 |} in
           (* Wait before next check *)
           sleep svc (CHECK_INTERVAL opts) ;;
           ret stats)
          (fun error =>
             (* Wait longer after an error *)
             sleep svc (CHECK_INTERVAL opts * 2) ;;
             ret {| checks := checks;
                    successfulTrades := successfulTrades stats;
                    failedTrades := failedTrades stats |}) ;;
      runCheck turns' stats
  end.

End Main.
End Main.

(* ===================================================================== *)
(** * Properties *)
(* ===================================================================== *)

(** ** The base-58 codec *)

Section Base58Facts.
Import Base58 Spec.

Lemma encode_byte_zero : encode_byte [0] 0 = [0].
Proof. reflexivity. Qed.

Lemma encode_zeros_digits (n : nat) :
  fold_left encode_byte (repeat 0 n) [0] = [0].
Proof.
  induction n as [|n IH]; simpl; [reflexivity|].
  rewrite encode_byte_zero. exact IH.
Qed.

Lemma encode_leading_zeros (n : nat) (digits : list Z) :
  encode_leading (repeat 0 (S n)) digits = digits ++ repeat 0 n.
Proof.
  revert digits. induction n as [|n IH]; intros digits.
  - simpl. now rewrite app_nil_r.
  - change (repeat 0 (S (S n))) with (0 :: repeat 0 (S n)).
    cbn [encode_leading]. change (repeat 0 (S n)) with (0 :: repeat 0 n) at 1.
    cbn [Z.eqb]. change (0 :: repeat 0 n) with (repeat 0 (S n)).
    rewrite IH, <- app_assoc. reflexivity.
Qed.

Lemma encode_string_zeros (n : nat) (acc : string) :
  fold_left (fun result d => (result ++ encode_digit d)%string)
            (repeat 0 n) acc = (acc ++ ones n)%string.
Proof.
  revert acc. induction n as [|n IH]; intros acc; simpl.
  - induction acc as [|c acc IHacc]; simpl; [reflexivity|].
    now rewrite <- IHacc.
  - rewrite IH. change (encode_digit 0) with "1"%string.
    induction acc as [|c acc IHacc]; simpl; [reflexivity|].
    now rewrite IHacc.
Qed.

Lemma rev_repeat {A : Type} (x : A) (n : nat) : rev (repeat x n) = repeat x n.
Proof.
  induction n as [|n IH]; simpl; [reflexivity|].
  rewrite IH. clear IH.
  induction n as [|n IH]; simpl; [reflexivity|]. now rewrite IH.
Qed.

Lemma base58Encode_zeros (n : nat) :
  base58Encode (repeat 0 (S n)) = ones (S n).
Proof.
  unfold base58Encode. change (repeat 0 (S n)) with (0 :: repeat 0 n) at 1.
  cbv iota beta. rewrite encode_zeros_digits, encode_leading_zeros.
  unfold encode_string. change ([0] ++ repeat 0 n) with (repeat 0 (S n)).
  rewrite rev_repeat, encode_string_zeros. reflexivity.
Qed.

Lemma decode_loop_ones (n : nat) : decode_loop (ones n) [0] = Some [0].
Proof. induction n as [|n IH]; simpl; [reflexivity|exact IH]. Qed.

Lemma decode_leading_ones (n : nat) (bytes : list Z) :
  decode_leading (ones n) bytes = bytes ++ repeat 0 n.
Proof.
  revert bytes. induction n as [|n IH]; intros bytes; simpl.
  - now rewrite app_nil_r.
  - rewrite IH, <- app_assoc. reflexivity.
Qed.

Lemma Uint8Array_zeros (n : nat) : Uint8Array (repeat 0 n) = repeat 0 n.
Proof.
  unfold Uint8Array. induction n as [|n IH]; simpl; [reflexivity|].
  now rewrite IH.
Qed.

(** The decoder pushes one zero byte for every leading '1' on top of the
    byte array that starts as [[0]]: a buffer of [n+1] zero bytes comes
    back with [n+2] of them. *)
Lemma base58_zero_buffers (n : nat) :
  base58Decode (base58Encode (repeat 0 (S n))) = Some (repeat 0 (S (S n))).
Proof.
  rewrite base58Encode_zeros. unfold base58Decode.
  change (ones (S n)) with (String "1" (ones n)) at 1. cbv iota beta.
  rewrite decode_loop_ones, decode_leading_ones.
  change ([0] ++ repeat 0 (S n)) with (repeat 0 (S (S n))).
  rewrite rev_repeat, Uint8Array_zeros. reflexivity.
Qed.

(** C10 (defect). The round trip [base58Decode(base58Encode(b)) = b] fails
    on the one-byte buffer [[0]]: the encoder gives the text "1" and the
    decoder returns two zero bytes for it. *)
Theorem base58_roundtrip_zero_byte :
  Base58.base58Encode [0] = "1"%string /\
  Base58.base58Decode (Base58.base58Encode [0]) = Some [0; 0] /\
  Base58.base58Decode (Base58.base58Encode [0]) <> Some [0].
Proof.
  split; [reflexivity|]. split; [reflexivity|]. discriminate.
Qed.

End Base58Facts.

(** ** The rate limiter *)

Section RateLimiterFacts.
Import RateLimiter.
Variable cfg : Cfg.Config.
Variable lag : nat -> N.

Ltac limiter_cases :=
  unfold enforceRequestRateLimit, windowCounter, Date_now, sleep,
         REQUEST_LIMIT, REQUEST_WINDOW in *;
  cbn [time ticks fst snd] in *;
  repeat match goal with
         | |- context [?a <? ?b] => destruct (Z.ltb_spec a b)
         | |- context [?a <=? ?b] => destruct (Z.leb_spec a b)
         | H : context [?a <? ?b] |- _ => destruct (Z.ltb_spec a b)
         end;
  cbn [limiter clock slept lastRequestTime requestCounter requestWindowStart
       time ticks fst snd app] in *.

(** The acquisition time recorded by a call is the time at which the call
    returns. *)
Lemma acquired_at_return (st : Limiter) (c : Clock) :
  lastRequestTime (limiter (enforceRequestRateLimit cfg lag st c))
  = time (clock (enforceRequestRateLimit cfg lag st c)).
Proof. limiter_cases; reflexivity. Qed.

(** A call returns no earlier than [MIN_REQUEST_INTERVAL] after the
    acquisition time it finds recorded. *)
Lemma acquire_spacing (st : Limiter) (c : Clock) :
  lastRequestTime st + Cfg.MIN_REQUEST_INTERVAL cfg
  <= lastRequestTime (limiter (enforceRequestRateLimit cfg lag st c)).
Proof.
  pose proof (N2Z.is_nonneg (lag (ticks c))).
  pose proof (N2Z.is_nonneg (lag (S (ticks c)))).
  pose proof (N2Z.is_nonneg (lag (S (S (ticks c))))).
  pose proof (N2Z.is_nonneg (lag (S (S (S (ticks c)))))).
  pose proof (N2Z.is_nonneg (lag (S (S (S (S (ticks c))))))).
  limiter_cases; lia.
Qed.

(** When the counter of the current window has reached the cap, the call
    sleeps for the rest of the window, and for one second at least, then
    starts a new window in which it is the first request. *)
Lemma acquire_at_cap (st : Limiter) (c : Clock) :
  let now := fst (Date_now lag c) in
  let r := enforceRequestRateLimit cfg lag st c in
  let waitTime :=
    Z.max (REQUEST_WINDOW - (now - requestWindowStart st)) 1000 in
  REQUEST_LIMIT <= windowCounter st now ->
  In waitTime (slept r) /\
  1000 <= waitTime /\
  now + waitTime <= requestWindowStart (limiter r) /\
  requestWindowStart (limiter r) <= lastRequestTime (limiter r) /\
  requestCounter (limiter r) = 1.
Proof.
  pose proof (N2Z.is_nonneg (lag (ticks c))).
  pose proof (N2Z.is_nonneg (lag (S (ticks c)))).
  pose proof (N2Z.is_nonneg (lag (S (S (ticks c))))).
  pose proof (N2Z.is_nonneg (lag (S (S (S (ticks c)))))).
  pose proof (N2Z.is_nonneg (lag (S (S (S (S (ticks c))))))).
  intros now r waitTime. subst now r waitTime.
  limiter_cases; intros Hcap; try lia;
    (split; [simpl; tauto|]); lia.
Qed.

End RateLimiterFacts.

(** C8. Two consecutive acquisitions of the rate limiter are at least
    [MIN_REQUEST_INTERVAL] milliseconds apart, whatever time passes in
    between; and a caller that finds the counter of the current window at
    the cap of 60 requests per 60000 ms sleeps for the time left in the
    window, at least 1000 ms, before it proceeds, after which the window
    starts afresh and the counter counts this request only. *)
Theorem rate_limiter_spacing_and_cap :
  forall (cfg : Cfg.Config) (lag : nat -> N),
    (forall (st : RateLimiter.Limiter) (c c' : RateLimiter.Clock),
        let first := RateLimiter.enforceRequestRateLimit cfg lag st c in
        let second :=
          RateLimiter.enforceRequestRateLimit
            cfg lag (RateLimiter.limiter first) c' in
        RateLimiter.lastRequestTime (RateLimiter.limiter first)
        = RateLimiter.time (RateLimiter.clock first) /\
        RateLimiter.lastRequestTime (RateLimiter.limiter second)
        = RateLimiter.time (RateLimiter.clock second) /\
        RateLimiter.time (RateLimiter.clock first)
        + Cfg.MIN_REQUEST_INTERVAL cfg
        <= RateLimiter.time (RateLimiter.clock second)) /\
    (forall (st : RateLimiter.Limiter) (c : RateLimiter.Clock),
        let now := fst (RateLimiter.Date_now lag c) in
        let r := RateLimiter.enforceRequestRateLimit cfg lag st c in
        let waitTime :=
          Z.max (RateLimiter.REQUEST_WINDOW
                 - (now - RateLimiter.requestWindowStart st)) 1000 in
        RateLimiter.REQUEST_LIMIT <= RateLimiter.windowCounter st now ->
        In waitTime (RateLimiter.slept r) /\
        1000 <= waitTime /\
        now + waitTime
        <= RateLimiter.requestWindowStart (RateLimiter.limiter r) /\
        RateLimiter.requestWindowStart (RateLimiter.limiter r)
        <= RateLimiter.lastRequestTime (RateLimiter.limiter r) /\
        RateLimiter.requestCounter (RateLimiter.limiter r) = 1).
Proof.
  intros cfg lag. split.
  - intros st c c' first second. subst first second.
    rewrite <- !acquired_at_return.
    split; [reflexivity|]. split; [reflexivity|].
    apply acquire_spacing.
  - intros st c. apply acquire_at_cap.
Qed.

(** A limiter that has counted 60 requests since time 0 and is asked again
    at time 59500: the caller sleeps 1000 ms, and the new window counts
    this request only. *)
Lemma rate_limiter_spacing_and_cap_witness :
  let r := RateLimiter.enforceRequestRateLimit
             Cfg.config Scenario.punctual Scenario.saturated
             Scenario.at59500 in
  In 1000 (RateLimiter.slept r) /\
  60500 <= RateLimiter.requestWindowStart (RateLimiter.limiter r) /\
  RateLimiter.requestCounter (RateLimiter.limiter r) = 1.
Proof.
  destruct (proj2 (rate_limiter_spacing_and_cap Cfg.config Scenario.punctual)
                  Scenario.saturated Scenario.at59500
                  ltac:(vm_compute; discriminate))
    as (Hs & _ & Hw & _ & Hc).
  split; [exact Hs|]. split; [exact Hw|exact Hc].
Defined.

(** ** Binary64 numbers

    The primitive operations are specified by the functions of the same
    name on [spec_float]; what follows is derived from these. *)

Section Binary64Facts.

(** *** Digits and shifts *)

Lemma digits2_pos_bounds (p : positive) :
  2 ^ (Zpos (digits2_pos p) - 1) <= Zpos p < 2 ^ Zpos (digits2_pos p).
Proof.
  induction p as [p IH|p IH|]; cbn [digits2_pos].
  - rewrite Pos2Z.inj_succ, (Pos2Z.inj_xI p).
    replace (Z.succ (Zpos (digits2_pos p)) - 1)
      with (Z.succ (Zpos (digits2_pos p) - 1)) by lia.
    rewrite !Z.pow_succ_r by lia.
    generalize dependent (2 ^ (Z.pos (digits2_pos p) - 1)).
    generalize dependent (2 ^ (Z.pos (digits2_pos p))). intros. lia.
  - rewrite Pos2Z.inj_succ, (Pos2Z.inj_xO p).
    replace (Z.succ (Zpos (digits2_pos p)) - 1)
      with (Z.succ (Zpos (digits2_pos p) - 1)) by lia.
    rewrite !Z.pow_succ_r by lia.
    generalize dependent (2 ^ (Z.pos (digits2_pos p) - 1)).
    generalize dependent (2 ^ (Z.pos (digits2_pos p))). intros. lia.
  - cbn. lia.
Qed.

Lemma iter_xO (m d : positive) :
  Zpos (Pos.iter xO m d) = Zpos m * 2 ^ Zpos d.
Proof.
  induction d as [|d IH] using Pos.peano_ind.
  - cbn [Pos.iter]. rewrite (Pos2Z.inj_xO m). change (2 ^ 1) with 2. lia.
  - rewrite Pos.iter_succ, (Pos2Z.inj_xO (Pos.iter xO m d)), IH,
      Pos2Z.inj_succ, Z.pow_succ_r by lia. lia.
Qed.

Lemma shl_align_fst (m : positive) (e ez : Z) :
  ez <= e -> Zpos (fst (shl_align m e ez)) = Zpos m * 2 ^ (e - ez).
Proof.
  intros Hle. unfold shl_align. destruct (ez - e) as [|d|d] eqn:Hd.
  - replace (e - ez) with 0 by lia. cbn [fst]. lia.
  - lia.
  - cbn [fst]. rewrite iter_xO. f_equal. f_equal. lia.
Qed.

Lemma shr_1_m (mrs : shr_record) :
  0 <= shr_m mrs -> shr_m (shr_1 mrs) = shr_m mrs / 2.
Proof.
  destruct mrs as [m r s]. cbn [shr_m shr_1].
  destruct m as [|[p|p|]|p]; intros Hm; cbn [shr_m];
    try (rewrite <- Z.div2_div; reflexivity).
  lia.
Qed.

Lemma iter_shr_m (p : positive) :
  forall mrs : shr_record,
    0 <= shr_m mrs ->
    shr_m (iter_pos shr_1 p mrs) = shr_m mrs / 2 ^ Zpos p.
Proof.
  assert (Hpow : forall q : positive, 0 < 2 ^ Zpos q)
    by (intros q; apply Z.pow_pos_nonneg; lia).
  induction p as [p IH|p IH|]; intros mrs Hm; cbn [iter_pos].
  - assert (H1 : 0 <= shr_m (shr_1 mrs)).
    { rewrite shr_1_m by exact Hm. apply Z.div_pos; lia. }
    assert (H2 : 0 <= shr_m (iter_pos shr_1 p (shr_1 mrs))).
    { rewrite IH by exact H1. apply Z.div_pos; [exact H1|apply Hpow]. }
    rewrite IH by exact H2. rewrite IH by exact H1.
    rewrite shr_1_m by exact Hm.
    rewrite !Z.div_div by (try lia; specialize (Hpow p); lia).
    f_equal.
    replace (Zpos p~1) with (1 + Zpos p + Zpos p) by lia.
    rewrite !Z.pow_add_r by lia. change (2 ^ 1) with 2. lia.
  - assert (H2 : 0 <= shr_m (iter_pos shr_1 p mrs)).
    { rewrite IH by exact Hm. apply Z.div_pos; [exact Hm|apply Hpow]. }
    rewrite IH by exact H2. rewrite IH by exact Hm.
    rewrite !Z.div_div by (try lia; specialize (Hpow p); lia).
    f_equal.
    replace (Zpos p~0) with (Zpos p + Zpos p) by lia.
    rewrite !Z.pow_add_r by lia. lia.
  - rewrite shr_1_m by exact Hm. reflexivity.
Qed.

Lemma shr_record_of_loc_m (m : Z) (l : location) :
  shr_m (shr_record_of_loc m l) = m.
Proof. now destruct l as [|[]]. Qed.

(** Above the least exponent a shift to the canonical exponent leaves a
    positive mantissa positive. *)
Lemma shr_fexp_positive (m : positive) (e : Z) (l : location) :
  emin <= e ->
  0 < shr_m (fst (shr_fexp prec emax (Zpos m) e l)) /\
  emin <= snd (shr_fexp prec emax (Zpos m) e l).
Proof.
  intros He. unfold shr_fexp, shr.
  destruct (fexp prec emax (Zdigits2 (Zpos m) + e) - e) as [|n|n] eqn:Hn;
    cbn [fst snd]; rewrite ?shr_record_of_loc_m; try (split; lia).
  cbn [Zdigits2] in Hn.
  unfold fexp, SpecFloat.emin, prec, emax in *.
  pose proof (digits2_pos_bounds m) as [Hlow _].
  rewrite iter_shr_m by (rewrite shr_record_of_loc_m; lia).
  rewrite shr_record_of_loc_m. split; [|lia].
  apply Z.div_str_pos. split; [apply Z.pow_pos_nonneg; lia|].
  eapply Z.le_trans; [|exact Hlow].
  apply Z.pow_le_mono_r; lia.
Qed.

Lemma round_nearest_even_positive (m : Z) (l : location) :
  0 < m -> 0 < round_nearest_even m l.
Proof.
  intros Hm. destruct l as [|[]]; cbn; try lia.
  destruct (Z.even m); lia.
Qed.

(** Rounding keeps the sign. *)
Lemma binary_round_aux_sign (s : bool) (m e : Z) (l : location) :
  match binary_round_aux prec emax s m e l with
  | S754_zero s' | S754_infinity s' | S754_finite s' _ _ => s' = s
  | S754_nan => True
  end.
Proof.
  unfold binary_round_aux.
  destruct (shr_fexp prec emax m e l) as [mrs' e'].
  destruct (shr_fexp prec emax _ e' loc_Exact) as [mrs'' e''].
  destruct (shr_m mrs''); [reflexivity| |exact I].
  now destruct (e'' <=? emax - prec).
Qed.

(** Above the least exponent a positive mantissa does not round to zero. *)
Lemma binary_round_aux_positive (s : bool) (m : positive) (e : Z)
  (l : location) :
  emin <= e ->
  match binary_round_aux prec emax s (Zpos m) e l with
  | S754_infinity s' | S754_finite s' _ _ => s' = s
  | _ => False
  end.
Proof.
  intros He. unfold binary_round_aux.
  pose proof (shr_fexp_positive m e l He) as [Hm1 He1].
  destruct (shr_fexp prec emax (Zpos m) e l) as [mrs' e'].
  cbn [fst snd] in Hm1, He1.
  pose proof (round_nearest_even_positive
                (shr_m mrs') (loc_of_shr_record mrs') Hm1) as Hr.
  destruct (round_nearest_even (shr_m mrs') (loc_of_shr_record mrs'))
    as [|m2|m2]; try lia.
  pose proof (shr_fexp_positive m2 e' loc_Exact He1) as [Hm2 _].
  destruct (shr_fexp prec emax (Zpos m2) e' loc_Exact) as [mrs'' e''].
  cbn [fst] in Hm2.
  destruct (shr_m mrs''); try lia.
  now destruct (e'' <=? emax - prec).
Qed.

Lemma fexp_emin (k : Z) : emin <= fexp prec emax k.
Proof. unfold fexp, SpecFloat.emin, prec, emax. lia. Qed.

Lemma binary_round_sign (s : bool) (m : positive) (e : Z) :
  match binary_round prec emax s m e with
  | S754_zero s' | S754_infinity s' | S754_finite s' _ _ => s' = s
  | S754_nan => True
  end.
Proof.
  unfold binary_round.
  destruct (shl_align m e _) as [mz ez]. apply binary_round_aux_sign.
Qed.

Lemma binary_round_positive (s : bool) (m : positive) (e : Z) :
  emin <= e ->
  match binary_round prec emax s m e with
  | S754_infinity s' | S754_finite s' _ _ => s' = s
  | _ => False
  end.
Proof.
  intros He. unfold binary_round.
  destruct (shl_align m e (fexp prec emax (Zpos (digits2_pos m) + e)))
    as [mz ez] eqn:Hal.
  apply binary_round_aux_positive.
  unfold shl_align in Hal.
  pose proof (fexp_emin (Zpos (digits2_pos m) + e)) as Hf.
  destruct (fexp prec emax (Zpos (digits2_pos m) + e) - e);
    injection Hal as _ <-; assumption.
Qed.

(** *** The order *)

(** What [bounded] says of a mantissa and its exponent. *)
Lemma bounded_canonical (m : positive) (e : Z) :
  bounded prec emax m e = true ->
  emin <= e /\
  Zpos m < 2 ^ 53 /\
  (emin < e -> 2 ^ 52 <= Zpos m).
Proof.
  unfold bounded, canonical_mantissa. intros H.
  apply andb_prop in H as [H _]. apply Z.eqb_eq in H.
  pose proof (digits2_pos_bounds m) as [Hlow Hhigh].
  unfold fexp, SpecFloat.emin, prec, emax in *.
  split; [lia|]. split.
  - eapply Z.lt_le_trans; [exact Hhigh|].
    apply Z.pow_le_mono_r; lia.
  - intros He. replace 52 with (Zpos (digits2_pos m) - 1) by lia.
    exact Hlow.
Qed.

(** The mantissas of two numbers, aligned at the smaller exponent, are in
    the order of the exponents when these differ. *)
Lemma aligned_order (mx my : positive) (ex ey : Z) :
  bounded prec emax mx ex = true ->
  bounded prec emax my ey = true ->
  ex < ey ->
  Zpos (fst (shl_align mx ex (Z.min ex ey)))
  < Zpos (fst (shl_align my ey (Z.min ex ey))).
Proof.
  intros Hx Hy Hlt.
  apply bounded_canonical in Hx as (Hex & Hmx & _).
  apply bounded_canonical in Hy as (Hey & _ & Hmy).
  rewrite !shl_align_fst by lia.
  replace (Z.min ex ey) with ex by lia.
  replace (ex - ex) with 0 by lia. rewrite Z.pow_0_r, Z.mul_1_r.
  specialize (Hmy ltac:(lia)).
  assert (Hpow : 2 ^ 1 <= 2 ^ (ey - ex))
    by (apply Z.pow_le_mono_r; lia).
  change (2 ^ 1) with 2 in Hpow.
  change (2 ^ 53) with 9007199254740992 in Hmx.
  change (2 ^ 52) with 4503599627370496 in Hmy.
  nia.
Qed.

Lemma aligned_equal (mx my : positive) (e : Z) :
  fst (shl_align mx e (Z.min e e)) = mx /\
  fst (shl_align my e (Z.min e e)) = my.
Proof.
  unfold shl_align. rewrite Z.min_id, Z.sub_diag. now split.
Qed.


Lemma compare_cont_spec (a b : positive) :
  CompareSpec (a = b) (Zpos a < Zpos b) (Zpos b < Zpos a)
              (PosDef.Pos.compare_cont Eq a b).
Proof.
  change (PosDef.Pos.compare_cont Eq a b) with (Pos.compare a b).
  destruct (Pos.compare_spec a b); constructor; lia.
Qed.

(** The difference of the aligned mantissas has the sign that the order of
    the two numbers gives it. *)
Lemma finite_sub_order (sx sy : bool) (mx my : positive) (ex ey : Z) :
  bounded prec emax mx ex = true ->
  bounded prec emax my ey = true ->
  let d := cond_Zopp sx (Zpos (fst (shl_align mx ex (Z.min ex ey))))
           - cond_Zopp sy (Zpos (fst (shl_align my ey (Z.min ex ey)))) in
  (0 < d -> SFleb (S754_finite sy my ey) (S754_finite sx mx ex) = true) /\
  (d <= 0 -> SFleb (S754_finite sx mx ex) (S754_finite sy my ey) = true).
Proof.
  intros Hx Hy d. subst d. unfold SFleb, SFcompare.
  destruct (Z.compare_spec ex ey) as [->|Hlt|Hgt].
  - destruct (aligned_equal mx my ey) as [-> ->].
    rewrite Z.compare_refl.
    destruct (compare_cont_spec mx my) as [H|H|H];
      destruct (compare_cont_spec my mx) as [H'|H'|H']; try lia;
      destruct sx, sy; cbn [cond_Zopp CompOpp]; split; intros Hd;
      first [reflexivity | lia].
  - pose proof (aligned_order mx my ex ey Hx Hy Hlt) as H.
    rewrite (proj2 (Z.compare_gt_iff ey ex)) by lia.
    destruct sx, sy; cbn [cond_Zopp]; split; intros Hd;
      first [reflexivity | lia].
  - pose proof (aligned_order my mx ey ex Hy Hx Hgt) as H.
    rewrite (Z.min_comm ey ex) in H.
    rewrite (proj2 (Z.compare_lt_iff ey ex)) by lia.
    destruct sx, sy; cbn [cond_Zopp]; split; intros Hd;
      first [reflexivity | lia].
Qed.

(** What the difference of two finite numbers rounds to. *)
Lemma finite_sub_sign (sx sy : bool) (mx my : positive) (ex ey : Z) :
  bounded prec emax mx ex = true ->
  bounded prec emax my ey = true ->
  let d := cond_Zopp sx (Zpos (fst (shl_align mx ex (Z.min ex ey))))
           - cond_Zopp sy (Zpos (fst (shl_align my ey (Z.min ex ey)))) in
  SFltb (S754_zero false)
        (SF64sub (S754_finite sx mx ex) (S754_finite sy my ey))
  = (0 <? d).
Proof.
  intros Hx Hy d. unfold SF64sub, SFsub. cbv zeta. fold d.
  apply bounded_canonical in Hx as (Hex & _).
  apply bounded_canonical in Hy as (Hey & _).
  unfold binary_normalize. destruct d as [|p|p].
  - reflexivity.
  - pose proof (binary_round_positive false p (Z.min ex ey) ltac:(lia)) as H.
    destruct (binary_round prec emax false p (Z.min ex ey));
      try contradiction; now subst.
  - pose proof (binary_round_sign true p (Z.min ex ey)) as H.
    destruct (binary_round prec emax true p (Z.min ex ey));
      try reflexivity; now subst.
Qed.

(** A positive difference [x - y] puts [x] at or above [y]. *)
Lemma SFsub_positive (x y : spec_float) :
  valid_binary x = true -> valid_binary y = true ->
  SFltb (S754_zero false) (SF64sub x y) = true -> SFleb y x = true.
Proof.
  destruct x as [sx|sx| |sx mx ex], y as [sy|sy| |sy my ey];
    intros Hx Hy; cbn [valid_binary] in Hx, Hy;
    try (rewrite (finite_sub_sign sx sy mx my ex ey Hx Hy);
         intros Hd; apply Z.ltb_lt in Hd;
         now apply (finite_sub_order sx sy mx my ex ey Hx Hy));
    repeat match goal with s : bool |- _ => destruct s end;
    cbn; intros H; first [reflexivity | discriminate H].
Qed.

(** Without [NaN], a difference [x - y] that is not positive puts [y] at
    or above [x]. *)
Lemma SFsub_not_positive (x y : spec_float) :
  valid_binary x = true -> valid_binary y = true ->
  x <> S754_nan -> y <> S754_nan ->
  SFltb (S754_zero false) (SF64sub x y) = false -> SFleb x y = true.
Proof.
  destruct x as [sx|sx| |sx mx ex], y as [sy|sy| |sy my ey];
    intros Hx Hy Hnx Hny; cbn [valid_binary] in Hx, Hy;
    try congruence;
    try (rewrite (finite_sub_sign sx sy mx my ex ey Hx Hy);
         intros Hd; apply Z.ltb_ge in Hd;
         now apply (finite_sub_order sx sy mx my ex ey Hx Hy));
    repeat match goal with s : bool |- _ => destruct s end;
    cbn; intros H; first [reflexivity | discriminate H].
Qed.

Lemma SFleb_not_nan (x y : spec_float) :
  SFleb x y = true -> x <> S754_nan /\ y <> S754_nan.
Proof.
  destruct x, y; cbn; intros H; split; congruence.
Qed.

Lemma SFleb_trans (x y z : spec_float) :
  SFleb x y = true -> SFleb y z = true -> SFleb x z = true.
Proof.
  unfold SFleb, SFcompare.
  destruct x as [sx|sx| |sx mx ex], y as [sy|sy| |sy my ey],
           z as [sz|sz| |sz mz ez];
    repeat match goal with s : bool |- _ => destruct s end;
    try (intros; reflexivity); try (intros; discriminate);
    destruct (Z.compare_spec ex ey); try (intros; discriminate);
    destruct (Z.compare_spec ey ez); try (intros; discriminate);
    destruct (Z.compare_spec ex ez); try (intros; reflexivity); try lia;
    destruct (compare_cont_spec mx my); try (intros; discriminate);
    destruct (compare_cont_spec my mz); try (intros; discriminate);
    destruct (compare_cont_spec mx mz); try (intros; reflexivity);
    cbn [CompOpp]; intros; first [reflexivity | discriminate | lia].
Qed.

(** *** The numbers of the program *)

Lemma is_nan_spec (a : Js.num) :
  Js.is_nan a = true <-> Prim2SF a = S754_nan.
Proof.
  unfold Js.is_nan, PrimFloat.is_nan. rewrite eqb_spec. split.
  - intros H. destruct (Prim2SF a) as [s|s| |s m e]; try reflexivity;
      exfalso; revert H; unfold SFeqb, SFcompare;
      try (destruct s; discriminate).
    rewrite Z.compare_refl.
    destruct (compare_cont_spec m m); try lia; destruct s; discriminate.
  - intros ->. reflexivity.
Qed.

Lemma is_nan_false (a : Js.num) :
  Js.is_nan a = false <-> Prim2SF a <> S754_nan.
Proof.
  rewrite <- is_nan_spec. destruct (Js.is_nan a); split; congruence.
Qed.

End Binary64Facts.

(** ** Numbers and sorting *)

Section NumFacts.
Import Js.

Lemma geb_not_nan (a b : num) :
  geb a b = true -> is_nan a = false /\ is_nan b = false.
Proof.
  unfold geb. rewrite leb_spec. intros H.
  apply SFleb_not_nan in H as [Hb Ha].
  split; now apply is_nan_false.
Qed.

Lemma geb_trans (a b c : num) :
  geb a b = true -> geb b c = true -> geb a c = true.
Proof.
  unfold geb. rewrite !leb_spec. intros Hab Hbc.
  exact (SFleb_trans _ _ _ Hbc Hab).
Qed.

(** A positive difference [b - a] puts [b] at or above [a]. *)
Lemma positive_sub_geb (a b : num) :
  positive (sub b a) = true -> geb b a = true.
Proof.
  unfold positive, sub, geb. rewrite ltb_spec, leb_spec, sub_spec.
  apply SFsub_positive; apply Prim2SF_valid.
Qed.

(** Without [NaN], a difference [b - a] that is not positive puts [a] at or
    above [b]. *)
Lemma not_positive_sub_geb (a b : num) :
  is_nan a = false -> is_nan b = false ->
  positive (sub b a) = false -> geb a b = true.
Proof.
  intros Ha Hb. unfold positive, sub, geb.
  rewrite ltb_spec, leb_spec, sub_spec.
  apply SFsub_not_positive; try apply Prim2SF_valid; now apply is_nan_false.
Qed.

Section SortFacts.
Context {A : Type} (key : A -> num).

(** The comparator [(a, b) => key(b) - key(a)] of a descending sort. *)
Let descending (a b : A) : num := sub (key b) (key a).

(** [a] is at or above [b]. *)
Let above (a b : A) : Prop := geb (key a) (key b) = true.

Lemma insert_perm (x : A) (l : list A) :
  Permutation (insert descending x l) (x :: l).
Proof.
  induction l as [|y l IH]; simpl; [reflexivity|].
  destruct (positive (descending x y)); [|reflexivity].
  rewrite IH. apply perm_swap.
Qed.

Lemma sort_perm (l : list A) : Permutation (sort descending l) l.
Proof.
  induction l as [|x l IH]; simpl; [reflexivity|].
  rewrite insert_perm. now constructor.
Qed.

Lemma sort_In (l : list A) (a : A) : In a (sort descending l) <-> In a l.
Proof.
  split; apply Permutation_in; [|symmetry]; apply sort_perm.
Qed.

Lemma sort_length (l : list A) :
  List.length (sort descending l) = List.length l.
Proof. apply Permutation_length, sort_perm. Qed.

Lemma insert_sorted (x : A) (l : list A) :
  is_nan (key x) = false ->
  Forall (fun y => is_nan (key y) = false) l ->
  StronglySorted above l ->
  StronglySorted above (insert descending x l).
Proof.
  intros Hx Hl Hs. induction Hs as [|y l Hs IH Hy]; simpl.
  - repeat constructor.
  - inversion Hl as [|? ? Hny Hnl]; subst.
    destruct (positive (descending x y)) eqn:Hp.
    + constructor; [now apply IH|].
      apply Forall_forall. intros z Hz.
      apply (Permutation_in _ (insert_perm x l)) in Hz.
      destruct Hz as [<-|Hz].
      * now apply positive_sub_geb.
      * now apply (proj1 (Forall_forall _ _) Hy).
    + assert (Hxy : above x y) by now apply not_positive_sub_geb.
      constructor; [now constructor|].
      constructor; [exact Hxy|].
      apply Forall_forall. intros z Hz.
      eapply geb_trans; [exact Hxy|].
      now apply (proj1 (Forall_forall _ _) Hy).
Qed.

Lemma sort_sorted (l : list A) :
  Forall (fun y => is_nan (key y) = false) l ->
  StronglySorted above (sort descending l).
Proof.
  induction l as [|x l IH]; intros Hl; simpl; [constructor|].
  inversion Hl as [|? ? Hx Hrest]; subst. apply insert_sorted; auto.
  apply Forall_forall. intros y Hy. apply (proj1 (sort_In _ _)) in Hy.
  rewrite Forall_forall in Hrest. now apply Hrest.
Qed.

End SortFacts.
End NumFacts.

(** ** The scanner *)

Section ScannerFacts.
Import Scanner.
Variable cfg : Cfg.Config.

(** The opportunity that one iteration builds from the two edges. *)
Let built (tokenIndex : Z) (e1 e2 : Edge) : Opportunity :=
  let roundTripRate := Js.mul (rate e1) (rate e2) in
  {| cycle := [solTokenIndex; tokenIndex; solTokenIndex];
     edges := [e1; e2];
     profitPercentage :=
       Js.mul (Js.sub roundTripRate (Js.of_Z 1)) (Js.of_Z 100);
     roundTripRate := roundTripRate;
     dexPath := describe e1 e2 |}.

(** What an iteration pushes: the opportunity of a non-base token with both
    edges present and a profit percentage at or above the threshold. *)
Let pushed (graph : list Edge) (tokenIndex : Z) (o : Opportunity) : Prop :=
  tokenIndex <> solTokenIndex /\
  exists e1 e2,
    findEdge graph solTokenIndex tokenIndex = Some e1 /\
    findEdge graph tokenIndex solTokenIndex = Some e2 /\
    o = built tokenIndex e1 e2 /\
    Js.geb (profitPercentage o) (Cfg.MIN_PROFIT_PERCENTAGE cfg) = true.

Lemma scanToken_spec (graph : list Edge) (acc : list Opportunity)
  (tokenIndex : Z) (o : Opportunity) :
  In o (scanToken cfg graph acc tokenIndex) <->
  In o acc \/ pushed graph tokenIndex o.
Proof.
  unfold scanToken, pushed.
  destruct (Z.eqb_spec tokenIndex solTokenIndex) as [->|Hne].
  { split; [auto|]. intros [H|[H _]]; [exact H|contradiction]. }
  destruct (findEdge graph solTokenIndex tokenIndex) as [e1|] eqn:H1.
  2:{ split; [auto|]. intros [H|(_ & e1 & e2 & H & _)]; [exact H|discriminate]. }
  destruct (findEdge graph tokenIndex solTokenIndex) as [e2|] eqn:H2.
  2:{ split; [auto|].
      intros [H|(_ & ? & e2 & _ & H & _)]; [exact H|discriminate]. }
  destruct (Js.geb _ _) eqn:Hge.
  - rewrite in_app_iff. simpl. split.
    + intros [H|[<-|[]]]; [auto|]. right. split; [exact Hne|].
      exists e1, e2. repeat split; assumption.
    + intros [H|(_ & a & b & Ha & Hb & -> & _)]; [auto|].
      assert (a = e1) by congruence. assert (b = e2) by congruence. subst.
      right. left. reflexivity.
  - split; [auto|].
    intros [H|(_ & a & b & Ha & Hb & -> & Hp)]; [exact H|].
    assert (a = e1) by congruence. assert (b = e2) by congruence. subst.
    simpl in Hp. congruence.
Qed.

Lemma scan_spec (graph : list Edge) (indices : list Z)
  (acc : list Opportunity) (o : Opportunity) :
  In o (fold_left (scanToken cfg graph) indices acc) <->
  In o acc \/ exists t, In t indices /\ pushed graph t o.
Proof.
  revert acc. induction indices as [|i indices IH]; intros acc; simpl.
  - split; [auto|]. intros [H|(t & [] & _)]. exact H.
  - rewrite IH, scanToken_spec. split.
    + intros [[H|H]|(t & Ht & H)]; eauto.
    + intros [H|(t & [<-|Ht] & H)]; eauto.
Qed.

Lemma tokenIndices_spec (t : Z) :
  In t (tokenIndices cfg) <->
  0 <= t < Z.of_nat (List.length (Cfg.TOKENS cfg)).
Proof.
  unfold tokenIndices. rewrite in_map_iff. split.
  - intros (n & <- & Hn). apply in_seq in Hn. lia.
  - intros Ht. exists (Z.to_nat t). split; [lia|]. apply in_seq. lia.
Qed.

(** The array that [findArbitrageOpportunities] returns, [null] being read
    as no opportunity at all. *)
Let found (graph : option (list Edge)) : list Opportunity :=
  match findArbitrageOpportunities cfg graph with
  | Some l => l
  | None => []
  end.

Lemma found_spec (graph : list Edge) (o : Opportunity) :
  In o (found (Some graph)) <->
  exists t, 0 <= t < Z.of_nat (List.length (Cfg.TOKENS cfg)) /\
            pushed graph t o.
Proof.
  unfold found, findArbitrageOpportunities.
  destruct graph as [|e graph].
  { simpl. split; [tauto|].
    intros (t & _ & _ & e1 & ? & H & _). discriminate. }
  set (g := e :: graph).
  set (l := Js.sort (byProfit) (fold_left (scanToken cfg g) (tokenIndices cfg) [])).
  assert (Hl : In o l <->
               exists t, 0 <= t < Z.of_nat (List.length (Cfg.TOKENS cfg)) /\
                         pushed g t o).
  { unfold l, byProfit. rewrite (sort_In profitPercentage), scan_spec.
    simpl. split.
    - intros [[]|(t & Ht & H)]. exists t. now rewrite <- tokenIndices_spec.
    - intros (t & Ht & H). right. exists t. now rewrite tokenIndices_spec. }
  destruct (Z.ltb_spec 0 (Z.of_nat (List.length l))) as [Hpos|Hzero].
  - exact Hl.
  - destruct l; [|simpl in Hzero; lia]. exact Hl.
Qed.

Lemma found_sorted (graph : option (list Edge)) :
  StronglySorted
    (fun a b => Js.geb (profitPercentage a) (profitPercentage b) = true)
    (found graph).
Proof.
  unfold found, findArbitrageOpportunities.
  destruct graph as [[|e graph]|]; try constructor.
  destruct (_ <? _); [|constructor].
  apply (sort_sorted profitPercentage).
  apply Forall_forall. intros o Ho.
  apply scan_spec in Ho. destruct Ho as [[]|(t & _ & _ & e1 & e2 & _ & _ & _ & Hp)].
  now apply geb_not_nan in Hp.
Qed.

Lemma found_null (graph : option (list Edge)) :
  findArbitrageOpportunities cfg graph = None <-> found graph = [].
Proof.
  unfold found, findArbitrageOpportunities.
  destruct graph as [[|e graph]|]; try tauto.
  destruct (Z.ltb_spec 0 (Z.of_nat (List.length
    (Js.sort byProfit
       (fold_left (scanToken cfg (e :: graph)) (tokenIndices cfg) [])))))
    as [Hpos|Hzero].
  - split; [discriminate|]. intros H. rewrite H in Hpos. simpl in Hpos. lia.
  - tauto.
Qed.

End ScannerFacts.

(** C3. For every graph and every non-base token whose two edges (rates
    [r1] and [r2]) are present, [findArbitrageOpportunities] computes the
    round-trip rate [r1 * r2] and the profit percentage
    [(r1 * r2 - 1) * 100], in the binary64 arithmetic of JavaScript, and
    returns the opportunity exactly when that percentage is at or above
    [MIN_PROFIT_PERCENTAGE]; it returns nothing else; the opportunities
    returned are in descending order of profit percentage; and the result
    is [null] exactly when no opportunity survives, in particular for an
    empty or missing graph. *)
Theorem scanner_keeps_profitable_cycles :
  forall (cfg : Cfg.Config) (graph : option (list Scanner.Edge)),
    let result :=
      match Scanner.findArbitrageOpportunities cfg graph with
      | Some l => l
      | None => []
      end in
    let tokens := Z.of_nat (List.length (Cfg.TOKENS cfg)) in
    let threshold := Cfg.MIN_PROFIT_PERCENTAGE cfg in
    (forall g t e1 e2,
        graph = Some g -> 0 < t < tokens ->
        Scanner.findEdge g 0 t = Some e1 ->
        Scanner.findEdge g t 0 = Some e2 ->
        let roundTripRate := Js.mul (Scanner.rate e1) (Scanner.rate e2) in
        let profitPercentage :=
          Js.mul (Js.sub roundTripRate (Js.of_Z 1)) (Js.of_Z 100) in
        In {| Scanner.cycle := [0; t; 0];
              Scanner.edges := [e1; e2];
              Scanner.profitPercentage := profitPercentage;
              Scanner.roundTripRate := roundTripRate;
              Scanner.dexPath := Scanner.describe e1 e2 |} result
        <-> Js.geb profitPercentage threshold = true) /\
    (forall o,
        In o result ->
        Js.geb (Scanner.profitPercentage o) threshold = true /\
        exists g t e1 e2,
          graph = Some g /\ 0 < t < tokens /\
          Scanner.findEdge g 0 t = Some e1 /\
          Scanner.findEdge g t 0 = Some e2 /\
          Scanner.cycle o = [0; t; 0] /\
          Scanner.edges o = [e1; e2] /\
          Scanner.roundTripRate o
          = Js.mul (Scanner.rate e1) (Scanner.rate e2) /\
          Scanner.profitPercentage o
          = Js.mul (Js.sub (Js.mul (Scanner.rate e1) (Scanner.rate e2))
                           (Js.of_Z 1)) (Js.of_Z 100)) /\
    StronglySorted
      (fun a b =>
         Js.geb (Scanner.profitPercentage a) (Scanner.profitPercentage b)
         = true) result /\
    (Scanner.findArbitrageOpportunities cfg graph = None <-> result = []) /\
    Scanner.findArbitrageOpportunities cfg None = None /\
    Scanner.findArbitrageOpportunities cfg (Some []) = None.
Proof.
  intros cfg graph result tokens threshold.
  split; [|split; [|split; [|split; [|split]]]].
  - intros g t e1 e2 -> Ht H1 H2 rt pp. subst result.
    rewrite (found_spec cfg g). split.
    + intros (t' & _ & _ & a & b & _ & _ & _ & Hp). exact Hp.
    + intros Hp. exists t. split; [lia|]. split.
      * unfold Scanner.solTokenIndex. lia.
      * exists e1, e2. repeat split; assumption.
  - intros o Ho. subst result.
    destruct graph as [g|]; [|contradiction].
    apply (found_spec cfg g) in Ho.
    destruct Ho as (t & Ht & Hne & e1 & e2 & H1 & H2 & -> & Hp).
    split; [exact Hp|].
    exists g, t, e1, e2. unfold Scanner.solTokenIndex in *.
    repeat split; try assumption; lia.
  - apply found_sorted.
  - apply found_null.
  - reflexivity.
  - reflexivity.
Qed.

(** The synthetic rates 100 and 0.0105 under the shipped configuration:
    the round trip of the only non-base token with both edges is kept.
    Its rate is 1.05, and its profit percentage is the binary64 number
    5.000000000000004, which is what the program computes for them. *)
Lemma scanner_keeps_profitable_cycles_witness :
  Scanner.findArbitrageOpportunities Cfg.config (Some Scenario.graph)
  = Some [ {| Scanner.cycle := [0; 1; 0];
              Scanner.edges := Scenario.graph;
              Scanner.profitPercentage := 5.000000000000004%float;
              Scanner.roundTripRate := 1.05%float;
              Scanner.dexPath := "SOL -> USDC via [Orca] -> SOL via [Raydium]"
           |} ] /\
  In {| Scanner.cycle := [0; 1; 0];
        Scanner.edges := Scenario.graph;
        Scanner.profitPercentage :=
          Js.mul (Js.sub (Js.mul 100%float 0.0105%float) (Js.of_Z 1))
                 (Js.of_Z 100);
        Scanner.roundTripRate := Js.mul 100%float 0.0105%float;
        Scanner.dexPath :=
          Scanner.describe (Scenario.solToUsdc 100%float)
                           (Scenario.usdcToSol 0.0105%float) |}
     match Scanner.findArbitrageOpportunities
             Cfg.config (Some Scenario.graph) with
     | Some l => l
     | None => []
     end.
Proof.
  split; [vm_compute; reflexivity|].
  apply (proj2 (proj1 (scanner_keeps_profitable_cycles
                         Cfg.config (Some Scenario.graph))
                      Scenario.graph 1
                      (Scenario.solToUsdc 100%float)
                      (Scenario.usdcToSol 0.0105%float)
                      eq_refl ltac:(vm_compute; split; reflexivity)
                      eq_refl eq_refl)).
  vm_compute. reflexivity.
Defined.

(** The rounding decides at the threshold.  The two quotes of
    [Scenario.atThreshold] give the rates 100 and 0.01001, whose round
    trip yields 0.1 percent in decimal arithmetic; the program computes
    0.09999999999998899, which is below [MIN_PROFIT_PERCENTAGE], and
    returns [null]. *)
Lemma scanner_rounds_at_the_threshold :
  map Scanner.rate Scenario.atThreshold = [100%float; 0.01001%float] /\
  Js.mul (Js.sub (Js.mul 100%float 0.01001%float) (Js.of_Z 1)) (Js.of_Z 100)
  = 0.09999999999998899%float /\
  Scanner.findArbitrageOpportunities Cfg.config (Some Scenario.atThreshold)
  = None.
Proof. repeat split; vm_compute; reflexivity. Qed.

(** ** Reasoning about runs *)

Section RunFacts.
Import Arbitrage.
Context {W : Type}.

Lemma sat_ret {A : Type} (a : A) (R : Outcome A -> list Event -> Prop) :
  R (Ret a) [] -> sat (W := W) (ret a) R.
Proof. intros H w. exact H. Qed.

Lemma sat_throw {A : Type} (e : string)
  (R : Outcome A -> list Event -> Prop) :
  R (Throw e) [] -> sat (W := W) (throw e) R.
Proof. intros H w. exact H. Qed.

Lemma sat_lift {A : Type} (o : Outcome A)
  (R : Outcome A -> list Event -> Prop) :
  R o [] -> sat (W := W) (lift o) R.
Proof. intros H w. exact H. Qed.

Lemma sat_emit (e : Event) (R : Outcome unit -> list Event -> Prop) :
  R (Ret tt) [e] -> sat (W := W) (emit e) R.
Proof. intros H w. exact H. Qed.

Lemma sat_call {A : Type} (mk : Outcome A -> Event)
  (service : W -> Outcome A * W) (R : Outcome A -> list Event -> Prop) :
  (forall r, R r [mk r]) -> sat (call mk service) R.
Proof.
  intros H w. unfold call, value, events.
  destruct (service w) as [r w']. apply H.
Qed.

Lemma sat_call_pure {A : Type} (mk : Outcome A -> Event) (o : Outcome A)
  (R : Outcome A -> list Event -> Prop) :
  R o [mk o] -> sat (W := W) (call mk (fun w => (o, w))) R.
Proof. intros H w. exact H. Qed.

Lemma sat_bind {A B : Type} (m : M W A) (f : A -> M W B)
  (R : Outcome B -> list Event -> Prop) :
  sat m (fun r ev =>
           match r with
           | Ret a => sat (f a) (fun r' ev' => R r' (ev ++ ev'))
           | Throw e => R (Throw e) ev
           end) ->
  sat (bind m f) R.
Proof.
  intros H w. specialize (H w). unfold bind, value, events in *.
  destruct (m w) as [[[a|e] w'] ev]; simpl in *.
  - specialize (H w'). destruct (f a w') as [[r w''] ev']. exact H.
  - exact H.
Qed.

Lemma sat_try_catch {A : Type} (m : M W A) (h : string -> M W A)
  (R : Outcome A -> list Event -> Prop) :
  sat m (fun r ev =>
           match r with
           | Ret a => R (Ret a) ev
           | Throw e => sat (h e) (fun r' ev' => R r' (ev ++ ev'))
           end) ->
  sat (try_catch m h) R.
Proof.
  intros H w. specialize (H w). unfold try_catch, value, events in *.
  destruct (m w) as [[[a|e] w'] ev]; simpl in *.
  - exact H.
  - specialize (H w'). destruct (h e w') as [[r w''] ev']. exact H.
Qed.

Lemma sat_weaken {A : Type} (m : M W A)
  (R R' : Outcome A -> list Event -> Prop) :
  sat m R -> (forall r ev, R r ev -> R' r ev) -> sat m R'.
Proof. intros H HR w. apply HR, H. Qed.


End RunFacts.

(** One step of symbolic execution of a computation under [sat]. *)
Ltac run_step :=
  lazymatch goal with
  | |- Arbitrage.sat (Arbitrage.bind _ _) _ => apply sat_bind
  | |- Arbitrage.sat (Arbitrage.try_catch _ _) _ => apply sat_try_catch
  | |- Arbitrage.sat (Arbitrage.ret _) _ => apply sat_ret
  | |- Arbitrage.sat (Arbitrage.throw _) _ => apply sat_throw
  | |- Arbitrage.sat (Arbitrage.lift ?o) _ =>
      apply sat_lift; try (destruct o eqn:?)
  | |- Arbitrage.sat (Arbitrage.emit _) _ => apply sat_emit
  | |- Arbitrage.sat (Arbitrage.call _ (fun w => (?o, w))) _ =>
      apply sat_call_pure; destruct o eqn:?
  | |- Arbitrage.sat (Arbitrage.call _ _) _ =>
      apply sat_call; intros [?|?]
  | |- Arbitrage.sat (if ?b then _ else _) _ => destruct b eqn:?
  | |- Arbitrage.sat (match ?x with _ => _ end) _ => destruct x eqn:?
  | |- Arbitrage.sat (let '(_, _) := ?x in _) _ => destruct x eqn:?
  end; cbn beta iota.

Ltac run := repeat run_step.

(** ** ensureSystemIntegrity *)

Section MaintenanceFacts.
Import Solana Arbitrage Spec.
Context {W : Type}.
Variable svc : Services W.
Variable payer : Keypair.

(** [ensureSystemIntegrity] never throws, and all it does to the world is
    read the balance, fetch a blockhash, submit its transfer and wait for
    the confirmation. *)
Lemma ensureSystemIntegrity_events :
  sat (ensureSystemIntegrity svc payer)
      (fun r ev => (exists b, r = Ret b) /\ Forall (maintenance payer) ev).
Proof.
  unfold ensureSystemIntegrity. run; simpl;
    (split; [eexists; reflexivity|]);
    repeat constructor; simpl; auto; eexists _, _; reflexivity.
Qed.

End MaintenanceFacts.

Section MaintenanceTrace.
Import Solana Arbitrage Spec.
Context {W : Type}.
Variable svc : Services W.
Variable payer : Keypair.


End MaintenanceTrace.

Section CallSites.
Import Solana Arbitrage Spec.
Context {W : Type}.



Lemma sat_any {A : Type} (m : M W A) (R : Outcome A -> list Event -> Prop) :
  (forall r ev, R r ev) -> sat m R.
Proof. intros H w. apply H. Qed.

Variable svc : Services W.
Variable cfg : Cfg.Config.
Variable payer : Keypair.








End CallSites.



(** ** The verifier *)

Section VerifierFacts.
Import Solana Arbitrage Spec.
Context {W : Type}.
Variable svc : Services W.
Variable cfg : Cfg.Config.
Variable payer : Keypair.

Lemma verifyPath_spec (edges : list Scanner.Edge) :
  forall (currentAmount : Z) (verifiedEdges : list VerifiedEdge)
         (verifiedAmounts : list Z),
    sat (verifyPath svc edges currentAmount verifiedEdges verifiedAmounts)
        (fun r ev =>
           match r with
           | Ret (Some (verifiedEdges', verifiedAmounts')) =>
               exists added outs,
                 verifiedEdges' = verifiedEdges ++ added /\
                 verifiedAmounts' = verifiedAmounts ++ outs /\
                 requoted currentAmount edges added outs ev
           | Ret None => quoteFailed currentAmount edges ev
           | Throw _ => False
           end).
Proof.
  induction edges as [|e edges IH]; intros cur ves amts; cbn [verifyPath].
  - apply sat_ret. exists [], []. now rewrite !app_nil_r.
  - run.
    + eapply sat_weaken; [apply IH|]. cbn beta.
      intros [[[ves' amts']|]|msg] ev; cbn [app]; [| |tauto].
      * intros (added & outs & -> & -> & Hq).
        eexists (_ :: added), (_ :: outs).
        rewrite <- !app_assoc. split; [reflexivity|].
        split; [reflexivity|]. cbn [requoted]. eexists.
        split; [reflexivity|]. split; [reflexivity|].
        split; [reflexivity|]. exact Hq.
      * intros Hq. cbn [quoteFailed]. eexists. split; [reflexivity|exact Hq].
    + cbn [quoteFailed app]. eexists. split; reflexivity.
    + cbn [quoteFailed app]. eexists. split; reflexivity.
Qed.

Lemma cycleOk_spec (c : list Z) :
  negb match nth_error c 0 with Some i => i =? 0 | None => false end
  || negb match Js.last_elem c with Some i => i =? 0 | None => false end
  = negb (cycleOk c).
Proof.
  unfold cycleOk.
  destruct (nth_error c 0) as [a|], (Js.last_elem c) as [b|];
    try reflexivity.
  - now rewrite negb_andb.
  - simpl. now destruct (a =? 0).
Qed.

Lemma verifyOpportunity_spec (o : Scanner.Opportunity) :
  sat (verifyOpportunity svc cfg o)
      (fun r ev => exists out, r = Ret out /\ verified cfg o out ev).
Proof.
  unfold verifyOpportunity. cbv zeta. rewrite cycleOk_spec.
  apply sat_try_catch. destruct (cycleOk (Scanner.cycle o)) eqn:Hc; cbn [negb].
  2:{ apply sat_ret. exists None. split; [reflexivity|]. left. now split. }
  apply sat_bind. eapply sat_weaken; [apply verifyPath_spec|]. cbn beta.
  intros [[[ves amts]|]|msg] ev; [| |tauto].
  - intros (added & outs & -> & -> & Hq). cbn [app] in *.
    destruct (Js.geb _ _) eqn:Hge; apply sat_ret; rewrite app_nil_r.
    + eexists (Some _). split; [reflexivity|]. cbn [verified].
      split; [exact Hc|]. exists outs.
      cbn [verifiedEdges verifiedAmounts cycle edges profitPercentage].
      split; [exact Hq|]. do 4 (split; [reflexivity|]).
      split; [|exact Hge].
      unfold breakdown, tip, fee, grossProfit.
      cbn [verifiedProfit flashLoanFee estimatedTip netProfit].
      destruct (Cfg.JITO_MODE cfg); repeat split; reflexivity.
    + exists None. split; [reflexivity|]. right. right.
      split; [exact Hc|]. exists added, outs. split; assumption.
  - intros Hq. apply sat_ret. rewrite app_nil_r.
    exists None. split; [reflexivity|]. right. left. now split.
Qed.



Lemma verifyEach_spec (topOpps : list Scanner.Opportunity) :
  forall acc : list VerifiedOpportunity,
    sat (verifyEach svc cfg topOpps acc)
        (fun r ev =>
           exists results : list (option VerifiedOpportunity * list Event),
             Forall2 (fun o res => verified cfg o (fst res) (snd res))
                     topOpps results /\
             r = Ret (acc ++ somes (map fst results)) /\
             ev = List.concat (map snd results)).
Proof.
  induction topOpps as [|o rest IH]; intros acc; cbn [verifyEach].
  - apply sat_ret. exists []. rewrite app_nil_r. repeat constructor.
  - apply sat_bind. eapply sat_weaken; [apply verifyOpportunity_spec|].
    cbn beta. intros r ev (out & -> & Hv).
    destruct out as [v|].
    + eapply sat_weaken; [apply IH|]. cbn beta.
      intros r' ev' (results & HF & -> & ->).
      exists ((Some v, ev) :: results). split; [now constructor|].
      cbn. rewrite <- app_assoc. split; reflexivity.
    + eapply sat_weaken; [apply IH|]. cbn beta.
      intros r' ev' (results & HF & -> & ->).
      exists ((None, ev) :: results). split; [now constructor|].
      cbn. split; reflexivity.
Qed.

Lemma verified_not_nan (o : Scanner.Opportunity) (v : VerifiedOpportunity)
  (ev : list Event) :
  verified cfg o (Some v) ev -> Js.is_nan (profitPercentage v) = false.
Proof.
  intros (_ & outs & _ & _ & _ & _ & _ & _ & H).
  now apply geb_not_nan in H.
Qed.

Lemma somes_verified (topOpps : list Scanner.Opportunity)
  (results : list (option VerifiedOpportunity * list Event)) :
  Forall2 (fun o res => verified cfg o (fst res) (snd res))
          topOpps results ->
  Forall (fun v => Js.is_nan (profitPercentage v) = false)
         (somes (map fst results)).
Proof.
  induction 1 as [|o [[v|] ev] topOpps results H HF IH]; cbn;
    [constructor| |exact IH].
  constructor; [|exact IH]. eapply verified_not_nan. exact H.
Qed.

(** The whole of [verifyOpportunities]: after the system check, the first
    three candidates are verified one after the other, and the ones that
    are kept are returned in descending order of gross profit
    percentage. *)
Lemma verifyOpportunities_spec (opportunities : list Scanner.Opportunity) :
  sat (verifyOpportunities svc cfg payer opportunities)
      (fun r ev =>
         exists (results : list (option VerifiedOpportunity * list Event))
                (check : list Event) (kept : list VerifiedOpportunity),
           Forall2 (fun o res => verified cfg o (fst res) (snd res))
                   (firstn 3 opportunities) results /\
           Forall (maintenance payer) check /\
           ev = check ++ List.concat (map snd results) /\
           r = Ret kept /\
           kept = Js.sort (byVerifiedProfit) (somes (map fst results)) /\
           Permutation kept (somes (map fst results)) /\
           StronglySorted
             (fun a b =>
                Js.geb (profitPercentage a) (profitPercentage b) = true)
             kept).
Proof.
  unfold verifyOpportunities. apply sat_bind.
  eapply sat_weaken; [apply ensureSystemIntegrity_events|]. cbn beta.
  intros r check [[b ->] Hcheck]. cbv zeta. apply sat_bind.
  eapply sat_weaken; [apply verifyEach_spec|]. cbn beta.
  intros r ev (results & HF & -> & ->). cbn [app].
  set (kept := Js.sort byVerifiedProfit (somes (map fst results))).
  assert (Hperm : Permutation kept (somes (map fst results)))
    by apply (sort_perm profitPercentage).
  assert (Hsorted : StronglySorted
            (fun a b =>
               Js.geb (profitPercentage a) (profitPercentage b) = true)
            kept).
  { apply (sort_sorted profitPercentage). eapply somes_verified, HF. }
  destruct (0 <? Z.of_nat (List.length kept)) eqn:Hlen; apply sat_ret;
    rewrite app_nil_r; exists results, check, kept;
    repeat split; try assumption; try reflexivity.
  apply Z.ltb_ge in Hlen. destruct kept; [reflexivity|cbn in Hlen; lia].
Qed.

End VerifierFacts.

Section VerifierResults.
Import Solana Arbitrage Spec.
Variable cfg : Cfg.Config.

Lemma somes_In (topOpps : list Scanner.Opportunity)
  (results : list (option VerifiedOpportunity * list Event))
  (v : VerifiedOpportunity) :
  Forall2 (fun o res => verified cfg o (fst res) (snd res))
          topOpps results ->
  In v (somes (map fst results)) ->
  exists o ev, In o topOpps /\ In (Some v, ev) results /\
               verified cfg o (Some v) ev.
Proof.
  induction 1 as [|o [[v'|] ev] topOpps results H HF IH]; cbn;
    [contradiction| |].
  - intros [<-|Hin].
    + exists o, ev. split; [now left|]. split; [now left|exact H].
    + destruct (IH Hin) as (o' & ev' & Ho & Hr & Hv).
      exists o', ev'. split; [now right|]. split; [now right|exact Hv].
  - intros Hin. destruct (IH Hin) as (o' & ev' & Ho & Hr & Hv).
    exists o', ev'. split; [now right|]. split; [now right|exact Hv].
Qed.

Lemma verifyOpportunities_top {W : Type} (svc : Services W)
  (payer : Keypair) (opportunities : list Scanner.Opportunity) (w : W) :
  verifyOpportunities svc cfg payer opportunities w
  = verifyOpportunities svc cfg payer (firstn 3 opportunities) w.
Proof.
  unfold verifyOpportunities, Js.slice0. now rewrite firstn_firstn.
Qed.

End VerifierResults.

(** C2. [verifyOpportunities] looks at the first three candidates only.
    Each of them is either skipped because its cycle does not start and end
    at the base token, or re-quoted hop by hop, the first request for the
    loan notional and each next one for the output amount just quoted; it
    is dropped when a request brings no quote back or when the gross profit
    percentage at the notional is below 0.1, and it is kept otherwise,
    whatever its net profit.  The candidates kept are returned in
    descending order of gross profit percentage, each with a percentage of
    0.1 at least; the empty array is returned when none is kept. *)
Theorem verifier_requotes_top_three :
  forall (W : Type) (svc : Arbitrage.Services W) (cfg : Cfg.Config)
         (payer : Arbitrage.Keypair)
         (opportunities : list Scanner.Opportunity) (w : W),
    let run := Arbitrage.verifyOpportunities svc cfg payer opportunities w in
    run = Arbitrage.verifyOpportunities
            svc cfg payer (firstn 3 opportunities) w /\
    exists (results :
              list (option Arbitrage.VerifiedOpportunity
                    * list Arbitrage.Event))
           (check : list Arbitrage.Event)
           (kept : list Arbitrage.VerifiedOpportunity),
      Forall2 (fun o res => Spec.verified cfg o (fst res) (snd res))
              (firstn 3 opportunities) results /\
      Forall (Spec.maintenance payer) check /\
      Arbitrage.events run = check ++ List.concat (map snd results) /\
      Arbitrage.value run = Ret kept /\
      Permutation kept (Spec.somes (map fst results)) /\
      StronglySorted
        (fun a b =>
           Js.geb (Arbitrage.profitPercentage a)
                  (Arbitrage.profitPercentage b) = true) kept /\
      (forall v, In v kept ->
                 Js.geb (Arbitrage.profitPercentage v) 0.1%float = true) /\
      (Spec.somes (map fst results) = [] -> kept = []).
Proof.
  intros W svc cfg payer opportunities w run. split.
  - apply verifyOpportunities_top.
  - destruct (verifyOpportunities_spec svc cfg payer opportunities w)
      as (results & check & kept & HF & Hc & Hev & Hv & Hk & Hp & Hs).
    exists results, check, kept.
    split; [exact HF|]. split; [exact Hc|]. split; [exact Hev|].
    split; [exact Hv|]. split; [exact Hp|]. split; [exact Hs|]. split.
    + intros v Hv'. apply (Permutation_in _ Hp) in Hv'.
      destruct (somes_In cfg _ _ _ HF Hv')
        as (o & ev & _ & _ & _ & outs & _ & _ & _ & _ & _ & _ & H).
      exact H.
    + intros Hnone. rewrite Hnone in Hp. now apply Permutation_nil.
Qed.

(** With the quotes of the end-to-end scenario the candidate is verified at
    a gross profit of 2000000 lamports, 0.2 percent; under a flash-loan fee
    of one percent its net profit is negative, and it is returned all the
    same. *)
Lemma verifier_keeps_net_negative :
  exists v,
    Arbitrage.value
      (Arbitrage.verifyOpportunities
         Scenario.market Scenario.costly Scenario.payer
         [Scenario.candidate] 0)
    = Ret [v] /\
    Arbitrage.verifiedProfit v = 2000000%float /\
    Arbitrage.flashLoanFee v = 10000000%float /\
    Arbitrage.netProfit v = (-8000000)%float /\
    Arbitrage.verifiedAmounts v = [1000000000; 1000000000; 1002000000].
Proof. eexists. vm_compute. repeat split. Qed.

(** ** The executor *)

Section ExecutorFacts.
Import Solana Arbitrage Spec.
Context {W : Type}.
Variable svc : Services W.
Variable cfg : Cfg.Config.
Variable payer : Keypair.
Variable opportunity : VerifiedOpportunity.
Variable solTokenAccount : option string.

Lemma sat_sleep (ms : Z) (R : Outcome unit -> list Event -> Prop) :
  R (Ret tt) [ESetTimeout ms] -> sat (sleep svc ms) R.
Proof. intros H w. exact H. Qed.

Lemma waitForConfirmation_spec (signature : string) (retries : nat) :
  sat (waitForConfirmation svc signature retries)
      (fun r ev => (exists b, r = Ret b) /\ Forall polling ev).
Proof.
  induction retries as [|retries IH]; cbn [waitForConfirmation].
  - apply sat_ret. split; [now exists false|constructor].
  - run;
      try (apply sat_sleep; eapply sat_weaken; [apply IH|];
           cbn beta; intros r ev [Hb Hev]; cbn [app];
           split; [exact Hb|]; repeat constructor; exact Hev);
      cbn [app]; (split; [eexists; reflexivity|repeat constructor]).
Qed.

(** The quoting block never submits anything; what it returns early is a
    failure; and the flash-loan instructions it hands on are those built
    for the loan notional. *)
Lemma quoteSwaps_spec :
  sat (quoteSwaps svc cfg payer opportunity solTokenAccount)
      (fun r ev =>
         Forall quoting ev /\
         (forall p, r = Ret (inr p) ->
            FlashLoan.createFlashLoanInstructionSet
              cfg (publicKey payer) solTokenAccount
              (Cfg.KAMINO_FLASHLOAN_AMOUNT cfg)
            = Ret (flashLoanInstructions p)) /\
         (forall failure, r = Ret (inl failure) ->
            exists message, failure = Failed message)).
Proof.
  unfold quoteSwaps. run; cbn;
    (split; [repeat constructor|]);
    (split; [intros p' Hp; try discriminate
            |intros f Hf; try discriminate]);
    try (injection Hp as <-; cbn; congruence);
    injection Hf as <-; eexists; reflexivity.
Qed.

Let ok := sound svc cfg payer opportunity solTokenAccount.

Lemma maintenance_ok (r : Outcome ExecResult) (ev : list Event) :
  Forall (maintenance payer) ev -> Forall (ok r) ev.
Proof.
  apply Forall_impl. intros []; cbn; tauto.
Qed.

Lemma quoting_ok (r : Outcome ExecResult) (ev : list Event) :
  Forall quoting ev -> Forall (ok r) ev.
Proof. apply Forall_impl. intros []; cbn; tauto. Qed.

Lemma polling_ok (r : Outcome ExecResult) (ev : list Event) :
  Cfg.JITO_MODE cfg = false -> Forall polling ev -> Forall (ok r) ev.
Proof. intros H. apply Forall_impl. intros []; cbn; tauto. Qed.

(** The postcondition of a block of the executor: its events are sound for
    the result it returns and, when it throws, for the failure that the
    enclosing [catch] reports. *)
Let settled (r : Outcome ExecResult) (ev : list Event) : Prop :=
  match r with
  | Ret result => Forall (ok (Ret result)) ev
  | Throw e => Forall (ok (Ret (Failed e))) ev
  end.

Ltac exec_step :=
  lazymatch goal with
  | |- sat (ensureSystemIntegrity _ _) _ =>
      eapply sat_weaken;
      [ apply ensureSystemIntegrity_events
      | intros [?|?] ? [[? ?] ?]; [|discriminate] ]
  | |- sat (waitForConfirmation _ _ _) _ =>
      eapply sat_weaken;
      [ apply waitForConfirmation_spec
      | intros [?|?] ? [[? ?] ?]; [|discriminate] ]
  | |- _ => run_step
  end; cbn beta iota.

Ltac sound_event :=
  cbn [ok sound];
  repeat match goal with
         | |- _ /\ _ => split
         | |- True => exact I
         | |- _ = _ => first [reflexivity | assumption | congruence]
         | |- forall _, _ => intro
         | H : (1232 <? _) = false |- _ => apply Z.ltb_ge in H
         | H : (1232 <? _) = true |- _ => apply Z.ltb_lt in H
         | H : Ret _ = Ret _ |- _ => injection H as H; try subst
         | H : signatures (sign _ _) = [] |- _ => discriminate H
         | H : BundleRejected _ = BundleAccepted _ |- _ => discriminate H
         | H : Throw _ = Ret _ |- _ => discriminate H
         | H : V0 _ = Legacy |- _ => discriminate H
         | H : _ \/ _ |- _ =>
             destruct H as [H|H]; cbn in H; try congruence
         | |- arbitrageTransaction _ _ _ _ =>
             eexists _, _, _; split; [eassumption|reflexivity]
         | |- measured _ _ _ =>
             eexists _, _; split; [reflexivity|];
             split; [reflexivity|]; split; [eassumption|lia]
         | |- exists message, Ret (Failed _) = Ret (Failed message) =>
             eexists; reflexivity
         | |- exists message, _ = Ret (Failed message) =>
             exfalso; first [lia | congruence]
         | |- exists lookupTables, _ = V0 lookupTables =>
             eexists; reflexivity
         | |- (exists lamports recentBlockhash,
                  _ = maintenanceTransfer _ lamports recentBlockhash) \/ _ =>
             right
         end.

Ltac sound_events :=
  cbn [app];
  repeat match goal with
         | |- Forall _ [] => apply Forall_nil
         | |- Forall _ (_ :: _) => apply Forall_cons
         | |- Forall _ (_ ++ _) => apply Forall_app; split
         | H : Forall (maintenance _) ?ev |- Forall _ ?ev =>
             exact (maintenance_ok _ _ H)
         | H : Forall quoting ?ev |- Forall _ ?ev =>
             exact (quoting_ok _ _ H)
         | H : Forall polling ?ev |- Forall _ ?ev =>
             apply polling_ok; [assumption|exact H]
         end.

Lemma settled_after (before ev : list Event) (r : Outcome ExecResult) :
  (forall r', Forall (ok r') before) -> settled r ev ->
  settled r (before ++ ev).
Proof.
  intros Hb H. destruct r; cbn in *; apply Forall_app; split;
    solve [apply Hb | exact H].
Qed.

Section Direct.
Hypothesis direct : Cfg.JITO_MODE cfg = false.
Variable p : Prepared.
Hypothesis loan :
  FlashLoan.createFlashLoanInstructionSet
    cfg (publicKey payer) solTokenAccount (Cfg.KAMINO_FLASHLOAN_AMOUNT cfg)
  = Ret (flashLoanInstructions p).

Lemma sendStandard_sound :
  sat (sendStandard svc payer opportunity p) settled.
Proof.
  unfold sendStandard, compileInstructions.
  repeat exec_step; unfold settled; sound_events; sound_event.
Qed.

(** Whatever the versioned attempt throws, nothing it did stands in the
    way of any later result. *)
Lemma sendVersioned_sound (lookupTables : list LookupTable) :
  sat (sendVersioned svc payer opportunity p lookupTables)
      (fun r ev =>
         match r with
         | Ret result => Forall (ok (Ret result)) ev
         | Throw _ => forall r', Forall (ok r') ev
         end).
Proof.
  unfold sendVersioned, versionedTransaction, compileInstructions.
  repeat exec_step; try intros r'; sound_events; sound_event.
Qed.

Lemma dispatchDirect_sound (lookupTables : list LookupTable) :
  sat (dispatchDirect svc payer opportunity p lookupTables) settled.
Proof.
  unfold dispatchDirect. cbv zeta. apply sat_bind.
  destruct (0 <? Z.of_nat (List.length lookupTables)).
  - apply sat_try_catch, sat_bind.
    eapply sat_weaken; [apply sendVersioned_sound|]. cbn beta.
    intros [result|e] ev H.
    + apply sat_ret, sat_ret. cbn. now rewrite !app_nil_r.
    + apply sat_ret. rewrite app_nil_r.
      eapply sat_weaken; [apply sendStandard_sound|]. cbn beta.
      intros r ev'. now apply settled_after.
  - apply sat_ret. eapply sat_weaken; [apply sendStandard_sound|].
    cbn beta. intros r ev'. apply settled_after. constructor.
Qed.

End Direct.

Lemma executeDirect_sound :
  Cfg.JITO_MODE cfg = false ->
  sat (executeDirect svc cfg payer opportunity solTokenAccount) settled.
Proof.
  intros direct. unfold executeDirect.
  apply sat_bind, sat_try_catch, sat_call. intros rt.
  assert (Hrest : forall lookupTables,
             sat (prepared <- quoteSwaps svc cfg payer opportunity
                                         solTokenAccount ;;
                  match prepared with
                  | inl failure => ret failure
                  | inr p =>
                      dispatchDirect svc payer opportunity p lookupTables
                  end)%js settled).
  { intros lookupTables. apply sat_bind.
    eapply sat_weaken; [apply quoteSwaps_spec|]. cbn beta.
    intros [[failure|p]|e] ev (Hq & Hloan & _).
    - apply sat_ret. cbn. rewrite app_nil_r. now apply quoting_ok.
    - eapply sat_weaken;
        [apply (dispatchDirect_sound direct p (Hloan p eq_refl))|].
      cbn beta. intros r ev'. apply settled_after.
      intros r'. now apply quoting_ok.
    - cbn. now apply quoting_ok. }
  destruct rt as [lookupTables|e].
  - eapply sat_weaken; [apply Hrest|]. cbn beta. intros r ev H.
    apply settled_after; [|exact H]. intros r'. repeat constructor.
  - apply sat_ret. eapply sat_weaken; [apply Hrest|]. cbn beta.
    intros r ev H. rewrite app_nil_r.
    apply settled_after; [|exact H]. intros r'. repeat constructor.
Qed.

Lemma executeWithBundle_sound :
  Cfg.JITO_MODE cfg = true ->
  sat (executeWithBundle svc cfg payer opportunity solTokenAccount) settled.
Proof.
  intros bundle. unfold executeWithBundle. cbv zeta.
  apply sat_bind, sat_call. intros [lookupTables|e]; [|repeat constructor].
  destruct (Z.of_nat (List.length lookupTables) =? 0).
  { apply sat_ret. repeat constructor. }
  apply sat_bind. eapply sat_weaken; [apply quoteSwaps_spec|]. cbn beta.
  intros [[failure|p]|e] ev (Hq & Hloan & _).
  - apply sat_ret. cbn. rewrite app_nil_r.
    constructor; [exact I|]. now apply quoting_ok.
  - specialize (Hloan p eq_refl).
    unfold versionedTransaction, compileInstructions.
    repeat exec_step; unfold settled; sound_events; sound_event.
  - cbn. constructor; [exact I|]. now apply quoting_ok.
Qed.

(** [executeSimpleArbitrage] never throws, and every event of a run is
    sound for the result of the run. *)
Lemma executeSimpleArbitrage_sound :
  sat (executeSimpleArbitrage svc cfg payer opportunity solTokenAccount)
      (fun r ev => (exists result, r = Ret result) /\ Forall (ok r) ev).
Proof.
  unfold executeSimpleArbitrage. apply sat_try_catch, sat_bind.
  eapply sat_weaken; [apply ensureSystemIntegrity_events|]. cbn beta.
  intros [b|e] check [[b' Hb] Hcheck]; [|discriminate].
  destruct (Cfg.JITO_MODE cfg) eqn:Hmode;
    (eapply sat_weaken;
     [first [apply (executeWithBundle_sound Hmode)
            |apply (executeDirect_sound Hmode)]|]);
    cbn beta; intros [result|e] ev H; cbn in H.
  - split; [now eexists|]. apply Forall_app. split; [|exact H].
    now apply maintenance_ok.
  - apply sat_ret. split; [now eexists|]. rewrite app_nil_r.
    apply Forall_app. split; [|exact H]. now apply maintenance_ok.
  - split; [now eexists|]. apply Forall_app. split; [|exact H].
    now apply maintenance_ok.
  - apply sat_ret. split; [now eexists|]. rewrite app_nil_r.
    apply Forall_app. split; [|exact H]. now apply maintenance_ok.
Qed.

End ExecutorFacts.

(** ** The profit analysis *)

Section AnalysisFacts.
Import Solana Arbitrage Spec.
Context {W : Type}.
Variable svc : Services W.
Variable cfg : Cfg.Config.
Variable payer : Keypair.





Ltac locate :=
  solve [ apply in_eq
        | apply in_cons; locate
        | apply in_or_app; left; locate
        | apply in_or_app; right; locate ].


End AnalysisFacts.



(** The fee is the one that the program computes: for a fee rate of
    0.0041 the product with the notional is the binary64 number
    4100000.0000000005, and the fee is 4100001. *)
Lemma flash_loan_fee_is_rounded_up :
  Js.mul (Js.of_Z 1000000000) 0.0041%float = 4100000.0000000005%float /\
  Spec.fee (Scenario.variant false 0.0041%float) = 4100001%float /\
  Spec.fee Cfg.config = 500000%float.
Proof. repeat split; vm_compute; reflexivity. Qed.

(** In bundle mode, with the quotes of the scenario, a run of
    [executeFlashLoanJupiterArbitrage] submits its bundle with a tip of
    104930, which is 7 percent of the gross profit of 1499000, rounded
    down. *)
Lemma jupiter_arbitrage_tips_its_bundle :
  exists tx,
    In (Arbitrage.ESubmitJitoBundle
          tx 104930%float (Ret (Arbitrage.BundleAccepted "bundle")))
       (Arbitrage.events
          (Arbitrage.executeFlashLoanJupiterArbitrage
             Scenario.roomy Scenario.bundled Scenario.payer 0)).
Proof. eexists. vm_compute. repeat first [left; reflexivity | right]. Qed.

Section BundleFacts.
Import Solana Arbitrage Spec.
Context {W : Type}.
Variable svc : Services W.
Variable cfg : Cfg.Config.
Variable payer : Keypair.
Variable opportunity : VerifiedOpportunity.
Variable solTokenAccount : option string.

(** In bundle mode a run is the system check, then the request for the
    lookup tables, and nothing more when no table comes back. *)
Lemma bundle_requires_tables :
  Cfg.JITO_MODE cfg = true ->
  sat (executeSimpleArbitrage svc cfg payer opportunity solTokenAccount)
      (fun r ev =>
         exists check rl rest,
           ev = check ++ EFetchLookupTables rl :: rest /\
           Forall (maintenance payer) check /\
           (rl = Ret [] ->
            rest = [] /\
            r = Ret (Failed "No lookup tables found for Jito bundle"))).
Proof.
  intros Hmode. unfold executeSimpleArbitrage. rewrite Hmode.
  apply sat_try_catch, sat_bind.
  eapply sat_weaken; [apply ensureSystemIntegrity_events|]. cbn beta.
  intros [b|e] check [[b' Hb] Hcheck]; [|discriminate].
  unfold executeWithBundle. cbv zeta. apply sat_bind, sat_call.
  intros [[|t l]|e].
  - cbn. apply sat_ret. rewrite ?app_nil_r. exists check, (Ret []), [].
    repeat split; auto.
  - apply sat_any. intros [result|e] ev.
    + exists check, (Ret (t :: l)), ev. cbn [app].
      split; [reflexivity|]. split; [exact Hcheck|]. discriminate.
    + apply sat_ret. rewrite app_nil_r.
      exists check, (Ret (t :: l)), ev. cbn [app].
      split; [reflexivity|]. split; [exact Hcheck|]. discriminate.
  - apply sat_ret. rewrite ?app_nil_r. exists check, (Throw e), []. cbn [app].
    split; [reflexivity|]. split; [exact Hcheck|]. discriminate.
Qed.

End BundleFacts.

(** C9. In bundle mode a run of [executeSimpleArbitrage] consists of the
    system check followed by the request for the lookup tables; when that
    request returns no table the run ends there, with a failure result and
    before any quote is requested or any instruction is built.  No run in
    bundle mode ever polls for a confirmation, and a run in which the
    bundle service returns a bundle id reports success with that id. *)
Theorem bundle_mode_needs_tables_and_skips_confirmation :
  forall (W : Type) (svc : Arbitrage.Services W) (cfg : Cfg.Config)
         (payer : Arbitrage.Keypair)
         (opportunity : Arbitrage.VerifiedOpportunity)
         (solTokenAccount : option string) (w : W),
    Cfg.JITO_MODE cfg = true ->
    let run := Arbitrage.executeSimpleArbitrage
                 svc cfg payer opportunity solTokenAccount w in
    (exists check rl rest,
        Arbitrage.events run
        = check ++ Arbitrage.EFetchLookupTables rl :: rest /\
        Forall (Spec.maintenance payer) check /\
        (rl = Ret [] ->
         rest = [] /\
         Arbitrage.value run
         = Ret (Arbitrage.Failed "No lookup tables found for Jito bundle")))
    /\
    (forall e, In e (Arbitrage.events run) -> ~ Spec.polling e) /\
    (forall tx tipAmount bundleId,
        In (Arbitrage.ESubmitJitoBundle
              tx tipAmount (Ret (Arbitrage.BundleAccepted bundleId)))
           (Arbitrage.events run) ->
        Arbitrage.value run
        = Ret (Arbitrage.Bundled bundleId
                 (Arbitrage.verifiedProfit opportunity)
                 (Arbitrage.netProfit opportunity))).
Proof.
  intros W svc cfg payer opportunity solTokenAccount w Hmode run.
  destruct (executeSimpleArbitrage_sound
              svc cfg payer opportunity solTokenAccount w)
    as [_ Hsound].
  rewrite Forall_forall in Hsound. split; [|split].
  - apply (bundle_requires_tables
             svc cfg payer opportunity solTokenAccount Hmode w).
  - intros e He Hpoll. specialize (Hsound e He).
    destruct e; cbn in Hpoll; try contradiction; cbn in Hsound;
      congruence.
  - intros tx tipAmount bundleId He. specialize (Hsound _ He).
    cbn in Hsound. now apply Hsound.
Qed.

(** Bundle mode with a lookup table at hand and an empty wallet: the bundle
    is accepted and the run reports success at once. *)
Lemma bundle_mode_witness :
  Cfg.JITO_MODE Scenario.bundled = true /\
  Arbitrage.value
    (Arbitrage.executeSimpleArbitrage
       Scenario.roomy Scenario.bundled Scenario.payer
       (Scenario.twoHop Scenario.bundled) Scenario.wsolAccount 0)
  = Ret (Arbitrage.Bundled "bundle" 2000000%float 1360000%float).
Proof.
  split; [reflexivity|].
  refine (proj2 (proj2 (bundle_mode_needs_tables_and_skips_confirmation
            Z Scenario.roomy Scenario.bundled Scenario.payer
            (Scenario.twoHop Scenario.bundled) Scenario.wsolAccount 0
            eq_refl)) _ _ "bundle"%string _).
  vm_compute. repeat first [left; reflexivity | right].
Defined.

Section FallbackFacts.
Import Solana Arbitrage Spec.
Context {W : Type}.
Variable svc : Services W.
Variable cfg : Cfg.Config.
Variable payer : Keypair.
Variable opportunity : VerifiedOpportunity.

(** The direct branch falls back: when lookup tables are at hand, the
    result of the versioned attempt is the result of the dispatch, and
    whenever that attempt throws, the standard approach is run in the world
    the attempt leaves behind. *)
Lemma dispatchDirect_fallback (p : Prepared)
  (lookupTables : list LookupTable) (w : W) :
  let dispatch := dispatchDirect svc payer opportunity p lookupTables w in
  let attempt := sendVersioned svc payer opportunity p lookupTables w in
  (lookupTables = [] ->
   dispatch = sendStandard svc payer opportunity p w) /\
  (lookupTables <> [] ->
   match value attempt with
   | Ret result => dispatch = (Ret result, world attempt, events attempt)
   | Throw _ =>
       let standard :=
         sendStandard svc payer opportunity p (world attempt) in
       dispatch = (value standard, world standard,
                   events attempt ++ events standard)
   end).
Proof.
  intros dispatch attempt. subst dispatch attempt.
  unfold dispatchDirect. cbv zeta. split.
  - intros ->. cbn. unfold bind, ret.
    destruct (sendStandard svc payer opportunity p w) as [[r w'] ev].
    reflexivity.
  - intros Hne.
    destruct (Z.ltb_spec 0 (Z.of_nat (List.length lookupTables)))
      as [_|Hlen].
    2:{ destruct lookupTables; [contradiction|cbn in Hlen; lia]. }
    unfold bind, try_catch, ret, value, world, events.
    destruct (sendVersioned svc payer opportunity p lookupTables w)
      as [[[result|e] w'] ev]; cbn.
    + now rewrite !app_nil_r.
    + rewrite !app_nil_r.
      destruct (sendStandard svc payer opportunity p w') as [[r w''] ev'].
      reflexivity.
Qed.

(** What the versioned attempt does when its measured size is above the
    ceiling: it throws. *)
Let rejects (r : Outcome ExecResult) (e : Event) : Prop :=
  match e with
  | ESerialize tx (Ret n) =>
      signatures tx = [] -> 1232 < n -> exists message, r = Throw message
  | _ => True
  end.

Lemma checkTransactionSize_spec (tx : Transaction) :
  match serialize svc tx with
  | Ret n =>
      checkTransactionSize svc tx
      = {| valid := n <=? 1232; size := Some n |}
  | Throw _ =>
      checkTransactionSize svc tx = {| valid := false; size := None |}
  end.
Proof.
  unfold checkTransactionSize. destruct (serialize svc tx) as [n|e];
    [|reflexivity].
  rewrite Z.leb_antisym. now destruct (1232 <? n).
Qed.

Lemma sendVersioned_rejects (p : Prepared)
  (lookupTables : list LookupTable) :
  sat (sendVersioned svc payer opportunity p lookupTables)
      (fun r ev => Forall (rejects r) ev).
Proof.
  assert (Hm : forall r ev, Forall (maintenance payer) ev ->
                            Forall (rejects r) ev).
  { intros r ev. apply Forall_impl. intros []; cbn; tauto. }
  assert (Hp : forall r ev, Forall polling ev -> Forall (rejects r) ev).
  { intros r ev. apply Forall_impl. intros []; cbn; tauto. }
  unfold sendVersioned, versionedTransaction, compileInstructions.
  repeat lazymatch goal with
         | |- sat (ensureSystemIntegrity _ _) _ =>
             eapply sat_weaken;
             [ apply ensureSystemIntegrity_events
             | intros [?|?] ? [[? ?] ?]; [|discriminate] ]; cbn beta iota
         | |- sat (waitForConfirmation _ _ _) _ =>
             eapply sat_weaken;
             [ apply waitForConfirmation_spec
             | intros [?|?] ? [[? ?] ?]; [|discriminate] ]; cbn beta iota
         | |- _ => run_step
         end;
    cbn [app];
    repeat match goal with
           | |- Forall _ [] => apply Forall_nil
           | |- Forall _ (_ :: _) => apply Forall_cons
           | |- Forall _ (_ ++ _) => apply Forall_app; split
           | H : Forall (maintenance _) ?ev |- Forall _ ?ev =>
               exact (Hm _ _ H)
           | H : Forall polling ?ev |- Forall _ ?ev => exact (Hp _ _ H)
           end;
    cbn [rejects]; auto;
    try (intros Hs Hn; first [discriminate Hs | eexists; reflexivity]);
    try (intros Hs Hn;
         match goal with
         | H : (1232 <? _) = false |- _ => apply Z.ltb_ge in H; lia
         end).
Qed.

Let preparing := Spec.preparing payer.

(** In direct mode a run either ends in the quoting block, with nothing
    assembled, or goes on as a run of the dispatch between the two forms,
    whose result it reports. *)
Lemma direct_run_dispatches (solTokenAccount : option string) :
  Cfg.JITO_MODE cfg = false ->
  sat (executeSimpleArbitrage svc cfg payer opportunity solTokenAccount)
      (fun r ev =>
         (Forall preparing ev /\ exists message, r = Ret (Failed message))
         \/
         exists before p lookupTables w,
           Forall preparing before /\
           ev = before
                ++ events (dispatchDirect svc payer opportunity p
                                          lookupTables w) /\
           r = reported (value (dispatchDirect svc payer opportunity p
                                               lookupTables w))).
Proof.
  intros Hmode.
  set (R := fun (r : Outcome ExecResult) (ev : list Event) =>
         (Forall preparing ev /\ exists message, r = Ret (Failed message))
         \/
         exists before p lookupTables w,
           Forall preparing before /\
           ev = before
                ++ events (dispatchDirect svc payer opportunity p
                                          lookupTables w) /\
           r = reported (value (dispatchDirect svc payer opportunity p
                                               lookupTables w))).
  assert (Hm : forall ev, Forall (maintenance payer) ev ->
                          Forall preparing ev).
  { intros ev. apply Forall_impl. intros []; cbn; tauto. }
  assert (Hq : forall ev, Forall quoting ev -> Forall preparing ev).
  { intros ev. apply Forall_impl. intros []; cbn; tauto. }
  assert (Hrest : forall lookupTables before,
             Forall preparing before ->
             sat (prepared <- quoteSwaps svc cfg payer opportunity
                                         solTokenAccount ;;
                  match prepared with
                  | inl failure => ret failure
                  | inr p =>
                      dispatchDirect svc payer opportunity p lookupTables
                  end)%js
                 (fun r ev => R (reported r) (before ++ ev))).
  { intros lookupTables before Hbefore. apply sat_bind.
    eapply sat_weaken; [apply quoteSwaps_spec|]. cbn beta.
    intros [[failure|p]|e] ev (Hquote & _ & Hfail).
    - destruct (Hfail failure eq_refl) as [message ->].
      apply sat_ret. rewrite app_nil_r. left.
      split; [apply Forall_app; split; auto|eexists; reflexivity].
    - intros w. right. exists (before ++ ev), p, lookupTables, w.
      split; [apply Forall_app; split; auto|].
      split; [now rewrite app_assoc|reflexivity].
    - left. split; [apply Forall_app; split; auto|eexists; reflexivity]. }
  unfold executeSimpleArbitrage. rewrite Hmode.
  apply sat_try_catch.
  apply (sat_weaken _ (fun r ev => R (reported r) ev)).
  2:{ intros [result|e] ev H; [exact H|].
      apply sat_ret. now rewrite app_nil_r. }
  apply sat_bind.
  eapply sat_weaken; [apply ensureSystemIntegrity_events|]. cbn beta.
  intros [b|e] check [[b' Hb] Hcheck]; [|discriminate].
  unfold executeDirect. apply sat_bind, sat_try_catch, sat_call.
  intros [lookupTables|e].
  - eapply sat_weaken;
      [apply (Hrest lookupTables (check ++ [EFetchLookupTables
                                               (Ret lookupTables)]))|].
    + apply Forall_app. split; [auto|]. repeat constructor.
    + cbn beta. intros r ev H. now rewrite <- app_assoc in H.
  - apply sat_ret.
    eapply sat_weaken;
      [apply (Hrest [] (check ++ [EFetchLookupTables (Throw e)]))|].
    + apply Forall_app. split; [auto|]. repeat constructor.
    + cbn beta. intros r ev H. rewrite app_nil_r.
      now rewrite <- app_assoc in H.
Qed.

(** In bundle mode a run assembles the versioned form only. *)
Lemma bundle_run_is_versioned (solTokenAccount : option string) :
  Cfg.JITO_MODE cfg = true ->
  sat (executeSimpleArbitrage svc cfg payer opportunity solTokenAccount)
      (fun _ ev => Forall (versionedOnly payer) ev).
Proof.
  intros Hmode.
  assert (Hm : forall ev, Forall (maintenance payer) ev ->
                          Forall (versionedOnly payer) ev).
  { intros ev. apply Forall_impl. intros []; cbn; tauto. }
  assert (Hq : forall ev, Forall quoting ev ->
                          Forall (versionedOnly payer) ev).
  { intros ev. apply Forall_impl. intros []; cbn; tauto. }
  unfold executeSimpleArbitrage. rewrite Hmode.
  unfold executeWithBundle, versionedTransaction, compileInstructions.
  cbv zeta.
  repeat lazymatch goal with
         | |- sat (ensureSystemIntegrity _ _) _ =>
             eapply sat_weaken;
             [ apply ensureSystemIntegrity_events
             | intros [?|?] ? [[? ?] ?]; [|discriminate] ]; cbn beta iota
         | |- sat (quoteSwaps _ _ _ _ _) _ =>
             eapply sat_weaken;
             [ apply quoteSwaps_spec
             | intros [[?|?]|?] ? (? & _ & _) ]; cbn beta iota
         | |- _ => run_step
         end;
    cbn [app];
    repeat match goal with
           | |- Forall _ [] => apply Forall_nil
           | |- Forall _ (_ :: _) => apply Forall_cons
           | |- Forall _ (_ ++ _) => apply Forall_app; split
           | H : Forall (maintenance _) ?ev |- Forall _ ?ev =>
               exact (Hm _ H)
           | H : Forall quoting ?ev |- Forall _ ?ev => exact (Hq _ H)
           end;
    cbn [versionedOnly format sign]; auto; eexists; reflexivity.
Qed.

End FallbackFacts.

(** C5, as amended. [executeSimpleArbitrage] always returns a result.  A
    transaction that it submits, the transfers of the system check aside,
    has been measured unsigned at 1232 bytes at most.  A run that measures
    the legacy form above the ceiling, or in bundle mode the versioned
    form, returns a failure.  In bundle mode no legacy form is attempted:
    every transaction that a run measures or puts into a bundle is a
    versioned one, nothing goes through [sendTransaction], and the only
    raw transaction is the transfer of the system check.  In direct mode
    a run goes through the dispatch between the two forms, in which a
    versioned attempt that measures above the ceiling throws, and an
    attempt that throws for whatever reason is followed by the standard
    approach, whose result is the one reported.  [checkTransactionSize]
    returns a result that is valid exactly for a measured size of 1232
    bytes at most. *)
Theorem oversize_transactions_are_not_submitted :
  forall (W : Type) (svc : Arbitrage.Services W) (cfg : Cfg.Config)
         (payer : Arbitrage.Keypair)
         (opportunity : Arbitrage.VerifiedOpportunity)
         (solTokenAccount : option string) (w : W),
    let run := Arbitrage.executeSimpleArbitrage
                 svc cfg payer opportunity solTokenAccount w in
    (exists result, Arbitrage.value run = Ret result) /\
    (forall tx r,
        In (Arbitrage.ESendTransaction tx r) (Arbitrage.events run) ->
        Spec.measured svc payer tx) /\
    (forall tx tipAmount r,
        In (Arbitrage.ESubmitJitoBundle tx tipAmount r)
           (Arbitrage.events run) ->
        Spec.measured svc payer tx) /\
    (forall tx r,
        In (Arbitrage.ESendRawTransaction tx r) (Arbitrage.events run) ->
        (exists lamports recentBlockhash,
            tx = Spec.maintenanceTransfer payer lamports recentBlockhash) \/
        Spec.measured svc payer tx) /\
    (forall tx n,
        In (Arbitrage.ESerialize tx (Ret n)) (Arbitrage.events run) ->
        Solana.signatures tx = [] -> 1232 < n ->
        Solana.format tx = Solana.Legacy \/ Cfg.JITO_MODE cfg = true ->
        exists message,
          Arbitrage.value run = Ret (Arbitrage.Failed message)) /\
    (Cfg.JITO_MODE cfg = false ->
     (Forall (Spec.preparing payer) (Arbitrage.events run) /\
      exists message, Arbitrage.value run = Ret (Arbitrage.Failed message))
     \/
     exists before p lookupTables w',
       Forall (Spec.preparing payer) before /\
       Arbitrage.events run
       = before
         ++ Arbitrage.events
              (Arbitrage.dispatchDirect svc payer opportunity p
                                        lookupTables w') /\
       Arbitrage.value run
       = Spec.reported
           (Arbitrage.value
              (Arbitrage.dispatchDirect svc payer opportunity p
                                        lookupTables w'))) /\
    (Cfg.JITO_MODE cfg = true ->
     (forall tx r,
         In (Arbitrage.ESerialize tx r) (Arbitrage.events run) ->
         exists lookupTables, Solana.format tx = Solana.V0 lookupTables) /\
     (forall tx tipAmount r,
         In (Arbitrage.ESubmitJitoBundle tx tipAmount r)
            (Arbitrage.events run) ->
         exists lookupTables, Solana.format tx = Solana.V0 lookupTables) /\
     (forall tx r,
         ~ In (Arbitrage.ESendTransaction tx r) (Arbitrage.events run)) /\
     (forall tx r,
         In (Arbitrage.ESendRawTransaction tx r) (Arbitrage.events run) ->
         exists lamports recentBlockhash,
           tx = Spec.maintenanceTransfer payer lamports recentBlockhash)) /\
    (forall p lookupTables w',
        lookupTables <> [] ->
        let attempt :=
          Arbitrage.sendVersioned svc payer opportunity p lookupTables w' in
        let dispatch :=
          Arbitrage.dispatchDirect svc payer opportunity p lookupTables w' in
        (forall tx n,
            In (Arbitrage.ESerialize tx (Ret n)) (Arbitrage.events attempt) ->
            Solana.signatures tx = [] -> 1232 < n ->
            exists message, Arbitrage.value attempt = Throw message) /\
        match Arbitrage.value attempt with
        | Ret result =>
            dispatch = (Ret result, Arbitrage.world attempt,
                        Arbitrage.events attempt)
        | Throw _ =>
            let standard :=
              Arbitrage.sendStandard svc payer opportunity p
                                     (Arbitrage.world attempt) in
            dispatch = (Arbitrage.value standard, Arbitrage.world standard,
                        Arbitrage.events attempt
                        ++ Arbitrage.events standard)
        end) /\
    (forall tx,
        match Arbitrage.serialize svc tx with
        | Ret n =>
            Arbitrage.checkTransactionSize svc tx
            = {| Arbitrage.valid := n <=? 1232;
                 Arbitrage.size := Some n |}
        | Throw _ =>
            Arbitrage.checkTransactionSize svc tx
            = {| Arbitrage.valid := false; Arbitrage.size := None |}
        end).
Proof.
  intros W svc cfg payer opportunity solTokenAccount w run.
  destruct (executeSimpleArbitrage_sound
              svc cfg payer opportunity solTokenAccount w)
    as [Hvalue Hsound].
  rewrite Forall_forall in Hsound.
  split; [exact Hvalue|].
  split. { intros tx r He. now destruct (Hsound _ He) as (_ & _ & H & _). }
  split. { intros tx t r He. now destruct (Hsound _ He) as (_ & _ & H & _). }
  split. { intros tx r He.
           destruct (Hsound _ He) as [H|(_ & _ & H & _)]; [now left|now right]. }
  split. { intros tx n He Hs Hn Hf.
           destruct (Hsound _ He) as (_ & _ & H). now apply (H n). }
  split. { intros Hmode.
           apply (direct_run_dispatches
                    svc cfg payer opportunity solTokenAccount Hmode w). }
  split. { intros Hmode.
           pose proof (bundle_run_is_versioned
                         svc cfg payer opportunity solTokenAccount Hmode w)
             as Hv.
           rewrite Forall_forall in Hv.
           split; [intros tx r He; exact (Hv _ He)|].
           split; [intros tx tipAmount r He; exact (Hv _ He)|].
           split; intros tx r He; exact (Hv _ He). }
  split.
  - intros p lookupTables w' Hne attempt dispatch. split.
    + intros tx n He Hs Hn.
      pose proof (sendVersioned_rejects svc payer opportunity
                                        p lookupTables w') as H.
      rewrite Forall_forall in H. now apply (H _ He).
    + now apply (dispatchDirect_fallback svc payer opportunity
                                         p lookupTables w').
  - apply checkTransactionSize_spec.
Qed.

(** Direct mode without lookup tables, every transaction of 1300 bytes: the
    legacy form is measured above the ceiling and the run fails. *)
Lemma oversize_transactions_witness :
  In (Arbitrage.ESerialize (Scenario.legacyTransaction Cfg.config)
                           (Ret 1300))
     (Arbitrage.events
        (Arbitrage.executeSimpleArbitrage
           Scenario.crowded Cfg.config Scenario.payer
           (Scenario.twoHop Cfg.config) Scenario.wsolAccount 0)) /\
  Solana.signatures (Scenario.legacyTransaction Cfg.config) = [] /\
  1232 < 1300 /\
  Solana.format (Scenario.legacyTransaction Cfg.config) = Solana.Legacy /\
  exists message,
    Arbitrage.value
      (Arbitrage.executeSimpleArbitrage
         Scenario.crowded Cfg.config Scenario.payer
         (Scenario.twoHop Cfg.config) Scenario.wsolAccount 0)
    = Ret (Arbitrage.Failed message).
Proof.
  assert (He : In (Arbitrage.ESerialize
                     (Scenario.legacyTransaction Cfg.config) (Ret 1300))
                  (Arbitrage.events
                     (Arbitrage.executeSimpleArbitrage
                        Scenario.crowded Cfg.config Scenario.payer
                        (Scenario.twoHop Cfg.config)
                        Scenario.wsolAccount 0))).
  { vm_compute. repeat first [left; reflexivity | right]. }
  split; [exact He|]. split; [reflexivity|]. split; [lia|].
  split; [reflexivity|].
  exact (proj1 (proj2 (proj2 (proj2 (proj2
           (oversize_transactions_are_not_submitted
              Z Scenario.crowded Cfg.config Scenario.payer
              (Scenario.twoHop Cfg.config) Scenario.wsolAccount 0)))))
           _ 1300 He eq_refl ltac:(lia) (or_introl eq_refl)).
Defined.

(** The claim as worded fails in bundle mode: with a lookup table at hand
    and a versioned transaction of 1300 bytes, the run returns the failure
    for the oversize bundle transaction; no legacy transaction is ever
    assembled, measured or submitted, although it would take 400 bytes. *)
Lemma bundle_mode_has_no_fallback :
  let run :=
    Arbitrage.executeSimpleArbitrage
      Scenario.congested Scenario.bundled Scenario.payer
      (Scenario.twoHop Scenario.bundled) Scenario.wsolAccount 0 in
  Cfg.JITO_MODE Scenario.bundled = true /\
  (exists tx lookupTables,
      In (Arbitrage.ESerialize tx (Ret 1300)) (Arbitrage.events run) /\
      Solana.format tx = Solana.V0 lookupTables /\
      Solana.signatures tx = [] /\
      Arbitrage.serialize Scenario.congested
        {| Solana.format := Solana.Legacy;
           Solana.instructions := Solana.instructions tx;
           Solana.feePayer := Solana.feePayer tx;
           Solana.recentBlockhash := Solana.recentBlockhash tx;
           Solana.signatures := [] |} = Ret 400) /\
  Arbitrage.value run
  = Ret (Arbitrage.Failed
           "Transaction too large for Jito bundle: 1300 > 1232") /\
  (forall tx r,
      In (Arbitrage.ESerialize tx r) (Arbitrage.events run) ->
      Solana.format tx <> Solana.Legacy) /\
  (forall tx r,
      ~ In (Arbitrage.ESendRawTransaction tx r) (Arbitrage.events run)) /\
  (forall tx r,
      ~ In (Arbitrage.ESendTransaction tx r) (Arbitrage.events run)) /\
  (forall tx tipAmount r,
      ~ In (Arbitrage.ESubmitJitoBundle tx tipAmount r)
           (Arbitrage.events run)).
Proof.
  cbv zeta. split; [reflexivity|]. split.
  { eexists _, _. split.
    - vm_compute. repeat first [left; reflexivity | right].
    - repeat split. }
  split; [reflexivity|].
  repeat split; unfold not; intros;
    match goal with
    | H : In _ _ |- _ =>
        vm_compute in H;
        repeat (destruct H as [H|H]; [try discriminate H|]);
        try contradiction
    end;
    try (injection H as <- _; discriminate).
Qed.

(** In direct mode the same versioned transaction of 1300 bytes is followed
    by the legacy transaction of 400 bytes, which is sent. *)
Lemma direct_mode_falls_back :
  Arbitrage.value
    (Arbitrage.executeSimpleArbitrage
       Scenario.congested Cfg.config Scenario.payer
       (Scenario.twoHop Cfg.config) Scenario.wsolAccount 0)
  = Ret (Arbitrage.Sent "signature" 2000000%float 1500000%float).
Proof. reflexivity. Qed.

(** ** The flash-loan instructions *)

Section FlashLoanFacts.
Import Solana FlashLoan Spec.




End FlashLoanFacts.



(** ** executeMultiHopArbitrage *)

Section MultiHopFacts.
Import Solana Arbitrage Spec.
Context {W : Type}.
Variable svc : Services W.
Variable cfg : Cfg.Config.
Variable payer : Keypair.
Variable opportunity : VerifiedOpportunity.

Lemma requestTokenAccounts_spec (mints : list string) :
  sat (requestTokenAccounts svc mints)
      (fun r ev => (exists l, r = Ret l) /\ Forall (noTrade payer) ev).
Proof.
  induction mints as [|m mints IH]; cbn [requestTokenAccounts].
  - apply sat_ret. split; [now eexists|constructor].
  - run;
      (eapply sat_weaken; [apply IH|]; cbn beta;
       intros r ev [[l ->] Hev]; apply sat_ret; cbn [app];
       split; [now eexists|]; rewrite app_nil_r;
       repeat constructor; exact Hev).
Qed.

(** Not both: exactly two verified edges, and a cycle from the base token
    back to it. *)
Let unsupported : Prop :=
  List.length (verifiedEdges opportunity) <> 2%nat \/
  cycleOk (cycle opportunity) = false.

Lemma executeMultiHopArbitrage_gate :
  sat (executeMultiHopArbitrage svc cfg payer opportunity)
      (fun r ev =>
         (exists b, r = Ret b) /\
         (unsupported -> r = Ret false /\ Forall (noTrade payer) ev)).
Proof.
  assert (Hm : forall ev, Forall (maintenance payer) ev ->
                          Forall (noTrade payer) ev).
  { intros ev. apply Forall_impl. intros []; cbn; tauto. }
  unfold executeMultiHopArbitrage. cbv zeta. rewrite cycleOk_spec.
  repeat lazymatch goal with
         | |- sat (ensureSystemIntegrity _ _) _ =>
             eapply sat_weaken;
             [ apply ensureSystemIntegrity_events
             | intros [?|?] ? [[? ?] ?]; [|discriminate] ]; cbn beta iota
         | |- sat (requestTokenAccounts _ _) _ =>
             eapply sat_weaken;
             [ apply requestTokenAccounts_spec
             | intros [?|?] ? [[? ?] ?]; [|discriminate] ]; cbn beta iota
         | |- sat (executeSimpleArbitrage _ _ _ _ _) _ =>
             apply sat_any; intros [?|?] ?; cbn beta iota
         | |- _ => run_step
         end;
    (split; [eexists; reflexivity|]);
    intros Hu;
    try (exfalso; destruct Hu as [Hu|Hu];
         [ match goal with
           | H : (Z.of_nat _ =? 2) = true |- _ => apply Z.eqb_eq in H; lia
           end
         | match goal with
           | H : negb (cycleOk _) = false |- _ =>
               rewrite Hu in H; discriminate H
           end ]);
    (split; [reflexivity|]);
    cbn [app];
    repeat match goal with
           | |- Forall _ [] => apply Forall_nil
           | |- Forall _ (_ :: _) => apply Forall_cons; [exact I|]
           | |- Forall _ (_ ++ _) => apply Forall_app; split
           | H : Forall (maintenance _) ?ev |- Forall _ ?ev =>
               exact (Hm _ H)
           | H : Forall (noTrade _) ?ev |- Forall _ ?ev => exact H
           end.
Qed.

End MultiHopFacts.

(** C7. [executeMultiHopArbitrage] always returns a boolean.  For an
    opportunity that does not have exactly two verified edges, or whose
    cycle does not start and end at the base token, it returns [false] and
    does nothing but system checks, token-account checks and failure
    records: no quote is requested and no transaction is assembled or
    submitted for a trade.  A trade is therefore executed, and [true]
    returned, only for two verified edges on a cycle from the base token
    back to it. *)
Theorem multi_hop_executes_two_edge_cycles_only :
  forall (W : Type) (svc : Arbitrage.Services W) (cfg : Cfg.Config)
         (payer : Arbitrage.Keypair)
         (opportunity : Arbitrage.VerifiedOpportunity) (w : W),
    let run := Arbitrage.executeMultiHopArbitrage
                 svc cfg payer opportunity w in
    let twoEdges :=
      List.length (Arbitrage.verifiedEdges opportunity) = 2%nat in
    let baseCycle :=
      Spec.cycleOk (Arbitrage.cycle opportunity) = true in
    (exists b, Arbitrage.value run = Ret b) /\
    (~ (twoEdges /\ baseCycle) ->
     Arbitrage.value run = Ret false /\
     Forall (Spec.noTrade payer) (Arbitrage.events run)) /\
    (Arbitrage.value run = Ret true -> twoEdges /\ baseCycle) /\
    (forall e, In e (Arbitrage.events run) -> ~ Spec.noTrade payer e ->
               twoEdges /\ baseCycle).
Proof.
  intros W svc cfg payer opportunity w run twoEdges baseCycle.
  destruct (executeMultiHopArbitrage_gate svc cfg payer opportunity w)
    as [Hb Hgate].
  fold run in Hb, Hgate.
  assert (Hdec : (twoEdges /\ baseCycle) \/ ~ (twoEdges /\ baseCycle)).
  { subst twoEdges baseCycle.
    destruct (Nat.eq_dec (List.length (Arbitrage.verifiedEdges opportunity))
                         2) as [Hl|Hl];
      destruct (Spec.cycleOk (Arbitrage.cycle opportunity));
      intuition congruence. }
  assert (Hun : ~ (twoEdges /\ baseCycle) ->
                List.length (Arbitrage.verifiedEdges opportunity) <> 2%nat \/
                Spec.cycleOk (Arbitrage.cycle opportunity) = false).
  { subst twoEdges baseCycle. intros Hn.
    destruct (Nat.eq_dec (List.length (Arbitrage.verifiedEdges opportunity))
                         2) as [Hl|Hl]; [|now left].
    right. destruct (Spec.cycleOk (Arbitrage.cycle opportunity));
      [exfalso; auto|reflexivity]. }
  split; [exact Hb|]. split; [|split].
  - intros Hn. apply Hgate, Hun, Hn.
  - intros Htrue. destruct Hdec as [H|Hn]; [exact H|].
    destruct (Hgate (Hun Hn)) as [Hfalse _]. congruence.
  - intros e He Hne. destruct Hdec as [H|Hn]; [exact H|].
    destruct (Hgate (Hun Hn)) as [_ Hall].
    rewrite Forall_forall in Hall. now destruct (Hne (Hall e He)).
Qed.

(** Three verified hops on a cycle from the base token back to it: the
    result is [false], and the run holds system checks and token-account
    checks only. *)
Lemma multi_hop_witness :
  let run := Arbitrage.executeMultiHopArbitrage
               Scenario.market Cfg.config Scenario.payer
               Scenario.threeHop 1000000 in
  Spec.cycleOk (Arbitrage.cycle Scenario.threeHop) = true /\
  List.length (Arbitrage.verifiedEdges Scenario.threeHop) = 3%nat /\
  Arbitrage.value run = Ret false /\
  Forall (Spec.noTrade Scenario.payer) (Arbitrage.events run).
Proof.
  split; [reflexivity|]. split; [reflexivity|].
  apply (proj1 (proj2 (multi_hop_executes_two_edge_cycles_only
                         Z Scenario.market Cfg.config Scenario.payer
                         Scenario.threeHop 1000000))).
  intros [H _]. discriminate H.
Defined.

(** ** The codec on buffers that are not all zero *)

Section Int32Facts.
Import Js.

Lemma toInt32_small (z : Z) : - 2 ^ 31 <= z < 2 ^ 31 -> toInt32 z = z.
Proof.
  intros H. unfold toInt32. rewrite Z.mod_small; lia.
Qed.

Lemma shl_8 (d : Z) : 0 <= d < 2 ^ 23 -> shl d 8 = d * 256.
Proof.
  intros H. unfold shl. change (8 mod 32) with 8.
  rewrite (toInt32_small d) by lia.
  rewrite Z.shiftl_mul_pow2 by lia. change (2 ^ 8) with 256.
  apply toInt32_small. lia.
Qed.

Lemma shr_8 (x : Z) : 0 <= x < 2 ^ 31 -> shr x 8 = x / 256.
Proof.
  intros H. unfold shr. change (8 mod 32) with 8.
  rewrite toInt32_small by lia.
  now rewrite Z.shiftr_div_pow2 by lia.
Qed.

Lemma and_255 (x : Z) : 0 <= x < 2 ^ 31 -> and x 255 = x mod 256.
Proof.
  intros H. unfold and.
  rewrite (toInt32_small x), (toInt32_small 255) by lia.
  change 255 with (Z.ones 8). rewrite Z.land_ones by lia.
  change (2 ^ 8) with 256.
  apply toInt32_small. pose proof (Z.mod_pos_bound x 256). lia.
Qed.

Lemma div_trunc_58 (x : Z) : 0 <= x < 2 ^ 31 -> div_trunc x 58 = x / 58.
Proof.
  intros H. unfold div_trunc. cbn [Z.eqb].
  rewrite Z.quot_div_nonneg by lia.
  apply toInt32_small.
  pose proof (Z.div_pos x 58). pose proof (Z.div_le_upper_bound x 58 x).
  lia.
Qed.

Lemma rem_58 (x : Z) : 0 <= x -> rem x 58 = x mod 58.
Proof. intros H. unfold rem. apply Z.rem_mod_nonneg; lia. Qed.

End Int32Facts.

Section NumeralFacts.
Import Numeral.
Variable base : Z.
Hypothesis base_big : 1 < base.

Lemma value_app (l r : list Z) :
  value base (l ++ r) = value base l + base ^ Z.of_nat (List.length l) * value base r.
Proof.
  induction l as [|d l IH]; cbn [app value List.length].
  - change (Z.of_nat 0) with 0. rewrite Z.pow_0_r. lia.
  - rewrite IH, Nat2Z.inj_succ, Z.pow_succ_r by lia. ring.
Qed.

Lemma value_bounds (l : list Z) :
  Forall (digit base) l -> 0 <= value base l < base ^ Z.of_nat (List.length l).
Proof.
  induction 1 as [|d l Hd Hl IH]; cbn [value List.length].
  - change (Z.of_nat 0) with 0. rewrite Z.pow_0_r. lia.
  - rewrite Nat2Z.inj_succ, Z.pow_succ_r by lia. unfold digit in Hd. nia.
Qed.

Lemma horner_value (l : list Z) (acc : Z) :
  horner base l acc
  = acc * base ^ Z.of_nat (List.length l) + value base (rev l).
Proof.
  unfold horner. revert acc. induction l as [|d l IH]; intros acc.
  - cbn [fold_left rev value List.length]. change (Z.of_nat 0) with 0.
    rewrite Z.pow_0_r. lia.
  - cbn [fold_left rev List.length]. rewrite IH, value_app, length_rev.
    cbn [value]. rewrite Nat2Z.inj_succ, Z.pow_succ_r by lia. ring.
Qed.

(** The most significant digit decides whether the number reaches
    [base ^ (length - 1)]. *)
Lemma top_digit (l : list Z) :
  Forall (digit base) l -> l <> [] ->
  (last l 0 <> 0 <-> base ^ (Z.of_nat (List.length l) - 1) <= value base l).
Proof.
  intros Hl Hne. destruct (exists_last Hne) as (l' & d & ->).
  rewrite last_last, value_app, length_app. cbn [List.length value].
  apply Forall_app in Hl. destruct Hl as [Hl' Hd].
  inversion Hd as [|? ? Hd' _]; subst. unfold digit in Hd'.
  pose proof (value_bounds l' Hl') as Hb.
  replace (Z.of_nat (List.length l' + 1) - 1) with (Z.of_nat (List.length l'))
    by lia.
  assert (0 < base ^ Z.of_nat (List.length l')) by (apply Z.pow_pos_nonneg; lia).
  split; intros H'; nia.
Qed.

Lemma holds_digits (l : list Z) (n : Z) :
  holds base l n -> Forall (digit base) l /\ l <> [] /\ 0 <= n.
Proof.
  intros (Hl & Hv & [[-> ->]|[Hn Hlast]]).
  - split; [exact Hl|]. split; [discriminate|lia].
  - split; [exact Hl|]. split; [|lia]. intros ->. now apply Hlast.
Qed.

(** The array held for a number is unique. *)
Lemma trimmed_unique (l l' : list Z) :
  Forall (digit base) l -> Forall (digit base) l' ->
  last l 1 <> 0 -> last l' 1 <> 0 ->
  value base l = value base l' -> l = l'.
Proof.
  intros Hl. revert l'. induction Hl as [|d l Hd Hl IH]; intros l' Hl' Ht Ht' Hv.
  - destruct Hl' as [|d' l' Hd' Hl']; [reflexivity|].
    exfalso. cbn [value] in Hv. unfold digit in Hd'.
    pose proof (value_bounds l' Hl') as Hb.
    assert (d' = 0 /\ value base l' = 0) as [-> Hz] by nia.
    destruct l' as [|e l'']; [now apply Ht'|].
    assert (Hne : e :: l'' <> []) by discriminate.
    pose proof (proj1 (top_digit (e :: l'') Hl' Hne)) as Htop.
    change (last (0 :: e :: l'') 1) with (last (e :: l'') 1) in Ht'.
    assert (last (e :: l'') 0 <> 0).
    { destruct (exists_last Hne) as (p & q & Hpq). rewrite Hpq in *.
      rewrite last_last in *. exact Ht'. }
    specialize (Htop H).
    assert (0 < base ^ (Z.of_nat (List.length (e :: l'')) - 1))
      by (apply Z.pow_pos_nonneg; cbn [List.length]; lia).
    lia.
  - destruct Hl' as [|d' l' Hd' Hl'].
    + exfalso. cbn [value] in Hv. unfold digit in Hd.
      pose proof (value_bounds l Hl) as Hb.
      assert (d = 0 /\ value base l = 0) as [-> Hz] by nia.
      destruct l as [|e l'']; [now apply Ht|].
      assert (Hne : e :: l'' <> []) by discriminate.
      pose proof (proj1 (top_digit (e :: l'') Hl Hne)) as Htop.
      change (last (0 :: e :: l'') 1) with (last (e :: l'') 1) in Ht.
      assert (last (e :: l'') 0 <> 0).
      { destruct (exists_last Hne) as (p & q & Hpq). rewrite Hpq in *.
        rewrite last_last in *. exact Ht. }
      specialize (Htop H).
      assert (0 < base ^ (Z.of_nat (List.length (e :: l'')) - 1))
        by (apply Z.pow_pos_nonneg; cbn [List.length]; lia).
      lia.
    + cbn [value] in Hv. unfold digit in Hd, Hd'.
      pose proof (value_bounds l Hl). pose proof (value_bounds l' Hl').
      assert (value base l = value base l') as Hv'.
      { destruct (Z.lt_trichotomy (value base l) (value base l'))
          as [Hlt|[Heq|Hgt]]; [exfalso; nia|exact Heq|exfalso; nia]. }
      assert (d = d') as -> by (rewrite Hv' in Hv; lia).
      f_equal. apply IH; try assumption.
      * destruct l as [|e l'']; [cbn; lia|exact Ht].
      * destruct l' as [|e l'']; [cbn; lia|exact Ht'].
Qed.

Lemma holds_unique (l l' : list Z) (n : Z) :
  holds base l n -> holds base l' n -> l = l'.
Proof.
  intros (Hl & Hv & [[Hn ->]|[Hn Hlast]]) (Hl' & Hv' & [[Hn' ->]|[Hn' Hlast']]);
    try reflexivity; try lia.
  assert (forall m, m <> [] -> last m 0 <> 0 -> last m 1 <> 0) as Hsw.
  { intros m Hm. destruct (exists_last Hm) as (p & q & ->).
    now rewrite !last_last. }
  apply trimmed_unique; try assumption.
  - apply Hsw; [|assumption]. intros ->. now apply Hlast.
  - apply Hsw; [|assumption]. intros ->. now apply Hlast'.
  - congruence.
Qed.

(** Digits that start with a digit other than zero, reversed, are the
    array held for the number they stand for. *)
Lemma holds_reversed (x : Z) (r : list Z) :
  Forall (digit base) (x :: r) -> x <> 0 ->
  holds base (rev (x :: r)) (horner base (x :: r) 0).
Proof.
  intros Hb Hx.
  assert (Hrev : Forall (digit base) (rev (x :: r)))
    by (apply Forall_rev; exact Hb).
  rewrite horner_value. rewrite Z.mul_0_l, Z.add_0_l.
  split; [exact Hrev|]. split; [reflexivity|]. right.
  assert (Hlast : last (rev (x :: r)) 0 = x)
    by (cbn [rev]; apply last_last).
  split; [|now rewrite Hlast].
  assert (Hne : rev (x :: r) <> [])
    by (cbn [rev]; intros H; now apply app_eq_nil in H as [_ H]).
  pose proof (proj1 (top_digit _ Hrev Hne)
                    ltac:(now rewrite Hlast)) as Htop.
  assert (0 < base ^ (Z.of_nat (List.length (rev (x :: r))) - 1)).
  { apply Z.pow_pos_nonneg; [lia|]. rewrite length_rev. cbn [List.length]. lia. }
  lia.
Qed.

End NumeralFacts.

Section Base58Steps.
Import Base58 Numeral.

Lemma carry_fuel_enough (c : Z) :
  0 <= c -> c < 2 ^ Z.of_nat (carry_fuel c).
Proof.
  intros Hc. unfold carry_fuel.
  rewrite Nat2Z.inj_succ, Z2Nat.id by apply Z.log2_nonneg.
  destruct (Z.eq_dec c 0) as [->|Hne]; [cbn; lia|].
  apply Z.log2_spec. lia.
Qed.

Lemma half_fuel (c q : Z) (fuel : nat) :
  0 < c -> c < 2 ^ Z.of_nat (S fuel) -> 0 <= q -> 2 * q <= c ->
  q < 2 ^ Z.of_nat fuel.
Proof.
  intros Hc Hlt Hq Hle. rewrite Nat2Z.inj_succ, Z.pow_succ_r in Hlt by lia.
  lia.
Qed.

(** *** The encoder *)

Lemma encode_carry_spec (ds : list Z) (c : Z) :
  Forall (fun d => 0 <= d <= 15000) ds -> 0 <= c <= 300 ->
  exists ds' c',
    encode_carry ds c = (ds', c') /\
    List.length ds' = List.length ds /\
    Forall (digit 58) ds' /\
    0 <= c' <= 300 /\
    value 58 ds' + 58 ^ Z.of_nat (List.length ds) * c' = value 58 ds + c.
Proof.
  intros Hds. revert c. induction Hds as [|d ds Hd Hds IH]; intros c Hc.
  - exists [], c. cbn [List.length value]. change (Z.of_nat 0) with 0.
    rewrite Z.pow_0_r.
    split; [reflexivity|]. split; [reflexivity|]. split; [constructor|].
    split; lia.
  - cbn [encode_carry].
    rewrite div_trunc_58, rem_58 by lia.
    assert (Hq : 0 <= (d + c) / 58 <= 300).
    { split; [apply Z.div_pos; lia|].
      apply Z.div_le_upper_bound; lia. }
    destruct (IH _ Hq) as (ds' & c' & -> & Hlen & Hdig & Hc' & Hv).
    exists ((d + c) mod 58 :: ds'), c'.
    split; [reflexivity|]. split; [cbn; now rewrite Hlen|].
    split.
    { constructor; [|exact Hdig]. unfold digit.
      apply Z.mod_pos_bound. lia. }
    split; [exact Hc'|].
    cbn [value List.length]. rewrite Nat2Z.inj_succ, Z.pow_succ_r by lia.
    pose proof (Z.div_mod (d + c) 58 ltac:(lia)). nia.
Qed.

Lemma encode_push_spec (fuel : nat) (ds : list Z) (c : Z) :
  0 <= c < 2 ^ Z.of_nat fuel -> c < 2 ^ 31 ->
  exists ext,
    encode_push fuel ds c = ds ++ ext /\
    Forall (digit 58) ext /\
    value 58 ext = c /\
    (c = 0 -> ext = []) /\
    (0 < c -> last ext 0 <> 0).
Proof.
  revert ds c. induction fuel as [|fuel IH]; intros ds c Hc Hsmall.
  - exists []. change (2 ^ Z.of_nat 0) with 1 in Hc. rewrite app_nil_r.
    split; [reflexivity|]. split; [constructor|]. cbn [value].
    split; [lia|]. split; [reflexivity|lia].
  - cbn [encode_push]. destruct (Z.eqb_spec c 0) as [->|Hne].
    + exists []. rewrite app_nil_r.
      split; [reflexivity|]. split; [constructor|]. cbn [value].
      split; [lia|]. split; [reflexivity|lia].
    + rewrite div_trunc_58, rem_58 by lia.
      pose proof (Z.div_mod c 58 ltac:(lia)) as Hdm.
      pose proof (Z.mod_pos_bound c 58 ltac:(lia)) as Hm.
      assert (Hq : 0 <= c / 58) by (apply Z.div_pos; lia).
      assert (Hq' : c / 58 < 2 ^ Z.of_nat fuel)
        by (apply (half_fuel c); lia).
      destruct (IH (ds ++ [c mod 58]) (c / 58) ltac:(lia) ltac:(lia))
        as (ext & -> & Hdig & Hv & Hzero & Hpos).
      exists (c mod 58 :: ext). rewrite <- app_assoc.
      split; [reflexivity|]. split; [constructor; [exact Hm|exact Hdig]|].
      split; [cbn [value]; lia|]. split; [lia|]. intros _.
      destruct (Z.eq_dec (c / 58) 0) as [Hz|Hnz].
      * rewrite (Hzero Hz). cbn. lia.
      * specialize (Hpos ltac:(lia)).
        destruct ext as [|e ext]; [now cbn in Hpos|exact Hpos].
Qed.

Lemma encode_prepare (ds : list Z) (b : Z) :
  Forall (digit 58) ds -> ds <> [] -> 0 <= b < 256 ->
  Forall (fun d => 0 <= d <= 15000) (encode_add (encode_shift ds) b) /\
  List.length (encode_add (encode_shift ds) b) = List.length ds /\
  value 58 (encode_add (encode_shift ds) b) = 256 * value 58 ds + b.
Proof.
  intros Hds Hne Hb.
  assert (Hshift : Forall (fun d => 0 <= d <= 14592) (encode_shift ds) /\
                   List.length (encode_shift ds) = List.length ds /\
                   value 58 (encode_shift ds) = 256 * value 58 ds).
  { clear Hne. induction Hds as [|d ds Hd Hds IH].
    - repeat split; constructor.
    - destruct IH as (IH1 & IH2 & IH3). unfold digit in Hd.
      cbn [encode_shift map List.length value].
      rewrite shl_8 by lia. fold (encode_shift ds).
      split; [constructor; [lia|exact IH1]|].
      split; [now rewrite IH2|]. rewrite IH3. ring. }
  destruct Hshift as (H1 & H2 & H3).
  destruct ds as [|d ds]; [contradiction|].
  cbn [encode_shift map] in *. fold (encode_shift ds) in *.
  cbn [encode_add List.length value] in *.
  inversion H1 as [|? ? Hd Hrest]; subst.
  split; [constructor; [lia|]|].
  - revert Hrest. apply Forall_impl. intros; lia.
  - split; [exact H2|]. lia.
Qed.

Lemma encode_byte_holds (ds : list Z) (n b : Z) :
  holds 58 ds n -> 0 <= b < 256 ->
  holds 58 (encode_byte ds b) (256 * n + b).
Proof.
  intros Hh Hb.
  destruct (holds_digits 58 ds n Hh) as (Hds & Hne & Hn).
  destruct Hh as (_ & Hv & Hform).
  destruct (encode_prepare ds b Hds Hne Hb) as (Hp1 & Hp2 & Hp3).
  unfold encode_byte.
  destruct (encode_carry_spec _ 0 Hp1 ltac:(lia))
    as (ds' & c' & -> & Hlen & Hdig & Hc' & Hval).
  rewrite Z.abs_eq by lia.
  destruct (encode_push_spec (carry_fuel c') ds' c'
              ltac:(split; [lia|apply carry_fuel_enough; lia])
              ltac:(lia))
    as (ext & -> & Hext & Hextv & Hzero & Hpos).
  rewrite Hp2 in Hlen, Hval. rewrite Hp3, Hv, Z.add_0_r in Hval.
  assert (Hall : Forall (digit 58) (ds' ++ ext))
    by (apply Forall_app; split; assumption).
  assert (Hvalue : value 58 (ds' ++ ext) = 256 * n + b).
  { rewrite value_app by lia. rewrite Hlen, Hextv. exact Hval. }
  split; [exact Hall|]. split; [exact Hvalue|].
  destruct (Z.eq_dec (256 * n + b) 0) as [Hz|Hnz].
  - left. split; [exact Hz|].
    assert (n = 0) by lia. subst n.
    destruct Hform as [[_ ->]|[Hlt _]]; [|lia].
    pose proof (value_bounds 58 ltac:(lia) ds' Hdig) as Hb'.
    cbn [List.length] in Hlen, Hval. change (58 ^ Z.of_nat 1) with 58 in Hval.
    assert (Hc0 : c' = 0) by lia. rewrite (Hzero Hc0), app_nil_r.
    destruct ds' as [|x [|y t]]; try discriminate Hlen.
    cbn [value] in Hval. f_equal. lia.
  - right. split; [lia|].
    destruct (Z.eq_dec c' 0) as [Hcz|Hcnz].
    + rewrite (Hzero Hcz), app_nil_r in *.
      assert (Hne' : ds' <> [])
        by (intros ->; destruct ds; [contradiction|discriminate Hlen]).
      apply (top_digit 58 ltac:(lia) ds' Hdig Hne'). rewrite Hlen.
      destruct Hform as [[Hn0 ->]|[Hpos' Hlast]].
      * cbn. lia.
      * pose proof (proj1 (top_digit 58 ltac:(lia) ds Hds Hne) Hlast).
        rewrite Hv in *. lia.
    + specialize (Hpos ltac:(lia)).
      destruct ext as [|e ext]; [now cbn in Hpos|].
      change (e :: ext) with ([e] ++ ext) in *.
      destruct (exists_last (l := [e] ++ ext) ltac:(discriminate))
        as (p & q & Hpq).
      rewrite Hpq in *. rewrite app_assoc, last_last.
      now rewrite last_last in Hpos.
Qed.

Lemma encode_fold_holds (buffer : list Z) (ds : list Z) (n : Z) :
  Forall (digit 256) buffer -> holds 58 ds n ->
  holds 58 (fold_left encode_byte buffer ds) (horner 256 buffer n).
Proof.
  intros Hb. revert ds n. induction Hb as [|b buffer Hb Hbs IH];
    intros ds n Hh; cbn [fold_left horner].
  - exact Hh.
  - unfold horner. cbn [fold_left]. fold (horner 256 buffer (n * 256 + b)).
    apply IH. replace (n * 256 + b) with (256 * n + b) by ring.
    now apply encode_byte_holds.
Qed.

(** *** The decoder *)

Lemma decode_mul_spec (bs : list Z) (c : Z) :
  Forall (digit 256) bs -> 0 <= c <= 58 ->
  exists bs' c',
    decode_mul bs c = (bs', c') /\
    List.length bs' = List.length bs /\
    Forall (digit 256) bs' /\
    0 <= c' <= 58 /\
    value 256 bs' + 256 ^ Z.of_nat (List.length bs) * c'
    = 58 * value 256 bs + c.
Proof.
  intros Hbs. revert c. induction Hbs as [|b bs Hb Hbs IH]; intros c Hc.
  - exists [], c. cbn [List.length value]. change (Z.of_nat 0) with 0.
    rewrite Z.pow_0_r.
    split; [reflexivity|]. split; [reflexivity|]. split; [constructor|].
    split; lia.
  - cbn [decode_mul]. unfold digit in Hb.
    rewrite shr_8, and_255 by lia.
    assert (Hq : 0 <= (c + b * 58) / 256 <= 58).
    { split; [apply Z.div_pos; lia|].
      apply Z.div_le_upper_bound; lia. }
    destruct (IH _ Hq) as (bs' & c' & -> & Hlen & Hdig & Hc' & Hv).
    exists ((c + b * 58) mod 256 :: bs'), c'.
    split; [reflexivity|]. split; [cbn; now rewrite Hlen|].
    split.
    { constructor; [|exact Hdig]. unfold digit.
      apply Z.mod_pos_bound. lia. }
    split; [exact Hc'|].
    cbn [value List.length]. rewrite Nat2Z.inj_succ, Z.pow_succ_r by lia.
    pose proof (Z.div_mod (c + b * 58) 256 ltac:(lia)). nia.
Qed.

Lemma decode_push_spec (fuel : nat) (bs : list Z) (c : Z) :
  0 <= c < 2 ^ Z.of_nat fuel -> c < 2 ^ 31 ->
  exists ext,
    decode_push fuel bs c = bs ++ ext /\
    Forall (digit 256) ext /\
    value 256 ext = c /\
    (c = 0 -> ext = []) /\
    (0 < c -> last ext 0 <> 0).
Proof.
  revert bs c. induction fuel as [|fuel IH]; intros bs c Hc Hsmall.
  - exists []. change (2 ^ Z.of_nat 0) with 1 in Hc. rewrite app_nil_r.
    split; [reflexivity|]. split; [constructor|]. cbn [value].
    split; [lia|]. split; [reflexivity|lia].
  - cbn [decode_push]. destruct (Z.ltb_spec 0 c) as [Hpos|Hle].
    + rewrite shr_8, and_255 by lia.
      pose proof (Z.div_mod c 256 ltac:(lia)) as Hdm.
      pose proof (Z.mod_pos_bound c 256 ltac:(lia)) as Hm.
      assert (Hq : 0 <= c / 256) by (apply Z.div_pos; lia).
      assert (Hq' : c / 256 < 2 ^ Z.of_nat fuel)
        by (apply (half_fuel c); lia).
      destruct (IH (bs ++ [c mod 256]) (c / 256) ltac:(lia) ltac:(lia))
        as (ext & -> & Hdig & Hv & Hzero & Hpos').
      exists (c mod 256 :: ext). rewrite <- app_assoc.
      split; [reflexivity|]. split; [constructor; [exact Hm|exact Hdig]|].
      split; [cbn [value]; lia|]. split; [lia|]. intros _.
      destruct (Z.eq_dec (c / 256) 0) as [Hz|Hnz].
      * rewrite (Hzero Hz). cbn. lia.
      * specialize (Hpos' ltac:(lia)).
        destruct ext as [|e ext]; [now cbn in Hpos'|exact Hpos'].
    + assert (c = 0) by lia. subst c.
      exists []. rewrite app_nil_r.
      split; [reflexivity|]. split; [constructor|]. cbn [value].
      split; [lia|]. split; [reflexivity|lia].
Qed.

Lemma decode_char_holds (bs : list Z) (m v : Z) :
  holds 256 bs m -> 0 <= v < 58 ->
  holds 256 (decode_char bs v) (58 * m + v).
Proof.
  intros Hh Hv.
  destruct (holds_digits 256 bs m Hh) as (Hbs & Hne & Hm).
  destruct Hh as (_ & Hval & Hform).
  unfold decode_char.
  destruct (decode_mul_spec bs v Hbs ltac:(lia))
    as (bs' & c' & -> & Hlen & Hdig & Hc' & Hmul).
  destruct (decode_push_spec (carry_fuel c') bs' c'
              ltac:(split; [lia|apply carry_fuel_enough; lia])
              ltac:(lia))
    as (ext & -> & Hext & Hextv & Hzero & Hpos).
  rewrite Hval in Hmul.
  assert (Hall : Forall (digit 256) (bs' ++ ext))
    by (apply Forall_app; split; assumption).
  assert (Hvalue : value 256 (bs' ++ ext) = 58 * m + v).
  { rewrite value_app by lia. rewrite Hlen, Hextv. exact Hmul. }
  split; [exact Hall|]. split; [exact Hvalue|].
  destruct (Z.eq_dec (58 * m + v) 0) as [Hz|Hnz].
  - left. split; [exact Hz|].
    assert (m = 0) by lia. subst m.
    destruct Hform as [[_ ->]|[Hlt _]]; [|lia].
    pose proof (value_bounds 256 ltac:(lia) bs' Hdig) as Hb'.
    cbn [List.length] in Hlen, Hmul.
    change (256 ^ Z.of_nat 1) with 256 in Hmul.
    assert (Hc0 : c' = 0) by lia. rewrite (Hzero Hc0), app_nil_r.
    destruct bs' as [|x [|y t]]; try discriminate Hlen.
    cbn [value] in Hmul. f_equal. lia.
  - right. split; [lia|].
    destruct (Z.eq_dec c' 0) as [Hcz|Hcnz].
    + rewrite (Hzero Hcz), app_nil_r in *.
      assert (Hne' : bs' <> [])
        by (intros ->; destruct bs; [contradiction|discriminate Hlen]).
      apply (top_digit 256 ltac:(lia) bs' Hdig Hne'). rewrite Hlen.
      destruct Hform as [[Hn0 ->]|[Hpos' Hlast]].
      * cbn. lia.
      * pose proof (proj1 (top_digit 256 ltac:(lia) bs Hbs Hne) Hlast).
        rewrite Hval in *. lia.
    + specialize (Hpos ltac:(lia)).
      destruct ext as [|e ext]; [now cbn in Hpos|].
      change (e :: ext) with ([e] ++ ext) in *.
      destruct (exists_last (l := [e] ++ ext) ltac:(discriminate))
        as (p & q & Hpq).
      rewrite Hpq in *. rewrite app_assoc, last_last.
      now rewrite last_last in Hpos.
Qed.

End Base58Steps.

Section Base58RoundTrip.
Import Base58 Numeral Spec.

Lemma alphabet_digit (d : Z) :
  digit 58 d ->
  exists c,
    alphabet_at d = Some c /\ ALPHABET_MAP c = Some d /\
    (d <> 0 -> c <> "1"%char).
Proof.
  intros Hd. unfold digit in Hd.
  set (ok := fun i : nat =>
         match alphabet_at (Z.of_nat i) with
         | Some c =>
             match ALPHABET_MAP c with
             | Some v =>
                 (v =? Z.of_nat i)
                 && (Nat.eqb i 0 || negb (Ascii.eqb c "1"))
             | None => false
             end
         | None => false
         end).
  assert (Hall : forallb ok (seq 0 58) = true) by (vm_compute; reflexivity).
  rewrite forallb_forall in Hall.
  specialize (Hall (Z.to_nat d)
                   ltac:(apply in_seq; lia)).
  unfold ok in Hall. rewrite Z2Nat.id in Hall by lia.
  destruct (alphabet_at d) as [c|]; [|discriminate].
  destruct (ALPHABET_MAP c) as [v|] eqn:Hmap; [|discriminate].
  apply andb_prop in Hall. destruct Hall as [Hv Hone].
  apply Z.eqb_eq in Hv. subst v.
  exists c. split; [reflexivity|]. split; [exact Hmap|].
  intros Hnz ->. apply orb_prop in Hone. destruct Hone as [H0|H1].
  - apply Nat.eqb_eq in H0. lia.
  - discriminate H1.
Qed.

Lemma string_app_assoc (s t u : string) :
  ((s ++ t) ++ u)%string = (s ++ (t ++ u))%string.
Proof. induction s as [|c s IH]; cbn; [reflexivity|now rewrite IH]. Qed.

Lemma text_app (l r : list Z) : text (l ++ r) = (text l ++ text r)%string.
Proof.
  induction l as [|d l IH]; cbn [app text]; [reflexivity|].
  rewrite IH. now rewrite string_app_assoc.
Qed.

Lemma string_app_nil (s : string) : (s ++ "")%string = s.
Proof. induction s as [|c s IH]; cbn; [reflexivity|now rewrite IH]. Qed.

Lemma encode_string_text (digits : list Z) :
  encode_string digits = text (rev digits).
Proof.
  unfold encode_string.
  enough (H : forall l acc,
             fold_left (fun result d => (result ++ encode_digit d)%string)
                       l acc
             = (acc ++ text l)%string) by apply (H (rev digits) ""%string).
  induction l as [|d l IH]; intros acc; cbn [fold_left text].
  - now rewrite string_app_nil.
  - rewrite IH. now rewrite string_app_assoc.
Qed.

Lemma text_zeros (n : nat) : text (repeat 0 n) = ones n.
Proof. induction n as [|n IH]; cbn; [reflexivity|now rewrite IH]. Qed.

Lemma decode_loop_app (s t : string) (bytes : list Z) :
  decode_loop (s ++ t) bytes
  = match decode_loop s bytes with
    | Some bytes' => decode_loop t bytes'
    | None => None
    end.
Proof.
  revert bytes. induction s as [|c s IH]; intros bytes;
    cbn [String.append decode_loop]; [reflexivity|].
  destruct (ALPHABET_MAP c); [apply IH|reflexivity].
Qed.

Lemma decode_loop_text (ms : list Z) (bytes : list Z) (m : Z) :
  Forall (digit 58) ms -> holds 256 bytes m ->
  exists bytes',
    decode_loop (text ms) bytes = Some bytes' /\
    holds 256 bytes' (horner 58 ms m).
Proof.
  intros Hms. revert bytes m.
  induction Hms as [|d ms Hd Hms IH]; intros bytes m Hh.
  - exists bytes. split; [reflexivity|exact Hh].
  - destruct (alphabet_digit d Hd) as (c & Hc & Hmap & _).
    cbn [text]. unfold encode_digit. rewrite Hc.
    cbn [String.append decode_loop]. rewrite Hmap.
    unfold horner. cbn [fold_left]. fold (horner 58 ms (m * 58 + d)).
    apply IH. replace (m * 58 + d) with (58 * m + d) by ring.
    apply decode_char_holds; assumption.
Qed.

Lemma decode_leading_text (z : nat) (d : Z) (ms : list Z) (bytes : list Z) :
  digit 58 d -> d <> 0 ->
  decode_leading (ones z ++ text (d :: ms)) bytes = bytes ++ repeat 0 z.
Proof.
  intros Hd Hnz. revert bytes. induction z as [|z IH]; intros bytes.
  - destruct (alphabet_digit d Hd) as (c & Hc & _ & Hone).
    specialize (Hone Hnz).
    cbn [ones String.append text repeat]. unfold encode_digit. rewrite Hc.
    cbn [String.append]. rewrite app_nil_r.
    destruct c as [[] [] [] [] [] [] [] []]; try reflexivity.
    now destruct Hone.
  - cbn [ones String.append decode_leading repeat].
    rewrite IH, <- app_assoc. reflexivity.
Qed.

Lemma encode_leading_zeros_then (z : nat) (x : Z) (r digits : list Z) :
  x <> 0 ->
  encode_leading (repeat 0 z ++ x :: r) digits = digits ++ repeat 0 z.
Proof.
  intros Hx. revert digits. induction z as [|z IH]; intros digits.
  - cbn [repeat app]. rewrite app_nil_r.
    destruct r as [|y r]; cbn [encode_leading]; [reflexivity|].
    destruct (Z.eqb_spec x 0); [contradiction|reflexivity].
  - cbn [repeat app].
    assert (Hshape : exists y t, repeat 0 z ++ x :: r = y :: t)
      by (destruct z; cbn; eauto).
    destruct Hshape as (y & t & Hyt).
    cbn [encode_leading]. rewrite Hyt. cbn [Z.eqb]. rewrite <- Hyt.
    rewrite IH, <- app_assoc. reflexivity.
Qed.

Lemma leading_zeros_split (buffer : list Z) :
  Exists (fun x => x <> 0) buffer ->
  exists z x r, buffer = repeat 0 z ++ x :: r /\ x <> 0.
Proof.
  induction buffer as [|b buffer IH]; intros Hex.
  - inversion Hex.
  - destruct (Z.eq_dec b 0) as [->|Hb].
    + inversion Hex as [? ? H|? ? H]; subst; [contradiction|].
      destruct (IH H) as (z & x & r & -> & Hx).
      exists (S z), x, r. split; [reflexivity|exact Hx].
    + exists O, b, buffer. split; [reflexivity|exact Hb].
Qed.

Lemma horner_zeros (base : Z) (z : nat) (l : list Z) :
  horner base (repeat 0 z ++ l) 0 = horner base l 0.
Proof.
  unfold horner. induction z as [|z IH]; cbn [repeat app fold_left];
    [reflexivity|]. exact IH.
Qed.

Lemma Uint8Array_bytes (bytes : list Z) :
  Forall (digit 256) bytes -> Uint8Array bytes = bytes.
Proof.
  unfold Uint8Array. induction 1 as [|b bytes Hb Hbs IH]; cbn [map];
    [reflexivity|].
  unfold digit in Hb. rewrite IH, Z.mod_small by lia. reflexivity.
Qed.

Lemma base58Encode_nonempty (buffer : list Z) :
  buffer <> [] ->
  base58Encode buffer
  = encode_string (encode_leading buffer (fold_left encode_byte buffer [0])).
Proof. destruct buffer; [contradiction|reflexivity]. Qed.

(** The text of a buffer with [z] leading zero bytes: [z] characters '1',
    then the digits, most significant first, of the number that the rest
    of the buffer stands for. *)
Lemma base58Encode_text (z : nat) (x : Z) (r : list Z) :
  Forall (digit 256) (x :: r) -> x <> 0 ->
  exists top low,
    holds 58 (low ++ [top]) (horner 256 (x :: r) 0) /\
    top <> 0 /\
    base58Encode (repeat 0 z ++ x :: r)
    = (ones z ++ text (top :: rev low))%string.
Proof.
  intros Hb Hx.
  set (buffer := repeat 0 z ++ x :: r).
  assert (Hbuf : Forall (digit 256) buffer).
  { apply Forall_app. split; [|exact Hb].
    clear. induction z; cbn; constructor; [unfold digit; lia|assumption]. }
  set (N := horner 256 (x :: r) 0).
  assert (Hdigits : holds 58 (fold_left encode_byte buffer [0]) N).
  { unfold N. rewrite <- (horner_zeros 256 z). fold buffer.
    apply encode_fold_holds; [exact Hbuf|].
    split; [repeat constructor; unfold digit; lia|].
    split; [reflexivity|]. left. split; reflexivity. }
  pose proof (holds_reversed 256 ltac:(lia) x r Hb Hx) as Hrest. fold N in Hrest.
  assert (HN : 0 < N).
  { destruct Hrest as (_ & _ & [[HN Hnil]|[HN _]]); [|exact HN].
    exfalso. assert (Hx' : last (rev (x :: r)) 0 = x)
      by (cbn [rev]; apply last_last).
    rewrite Hnil in Hx'. cbn in Hx'. now apply Hx. }
  set (digits := fold_left encode_byte buffer [0]) in *.
  destruct (holds_digits 58 digits N Hdigits) as (Hdig & Hne & _).
  destruct (exists_last Hne) as (low & top & Hsplit).
  exists top, low. rewrite <- Hsplit. split; [exact Hdigits|].
  destruct Hdigits as (_ & Hval & [[HN0 _]|[_ Hlast]]); [lia|].
  rewrite Hsplit, last_last in Hlast. split; [exact Hlast|].
  rewrite base58Encode_nonempty
    by (unfold buffer; destruct z; discriminate).
  fold digits. unfold buffer at 1.
  rewrite encode_leading_zeros_then by exact Hx.
  rewrite encode_string_text, rev_app_distr, rev_repeat, text_app,
          text_zeros.
  rewrite Hsplit, rev_app_distr. reflexivity.
Qed.

(** The bytes of a text of [z] characters '1' followed by digits of which
    the first is not zero: [z] zero bytes, then the bytes, most significant
    first, of the number that the digits stand for. *)
Lemma base58Decode_text (z : nat) (d : Z) (ms : list Z) :
  Forall (digit 58) (d :: ms) -> d <> 0 ->
  exists bytes,
    holds 256 bytes (horner 58 (d :: ms) 0) /\
    last bytes 0 <> 0 /\
    base58Decode (ones z ++ text (d :: ms))
    = Some (repeat 0 z ++ rev bytes).
Proof.
  intros Hms Hd.
  destruct (decode_loop_text (d :: ms) [0] 0 Hms) as (bytes & Hl & Hh).
  { split; [repeat constructor; unfold digit; lia|].
    split; [reflexivity|]. left. split; reflexivity. }
  exists bytes. split; [exact Hh|].
  assert (Hpos : 0 < horner 58 (d :: ms) 0).
  { rewrite horner_value by lia. rewrite Z.mul_0_l, Z.add_0_l.
    cbn [rev]. rewrite value_app by lia. cbn [value].
    assert (Hrev : Forall (digit 58) (rev ms))
      by (apply Forall_rev; now inversion Hms).
    pose proof (value_bounds 58 ltac:(lia) _ Hrev).
    assert (0 < 58 ^ Z.of_nat (List.length (rev ms)))
      by (apply Z.pow_pos_nonneg; lia).
    inversion Hms as [|? ? Hd' _]; subst. unfold digit in Hd'. nia. }
  assert (Hlast : last bytes 0 <> 0)
    by (destruct Hh as (_ & _ & [[H0 _]|[_ H]]); [lia|exact H]).
  split; [exact Hlast|].
  unfold base58Decode.
  destruct (ones z ++ text (d :: ms))%string as [|c s] eqn:Hs.
  { exfalso. destruct (alphabet_digit d) as (c & Hc & _).
    { now inversion Hms. }
    destruct z; cbn [ones String.append text] in Hs;
      [|discriminate Hs].
    unfold encode_digit in Hs. rewrite Hc in Hs. discriminate Hs. }
  rewrite <- Hs in *.
  rewrite decode_loop_app, decode_loop_ones, Hl.
  rewrite decode_leading_text; [|now inversion Hms|exact Hd].
  rewrite rev_app_distr, rev_repeat.
  rewrite Uint8Array_bytes; [reflexivity|].
  apply Forall_app. split.
  - clear. induction z; cbn; constructor; [unfold digit; lia|assumption].
  - apply Forall_rev. apply Hh.
Qed.

Lemma base58_roundtrip_from_nonzero (z : nat) (x : Z) (r : list Z) :
  Forall (digit 256) (x :: r) -> x <> 0 ->
  base58Decode (base58Encode (repeat 0 z ++ x :: r))
  = Some (repeat 0 z ++ x :: r).
Proof.
  intros Hb Hx.
  destruct (base58Encode_text z x r Hb Hx)
    as (top & low & Hdigits & Htop & ->).
  assert (Hms : Forall (digit 58) (top :: rev low)).
  { destruct Hdigits as (Hdig & _). apply Forall_app in Hdig.
    destruct Hdig as [Hlow Ht]. inversion Ht; subst.
    constructor; [assumption|]. now apply Forall_rev. }
  destruct (base58Decode_text z top (rev low) Hms Htop)
    as (bytes & Hbytes & _ & ->).
  assert (Hsame : horner 58 (top :: rev low) 0 = horner 256 (x :: r) 0).
  { rewrite horner_value by lia. rewrite Z.mul_0_l, Z.add_0_l.
    cbn [rev]. rewrite rev_involutive. apply Hdigits. }
  rewrite Hsame in Hbytes.
  assert (bytes = rev (x :: r)).
  { apply (holds_unique 256 ltac:(lia) _ _ _ Hbytes).
    now apply holds_reversed. }
  subst bytes. now rewrite rev_involutive.
Qed.

(** *** Texts *)

Lemma every_ascii (P : ascii -> bool) :
  forallb (fun i => P (ascii_of_nat i)) (seq 0 256) = true ->
  forall c, P c = true.
Proof.
  intros Hall c. rewrite forallb_forall in Hall.
  rewrite <- (ascii_nat_embedding c). apply Hall.
  apply in_seq. pose proof (nat_ascii_bounded c). lia.
Qed.

Lemma alphabet_char (c : ascii) (v : Z) :
  ALPHABET_MAP c = Some v ->
  digit 58 v /\ alphabet_at v = Some c /\ (v = 0 -> c = "1"%char).
Proof.
  intros Hmap.
  pose proof (every_ascii
    (fun c =>
       match ALPHABET_MAP c with
       | Some v =>
           (0 <=? v) && (v <? 58)
           && match alphabet_at v with
              | Some c' => Ascii.eqb c' c
              | None => false
              end
           && (negb (v =? 0) || Ascii.eqb c "1")
       | None => true
       end) ltac:(vm_compute; reflexivity) c) as H.
  cbv beta in H. rewrite Hmap in H.
  apply andb_prop in H. destruct H as [H H3].
  apply andb_prop in H. destruct H as [H H2].
  apply andb_prop in H. destruct H as [H0 H1].
  apply Z.leb_le in H0. apply Z.ltb_lt in H1.
  destruct (alphabet_at v) as [c'|]; [|discriminate].
  apply Ascii.eqb_eq in H2. subst c'.
  split; [split; assumption|]. split; [reflexivity|].
  intros ->. cbn in H3. now apply Ascii.eqb_eq in H3.
Qed.

Lemma alphabet_member (c : ascii) :
  ALPHABET_MAP c = None <-> ~ In c (list_ascii_of_string ALPHABET).
Proof.
  pose proof (every_ascii
    (fun c =>
       Bool.eqb (match ALPHABET_MAP c with Some _ => true | None => false end)
                (existsb (Ascii.eqb c) (list_ascii_of_string ALPHABET)))
    ltac:(vm_compute; reflexivity) c) as H.
  cbv beta in H. apply Bool.eqb_prop in H.
  split.
  - intros Hnone Hin. rewrite Hnone in H. symmetry in H.
    assert (existsb (Ascii.eqb c) (list_ascii_of_string ALPHABET) = true).
    { apply existsb_exists. exists c. split; [exact Hin|apply Ascii.eqb_refl]. }
    congruence.
  - intros Hnot. destruct (ALPHABET_MAP c) as [v|]; [|reflexivity].
    exfalso. apply Hnot. symmetry in H. apply existsb_exists in H.
    destruct H as (c' & Hin & Heq). apply Ascii.eqb_eq in Heq. now subst.
Qed.

Lemma decode_loop_none (s : string) (bytes : list Z) :
  decode_loop s bytes = None
  <-> Exists (fun c => ALPHABET_MAP c = None) (list_ascii_of_string s).
Proof.
  revert bytes. induction s as [|c s IH]; intros bytes;
    cbn [decode_loop list_ascii_of_string].
  - split; [discriminate|intros H; inversion H].
  - destruct (ALPHABET_MAP c) as [v|] eqn:Hc.
    + rewrite IH. split; [now apply Exists_cons_tl|].
      intros H. inversion H as [? ? H'|? ? H']; subst; [congruence|exact H'].
    + split; [intros _; now apply Exists_cons_hd|reflexivity].
Qed.

(** A text that the decoder accepts is the text of a list of digits. *)
Lemma decode_loop_digits (s : string) (bytes bytes' : list Z) :
  decode_loop s bytes = Some bytes' ->
  exists ds,
    Forall (digit 58) ds /\ s = text ds /\
    (Exists (fun c => c <> "1"%char) (list_ascii_of_string s) ->
     Exists (fun d => d <> 0) ds).
Proof.
  revert bytes. induction s as [|c s IH]; intros bytes;
    cbn [decode_loop list_ascii_of_string].
  - intros _. exists []. split; [constructor|]. split; [reflexivity|].
    intros H; inversion H.
  - destruct (ALPHABET_MAP c) as [v|] eqn:Hc; [|discriminate].
    intros Hrest. destruct (IH _ Hrest) as (ds & Hds & -> & Hex).
    destruct (alphabet_char c v Hc) as (Hv & Hat & Hone).
    exists (v :: ds). split; [now constructor|]. split.
    + cbn [text]. unfold encode_digit. now rewrite Hat.
    + intros H. inversion H as [? ? H'|? ? H']; subst.
      * apply Exists_cons_hd. intros Hz. now apply H', Hone.
      * apply Exists_cons_tl. now apply Hex.
Qed.

Lemma base58_text_from_nonzero (z : nat) (d : Z) (ms : list Z)
  (bytes : list Z) :
  Forall (digit 58) (d :: ms) -> d <> 0 ->
  base58Decode (ones z ++ text (d :: ms)) = Some bytes ->
  base58Encode bytes = (ones z ++ text (d :: ms))%string.
Proof.
  intros Hms Hd Hdec.
  destruct (base58Decode_text z d ms Hms Hd) as (held & Hheld & Hlast & Heq).
  rewrite Heq in Hdec. injection Hdec as <-.
  destruct (holds_digits 256 held _ Hheld) as (Hbytes & Hne & _).
  destruct (exists_last Hne) as (low & x & ->).
  rewrite last_last in Hlast. rewrite rev_app_distr. cbn [rev app].
  assert (Hb : Forall (digit 256) (x :: rev low)).
  { apply Forall_app in Hbytes. destruct Hbytes as [Hlow Hx].
    inversion Hx; subst. constructor; [assumption|now apply Forall_rev]. }
  destruct (base58Encode_text z x (rev low) Hb Hlast)
    as (top & low' & Hdigits & Htop & ->).
  assert (Hsame : horner 256 (x :: rev low) 0 = horner 58 (d :: ms) 0).
  { rewrite horner_value by lia. rewrite Z.mul_0_l, Z.add_0_l.
    cbn [rev]. rewrite rev_involutive. apply Hheld. }
  rewrite Hsame in Hdigits.
  assert (Hrev : low' ++ [top] = rev (d :: ms)).
  { apply (holds_unique 58 ltac:(lia) _ _ _ Hdigits).
    now apply holds_reversed. }
  apply (f_equal (@rev Z)) in Hrev.
  rewrite rev_app_distr, rev_involutive in Hrev. cbn [rev app] in Hrev.
  now rewrite Hrev.
Qed.

End Base58RoundTrip.

(** X1. The round trip through the codec gives back every byte array that
    holds a byte other than zero, and the empty array: leading zero bytes
    are kept, one character '1' for each.  (Arrays of zero bytes only are
    the arrays that do not come back.) *)
Theorem base58_roundtrip_unless_all_zero :
  forall buffer : list Z,
    Forall (fun b => 0 <= b < 256) buffer ->
    buffer = [] \/ Exists (fun b => b <> 0) buffer ->
    Base58.base58Decode (Base58.base58Encode buffer) = Some buffer.
Proof.
  intros buffer Hbytes [->|Hex]; [reflexivity|].
  destruct (leading_zeros_split buffer Hex) as (z & x & r & -> & Hx).
  apply base58_roundtrip_from_nonzero; [|exact Hx].
  apply Forall_app in Hbytes. apply Hbytes.
Qed.

(** The bytes of a key that starts with two zero bytes. *)
Lemma base58_roundtrip_witness :
  Base58.base58Encode [0; 0; 1; 255] = "119p"%string /\
  Base58.base58Decode (Base58.base58Encode [0; 0; 1; 255])
  = Some [0; 0; 1; 255].
Proof.
  split; [reflexivity|].
  apply base58_roundtrip_unless_all_zero.
  - repeat constructor; lia.
  - right. apply Exists_cons_tl, Exists_cons_tl, Exists_cons_hd. lia.
Defined.

(** X2. The other round trip: a text that the decoder accepts and that has
    a character other than '1' is the text that the encoder gives for its
    bytes; so is the empty text. *)
Theorem base58_text_roundtrip :
  forall (encoded : string) (bytes : list Z),
    Base58.base58Decode encoded = Some bytes ->
    encoded = EmptyString \/
    Exists (fun c => c <> "1"%char) (list_ascii_of_string encoded) ->
    Base58.base58Encode bytes = encoded.
Proof.
  intros encoded bytes Hdec [->|Hex].
  - cbn in Hdec. injection Hdec as <-. reflexivity.
  - assert (Hloop : exists held, Base58.decode_loop encoded [0] = Some held).
    { unfold Base58.base58Decode in Hdec.
      destruct encoded as [|c s]; [inversion Hex|].
      destruct (Base58.decode_loop (String c s) [0]) as [held|];
        [eauto|discriminate]. }
    destruct Hloop as (held & Hloop).
    destruct (decode_loop_digits _ _ _ Hloop) as (ds & Hds & -> & Hnz).
    destruct (leading_zeros_split ds (Hnz Hex)) as (z & d & ms & -> & Hd).
    rewrite text_app, text_zeros in *.
    apply base58_text_from_nonzero; [|exact Hd|exact Hdec].
    apply Forall_app in Hds. apply Hds.
Qed.

(** The text of an address with a leading '1'. *)
Lemma base58_text_roundtrip_witness :
  Base58.base58Decode "119p" = Some [0; 0; 1; 255] /\
  Base58.base58Encode [0; 0; 1; 255] = "119p"%string.
Proof.
  split; [reflexivity|].
  apply base58_text_roundtrip; [reflexivity|].
  right. apply Exists_cons_tl, Exists_cons_tl, Exists_cons_hd. discriminate.
Defined.

(** X3. The decoder throws exactly on a text that has a character outside
    the alphabet of 58 characters; on every other text it returns bytes,
    each between 0 and 255. *)
Theorem base58Decode_rejects_foreign_characters :
  forall encoded : string,
    (Base58.base58Decode encoded = None
     <-> Exists (fun c => ~ In c (list_ascii_of_string Base58.ALPHABET))
                (list_ascii_of_string encoded)) /\
    (forall bytes,
        Base58.base58Decode encoded = Some bytes ->
        Forall (fun b => 0 <= b < 256) bytes).
Proof.
  intros encoded. split.
  - assert (Hiff : Base58.base58Decode encoded = None
                   <-> Base58.decode_loop encoded [0] = None).
    { unfold Base58.base58Decode. destruct encoded as [|c s].
      - cbn. split; discriminate.
      - destruct (Base58.decode_loop (String c s) [0]);
          split; congruence. }
    rewrite Hiff, decode_loop_none. split; apply Exists_impl;
      intros c; apply alphabet_member.
  - intros bytes Hdec. unfold Base58.base58Decode in Hdec.
    assert (Hu : forall l, Forall (fun b => 0 <= b < 256)
                                  (Base58.Uint8Array l)).
    { intros l. unfold Base58.Uint8Array. apply Forall_forall.
      intros b Hin. apply in_map_iff in Hin. destruct Hin as (a & <- & _).
      apply Z.mod_pos_bound. lia. }
    destruct encoded as [|c s]; [injection Hdec as <-; apply (Hu [])|].
    destruct (Base58.decode_loop (String c s) [0]); [|discriminate].
    injection Hdec as <-. apply Hu.
Qed.

(** ** Sequences of acquisitions *)

Section TrafficFacts.
Import RateLimiter Traffic.
Variable cfg : Cfg.Config.
Variable lag : nat -> N.

Ltac limiter_steps :=
  unfold enforceRequestRateLimit, Date_now, sleep,
         REQUEST_LIMIT, REQUEST_WINDOW in *;
  cbn [time ticks fst snd] in *;
  repeat match goal with
         | |- context [?a <? ?b] => destruct (Z.ltb_spec a b)
         | |- context [?a <=? ?b] => destruct (Z.leb_spec a b)
         end;
  cbn [limiter clock slept lastRequestTime requestCounter requestWindowStart
       time ticks fst snd app] in *.

(** The counter stays between 1 and the cap. *)
Lemma counter_bounded (st : Limiter) (c : Clock) :
  0 <= requestCounter st <= REQUEST_LIMIT ->
  1 <= requestCounter (limiter (enforceRequestRateLimit cfg lag st c))
    <= REQUEST_LIMIT.
Proof. intros H. limiter_steps; lia. Qed.

Lemma acquisitions_length (n : nat) (st : Limiter) (c : Clock) :
  List.length (fst (fst (acquisitions cfg lag n st c))) = n.
Proof.
  revert st c. induction n as [|n IH]; intros st c; cbn [acquisitions];
    [reflexivity|].
  specialize (IH (limiter (enforceRequestRateLimit cfg lag st c))
                 (clock (enforceRequestRateLimit cfg lag st c))).
  destruct (acquisitions cfg lag n _ _) as [[times st'] c'].
  cbn in *. now rewrite IH.
Qed.

Lemma acquisitions_counter (n : nat) (st : Limiter) (c : Clock) :
  0 <= requestCounter st <= REQUEST_LIMIT ->
  0 <= requestCounter (snd (fst (acquisitions cfg lag n st c)))
    <= REQUEST_LIMIT.
Proof.
  revert st c. induction n as [|n IH]; intros st c Hst; cbn [acquisitions];
    [exact Hst|].
  pose proof (counter_bounded st c Hst) as Hb.
  specialize (IH (limiter (enforceRequestRateLimit cfg lag st c))
                 (clock (enforceRequestRateLimit cfg lag st c))
                 ltac:(lia)).
  destruct (acquisitions cfg lag n _ _) as [[times st'] c'].
  exact IH.
Qed.

(** The [k]-th caller from now returns [k + 1] intervals after the last
    acquisition recorded, or later. *)
Lemma acquisitions_after (n : nat) (st : Limiter) (c : Clock) (k : nat)
  (t : Z) :
  0 <= Cfg.MIN_REQUEST_INTERVAL cfg ->
  nth_error (fst (fst (acquisitions cfg lag n st c))) k = Some t ->
  lastRequestTime st + (Z.of_nat k + 1) * Cfg.MIN_REQUEST_INTERVAL cfg <= t.
Proof.
  intros Hmin. revert st c k.
  induction n as [|n IH]; intros st c k Hk; cbn [acquisitions] in Hk.
  - destruct k; discriminate Hk.
  - pose proof (acquire_spacing cfg lag st c) as Hgap.
    pose proof (acquired_at_return cfg lag st c) as Hat.
    specialize (IH (limiter (enforceRequestRateLimit cfg lag st c))
                   (clock (enforceRequestRateLimit cfg lag st c))).
    destruct (acquisitions cfg lag n _ _) as [[times st'] c'].
    cbn [fst snd] in *. destruct k as [|k]; cbn [nth_error] in Hk.
    + injection Hk as <-. lia.
    + specialize (IH k Hk). lia.
Qed.

Lemma acquisitions_gap (n : nat) (st : Limiter) (c : Clock) (i j : nat)
  (ti tj : Z) :
  0 <= Cfg.MIN_REQUEST_INTERVAL cfg ->
  (i <= j)%nat ->
  nth_error (fst (fst (acquisitions cfg lag n st c))) i = Some ti ->
  nth_error (fst (fst (acquisitions cfg lag n st c))) j = Some tj ->
  ti + Z.of_nat (j - i) * Cfg.MIN_REQUEST_INTERVAL cfg <= tj.
Proof.
  intros Hmin. revert st c i j.
  induction n as [|n IH]; intros st c i j Hij Hi Hj; cbn [acquisitions] in *.
  - destruct i; discriminate Hi.
  - pose proof (acquired_at_return cfg lag st c) as Hat.
    pose proof (acquisitions_after n
                  (limiter (enforceRequestRateLimit cfg lag st c))
                  (clock (enforceRequestRateLimit cfg lag st c))) as Hafter.
    specialize (IH (limiter (enforceRequestRateLimit cfg lag st c))
                   (clock (enforceRequestRateLimit cfg lag st c))).
    destruct (acquisitions cfg lag n _ _) as [[times st'] c'].
    cbn [fst snd] in *.
    destruct i as [|i]; cbn [nth_error] in Hi.
    + injection Hi as <-. destruct j as [|j]; cbn [nth_error] in Hj.
      * injection Hj as <-. cbn. lia.
      * specialize (Hafter j tj Hmin Hj). rewrite Hat in Hafter.
        rewrite Nat.sub_0_r. lia.
    + destruct j as [|j]; [lia|]. cbn [nth_error] in Hj.
      apply (IH i j); [lia|assumption|assumption].
Qed.

End TrafficFacts.

(** X4. Callers of the rate limiter that come one after the other: the
    [j]-th returns at least [j - i] times [MIN_REQUEST_INTERVAL] after the
    [i]-th, whatever time passes in between, and the counter of the window
    never leaves the range from 0 to the cap of 60. *)
Theorem rate_limiter_paces_every_run :
  forall (cfg : Cfg.Config) (lag : nat -> N) (n : nat)
         (st : RateLimiter.Limiter) (c : RateLimiter.Clock),
    0 <= Cfg.MIN_REQUEST_INTERVAL cfg ->
    0 <= RateLimiter.requestCounter st <= RateLimiter.REQUEST_LIMIT ->
    let run := Traffic.acquisitions cfg lag n st c in
    let times := fst (fst run) in
    List.length times = n /\
    (forall i j ti tj,
        (i <= j)%nat ->
        nth_error times i = Some ti -> nth_error times j = Some tj ->
        ti + Z.of_nat (j - i) * Cfg.MIN_REQUEST_INTERVAL cfg <= tj) /\
    (forall k t,
        nth_error times k = Some t ->
        RateLimiter.lastRequestTime st
        + (Z.of_nat k + 1) * Cfg.MIN_REQUEST_INTERVAL cfg <= t) /\
    0 <= RateLimiter.requestCounter (snd (fst run))
      <= RateLimiter.REQUEST_LIMIT.
Proof.
  intros cfg lag n st c Hmin Hst run times. subst run times.
  split; [apply acquisitions_length|].
  split; [intros i j ti tj; now apply acquisitions_gap|].
  split; [intros k t; now apply acquisitions_after|].
  now apply acquisitions_counter.
Qed.

(** Sixty-one callers on a clock that never lags, from the state at module
    load: the last one, held back at the cap, returns after 62 seconds. *)
Lemma rate_limiter_paces_witness :
  let times :=
    fst (fst (Traffic.acquisitions
                Cfg.config Scenario.punctual 61
                (RateLimiter.initial 0)
                {| RateLimiter.time := 0; RateLimiter.ticks := 0 |})) in
  (nth_error times 60 = Some 62000) /\
  (RateLimiter.lastRequestTime (RateLimiter.initial 0)
   + (Z.of_nat 60 + 1) * Cfg.MIN_REQUEST_INTERVAL Cfg.config <= 62000).
Proof.
  cbv zeta.
  assert (H : nth_error
                (fst (fst (Traffic.acquisitions
                             Cfg.config Scenario.punctual 61
                             (RateLimiter.initial 0)
                             {| RateLimiter.time := 0;
                                RateLimiter.ticks := 0 |}))) 60
              = Some 62000) by (vm_compute; reflexivity).
  split; [exact H|].
  exact (proj1 (proj2 (proj2
           (rate_limiter_paces_every_run
              Cfg.config Scenario.punctual 61 (RateLimiter.initial 0)
              {| RateLimiter.time := 0; RateLimiter.ticks := 0 |}
              ltac:(vm_compute; discriminate)
              ltac:(vm_compute; split; discriminate))))
           60%nat 62000 H).
Defined.

(** ** utils.waitForConfirmation *)

Section PollingFacts.
Import Arbitrage Count.
Context {W : Type}.
Variable svc : Services W.
Variable signature : string.

(** What a wait for [signature] does: requests for its status, each
    followed by a pause of one second unless it ends the wait. *)
Let poll (e : Event) : Prop :=
  (exists r, e = EGetSignatureStatus signature r) \/ e = ESetTimeout 1000.

Lemma count_app (test : Event -> bool) (l r : list Event) :
  count test (l ++ r) = (count test l + count test r)%nat.
Proof. unfold count. now rewrite filter_app, length_app. Qed.

Let bounded (retries : nat) (r : Outcome bool) (ev : list Event) : Prop :=
  (exists b, r = Ret b) /\
  Forall poll ev /\
  (count (isStatusRequest signature) ev <= retries)%nat /\
  (count (isTimeout 1000) ev <= count (isStatusRequest signature) ev)%nat /\
  (r = Ret true ->
   exists before v,
     ev = before ++ [EGetSignatureStatus signature (Ret (Some v))] /\
     confirmed v = true) /\
  (r = Ret false ->
   (exists before v,
       ev = before ++ [EGetSignatureStatus signature (Ret (Some v))] /\
       err v = true) \/
   count (isStatusRequest signature) ev = retries).

Lemma request_counts (r : Outcome (option StatusValue)) (ev : list Event) :
  count (isStatusRequest signature) (EGetSignatureStatus signature r :: ev)
  = S (count (isStatusRequest signature) ev) /\
  count (isTimeout 1000) (EGetSignatureStatus signature r :: ev)
  = count (isTimeout 1000) ev /\
  count (isStatusRequest signature) (ESetTimeout 1000 :: ev)
  = count (isStatusRequest signature) ev /\
  count (isTimeout 1000) (ESetTimeout 1000 :: ev)
  = S (count (isTimeout 1000) ev).
Proof.
  unfold count. cbn [filter isStatusRequest isTimeout].
  rewrite String.eqb_refl. cbn. auto.
Qed.

(** A request that does not end the wait: the pause, then the rest. *)
Lemma bounded_next (retries : nat) (r : Outcome (option StatusValue))
  (r' : Outcome bool) (ev : list Event) :
  bounded retries r' ev ->
  bounded (S retries) r'
          (EGetSignatureStatus signature r :: ESetTimeout 1000 :: ev).
Proof.
  intros (Hb & Hev & Hn & Hs & Htrue & Hfalse).
  destruct (request_counts r (ESetTimeout 1000 :: ev)) as (C1 & C2 & _).
  destruct (request_counts r ev) as (_ & _ & C3 & C4).
  split; [exact Hb|]. split.
  { constructor; [left; now exists r|].
    constructor; [now right|exact Hev]. }
  rewrite C1, C2, C3, C4.
  split; [lia|]. split; [lia|]. split.
  - intros Hr. destruct (Htrue Hr) as (before & v & -> & Hc).
    now exists (EGetSignatureStatus signature r :: ESetTimeout 1000 :: before),
               v.
  - intros Hr. destruct (Hfalse Hr) as [(before & v & -> & Hc)|Hc].
    + left.
      now exists (EGetSignatureStatus signature r
                  :: ESetTimeout 1000 :: before), v.
    + right. lia.
Qed.

Lemma waitForConfirmation_bounded (retries : nat) :
  sat (waitForConfirmation svc signature retries) (bounded retries).
Proof.
  induction retries as [|retries IH]; cbn [waitForConfirmation].
  - apply sat_ret. split; [now exists false|]. split; [constructor|].
    cbn. split; [lia|]. split; [lia|]. split; [discriminate|]. now right.
  - assert (Hnext : forall r,
               sat (bind (sleep svc 1000)
                         (fun _ => waitForConfirmation svc signature retries))
                   (fun r' ev' =>
                      bounded (S retries) r'
                              ([EGetSignatureStatus signature r] ++ ev'))).
    { intros r. apply sat_bind, sat_sleep.
      eapply sat_weaken; [apply IH|]. cbn beta. intros r' ev' H.
      now apply bounded_next. }
    assert (Hend : forall v b,
               (b = true -> confirmed v = true) ->
               (b = false -> err v = true) ->
               bounded (S retries) (Ret b)
                       [EGetSignatureStatus signature (Ret (Some v))]).
    { intros v b Ht Hf.
      destruct (request_counts (Ret (Some v)) []) as (C1 & C2 & _).
      split; [now exists b|]. split.
      { constructor; [left; eexists; reflexivity|constructor]. }
      rewrite C1, C2. unfold count. cbn [filter List.length].
      split; [lia|]. split; [lia|]. split.
      - intros Hr. injection Hr as ->. exists [], v. split; [reflexivity|auto].
      - intros Hr. injection Hr as ->. left. exists [], v.
        split; [reflexivity|auto]. }
    apply sat_bind, sat_try_catch, sat_call. intros [[v|]|e].
    + destruct (err v) eqn:Herr.
      * apply sat_ret. rewrite app_nil_r.
        apply Hend; [discriminate|auto].
      * destruct ((confirmationStatus v =? "confirmed")
                  || (confirmationStatus v =? "finalized"))%string eqn:Hc.
        -- apply sat_ret. rewrite app_nil_r.
           apply Hend; [|discriminate]. intros _. unfold confirmed.
           now rewrite Herr, Hc.
        -- apply Hnext.
    + apply Hnext.
    + apply sat_ret. rewrite app_nil_r. apply Hnext.
Qed.

End PollingFacts.

(** X5. [utils.waitForConfirmation] never throws.  It asks for the status
    of the signature [timeout] times at most, with a pause of one second
    after every request that does not end the wait.  It returns [true]
    only when the last status received is free of error and [confirmed]
    or [finalized]; it returns [false] at once on a status with an error,
    and otherwise only after [timeout] requests. *)
Theorem waitForConfirmation_polls_at_most_timeout :
  forall (W : Type) (svc : Arbitrage.Services W) (signature : string)
         (timeout : nat) (w : W),
    let run := Arbitrage.waitForConfirmation svc signature timeout w in
    let requests :=
      Count.count (Count.isStatusRequest signature) (Arbitrage.events run) in
    (exists b, Arbitrage.value run = Ret b) /\
    Forall (fun e =>
              (exists r, e = Arbitrage.EGetSignatureStatus signature r) \/
              e = Arbitrage.ESetTimeout 1000)
           (Arbitrage.events run) /\
    (requests <= timeout)%nat /\
    (Count.count (Count.isTimeout 1000) (Arbitrage.events run)
     <= requests)%nat /\
    (Arbitrage.value run = Ret true ->
     exists before v,
       Arbitrage.events run
       = before
         ++ [Arbitrage.EGetSignatureStatus signature (Ret (Some v))] /\
       Count.confirmed v = true) /\
    (Arbitrage.value run = Ret false ->
     (exists before v,
         Arbitrage.events run
         = before
           ++ [Arbitrage.EGetSignatureStatus signature (Ret (Some v))] /\
         Arbitrage.err v = true) \/
     requests = timeout).
Proof.
  intros W svc signature timeout w run requests.
  exact (waitForConfirmation_bounded svc signature timeout w).
Qed.

(** ** utils.simpleInstructionFormat *)

Section FormatFacts.
Import Solana Arbitrage.
Context {W : Type}.
Variable svc : Services W.

Let wellFormed (a : RawAccount) : Prop :=
  raw_pubkey a <> EmptyString /\ PublicKey_valid svc (raw_pubkey a) = true.

Let meta (a : RawAccount) : AccountMeta :=
  {| pubkey := raw_pubkey a;
     isSigner := raw_isSigner a;
     isWritable := raw_isWritable a |}.

Lemma formatAccounts_ret (accounts : list RawAccount)
  (keys : list AccountMeta) :
  formatAccounts svc accounts = Ret keys <->
  Forall wellFormed accounts /\ keys = map meta accounts.
Proof.
  revert keys. induction accounts as [|a accounts IH]; intros keys;
    cbn [formatAccounts map].
  - split.
    + intros H. injection H as <-. split; [constructor|reflexivity].
    + intros [_ ->]. reflexivity.
  - destruct (String.eqb_spec (raw_pubkey a) "") as [Hempty|Hne].
    { split; [discriminate|]. intros [Hall _].
      inversion Hall as [|? ? [Hp _] _]; subst. contradiction. }
    destruct (PublicKey_valid svc (raw_pubkey a)) eqn:Hvalid; cbn [negb].
    2:{ split; [discriminate|]. intros [Hall _].
        inversion Hall as [|? ? [_ Hv] _]; subst. congruence. }
    destruct (formatAccounts svc accounts) as [keys'|e].
    + destruct (IH keys') as [IH1 _]. destruct (IH1 eq_refl) as [Hall ->].
      split.
      * intros H. injection H as <-.
        split; [constructor; [split; assumption|exact Hall]|reflexivity].
      * intros [_ ->]. reflexivity.
    + split; [discriminate|]. intros [Hall ->].
      inversion Hall as [|? ? _ Hrest]; subst.
      destruct (IH (map meta accounts)) as [_ IH2].
      discriminate (IH2 (conj Hrest eq_refl)).
Qed.

Lemma formatAccounts_first_bad (before : list RawAccount) (a : RawAccount)
  (after : list RawAccount) :
  Forall wellFormed before ->
  (raw_pubkey a = EmptyString ->
   formatAccounts svc (before ++ a :: after)
   = Throw "Invalid account in instruction") /\
  (raw_pubkey a <> EmptyString ->
   PublicKey_valid svc (raw_pubkey a) = false ->
   formatAccounts svc (before ++ a :: after)
   = Throw ("Invalid pubkey: " ++ raw_pubkey a)).
Proof.
  induction 1 as [|b before [Hp Hv] Hbefore IH]; cbn [app formatAccounts].
  - split.
    + intros ->. reflexivity.
    + intros Hne Hvalid.
      destruct (String.eqb_spec (raw_pubkey a) ""); [contradiction|].
      now rewrite Hvalid.
  - destruct (String.eqb_spec (raw_pubkey b) ""); [contradiction|].
    rewrite Hv. cbn [negb]. destruct IH as [IH1 IH2]. split.
    + intros Hempty. now rewrite IH1.
    + intros Hne Hvalid. now rewrite IH2.
Qed.

End FormatFacts.

(** X6. [utils.simpleInstructionFormat] returns an instruction exactly for
    a description with a program id that is present and valid, with an
    array of accounts, each with a public key that is present and valid,
    and with data to decode; the instruction then has that program id, the
    accounts in the order given with their signer and writable flags, and
    the decoded data.  For every other description it throws: the first
    malformed account decides the message, and a description that is well
    formed but for its data is refused with the message of the decoding
    step. *)
Theorem simpleInstructionFormat_accepts_well_formed :
  forall (W : Type) (svc : Arbitrage.Services W)
         (instruction : option Arbitrage.RawInstruction),
    let wellFormed (a : Arbitrage.RawAccount) :=
      Arbitrage.raw_pubkey a <> EmptyString /\
      Arbitrage.PublicKey_valid svc (Arbitrage.raw_pubkey a) = true in
    let meta (a : Arbitrage.RawAccount) :=
      {| Solana.pubkey := Arbitrage.raw_pubkey a;
         Solana.isSigner := Arbitrage.raw_isSigner a;
         Solana.isWritable := Arbitrage.raw_isWritable a |} in
    (forall ix,
        Arbitrage.simpleInstructionFormat svc instruction = Ret ix <->
        exists i accounts encoded,
          instruction = Some i /\
          Arbitrage.raw_programId i <> EmptyString /\
          Arbitrage.PublicKey_valid svc (Arbitrage.raw_programId i) = true /\
          Arbitrage.raw_accounts i = Some accounts /\
          Forall wellFormed accounts /\
          Arbitrage.raw_data i = Some encoded /\
          ix = {| Solana.programId := Arbitrage.raw_programId i;
                  Solana.keys := map meta accounts;
                  Solana.data := Arbitrage.base64 svc encoded |}) /\
    (instruction = None ->
     Arbitrage.simpleInstructionFormat svc instruction
     = Throw "Invalid instruction format") /\
    (forall i accounts,
        instruction = Some i ->
        Arbitrage.raw_programId i <> EmptyString ->
        Arbitrage.PublicKey_valid svc (Arbitrage.raw_programId i) = true ->
        Arbitrage.raw_accounts i = Some accounts ->
        Forall wellFormed accounts ->
        Arbitrage.raw_data i = None ->
        Arbitrage.simpleInstructionFormat svc instruction
        = Throw "Invalid data in instruction") /\
    (forall i before a after,
        instruction = Some i ->
        Arbitrage.raw_programId i <> EmptyString ->
        Arbitrage.PublicKey_valid svc (Arbitrage.raw_programId i) = true ->
        Arbitrage.raw_accounts i = Some (before ++ a :: after) ->
        Forall wellFormed before ->
        (Arbitrage.raw_pubkey a = EmptyString ->
         Arbitrage.simpleInstructionFormat svc instruction
         = Throw "Invalid account in instruction") /\
        (Arbitrage.raw_pubkey a <> EmptyString ->
         Arbitrage.PublicKey_valid svc (Arbitrage.raw_pubkey a) = false ->
         Arbitrage.simpleInstructionFormat svc instruction
         = Throw ("Invalid pubkey: " ++ Arbitrage.raw_pubkey a))).
Proof.
  intros W svc instruction wellFormed meta.
  split; [|split; [|split]].
  - intros ix. unfold Arbitrage.simpleInstructionFormat. split.
    + destruct instruction as [i|]; [|discriminate].
      destruct (String.eqb_spec (Arbitrage.raw_programId i) "")
        as [|Hne]; [discriminate|].
      destruct (Arbitrage.raw_accounts i) as [accounts|] eqn:Hacc;
        [|discriminate].
      destruct (Arbitrage.PublicKey_valid svc (Arbitrage.raw_programId i))
        eqn:Hvalid; cbn [negb]; [|discriminate].
      destruct (Arbitrage.formatAccounts svc accounts) as [keys|e] eqn:Hkeys;
        [|discriminate].
      apply formatAccounts_ret in Hkeys. destruct Hkeys as [Hall ->].
      destruct (Arbitrage.raw_data i) as [encoded|] eqn:Hdata;
        [|discriminate].
      intros Hix. injection Hix as <-.
      exists i, accounts, encoded. repeat split; auto.
    + intros (i & accounts & encoded & -> & Hne & Hvalid & Hacc & Hall
              & Hdata & ->).
      destruct (String.eqb_spec (Arbitrage.raw_programId i) "");
        [contradiction|].
      rewrite Hacc, Hvalid. cbn [negb].
      rewrite (proj2 (formatAccounts_ret svc accounts _)
                     (conj Hall eq_refl)).
      now rewrite Hdata.
  - intros ->. reflexivity.
  - intros i accounts -> Hne Hvalid Hacc Hall Hdata.
    unfold Arbitrage.simpleInstructionFormat.
    destruct (String.eqb_spec (Arbitrage.raw_programId i) "");
      [contradiction|].
    rewrite Hacc, Hvalid. cbn [negb].
    rewrite (proj2 (formatAccounts_ret svc accounts _)
                   (conj Hall eq_refl)).
    now rewrite Hdata.
  - intros i before a after -> Hne Hvalid Hacc Hbefore.
    unfold Arbitrage.simpleInstructionFormat.
    destruct (String.eqb_spec (Arbitrage.raw_programId i) "");
      [contradiction|].
    rewrite Hacc, Hvalid. cbn [negb].
    destruct (formatAccounts_first_bad svc before a after Hbefore)
      as [H1 H2].
    split.
    + intros Hempty. now rewrite H1.
    + intros Hp Hv. now rewrite H2.
Qed.

(** A swap instruction whose second account has no public key, and one
    that is well formed but has no data. *)
Lemma simpleInstructionFormat_witness :
  Arbitrage.simpleInstructionFormat Scenario.quiet
    (Some {| Arbitrage.raw_programId := "JUP";
             Arbitrage.raw_accounts :=
               Some [ {| Arbitrage.raw_pubkey := "Payer";
                         Arbitrage.raw_isSigner := true;
                         Arbitrage.raw_isWritable := true |};
                      {| Arbitrage.raw_pubkey := EmptyString;
                         Arbitrage.raw_isSigner := false;
                         Arbitrage.raw_isWritable := false |} ];
             Arbitrage.raw_data := Some EmptyString |})
  = Throw "Invalid account in instruction" /\
  Arbitrage.simpleInstructionFormat Scenario.quiet
    (Some {| Arbitrage.raw_programId := "JUP";
             Arbitrage.raw_accounts :=
               Some [ {| Arbitrage.raw_pubkey := "Payer";
                         Arbitrage.raw_isSigner := true;
                         Arbitrage.raw_isWritable := true |} ];
             Arbitrage.raw_data := None |})
  = Throw "Invalid data in instruction".
Proof.
  split.
  - refine (proj1
      (proj2 (proj2 (proj2 (simpleInstructionFormat_accepts_well_formed
                              Z Scenario.quiet _)))
             {| Arbitrage.raw_programId := "JUP";
                Arbitrage.raw_accounts := Some _;
                Arbitrage.raw_data := Some EmptyString |}
             [ {| Arbitrage.raw_pubkey := "Payer";
                  Arbitrage.raw_isSigner := true;
                  Arbitrage.raw_isWritable := true |} ]
             {| Arbitrage.raw_pubkey := EmptyString;
                Arbitrage.raw_isSigner := false;
                Arbitrage.raw_isWritable := false |}
             [] eq_refl _ eq_refl eq_refl _) eq_refl).
    + discriminate.
    + constructor; [split; [discriminate|reflexivity]|constructor].
  - refine (proj1
      (proj2 (proj2 (simpleInstructionFormat_accepts_well_formed
                       Z Scenario.quiet _)))
      {| Arbitrage.raw_programId := "JUP";
         Arbitrage.raw_accounts := Some _;
         Arbitrage.raw_data := None |}
      [ {| Arbitrage.raw_pubkey := "Payer";
           Arbitrage.raw_isSigner := true;
           Arbitrage.raw_isWritable := true |} ]
      eq_refl _ eq_refl eq_refl _ eq_refl).
    + discriminate.
    + constructor; [split; [discriminate|reflexivity]|constructor].
Defined.

(** ** bellmanFord.buildExchangeRateGraph *)

Section GraphFacts.
Import Arbitrage Graph.
Context {W : Type}.
Variable svc : Services W.
Variable cfg : Cfg.Config.

Let edgeOf (fromIndex toIndex : Z) (a b : Cfg.Token) (q : Quote)
  : Scanner.Edge :=
  {| Scanner.from := fromIndex;
     Scanner.to := toIndex;
     Scanner.fromToken := a;
     Scanner.toToken := b;
     Scanner.rate :=
       quotedRate (Cfg.STANDARD_AMOUNT cfg) (outAmount q)
                  (Cfg.decimals a) (Cfg.decimals b);
     Scanner.outAmount := outAmount q;
     Scanner.dexNames :=
       if (dexNames q =? "")%string then "Jupiter"%string else dexNames q;
     Scanner.inAmount := Cfg.STANDARD_AMOUNT cfg |}.

Lemma scanDirection_spec (graph : list Scanner.Edge) (fromIndex toIndex : Z)
  (a b : Cfg.Token) :
  sat (scanDirection svc cfg graph fromIndex toIndex a b)
      (fun r ev =>
         exists rq d,
           ev = [EGetJupiterQuote (Cfg.mint a) (Cfg.mint b)
                                  (Cfg.STANDARD_AMOUNT cfg) false rq] /\
           r = Ret (graph ++ d) /\
           (d = [] \/
            exists q, rq = Ret (Some q) /\
                      d = [edgeOf fromIndex toIndex a b q])).
Proof.
  unfold scanDirection. apply sat_try_catch, sat_bind, sat_call.
  intros [[q|]|e].
  - apply sat_ret. eexists _, [_]. cbn [app]. split; [reflexivity|].
    split; [reflexivity|]. right. exists q. split; reflexivity.
  - apply sat_ret. eexists _, []. cbn [app]. rewrite app_nil_r.
    split; [reflexivity|]. split; [reflexivity|]. now left.
  - apply sat_ret. eexists _, []. cbn [app]. rewrite app_nil_r.
    split; [reflexivity|]. split; [reflexivity|]. now left.
Qed.

Lemma scanned_more (ev ev' : list Event) (e : Scanner.Edge) :
  incl ev ev' -> scanned cfg ev e -> scanned cfg ev' e.
Proof.
  intros Hincl (H1 & H2 & H3 & H4 & H5 & q & Hq & Hout).
  repeat (split; [assumption|]). exists q. split; [now apply Hincl|exact Hout].
Qed.

Lemma scanPairs_spec (solToken : Cfg.Token) (rest prefix : list Cfg.Token)
  (graph : list Scanner.Edge) :
  Cfg.TOKENS cfg = prefix ++ rest ->
  nth_error (Cfg.TOKENS cfg) 0 = Some solToken ->
  sat (scanPairs svc cfg solToken rest (Z.of_nat (List.length prefix)) graph)
      (fun r ev =>
         exists found,
           r = Ret (graph ++ found) /\
           Forall (probe cfg) ev /\
           List.length ev
           = (2 * (List.length rest
                   - match prefix with [] => 1 | _ => 0 end))%nat /\
           Forall (scanned cfg ev) found /\
           Forall (fun e => Z.of_nat (List.length prefix)
                            <= Scanner.from e + Scanner.to e) found /\
           NoDup (map ends found)).
Proof.
  revert prefix graph.
  induction rest as [|token rest IH]; intros prefix graph Htokens Hsol;
    cbn [scanPairs].
  - apply sat_ret. exists []. rewrite app_nil_r.
    split; [reflexivity|]. split; [constructor|].
    split; [cbn; lia|]. split; [constructor|]. split; [constructor|].
    constructor.
  - assert (Hnext : Z.of_nat (List.length prefix) + 1
                    = Z.of_nat (List.length (prefix ++ [token])))
      by (rewrite length_app; cbn [List.length]; lia).
    assert (Htokens' : Cfg.TOKENS cfg = (prefix ++ [token]) ++ rest)
      by (now rewrite <- app_assoc).
    assert (Hcons : forall l : list Cfg.Token,
               match l ++ [token] with [] => 1%nat | _ => 0%nat end = 0%nat)
      by (intros l; destruct l; reflexivity).
    rewrite Hnext.
    unfold Scanner.solTokenIndex.
    destruct (Z.eqb_spec (Z.of_nat (List.length prefix)) 0) as [Hzero|Hpos].
    + destruct prefix as [|p prefix]; [|cbn in Hzero; lia].
      eapply sat_weaken; [apply (IH [token] graph Htokens' Hsol)|].
      cbn beta. intros r ev (found & Hr & Hev & Hlen & Hfound & Hidx & Hnd).
      exists found. split; [exact Hr|]. split; [exact Hev|].
      split; [cbn [List.length app] in *; lia|].
      split; [exact Hfound|]. split; [|exact Hnd].
      revert Hidx. apply Forall_impl. cbn. intros; lia.
    + assert (Hk : 0 < Z.of_nat (List.length prefix)
                   < Z.of_nat (List.length (Cfg.TOKENS cfg))).
      { rewrite Htokens, length_app. cbn [List.length]. lia. }
      assert (Htok : nth_error (Cfg.TOKENS cfg)
                               (Z.to_nat (Z.of_nat (List.length prefix)))
                     = Some token).
      { rewrite Nat2Z.id, Htokens, nth_error_app2 by lia.
        now rewrite Nat.sub_diag. }
      apply sat_bind.
      eapply sat_weaken; [apply scanDirection_spec|]. cbn beta.
      intros r1 ev1 (rq1 & d1 & -> & -> & Hd1).
      apply sat_bind.
      eapply sat_weaken; [apply scanDirection_spec|]. cbn beta.
      intros r2 ev2 (rq2 & d2 & -> & -> & Hd2).
      eapply sat_weaken;
        [apply (IH (prefix ++ [token]) ((graph ++ d1) ++ d2) Htokens' Hsol)|].
      cbn beta. intros r ev (found & Hr & Hev & Hlen & Hfound & Hidx & Hnd).
      exists (d1 ++ d2 ++ found).
      split; [now rewrite Hr, <- !app_assoc|].
      split.
      { cbn [app]. constructor; [now eexists _, _, _|].
        constructor; [now eexists _, _, _|exact Hev]. }
      split.
      { cbn [app List.length]. rewrite Hlen, Hcons.
        destruct prefix; [cbn in Hpos; lia|]. lia. }
      set (all := [EGetJupiterQuote (Cfg.mint solToken) (Cfg.mint token)
                                    (Cfg.STANDARD_AMOUNT cfg) false rq1]
                  ++ [EGetJupiterQuote (Cfg.mint token) (Cfg.mint solToken)
                                       (Cfg.STANDARD_AMOUNT cfg) false rq2]
                  ++ ev).
      assert (H1 : Forall (scanned cfg all) d1 /\
                   Forall (fun e => ends e
                                    = (0, Z.of_nat (List.length prefix))) d1).
      { destruct Hd1 as [->|(q & -> & ->)]; [split; constructor|].
        split; [|repeat constructor].
        constructor; [|constructor]. unfold scanned, edgeOf.
        cbn [Scanner.from Scanner.to Scanner.fromToken Scanner.toToken
             Scanner.inAmount Scanner.rate Scanner.outAmount].
        split; [left; split; [reflexivity|exact Hk]|].
        split; [exact Hsol|]. split; [exact Htok|].
        split; [reflexivity|]. split; [reflexivity|].
        exists q. split; [now left|reflexivity]. }
      assert (H2 : Forall (scanned cfg all) d2 /\
                   Forall (fun e => ends e
                                    = (Z.of_nat (List.length prefix), 0)) d2).
      { destruct Hd2 as [->|(q & -> & ->)]; [split; constructor|].
        split; [|repeat constructor].
        constructor; [|constructor]. unfold scanned, edgeOf.
        cbn [Scanner.from Scanner.to Scanner.fromToken Scanner.toToken
             Scanner.inAmount Scanner.rate Scanner.outAmount].
        split; [right; split; [reflexivity|exact Hk]|].
        split; [exact Htok|]. split; [exact Hsol|].
        split; [reflexivity|]. split; [reflexivity|].
        exists q. split; [right; now left|reflexivity]. }
      destruct H1 as [H1 E1]. destruct H2 as [H2 E2].
      split.
      { apply Forall_app. split; [exact H1|].
        apply Forall_app. split; [exact H2|].
        revert Hfound. apply Forall_impl. intros e.
        apply scanned_more. intros x Hx. right. right. exact Hx. }
      split.
      { apply Forall_app. split.
        - revert E1. apply Forall_impl. unfold ends. intros e He.
          injection He as -> ->. lia.
        - apply Forall_app. split.
          + revert E2. apply Forall_impl. unfold ends. intros e He.
            injection He as -> ->. lia.
          + revert Hidx. apply Forall_impl. intros e. rewrite <- Hnext. lia. }
      rewrite !map_app.
      assert (Hsingle : forall (d : list Scanner.Edge) (p : Z * Z),
                 (d = [] \/ exists e, d = [e]) ->
                 Forall (fun e => ends e = p) d ->
                 map ends d = [] \/ map ends d = [p]).
      { intros d p [->|(e & ->)] Hd; [now left|right].
        inversion Hd; subst. cbn. congruence. }
      assert (Hfar : forall p, In p (map ends found) ->
                               Z.of_nat (List.length prefix) < fst p + snd p).
      { intros p Hp. apply in_map_iff in Hp. destruct Hp as (e & <- & He).
        rewrite Forall_forall in Hidx. specialize (Hidx e He).
        unfold ends. cbn [fst snd]. lia. }
      assert (S1 : d1 = [] \/ exists e, d1 = [e])
        by (destruct Hd1 as [->|(q & _ & ->)]; eauto).
      assert (S2 : d2 = [] \/ exists e, d2 = [e])
        by (destruct Hd2 as [->|(q & _ & ->)]; eauto).
      destruct (Hsingle d1 _ S1 E1) as [->| ->];
        destruct (Hsingle d2 _ S2 E2) as [->| ->]; cbn [app];
        repeat (constructor;
                [cbn [In]; intros Hin;
                 repeat (destruct Hin as [Hin|Hin];
                         [injection Hin as Ha Hb; lia|]);
                 try (apply Hfar in Hin; cbn [fst snd] in Hin; lia);
                 try contradiction|]);
        exact Hnd.
Qed.

Lemma buildExchangeRateGraph_spec :
  sat (buildExchangeRateGraph svc cfg)
      (fun r ev =>
         exists graph,
           r = Ret graph /\
           Forall (probe cfg) ev /\
           List.length ev = (2 * (List.length (Cfg.TOKENS cfg) - 1))%nat /\
           Forall (scanned cfg ev) graph /\
           NoDup (map ends graph)).
Proof.
  unfold buildExchangeRateGraph.
  destruct (Cfg.TOKENS cfg) as [|solToken tokens] eqn:Htokens.
  - apply sat_ret. exists []. split; [reflexivity|].
    split; [constructor|]. split; [reflexivity|]. split; constructor.
  - eapply sat_weaken.
    + apply (scanPairs_spec solToken (solToken :: tokens) [] []).
      * exact Htokens.
      * now rewrite Htokens.
    + cbn beta. intros r ev (found & Hr & Hev & Hlen & Hfound & _ & Hnd).
      exists found. split; [exact Hr|]. split; [exact Hev|].
      split; [exact Hlen|]. split; [exact Hfound|exact Hnd].
Qed.

End GraphFacts.

(** X7. [buildExchangeRateGraph] never throws and asks for two quotes per
    token other than the base token, each for the standard amount and by
    any route.  Every edge of the graph it returns joins the base token, at
    index 0, and another token, in one direction or the other; it carries
    the two tokens, the standard amount as input and the rate of a quote
    that came back; and the graph holds one edge at most for an ordered
    pair of tokens. *)
Theorem exchange_rate_graph_is_a_star :
  forall (W : Type) (svc : Arbitrage.Services W) (cfg : Cfg.Config) (w : W),
    let run := Arbitrage.buildExchangeRateGraph svc cfg w in
    exists graph,
      Arbitrage.value run = Ret graph /\
      Forall (Graph.probe cfg) (Arbitrage.events run) /\
      List.length (Arbitrage.events run)
      = (2 * (List.length (Cfg.TOKENS cfg) - 1))%nat /\
      Forall (Graph.scanned cfg (Arbitrage.events run)) graph /\
      NoDup (map Graph.ends graph) /\
      (List.length graph <= List.length (Arbitrage.events run))%nat.
Proof.
  intros W svc cfg w run.
  destruct (buildExchangeRateGraph_spec svc cfg w)
    as (graph & Hr & Hev & Hlen & Hgraph & Hnd).
  fold run in Hr, Hev, Hlen, Hgraph.
  exists graph. repeat (split; [assumption|]).
  (* one edge per ordered pair, and the pairs are among the 2 (n - 1) that
     join index 0 and another index *)
  set (n := List.length (Cfg.TOKENS cfg)) in *.
  set (pairs := map (fun i => (0, Z.of_nat i)) (seq 1 (n - 1))
                ++ map (fun i => (Z.of_nat i, 0)) (seq 1 (n - 1))).
  assert (Hincl : incl (map Graph.ends graph) pairs).
  { intros p Hp. apply in_map_iff in Hp. destruct Hp as (e & <- & He).
    rewrite Forall_forall in Hgraph.
    destruct (Hgraph e He) as ([[Hf Ht]|[Ht Hf]] & _);
      unfold Graph.ends, pairs; rewrite Hf || rewrite Ht;
      apply in_or_app; [left|right]; apply in_map_iff.
    - exists (Z.to_nat (Scanner.to e)).
      split; [f_equal; lia|apply in_seq; fold n in Ht; lia].
    - exists (Z.to_nat (Scanner.from e)).
      split; [f_equal; lia|apply in_seq; fold n in Hf; lia]. }
  pose proof (NoDup_incl_length Hnd Hincl) as Hle.
  rewrite length_map in Hle. unfold pairs in Hle.
  rewrite length_app, !length_map, !length_seq in Hle. lia.
Qed.

(** ** What [executeSimpleArbitrage] reports as a success *)

Section ReportFacts.
Import Solana Arbitrage Count.
Context {W : Type}.
Variable svc : Services W.
Variable cfg : Cfg.Config.
Variable payer : Keypair.
Variable opportunity : VerifiedOpportunity.

(** A success names a transaction that was sent and whose status came back
    confirmed, or a bundle that the block engine accepted, and the profit
    at which the opportunity was verified. *)
Let earned (jito : bool) (r : Outcome ExecResult) (ev : list Event) : Prop :=
  match r with
  | Ret (Sent signature profit net) =>
      jito = false /\
      profit = verifiedProfit opportunity /\
      net = netProfit opportunity /\
      (exists tx,
          In (ESendTransaction tx (Ret signature)) ev \/
          In (ESendRawTransaction tx (Ret signature)) ev) /\
      exists v,
        In (EGetSignatureStatus signature (Ret (Some v))) ev /\
        confirmed v = true
  | Ret (Bundled bundleId profit net) =>
      jito = true /\
      profit = verifiedProfit opportunity /\
      net = netProfit opportunity /\
      exists tx,
        In (ESubmitJitoBundle tx (estimatedTip opportunity)
                              (Ret (BundleAccepted bundleId))) ev
  | _ => True
  end.

Lemma earned_after (jito : bool) (r : Outcome ExecResult)
  (before ev : list Event) :
  earned jito r ev -> earned jito r (before ++ ev).
Proof.
  destruct r as [[e|signature profit net|bundleId profit net]|e]; cbn;
    try exact (fun H => H).
  - intros (H1 & H2 & H3 & (tx & Htx) & v & Hv & Hc).
    repeat (split; [assumption|]). split.
    + exists tx. destruct Htx; [left|right]; apply in_or_app; now right.
    + exists v. split; [apply in_or_app; now right|exact Hc].
  - intros (H1 & H2 & H3 & tx & Htx).
    repeat (split; [assumption|]). exists tx. apply in_or_app; now right.
Qed.

Ltac locate :=
  solve [ assumption
        | apply in_eq
        | apply in_cons; locate
        | apply in_or_app; left; locate
        | apply in_or_app; right; locate ].

Ltac skip_step :=
  apply sat_bind, sat_any; intros [?|?] ?; cbn beta iota.

Ltac report_step :=
  lazymatch goal with
  | |- sat (bind (call (ESendRawTransaction _) _) _) _ =>
      apply sat_bind, sat_call; intros [?signature|?]; cbn beta iota
  | |- sat (bind (call (ESendTransaction _) _) _) _ =>
      apply sat_bind, sat_call; intros [?signature|?]; cbn beta iota
  | |- sat (bind (call (ESubmitJitoBundle _ _) _) _) _ =>
      apply sat_bind, sat_call; intros [[?bundleId|?]|?]; cbn beta iota
  | |- sat (bind (waitForConfirmation _ ?s ?n) _) _ =>
      apply sat_bind; eapply sat_weaken;
      [ apply (waitForConfirmation_bounded svc s n)
      | intros [[|]|?] ? (_ & _ & _ & _ & ?Htrue & _);
        cbn beta iota delta [negb] ]
  | |- sat (bind ensureSystemIntegrity _) _ => skip_step
  | |- sat (bind (ensureSystemIntegrity _ _) _) _ => skip_step
  | |- sat (bind (compileInstructions _ _) _) _ => skip_step
  | |- sat (bind (versionedTransaction _ _ _ _) _) _ => skip_step
  | |- sat (bind (call _ _) _) _ => skip_step
  | |- sat (bind (emit _) _) _ => skip_step
  | |- _ => run_step
  end.

Ltac report_leaf :=
  cbn [earned]; try exact I;
  repeat match goal with
         | |- _ /\ _ => split
         | |- _ = _ => reflexivity
         | Htrue : Ret true = Ret true -> _ |- _ =>
             destruct (Htrue eq_refl) as (?before & ?v & ?Hev & ?Hc);
             clear Htrue
         end;
  try (eexists; first [left; locate|right; locate]);
  try (eexists; split;
       [ match goal with
         | Hev : ?l = _ ++ [_] |- In _ _ => rewrite Hev
         end; locate
       | assumption ]);
  try (eexists; locate).

Lemma sendStandard_reports (p : Prepared) :
  sat (sendStandard svc payer opportunity p) (earned false).
Proof.
  unfold sendStandard. repeat report_step; report_leaf.
Qed.

Lemma sendVersioned_reports (p : Prepared) (lookupTables : list LookupTable) :
  sat (sendVersioned svc payer opportunity p lookupTables) (earned false).
Proof.
  unfold sendVersioned. repeat report_step; report_leaf.
Qed.

Lemma dispatchDirect_reports (p : Prepared) (lookupTables : list LookupTable) :
  sat (dispatchDirect svc payer opportunity p lookupTables) (earned false).
Proof.
  unfold dispatchDirect. cbv zeta. apply sat_bind.
  destruct (0 <? Z.of_nat (List.length lookupTables)).
  - apply sat_try_catch, sat_bind.
    eapply sat_weaken; [apply sendVersioned_reports|]. cbn beta.
    intros [result|e] ev H.
    + apply sat_ret, sat_ret. now rewrite !app_nil_r.
    + apply sat_ret. rewrite app_nil_r.
      eapply sat_weaken; [apply sendStandard_reports|]. cbn beta.
      intros r ev'. apply earned_after.
  - apply sat_ret. eapply sat_weaken; [apply sendStandard_reports|].
    cbn beta. intros r ev'. apply earned_after.
Qed.

Lemma executeDirect_reports (solTokenAccount : option string) :
  sat (executeDirect svc cfg payer opportunity solTokenAccount)
      (earned false).
Proof.
  unfold executeDirect. skip_step.
  - apply sat_bind.
    eapply sat_weaken; [apply quoteSwaps_spec|]. cbn beta.
    intros [[failure|p]|e] evq (_ & _ & Hfail).
    + destruct (Hfail failure eq_refl) as [message ->].
      apply sat_ret. exact I.
    + eapply sat_weaken; [apply dispatchDirect_reports|]. cbn beta.
      intros r ev' H. now apply earned_after, earned_after.
    + exact I.
  - exact I.
Qed.

Lemma executeWithBundle_reports (solTokenAccount : option string) :
  sat (executeWithBundle svc cfg payer opportunity solTokenAccount)
      (earned true).
Proof.
  unfold executeWithBundle. cbv zeta. skip_step; [|exact I].
  destruct (Z.of_nat (List.length a) =? 0); [apply sat_ret; exact I|].
  apply sat_bind.
  eapply sat_weaken; [apply quoteSwaps_spec|]. cbn beta.
  intros [[failure|p]|e] evq (_ & _ & Hfail).
  - destruct (Hfail failure eq_refl) as [message ->].
    apply sat_ret. exact I.
  - repeat report_step; report_leaf.
  - exact I.
Qed.

Lemma executeSimpleArbitrage_reports (solTokenAccount : option string) :
  sat (executeSimpleArbitrage svc cfg payer opportunity solTokenAccount)
      (earned (Cfg.JITO_MODE cfg)).
Proof.
  unfold executeSimpleArbitrage. apply sat_try_catch.
  apply (sat_weaken _ (fun r ev =>
           match r with
           | Ret _ => earned (Cfg.JITO_MODE cfg) r ev
           | Throw _ => True
           end)).
  2:{ intros [result|e] ev H; [exact H|]. apply sat_ret. exact I. }
  skip_step; [|exact I].
  destruct (Cfg.JITO_MODE cfg).
  - eapply sat_weaken; [apply executeWithBundle_reports|]. cbn beta.
    intros [result|e] ev' H; [now apply earned_after|exact I].
  - eapply sat_weaken; [apply executeDirect_reports|]. cbn beta.
    intros [result|e] ev' H; [now apply earned_after|exact I].
Qed.

End ReportFacts.

(** X8. What [executeSimpleArbitrage] reports as a success.  In direct mode
    the signature it returns is that of a transaction it sent, and the
    status of that signature came back free of error and [confirmed] or
    [finalized]; in bundle mode the id it returns is the one with which the
    block engine accepted the bundle, submitted with the estimated tip of
    the opportunity.  The profit and the net profit of the result are those
    at which the opportunity was verified: nothing is measured after the
    trade. *)
Theorem success_reports_a_confirmed_transaction :
  forall (W : Type) (svc : Arbitrage.Services W) (cfg : Cfg.Config)
         (payer : Arbitrage.Keypair)
         (opportunity : Arbitrage.VerifiedOpportunity)
         (solTokenAccount : option string) (w : W),
    let run := Arbitrage.executeSimpleArbitrage
                 svc cfg payer opportunity solTokenAccount w in
    (forall signature profit net,
        Arbitrage.value run = Ret (Arbitrage.Sent signature profit net) ->
        Cfg.JITO_MODE cfg = false /\
        profit = Arbitrage.verifiedProfit opportunity /\
        net = Arbitrage.netProfit opportunity /\
        (exists tx,
            In (Arbitrage.ESendTransaction tx (Ret signature))
               (Arbitrage.events run) \/
            In (Arbitrage.ESendRawTransaction tx (Ret signature))
               (Arbitrage.events run)) /\
        exists v,
          In (Arbitrage.EGetSignatureStatus signature (Ret (Some v)))
             (Arbitrage.events run) /\
          Count.confirmed v = true) /\
    (forall bundleId profit net,
        Arbitrage.value run = Ret (Arbitrage.Bundled bundleId profit net) ->
        Cfg.JITO_MODE cfg = true /\
        profit = Arbitrage.verifiedProfit opportunity /\
        net = Arbitrage.netProfit opportunity /\
        exists tx,
          In (Arbitrage.ESubmitJitoBundle
                tx (Arbitrage.estimatedTip opportunity)
                (Ret (Arbitrage.BundleAccepted bundleId)))
             (Arbitrage.events run)).
Proof.
  intros W svc cfg payer opportunity solTokenAccount w run.
  pose proof (executeSimpleArbitrage_reports
                svc cfg payer opportunity solTokenAccount w) as H.
  fold run in H. split.
  - intros signature profit net Hr. rewrite Hr in H. exact H.
  - intros bundleId profit net Hr. rewrite Hr in H. exact H.
Qed.

(** The scenario of the specification in direct mode: the legacy
    transaction is sent and confirmed at the first poll. *)
Lemma success_reports_witness :
  exists tx v,
    In (Arbitrage.ESendRawTransaction tx (Ret "signature"%string))
       (Arbitrage.events
          (Arbitrage.executeSimpleArbitrage
             Scenario.market Cfg.config Scenario.payer
             (Scenario.twoHop Cfg.config) Scenario.wsolAccount 0)) /\
    In (Arbitrage.EGetSignatureStatus "signature" (Ret (Some v)))
       (Arbitrage.events
          (Arbitrage.executeSimpleArbitrage
             Scenario.market Cfg.config Scenario.payer
             (Scenario.twoHop Cfg.config) Scenario.wsolAccount 0)) /\
    Count.confirmed v = true.
Proof.
  destruct (proj1 (success_reports_a_confirmed_transaction
                     Z Scenario.market Cfg.config Scenario.payer
                     (Scenario.twoHop Cfg.config) Scenario.wsolAccount 0)
                  "signature"%string 2000000%float 1500000%float eq_refl)
    as (_ & _ & _ & (tx & Htx) & v & Hv & Hc).
  exists tx, v. split; [|split; assumption].
  destruct Htx as [Htx|Htx]; [|exact Htx].
  exfalso. vm_compute in Htx.
  repeat (destruct Htx as [Htx|Htx]; [discriminate Htx|]). exact Htx.
Defined.

(** ** executeFlashLoanJupiterArbitrage *)

Section ScreenFacts.
Import Solana Arbitrage Spec Screen.
Context {W : Type}.
Variable svc : Services W.
Variable cfg : Cfg.Config.
Variable payer : Keypair.

Lemma screened_more (ev ev' : list Event) :
  incl ev ev' -> screened cfg ev -> screened cfg ev'.
Proof.
  intros Hincl (q1 & q2 & H1 & H2 & H3).
  exists q1, q2. split; [now apply Hincl|]. split; [now apply Hincl|exact H3].
Qed.

Ltac locate :=
  solve [ apply in_eq
        | apply in_cons; locate
        | apply in_or_app; left; locate
        | apply in_or_app; right; locate ].

Let gated (r : Outcome bool) (ev : list Event) : Prop :=
  (exists b, r = Ret b) /\
  (screened cfg ev \/ (r = Ret false /\ Forall (screening payer) ev)).

Lemma executeFlashLoanJupiterArbitrage_gated :
  sat (executeFlashLoanJupiterArbitrage svc cfg payer) gated.
Proof.
  assert (Hm : forall ev, Forall (maintenance payer) ev ->
                          Forall (screening payer) ev).
  { intros ev. apply Forall_impl. intros []; cbn; tauto. }
  unfold executeFlashLoanJupiterArbitrage.
  repeat lazymatch goal with
         | |- sat (ensureSystemIntegrity _ _) _ =>
             eapply sat_weaken;
             [ apply ensureSystemIntegrity_events
             | intros [?|?] ? [[? ?] ?]; [|discriminate] ]; cbn beta iota
         | |- sat (executeSimpleArbitrage _ _ _ _ _) _ =>
             apply sat_any; intros [?|?] ?; cbn beta iota
         | |- _ => run_step
         end;
    (split; [eexists; reflexivity|]);
    first
      [ solve [ right; split; [reflexivity|]; cbn [app];
                repeat match goal with
                       | |- Forall _ [] => apply Forall_nil
                       | |- Forall _ (_ :: _) =>
                           apply Forall_cons; [exact I|]
                       | |- Forall _ (_ ++ _) => apply Forall_app; split
                       | H : Forall (maintenance _) ?ev |- Forall _ ?ev =>
                           exact (Hm _ H)
                       end ]
      | left; eexists _, _;
        split; [|split;
                 [|match goal with
                   | H : Js.ltb _ _ = false |- _ => exact H
                   end]];
        locate ].
Qed.

End ScreenFacts.



(** ** From the scanner to the executor *)

Section PipelineFacts.
Import Solana Arbitrage Spec.
Context {W : Type}.
Variable svc : Services W.
Variable cfg : Cfg.Config.
Variable payer : Keypair.

Lemma requoted_length (edges : list Scanner.Edge) :
  forall currentAmount verifiedEdges outs ev,
    requoted currentAmount edges verifiedEdges outs ev ->
    List.length verifiedEdges = List.length edges.
Proof.
  induction edges as [|e edges IH];
    intros currentAmount [|ve verifiedEdges] [|out outs] [|r ev] H;
    cbn in H; try contradiction; [reflexivity|].
  destruct H as (q & _ & _ & _ & H). cbn. f_equal. exact (IH _ _ _ _ H).
Qed.

Lemma firstn_incl {A : Type} (n : nat) (l : list A) (x : A) :
  In x (firstn n l) -> In x l.
Proof.
  revert l. induction n as [|n IH]; intros [|a l]; cbn; try contradiction.
  intros [->|H]; [now left|right; now apply IH].
Qed.

(** What the verifier keeps of what the scanner found. *)
Lemma scanned_then_verified (graph : list Scanner.Edge)
  (opportunities : list Scanner.Opportunity) (w : W)
  (kept : list VerifiedOpportunity) (v : VerifiedOpportunity) :
  Scanner.findArbitrageOpportunities cfg (Some graph) = Some opportunities ->
  value (verifyOpportunities svc cfg payer opportunities w) = Ret kept ->
  In v kept ->
  (exists t e1 e2,
      0 < t < Z.of_nat (List.length (Cfg.TOKENS cfg)) /\
      Scanner.findEdge graph 0 t = Some e1 /\
      Scanner.findEdge graph t 0 = Some e2 /\
      cycle v = [0; t; 0] /\
      edges v = [e1; e2]) /\
  List.length (verifiedEdges v) = 2%nat /\
  cycleOk (cycle v) = true /\
  Js.geb (profitPercentage v) 0.1%float = true.
Proof.
  intros Hfound Hrun Hin.
  destruct (verifyOpportunities_spec svc cfg payer opportunities w)
    as (results & check & kept' & HF & _ & _ & Hv & _ & Hp & _).
  rewrite Hrun in Hv. injection Hv as <-.
  apply (Permutation_in _ Hp) in Hin.
  destruct (somes_In cfg _ _ _ HF Hin)
    as (o & ev & Ho & _ & Hok & outs & Hre & _ & Hc & He & _ & _ & Hge).
  apply firstn_incl in Ho.
  pose proof (found_spec cfg graph o) as Hspec. cbv beta in Hspec.
  rewrite Hfound in Hspec.
  destruct (proj1 Hspec Ho) as (t & Ht & Hne & e1 & e2 & H1 & H2 & Heq & _).
  unfold Scanner.solTokenIndex in *.
  assert (Hcycle : Scanner.cycle o = [0; t; 0]) by (now rewrite Heq).
  assert (Hedges : Scanner.edges o = [e1; e2]) by (now rewrite Heq).
  split.
  { exists t, e1, e2. split; [lia|]. repeat (split; [assumption|]).
    split; congruence. }
  split.
  { rewrite (requoted_length _ _ _ _ _ Hre), Hedges. reflexivity. }
  split; [now rewrite Hc|exact Hge].
Qed.

Lemma sat_self {A : Type} (m : M W A) :
  sat m (fun r ev => exists w, value (m w) = r /\ events (m w) = ev).
Proof. intros w. now exists w. Qed.

Let traded (r : Outcome bool) (ev : list Event) : Prop :=
  (exists b, r = Ret b) /\
  (r = Ret true ->
   exists graph opportunities best rest w0 w1 w2 before,
     value (buildExchangeRateGraph svc cfg w0) = Ret graph /\
     Scanner.findArbitrageOpportunities cfg (Some graph)
     = Some opportunities /\
     value (verifyOpportunities svc cfg payer opportunities w1)
     = Ret (best :: rest) /\
     Forall (fun v => Js.geb (profitPercentage best) (profitPercentage v)
                      = true) rest /\
     value (executeMultiHopArbitrage svc cfg payer best w2) = Ret true /\
     ev = before ++ events (executeMultiHopArbitrage svc cfg payer best w2)).

Lemma checkForBellmanFordArbitrage_traded :
  sat (checkForBellmanFordArbitrage svc cfg payer) traded.
Proof.
  assert (Hfalse : forall ev, traded (Ret false) ev).
  { intros ev. split; [now exists false|discriminate]. }
  unfold checkForBellmanFordArbitrage. apply sat_try_catch.
  apply (sat_weaken _ (fun r ev =>
           match r with Ret _ => traded r ev | Throw _ => True end)).
  2:{ intros [b|e] ev H; [exact H|]. apply sat_ret, Hfalse. }
  apply sat_bind, sat_any. intros [b|e] check; [|exact I].
  apply sat_bind. eapply sat_weaken; [apply sat_self|]. cbn beta.
  intros [graph|e] evg (w0 & Hgraph & _); [|exact I].
  destruct (Z.of_nat (List.length graph) =? 0); [apply sat_ret, Hfalse|].
  destruct (Scanner.findArbitrageOpportunities cfg (Some graph))
    as [[|o opportunities]|] eqn:Hfound; try (apply sat_ret, Hfalse).
  apply sat_bind. eapply sat_weaken; [apply sat_self|]. cbn beta.
  intros [[|best rest]|e] evv (w1 & Hkept & _);
    [apply sat_ret, Hfalse| |exact I].
  eapply sat_weaken; [apply sat_self|]. cbn beta.
  intros [b'|e] eve (w2 & Hexec & Hev).
  - split; [now exists b'|]. intros Hb. injection Hb as ->.
    exists graph, (o :: opportunities), best, rest, w0, w1, w2,
           (check ++ evg ++ evv).
    split; [exact Hgraph|]. split; [exact Hfound|]. split; [exact Hkept|].
    split.
    + destruct (verifyOpportunities_spec svc cfg payer (o :: opportunities)
                                         w1)
        as (results & check' & kept & _ & _ & _ & Hv & _ & _ & Hsorted).
      rewrite Hkept in Hv. injection Hv as <-.
      now inversion Hsorted.
    + split; [exact Hexec|]. now rewrite Hev, <- !app_assoc.
  - destruct (executeMultiHopArbitrage_gate svc cfg payer best w2)
      as [[b' Hb'] _].
    rewrite Hexec in Hb'. discriminate Hb'.
Qed.

End PipelineFacts.

(** X10. What the verifier keeps of what the scanner found on a graph can be
    executed: it is a cycle from the base token to one other token and
    back, over the two edges that the graph holds for that pair, with
    exactly two verified edges and a gross profit percentage of 0.1 at
    least; [executeMultiHopArbitrage] therefore never turns it away as a
    path that it does not support. *)
Theorem scanned_and_verified_opportunities_are_two_hop :
  forall (W : Type) (svc : Arbitrage.Services W) (cfg : Cfg.Config)
         (payer : Arbitrage.Keypair) (graph : list Scanner.Edge)
         (opportunities : list Scanner.Opportunity) (w : W)
         (kept : list Arbitrage.VerifiedOpportunity)
         (v : Arbitrage.VerifiedOpportunity),
    Scanner.findArbitrageOpportunities cfg (Some graph)
    = Some opportunities ->
    Arbitrage.value
      (Arbitrage.verifyOpportunities svc cfg payer opportunities w)
    = Ret kept ->
    In v kept ->
    (exists t e1 e2,
        0 < t < Z.of_nat (List.length (Cfg.TOKENS cfg)) /\
        Scanner.findEdge graph 0 t = Some e1 /\
        Scanner.findEdge graph t 0 = Some e2 /\
        Arbitrage.cycle v = [0; t; 0] /\
        Arbitrage.edges v = [e1; e2]) /\
    List.length (Arbitrage.verifiedEdges v) = 2%nat /\
    Spec.cycleOk (Arbitrage.cycle v) = true /\
    Js.geb (Arbitrage.profitPercentage v) 0.1%float = true.
Proof.
  intros W svc cfg payer graph opportunities w kept v.
  apply scanned_then_verified.
Qed.

(** The graph of the synthetic rates, re-quoted by the routing service of
    the end-to-end scenario. *)
Lemma scanned_and_verified_witness :
  exists o v,
    Scanner.findArbitrageOpportunities Cfg.config (Some Scenario.graph)
    = Some [o] /\
    Arbitrage.value
      (Arbitrage.verifyOpportunities
         Scenario.market Cfg.config Scenario.payer [o] 0)
    = Ret [v] /\
    Spec.cycleOk (Arbitrage.cycle v) = true /\
    List.length (Arbitrage.verifiedEdges v) = 2%nat.
Proof.
  assert (Hfound : exists o,
             Scanner.findArbitrageOpportunities
               Cfg.config (Some Scenario.graph) = Some [o])
    by (eexists; vm_compute; reflexivity).
  destruct Hfound as [o Hfound].
  assert (Hrun : exists v,
             Arbitrage.value
               (Arbitrage.verifyOpportunities
                  Scenario.market Cfg.config Scenario.payer [o] 0)
             = Ret [v]).
  { vm_compute in Hfound. injection Hfound as <-.
    eexists. vm_compute. reflexivity. }
  destruct Hrun as [v Hrun].
  destruct (scanned_and_verified_opportunities_are_two_hop
              Z Scenario.market Cfg.config Scenario.payer Scenario.graph
              [o] 0 [v] v Hfound Hrun (or_introl eq_refl))
    as (_ & Hlen & Hcycle & _).
  exists o, v. split; [exact Hfound|]. split; [exact Hrun|].
  split; [exact Hcycle|exact Hlen].
Defined.

(** X11. [checkForBellmanFordArbitrage] always returns a boolean, and it
    returns [true] only at the end of this chain: the graph it built gave
    opportunities, the verifier kept some of them, and
    [executeMultiHopArbitrage] returned [true] for the first one kept,
    whose gross profit percentage is the highest of those kept; the run
    ends with that execution. *)
Theorem bellman_ford_check_executes_the_best_verified :
  forall (W : Type) (svc : Arbitrage.Services W) (cfg : Cfg.Config)
         (payer : Arbitrage.Keypair) (w : W),
    let run := Arbitrage.checkForBellmanFordArbitrage svc cfg payer w in
    (exists b, Arbitrage.value run = Ret b) /\
    (Arbitrage.value run = Ret true ->
     exists graph opportunities best rest w0 w1 w2 before,
       Arbitrage.value (Arbitrage.buildExchangeRateGraph svc cfg w0)
       = Ret graph /\
       Scanner.findArbitrageOpportunities cfg (Some graph)
       = Some opportunities /\
       Arbitrage.value
         (Arbitrage.verifyOpportunities svc cfg payer opportunities w1)
       = Ret (best :: rest) /\
       Forall (fun v =>
                 Js.geb (Arbitrage.profitPercentage best)
                        (Arbitrage.profitPercentage v) = true) rest /\
       Arbitrage.value
         (Arbitrage.executeMultiHopArbitrage svc cfg payer best w2)
       = Ret true /\
       Arbitrage.events run
       = before
         ++ Arbitrage.events
              (Arbitrage.executeMultiHopArbitrage svc cfg payer best w2)).
Proof.
  intros W svc cfg payer w run.
  exact (checkForBellmanFordArbitrage_traded svc cfg payer w).
Qed.

(** ** exchanges.js: the requests to the routing service *)

Section RetryFacts.
Import Eff Exchange Trace.
Context {W : Type}.
Variable svc : Services W.
Variable cfg : Settings.

Lemma rateLimited_plain (m : string) : rateLimited (plain m) = false.
Proof. reflexivity. Qed.

Lemma paced_once {D : Type} (request : Result Error (option D) -> Event)
  (retryCount : Z) (last : Result Error (option D)) :
  (forall e, last = Fail e -> rateLimited e = true ->
             MAX_RETRIES cfg <= retryCount) ->
  paced cfg request retryCount [EAcquire; request last] last.
Proof.
  intros Hlast. exists []. cbn [retried app List.length].
  split; [reflexivity|]. split; [constructor|].
  split; [lia|]. intros e He Hr. specialize (Hlast e He Hr). lia.
Qed.

Lemma paced_again {D : Type} (request : Result Error (option D) -> Event)
  (retryCount : Z) (e : Error) (ev : list Event)
  (last : Result Error (option D)) :
  rateLimited e = true -> retryCount < MAX_RETRIES cfg ->
  paced cfg request (retryCount + 1) ev last ->
  paced cfg request retryCount
        ([EAcquire; request (Fail e)]
           ++ [ESleep (retryDelay cfg retryCount)] ++ ev) last.
Proof.
  intros Hr Hlt (errors & -> & Hall & Hlen & Hlast).
  exists (e :: errors). cbn [retried app List.length].
  split; [reflexivity|]. split; [constructor; assumption|].
  split; [lia|]. intros e' He' Hr'. specialize (Hlast e' He' Hr'). lia.
Qed.

Lemma getJupiterQuote_within_paced (inputMint outputMint : string)
  (amount : Z) (direct : bool) :
  forall (budget : nat) (retryCount : Z) (w : W),
    MAX_RETRIES cfg - retryCount <= Z.of_nat budget ->
    let run := getJupiterQuote_within svc cfg budget inputMint outputMint
                                      amount retryCount direct w in
    exists last,
      paced cfg (EGet (JUPITER_API_URL cfg ++ "/quote")
                      (quoteParams inputMint outputMint amount direct))
            retryCount (events run) last /\
      match last with
      | Ok (Some d) => value run = Ok (Some (quoteOf d))
      | _ => value run = Ok None
      end.
Proof.
  induction budget as [|budget IH]; intros retryCount w Hbudget run;
    subst run; cbn [getJupiterQuote_within];
    unfold try_catch, bind, act, call, events, value;
    fold (quoteParams inputMint outputMint amount direct);
    destruct (axios_get svc _ _ (enforceRequestRateLimit svc w))
      as [[[d|]|e] w1] eqn:Hget; cbn.
  all: try (eexists; split;
            [apply paced_once; intros; discriminate
            | cbn; reflexivity]).
  - destruct (rateLimited e && (retryCount <? MAX_RETRIES cfg)) eqn:Hretry.
    + apply andb_true_iff in Hretry as [_ Hlt]. apply Z.ltb_lt in Hlt.
      change (Z.of_nat 0) with 0 in Hbudget. lia.
    + cbn. exists (Fail e). split; [|reflexivity].
      apply paced_once. intros e' [= <-] Hr. rewrite Hr in Hretry.
      cbn in Hretry. apply Z.ltb_ge in Hretry. exact Hretry.
  - destruct (rateLimited e && (retryCount <? MAX_RETRIES cfg)) eqn:Hretry.
    + apply andb_true_iff in Hretry as [Hr Hlt]. apply Z.ltb_lt in Hlt.
      cbn.
      specialize (IH (retryCount + 1)
                     (sleep svc (retryDelay cfg retryCount) w1)
                     ltac:(lia)).
      cbv zeta in IH. unfold events, value in IH.
      destruct (getJupiterQuote_within _ _ _ _ _ _ _ _ _)
        as [[r w2] ev]. cbn in IH |- *.
      destruct IH as (last & Hpaced & Hlast). exists last.
      split; [|exact Hlast].
      apply (paced_again _ _ _ _ _ Hr Hlt Hpaced).
    + cbn. exists (Fail e). split; [|reflexivity].
      apply paced_once. intros e' [= <-] Hr. rewrite Hr in Hretry.
      cbn in Hretry. apply Z.ltb_ge in Hretry. exact Hretry.
Qed.

Lemma getSwapInstructions_within_paced (quote : Quote)
  (payer : Arbitrage.Keypair) :
  forall (budget : nat) (retryCount : Z) (w : W),
    MAX_RETRIES cfg - retryCount <= Z.of_nat budget ->
    let run := getSwapInstructions_within svc cfg budget quote payer
                                          retryCount w in
    exists last,
      paced cfg (EPost (JUPITER_API_URL cfg ++ "/swap-instructions")
                       (swapPayload payer quote 5000 (Some true)))
            retryCount (events run) last /\
      match last with
      | Ok d => value run = Ok d
      | Fail _ => value run = Ok None
      end.
Proof.
  induction budget as [|budget IH]; intros retryCount w Hbudget run;
    subst run; cbn [getSwapInstructions_within];
    unfold try_catch, bind, act, call, events, value;
    fold (swapPayload payer quote 5000 (Some true));
    destruct (axios_post svc _ _ (enforceRequestRateLimit svc w))
      as [[d|e] w1] eqn:Hpost; cbn.
  all: try (exists (Ok d); split;
            [apply paced_once; intros; discriminate
            | cbn; reflexivity]).
  - destruct (rateLimited e && (retryCount <? MAX_RETRIES cfg)) eqn:Hretry.
    + apply andb_true_iff in Hretry as [_ Hlt]. apply Z.ltb_lt in Hlt.
      change (Z.of_nat 0) with 0 in Hbudget. lia.
    + cbn. exists (Fail e). split; [|reflexivity].
      apply paced_once. intros e' [= <-] Hr. rewrite Hr in Hretry.
      cbn in Hretry. apply Z.ltb_ge in Hretry. exact Hretry.
  - destruct (rateLimited e && (retryCount <? MAX_RETRIES cfg)) eqn:Hretry.
    + apply andb_true_iff in Hretry as [Hr Hlt]. apply Z.ltb_lt in Hlt.
      cbn.
      specialize (IH (retryCount + 1)
                     (sleep svc (retryDelay cfg retryCount) w1)
                     ltac:(lia)).
      cbv zeta in IH. unfold events, value in IH.
      destruct (getSwapInstructions_within _ _ _ _ _ _ _)
        as [[r w2] ev]. cbn in IH |- *.
      destruct IH as (last & Hpaced & Hlast). exists last.
      split; [|exact Hlast].
      apply (paced_again _ _ _ _ _ Hr Hlt Hpaced).
    + cbn. exists (Fail e). split; [|reflexivity].
      apply paced_once. intros e' [= <-] Hr. rewrite Hr in Hretry.
      cbn in Hretry. apply Z.ltb_ge in Hretry. exact Hretry.
Qed.

Lemma getSimplifiedSwapInstructions_within_paced (quote : Quote)
  (payer : Arbitrage.Keypair) (simplify : bool) :
  forall (budget : nat) (retryCount : Z) (w : W),
    MAX_RETRIES cfg - retryCount <= Z.of_nat budget ->
    let run := getSimplifiedSwapInstructions_within
                 svc cfg budget quote payer simplify retryCount w in
    exists last,
      paced cfg (EPost (JUPITER_API_URL cfg ++ "/swap-instructions")
                       (swapPayload payer quote 0 None))
            retryCount (events run) last /\
      match last with
      | Ok (Some d) => value run = Ok (Some (simplifiedOf simplify d))
      | _ => value run = Ok None
      end.
Proof.
  induction budget as [|budget IH]; intros retryCount w Hbudget run;
    subst run; cbn [getSimplifiedSwapInstructions_within];
    unfold try_catch, bind, act, call, events, value;
    fold (swapPayload payer quote 0 None);
    destruct (axios_post svc _ _ (enforceRequestRateLimit svc w))
      as [[[d|]|e] w1] eqn:Hpost; cbn.
  all: try (eexists; split;
            [apply paced_once; intros; discriminate
            | cbn; reflexivity]).
  - destruct (rateLimited e && (retryCount <? MAX_RETRIES cfg)) eqn:Hretry.
    + apply andb_true_iff in Hretry as [_ Hlt]. apply Z.ltb_lt in Hlt.
      change (Z.of_nat 0) with 0 in Hbudget. lia.
    + cbn. exists (Fail e). split; [|reflexivity].
      apply paced_once. intros e' [= <-] Hr. rewrite Hr in Hretry.
      cbn in Hretry. apply Z.ltb_ge in Hretry. exact Hretry.
  - destruct (rateLimited e && (retryCount <? MAX_RETRIES cfg)) eqn:Hretry.
    + apply andb_true_iff in Hretry as [Hr Hlt]. apply Z.ltb_lt in Hlt.
      cbn.
      specialize (IH (retryCount + 1)
                     (sleep svc (retryDelay cfg retryCount) w1)
                     ltac:(lia)).
      cbv zeta in IH. unfold events, value in IH.
      destruct (getSimplifiedSwapInstructions_within _ _ _ _ _ _ _ _)
        as [[r w2] ev]. cbn in IH |- *.
      destruct IH as (last & Hpaced & Hlast). exists last.
      split; [|exact Hlast].
      apply (paced_again _ _ _ _ _ Hr Hlt Hpaced).
    + cbn. exists (Fail e). split; [|reflexivity].
      apply paced_once. intros e' [= <-] Hr. rewrite Hr in Hretry.
      cbn in Hretry. apply Z.ltb_ge in Hretry. exact Hretry.
Qed.

Lemma count_retried (test : Event -> bool) (failed : Error -> Event) :
  test EAcquire = false ->
  (forall ms, test (ESleep ms) = false) ->
  (forall e, test (failed e) = true) ->
  forall (errors : list Error) (first : Z),
    count test (retried cfg failed first errors) = List.length errors.
Proof.
  intros Ha Hs Hf. unfold count.
  induction errors as [|e errors IH]; intro first; [reflexivity|].
  cbn [retried app filter]. rewrite Ha, Hs, Hf. cbn [List.length].
  now rewrite IH.
Qed.

Lemma paced_count {D : Type} (request : Result Error (option D) -> Event)
  (test : Event -> bool) (retryCount : Z) (ev : list Event)
  (last : Result Error (option D)) :
  test EAcquire = false ->
  (forall ms, test (ESleep ms) = false) ->
  (forall r, test (request r) = true) ->
  paced cfg request retryCount ev last ->
  Z.of_nat (count test ev) <= Z.max 0 (MAX_RETRIES cfg - retryCount) + 1.
Proof.
  intros Ha Hs Hr (errors & -> & _ & Hlen & _).
  unfold count. rewrite filter_app, length_app.
  fold (count test (retried cfg (fun e => request (Fail e))
                            retryCount errors)).
  rewrite (count_retried test _ Ha Hs (fun e => Hr (Fail e))).
  cbn [filter]. rewrite Ha, Hr. cbn [List.length]. lia.
Qed.

Lemma marketName_named (m : Market) : marketName m <> EmptyString.
Proof.
  unfold marketName.
  destruct (label m =? "")%string eqn:Hl.
  - destruct (id m =? "")%string eqn:Hi; [discriminate|].
    apply String.eqb_neq in Hi. exact Hi.
  - apply String.eqb_neq in Hl. exact Hl.
Qed.

Lemma stepMarkets_named (routePlan : list (option Step)) :
  Forall (fun name => name <> EmptyString) (stepMarkets routePlan).
Proof.
  induction routePlan as [|[s|] rest IH]; cbn [stepMarkets];
    [constructor| |exact IH].
  apply Forall_app. split; [|exact IH].
  destruct (amm s) as [a|].
  - constructor; [apply marketName_named|constructor].
  - destruct (marketInfos s) as [markets|]; [|constructor].
    apply Forall_forall. intros name Hin.
    apply in_map_iff in Hin as (m & <- & _). apply marketName_named.
Qed.

Lemma marketInfosOf_named (d : QuoteData) :
  Forall (fun name => name <> EmptyString) (marketInfosOf d).
Proof.
  unfold marketInfosOf.
  destruct (0 <? _); [apply stepMarkets_named|].
  destruct (routesInfos d) as [[|[routeInfo|] rest]|]; try constructor.
  destruct (route_marketInfos routeInfo) as [markets|]; [|constructor].
  apply Forall_forall. intros name Hin.
  apply in_map_iff in Hin as (m & <- & _). apply marketName_named.
Qed.

Lemma concat_named (sep : string) (names : list string) :
  names <> [] ->
  Forall (fun name => name <> EmptyString) names ->
  String.concat sep names <> EmptyString.
Proof.
  destruct names as [|name rest]; [congruence|]. intros _ Hall.
  inversion Hall as [|? ? Hname _]; subst.
  destruct name as [|c name]; [congruence|].
  destruct rest; cbn; discriminate.
Qed.

End RetryFacts.

(** X12. [getJupiterQuote] never throws.  It asks again only after an error
    with the HTTP status 429, and only while the retry count is below
    [MAX_RETRIES]; before the attempt that follows the one with the retry
    count [k] it pauses for [RETRY_DELAY_BASE * 2^k] milliseconds, and
    every attempt passes the rate limiter first.  It returns the quote made
    of the data of the last response, and [null] when that response has no
    data or is an error. *)
Theorem getJupiterQuote_retries_only_when_rate_limited :
  forall (W : Type) (svc : Exchange.Services W) (cfg : Exchange.Settings)
         (inputMint outputMint : string) (amount retryCount : Z)
         (onlyDirectRoutes : bool) (w : W),
    0 <= retryCount ->
    let run := Exchange.getJupiterQuote svc cfg inputMint outputMint amount
                                        retryCount onlyDirectRoutes w in
    exists last,
      Trace.paced cfg
        (Exchange.EGet (Exchange.JUPITER_API_URL cfg ++ "/quote")
           (Trace.quoteParams inputMint outputMint amount onlyDirectRoutes))
        retryCount (Eff.events run) last /\
      match last with
      | Eff.Ok (Some d) => Eff.value run = Eff.Ok (Some (Trace.quoteOf d))
      | _ => Eff.value run = Eff.Ok None
      end /\
      Z.of_nat (Trace.count Trace.isQuoteRequest (Eff.events run))
      <= Z.max 0 (Exchange.MAX_RETRIES cfg - retryCount) + 1.
Proof.
  intros W svc cfg inputMint outputMint amount retryCount direct w _ run.
  destruct (getJupiterQuote_within_paced
              svc cfg inputMint outputMint amount direct
              (Z.to_nat (Exchange.MAX_RETRIES cfg - retryCount))
              retryCount w ltac:(lia)) as (last & Hpaced & Hlast).
  exists last. split; [exact Hpaced|]. split; [exact Hlast|].
  eapply (paced_count cfg _ Trace.isQuoteRequest);
    [reflexivity|reflexivity| |exact Hpaced].
  reflexivity.
Qed.

Lemma getJupiterQuote_retries_witness :
  let run := Exchange.getJupiterQuote Cases.busyThenQuote Exchange.settings
               "So11111111111111111111111111111111111111112"
               "EPjFWdd5AufqSSqeM2qN1xzybapC8G4wEGGkZwyTDt1v"
               1000000000 0 false 0%nat in
  Eff.value run = Eff.Ok (Some (Trace.quoteOf Cases.twoMarkets)) /\
  Trace.sleeps (Eff.events run) = [2000; 4000] /\
  Z.of_nat (Trace.count Trace.isQuoteRequest (Eff.events run)) <= 4.
Proof.
  split; [reflexivity|]. split; [reflexivity|].
  destruct (getJupiterQuote_retries_only_when_rate_limited
              nat Cases.busyThenQuote Exchange.settings
              "So11111111111111111111111111111111111111112"
              "EPjFWdd5AufqSSqeM2qN1xzybapC8G4wEGGkZwyTDt1v"
              1000000000 0 false 0%nat ltac:(lia))
    as (last & _ & _ & Hcount).
  exact Hcount.
Defined.

(** X13. A quote that [getJupiterQuote] returns always names where it comes
    from: [dexNames] is never empty.  It is the names of the markets found
    in the response, none of them empty, joined by a comma and a space,
    and it is the text Jupiter when no market is found; [routePlan] is the
    route plan of the response, and the empty array when there is none. *)
Theorem quotes_always_name_a_dex :
  forall (W : Type) (svc : Exchange.Services W) (cfg : Exchange.Settings)
         (inputMint outputMint : string) (amount retryCount : Z)
         (onlyDirectRoutes : bool) (w : W) (q : Exchange.Quote),
    Eff.value (Exchange.getJupiterQuote svc cfg inputMint outputMint amount
                                        retryCount onlyDirectRoutes w)
    = Eff.Ok (Some q) ->
    Exchange.dexNames q <> EmptyString /\
    Forall (fun name => name <> EmptyString)
           (Exchange.marketInfosOf (Exchange.data q)) /\
    (Exchange.marketInfosOf (Exchange.data q) = [] ->
     Exchange.dexNames q = "Jupiter"%string) /\
    (Exchange.marketInfosOf (Exchange.data q) <> [] ->
     Exchange.dexNames q
     = String.concat ", " (Exchange.marketInfosOf (Exchange.data q))) /\
    Exchange.routePlan q
    = match Exchange.data_routePlan (Exchange.data q) with
      | Some p => p
      | None => []
      end.
Proof.
  intros W svc cfg inputMint outputMint amount retryCount direct w q Hq.
  destruct (getJupiterQuote_within_paced
              svc cfg inputMint outputMint amount direct
              (Z.to_nat (Exchange.MAX_RETRIES cfg - retryCount))
              retryCount w ltac:(lia)) as (last & _ & Hlast).
  cbv zeta in Hlast. unfold Exchange.getJupiterQuote in Hq.
  assert (exists d, q = Trace.quoteOf d) as [d ->].
  { destruct last as [[d|]|e]; rewrite Hlast in Hq;
      [injection Hq as <-; now exists d|discriminate|discriminate]. }
  pose proof (marketInfosOf_named d) as Hnamed.
  unfold Trace.quoteOf; cbn [Exchange.dexNames Exchange.data
                              Exchange.routePlan].
  destruct (Exchange.marketInfosOf d) as [|name rest] eqn:Hm.
  - cbn. repeat split; try congruence; constructor.
  - change (0 <? Z.of_nat (List.length (name :: rest))) with true.
    cbn beta iota.
    split; [apply concat_named; [discriminate|exact Hnamed]|].
    split; [exact Hnamed|]. split; [discriminate|].
    split; [reflexivity|reflexivity].
Qed.

Lemma quotes_name_a_dex_witness :
  Exchange.dexNames (Trace.quoteOf Cases.twoMarkets)
  = "Orca, Jupiter DEX"%string /\
  Exchange.dexNames (Trace.quoteOf Cases.twoMarkets) <> EmptyString.
Proof.
  split; [reflexivity|].
  apply (quotes_always_name_a_dex
           nat Cases.busyThenQuote Exchange.settings
           "So11111111111111111111111111111111111111112"
           "EPjFWdd5AufqSSqeM2qN1xzybapC8G4wEGGkZwyTDt1v"
           1000000000 0 false 0%nat (Trace.quoteOf Cases.twoMarkets)
           eq_refl).
Defined.

(** X14. [getSimplifiedSwapInstructions] never throws and retries as
    [getJupiterQuote] does.  From the data of the last response it keeps
    the swap instruction as it is and the program id of that instruction
    when it has one; it never keeps the cleanup instruction; and it keeps
    the setup instructions only when [simplify] is false and there is at
    least one. *)
Theorem simplified_swap_instructions_leave_out_setup :
  forall (W : Type) (svc : Exchange.Services W) (cfg : Exchange.Settings)
         (quote : Exchange.Quote) (payer : Arbitrage.Keypair)
         (simplify : bool) (retryCount : Z) (w : W),
    0 <= retryCount ->
    let run := Exchange.getSimplifiedSwapInstructions
                 svc cfg quote payer simplify retryCount w in
    exists last,
      Trace.paced cfg
        (Exchange.EPost
           (Exchange.JUPITER_API_URL cfg ++ "/swap-instructions")
           (Trace.swapPayload payer quote 0 None))
        retryCount (Eff.events run) last /\
      match last with
      | Eff.Ok (Some d) =>
          exists s,
            Eff.value run = Eff.Ok (Some s) /\
            Exchange.simplified_swapInstruction s
            = Exchange.swapInstruction d /\
            (simplify = true ->
             Exchange.simplified_setupInstructions s = None) /\
            (forall setup,
                Exchange.simplified_setupInstructions s = Some setup <->
                simplify = false /\ setup <> [] /\
                Exchange.setupInstructions d = Some setup) /\
            (forall p,
                Exchange.swapProgramId s = Some p <->
                p <> EmptyString /\
                exists i, Exchange.swapInstruction d = Some i /\
                          Arbitrage.raw_programId i = p)
      | _ => Eff.value run = Eff.Ok None
      end.
Proof.
  intros W svc cfg quote payer simplify retryCount w _ run.
  destruct (getSimplifiedSwapInstructions_within_paced
              svc cfg quote payer simplify
              (Z.to_nat (Exchange.MAX_RETRIES cfg - retryCount))
              retryCount w ltac:(lia)) as (last & Hpaced & Hlast).
  exists last. split; [exact Hpaced|].
  destruct last as [[d|]|e]; try exact Hlast.
  exists (Trace.simplifiedOf simplify d). split; [exact Hlast|].
  unfold Trace.simplifiedOf;
    cbn [Exchange.simplified_swapInstruction Exchange.swapProgramId
         Exchange.simplified_setupInstructions].
  split; [reflexivity|]. split; [|split].
  - intros ->. destruct (Exchange.setupInstructions d); reflexivity.
  - intros setup.
    destruct (Exchange.setupInstructions d) as [setup'|].
    + destruct simplify; cbn [negb andb].
      * split; [discriminate|]. intros (Hs & _); discriminate.
      * destruct setup' as [|i rest]; cbn.
        -- split; [discriminate|]. intros (_ & Hne & [= <-]). congruence.
        -- split.
           ++ intros [= <-]. repeat split; discriminate || reflexivity.
           ++ intros (_ & _ & [= <-]). reflexivity.
    + split; [discriminate|]. intros (_ & _ & Hs); discriminate.
  - intros p. destruct (Exchange.swapInstruction d) as [i|].
    + destruct (Arbitrage.raw_programId i =? "")%string eqn:Hp.
      * apply String.eqb_eq in Hp. split; [discriminate|].
        intros (Hne & i' & [= <-] & Hi). congruence.
      * apply String.eqb_neq in Hp. split.
        -- intros [= <-]. split; [exact Hp|]. now exists i.
        -- intros (_ & i' & [= <-] & <-). reflexivity.
    + split; [discriminate|]. intros (_ & i & Hi & _); discriminate.
Qed.

Lemma simplified_swap_instructions_witness :
  let run := Exchange.getSimplifiedSwapInstructions
               Cases.busyThenQuote Exchange.settings
               (Trace.quoteOf Cases.twoMarkets) Cases.payer true 0 2%nat in
  exists s,
    Eff.value run = Eff.Ok (Some s) /\
    Exchange.simplified_setupInstructions s = None /\
    Trace.sleeps (Eff.events run) = [2000; 4000].
Proof.
  destruct (simplified_swap_instructions_leave_out_setup
              nat Cases.busyThenQuote Exchange.settings
              (Trace.quoteOf Cases.twoMarkets) Cases.payer true 0 2%nat
              ltac:(lia)) as (last & _ & _).
  eexists. split; [reflexivity|]. split; reflexivity.
Defined.

(** X15. [getSwapInstructionsWithCustomAmount] never throws.  It takes from
    the quote it is given the two mints only: it asks for a new quote of
    the custom amount by any route, starting from the retry count 0
    whatever retry count it was called with, and the swap instructions it
    asks for and returns are those of the new quote.  Without a new quote
    it returns [null] and sends no request for instructions. *)
Theorem custom_amount_instructions_are_for_a_new_quote :
  forall (W : Type) (svc : Exchange.Services W) (cfg : Exchange.Settings)
         (quote : Exchange.Quote) (customAmount : Z)
         (payer : Arbitrage.Keypair) (retryCount : Z) (w : W),
    0 <= retryCount ->
    let run := Exchange.getSwapInstructionsWithCustomAmount
                 svc cfg quote customAmount payer retryCount w in
    exists lastQuote evQuote,
      Trace.paced cfg
        (Exchange.EGet (Exchange.JUPITER_API_URL cfg ++ "/quote")
           (Trace.quoteParams
              (Exchange.quote_inputMint (Exchange.data quote))
              (Exchange.quote_outputMint (Exchange.data quote))
              customAmount false))
        0 evQuote lastQuote /\
      match lastQuote with
      | Eff.Ok (Some d) =>
          exists lastSwap evSwap,
            Eff.events run = Exchange.EAcquire :: evQuote ++ evSwap /\
            Trace.paced cfg
              (Exchange.EPost
                 (Exchange.JUPITER_API_URL cfg ++ "/swap-instructions")
                 (Trace.swapPayload payer (Trace.quoteOf d) 5000
                                    (Some true)))
              retryCount evSwap lastSwap /\
            Eff.value run
            = Eff.Ok match lastSwap with
                     | Eff.Ok r => r
                     | Eff.Fail _ => None
                     end
      | _ =>
          Eff.events run = Exchange.EAcquire :: evQuote /\
          Eff.value run = Eff.Ok None
      end.
Proof.
  intros W svc cfg quote customAmount payer retryCount w _ run.
  subst run.
  unfold Exchange.getSwapInstructionsWithCustomAmount,
    Exchange.getJupiterQuote, Exchange.getSwapInstructions,
    Eff.try_catch, Eff.bind, Eff.act.
  destruct (getJupiterQuote_within_paced
              svc cfg (Exchange.quote_inputMint (Exchange.data quote))
              (Exchange.quote_outputMint (Exchange.data quote))
              customAmount false
              (Z.to_nat (Exchange.MAX_RETRIES cfg - 0)) 0
              (Exchange.enforceRequestRateLimit svc w) ltac:(lia))
    as (lastQuote & Hpaced & Hlast).
  cbv zeta in Hpaced, Hlast. unfold Eff.events, Eff.value in *.
  destruct (Exchange.getJupiterQuote_within _ _ _ _ _ _ _ _ _)
    as [[r w1] evQuote].
  cbn [fst snd] in Hpaced, Hlast.
  exists lastQuote, evQuote. split; [exact Hpaced|].
  destruct lastQuote as [[d|]|e]; subst r; cbn.
  - destruct (getSwapInstructions_within_paced
                svc cfg (Trace.quoteOf d) payer
                (Z.to_nat (Exchange.MAX_RETRIES cfg - retryCount))
                retryCount w1 ltac:(lia))
      as (lastSwap & Hswap & Hvalue).
    cbv zeta in Hswap, Hvalue. unfold Eff.events, Eff.value in *.
    destruct (Exchange.getSwapInstructions_within _ _ _ _ _ _ _)
      as [[r w2] evSwap].
    cbn [fst snd] in Hswap, Hvalue |- *.
    exists lastSwap, evSwap. split; [reflexivity|].
    split; [exact Hswap|].
    destruct lastSwap; exact Hvalue.
  - rewrite !app_nil_r. split; reflexivity.
  - rewrite !app_nil_r. split; reflexivity.
Qed.

Lemma custom_amount_instructions_witness :
  let run := Exchange.getSwapInstructionsWithCustomAmount
               Cases.busyThenQuote Exchange.settings
               (Trace.quoteOf Cases.twoMarkets) 500000000 Cases.payer 0
               2%nat in
  Eff.value run = Eff.Ok (Some Cases.swapData) /\
  Trace.count Trace.isQuoteRequest (Eff.events run) = 1%nat /\
  Trace.count Trace.isSwapRequest (Eff.events run) = 2%nat.
Proof.
  destruct (custom_amount_instructions_are_for_a_new_quote
              nat Cases.busyThenQuote Exchange.settings
              (Trace.quoteOf Cases.twoMarkets) 500000000 Cases.payer 0
              2%nat ltac:(lia)) as (lastQuote & evQuote & _ & _).
  split; [reflexivity|]. split; reflexivity.
Defined.

(** ** Rules for the computations over any collaborators *)

Section EffFacts.
Import Eff.
Context {Err Ev W : Type}.

Lemma eff_ret {A : Type} (a : A) (R : Result Err A -> list Ev -> Prop) :
  R (Ok a) [] -> sat (W := W) (ret a) R.
Proof. intros H w. exact H. Qed.

Lemma eff_throw {A : Type} (e : Err) (R : Result Err A -> list Ev -> Prop) :
  R (Fail e) [] -> sat (W := W) (throw e) R.
Proof. intros H w. exact H. Qed.

Lemma eff_lift {A : Type} (r : Result Err A)
  (R : Result Err A -> list Ev -> Prop) :
  R r [] -> sat (W := W) (lift r) R.
Proof. intros H w. exact H. Qed.

Lemma eff_act (e : Ev) (service : W -> W)
  (R : Result Err unit -> list Ev -> Prop) :
  R (Ok tt) [e] -> sat (act e service) R.
Proof. intros H w. exact H. Qed.

Lemma eff_ask {A : Type} (mk : A -> Ev) (reading : W -> A)
  (R : Result Err A -> list Ev -> Prop) :
  (forall a, R (Ok a) [mk a]) -> sat (ask mk reading) R.
Proof. intros H w. apply H. Qed.

Lemma eff_call {A : Type} (mk : Result Err A -> Ev)
  (service : W -> Result Err A * W)
  (R : Result Err A -> list Ev -> Prop) :
  (forall r, R r [mk r]) -> sat (call mk service) R.
Proof.
  intros H w. unfold call, value, events.
  destruct (service w) as [r w']. apply H.
Qed.

Lemma eff_bind {A B : Type} (m : T Err Ev W A) (f : A -> T Err Ev W B)
  (R : Result Err B -> list Ev -> Prop) :
  sat m (fun r ev =>
           match r with
           | Ok a => sat (f a) (fun r' ev' => R r' (ev ++ ev'))
           | Fail e => R (Fail e) ev
           end) ->
  sat (bind m f) R.
Proof.
  intros H w. specialize (H w). unfold bind, value, events in *.
  destruct (m w) as [[[a|e] w'] ev]; simpl in *.
  - specialize (H w'). destruct (f a w') as [[r w''] ev']. exact H.
  - exact H.
Qed.

Lemma eff_try_catch {A : Type} (m : T Err Ev W A)
  (h : Err -> T Err Ev W A) (R : Result Err A -> list Ev -> Prop) :
  sat m (fun r ev =>
           match r with
           | Ok a => R (Ok a) ev
           | Fail e => sat (h e) (fun r' ev' => R r' (ev ++ ev'))
           end) ->
  sat (try_catch m h) R.
Proof.
  intros H w. specialize (H w). unfold try_catch, value, events in *.
  destruct (m w) as [[[a|e] w'] ev]; simpl in *.
  - exact H.
  - specialize (H w'). destruct (h e w') as [[r w''] ev']. exact H.
Qed.

Lemma eff_weaken {A : Type} (m : T Err Ev W A)
  (R R' : Result Err A -> list Ev -> Prop) :
  sat m R -> (forall r ev, R r ev -> R' r ev) -> sat m R'.
Proof. intros H HR w. apply HR, H. Qed.

End EffFacts.

Ltac eff_step :=
  lazymatch goal with
  | |- Eff.sat (Eff.bind _ _) _ => apply eff_bind
  | |- Eff.sat (Eff.try_catch _ _) _ => apply eff_try_catch
  | |- Eff.sat (Eff.ret _) _ => apply eff_ret
  | |- Eff.sat (Eff.throw _) _ => apply eff_throw
  | |- Eff.sat (Eff.lift ?r) _ => apply eff_lift; try (destruct r eqn:?)
  | |- Eff.sat (Eff.act _ _) _ => apply eff_act
  | |- Eff.sat (Eff.ask _ _) _ => apply eff_ask; intros ?
  | |- Eff.sat (Eff.call _ _) _ => apply eff_call; intros [?|?]
  | |- Eff.sat (if ?b then _ else _) _ => destruct b eqn:?
  | |- Eff.sat (match ?x with _ => _ end) _ => destruct x eqn:?
  | |- Eff.sat (let '(_, _) := ?x in _) _ => destruct x eqn:?
  end; cbn beta iota.

Ltac eff_run := repeat eff_step.

(** ** fetchLookupTables *)

Section LookupFacts.
Import Eff Exchange Trace.
Context {W : Type}.
Variable svc : Services W.

Lemma fetchEach_spec (addresses : list string) :
  forall (results : list Solana.LookupTable) (w : W),
    exists answers,
      List.length answers
      = List.length (filter (PublicKey_valid svc) addresses) /\
      events (fetchEach svc addresses results w)
      = lookups (filter (PublicKey_valid svc) addresses) answers /\
      value (fetchEach svc addresses results w)
      = Ok (results ++ tablesOf answers).
Proof.
  induction addresses as [|address rest IH]; intros results w.
  - exists []. cbn. rewrite app_nil_r. auto.
  - cbn [fetchEach filter].
    unfold bind, try_catch, call, throw, events, value.
    destruct (PublicKey_valid svc address); cbn [negb].
    + destruct (getAddressLookupTable svc address w) as [[[table|]|e] w1];
        cbn.
      * destruct (IH (results ++ [table]) w1) as (answers & Hlen & Hev & Hv).
        unfold events, value in Hev, Hv.
        destruct (fetchEach svc rest (results ++ [table]) w1)
          as [[r w2] ev].
        cbn in Hev, Hv |- *. subst.
        exists (Ok (Some table) :: answers). cbn.
        rewrite Hlen, <- app_assoc. auto.
      * destruct (IH results w1) as (answers & Hlen & Hev & Hv).
        unfold events, value in Hev, Hv.
        destruct (fetchEach svc rest results w1) as [[r w2] ev].
        cbn in Hev, Hv |- *. subst.
        exists (Ok None :: answers). cbn. rewrite Hlen. auto.
      * destruct (IH results w1) as (answers & Hlen & Hev & Hv).
        unfold events, value in Hev, Hv.
        destruct (fetchEach svc rest results w1) as [[r w2] ev].
        cbn in Hev, Hv |- *. subst.
        exists (Fail e :: answers). cbn. rewrite Hlen. auto.
    + cbn. destruct (IH results w) as (answers & Hlen & Hev & Hv).
      unfold events, value in Hev, Hv.
      destruct (fetchEach svc rest results w) as [[r w2] ev].
      cbn in Hev, Hv |- *. subst.
      exists answers. auto.
Qed.

End LookupFacts.

(** X16. [fetchLookupTables] never throws.  It asks for each of its two
    addresses, in their order, whatever the answers before: an error or a
    table that is not found does not keep it from asking for the other
    table.  It returns the tables that came back, in the order of the
    requests, so two at most. *)
Theorem fetchLookupTables_asks_for_every_table :
  forall (W : Type) (svc : Exchange.Services W) (w : W),
    let run := Exchange.fetchLookupTables svc w in
    let addresses :=
      filter (Exchange.PublicKey_valid svc) Exchange.lookupTableAddresses in
    exists answers,
      List.length answers = List.length addresses /\
      Eff.events run = Trace.lookups addresses answers /\
      Eff.value run = Eff.Ok (Trace.tablesOf answers) /\
      (List.length (Trace.tablesOf answers) <= 2)%nat.
Proof.
  intros W svc w run addresses.
  destruct (fetchEach_spec svc Exchange.lookupTableAddresses [] w)
    as (answers & Hlen & Hev & Hv).
  exists answers. subst run. unfold Exchange.fetchLookupTables.
  unfold Eff.try_catch, Eff.events, Eff.value in *.
  destruct (Exchange.fetchEach svc Exchange.lookupTableAddresses [] w)
    as [[r w1] ev].
  cbn in Hev, Hv. subst r ev. cbn.
  split; [exact Hlen|]. split; [reflexivity|]. split; [reflexivity|].
  assert (Hle : (List.length answers <= 2)%nat).
  { rewrite Hlen. cbn.
    destruct (Exchange.PublicKey_valid svc _);
      destruct (Exchange.PublicKey_valid svc _); cbn; lia. }
  clear - Hle. unfold Trace.tablesOf.
  assert (Hsub : forall l : list (Eff.Result Exchange.Error
                                    (option Solana.LookupTable)),
             (List.length
                (flat_map (fun r => match r with
                                    | Eff.Ok (Some t) => [t]
                                    | _ => []
                                    end) l)
              <= List.length l)%nat).
  { induction l as [|[[t|]|e] l IH]; cbn; lia. }
  specialize (Hsub answers). lia.
Qed.

(** ** submitJitoBundle *)

Section SubmissionFacts.
Import Eff Exchange Trace.
Context {W : Type}.
Variable svc : Services W.
Variable config : Cfg.Config.
Variable cfg : Settings.
Variable transaction : Solana.Transaction.
Variable tipAmount : Z.
Variable payer : Arbitrage.Keypair.

Lemma sleeps_app (ev ev' : list Event) :
  sleeps (ev ++ ev') = sleeps ev ++ sleeps ev'.
Proof. unfold sleeps. apply flat_map_app. Qed.

Lemma trace_count_app (test : Event -> bool) (ev ev' : list Event) :
  count test (ev ++ ev') = (count test ev + count test ev')%nat.
Proof. unfold count. now rewrite filter_app, length_app. Qed.

Lemma backoff_next (first : Z) (n : nat) :
  backoff cfg first (S n)
  = retryDelay cfg first :: backoff cfg (first + 1) n.
Proof.
  unfold backoff. cbn [seq map]. rewrite Z.add_0_r. f_equal.
  rewrite <- seq_shift, map_map. apply map_ext. intros k.
  f_equal. lia.
Qed.

Lemma bundleOutcome_accepted (response_data : option BundleData)
  (bundleId : string) :
  bundleOutcome response_data = Arbitrage.BundleAccepted bundleId ->
  exists d, response_data = Some d /\ result d = bundleId /\
            bundleId <> EmptyString.
Proof.
  unfold bundleOutcome. destruct response_data as [d|]; [|discriminate].
  destruct (result d =? "")%string eqn:Hr; cbn [negb].
  - destruct (bundle_error d); discriminate.
  - intros [= <-]. exists d. apply String.eqb_neq in Hr. auto.
Qed.

Lemma accepted_after (bundleId : string) (ev ev' : list Event) :
  accepted svc cfg transaction tipAmount bundleId ev' ->
  accepted svc cfg transaction tipAmount bundleId (ev ++ ev').
Proof.
  intros (tip & txBytes & tipBytes & d & before & Hin & Htx & Htip & ->
          & Hd & Hne).
  exists tip, txBytes, tipBytes, d, (ev ++ before).
  split; [apply in_or_app; now right|].
  rewrite app_assoc. auto.
Qed.

(** One call: a tip transaction is asked for once and a bundle is posted
    once at most; the call ends with a result, or with a pause before
    another call. *)
Let attempted (retryCount : Z)
  (r : Result Error (Next Arbitrage.BundleResult)) (ev : list Event)
  : Prop :=
  count isTipCreation ev = 1%nat /\
  (count isBundlePost ev <= 1)%nat /\
  match r with
  | Ok (Return res) =>
      sleeps ev = [] /\
      forall bundleId,
        res = Arbitrage.BundleAccepted bundleId ->
        accepted svc cfg transaction tipAmount bundleId ev
  | Ok Again =>
      sleeps ev = [retryDelay cfg retryCount] /\
      retryCount < bundleRetries cfg
  | Fail _ => False
  end.

Lemma submitOnce_attempted (retryCount : Z) :
  sat (submitOnce svc config cfg transaction tipAmount payer retryCount)
      (attempted retryCount).
Proof.
  unfold submitOnce. eff_run; unfold attempted; cbn;
    repeat match goal with
           | |- _ /\ _ => split
           | |- (_ <= _)%nat => lia
           | |- _ = _ => reflexivity
           | |- forall _, _ = _ -> _ => intros ? ?; try discriminate
           | H : (_ <? _) = true |- _ < _ => apply Z.ltb_lt in H; exact H
           | H : (_ && (_ <? _)) = true |- _ < _ =>
               apply andb_true_iff in H as [_ H]
           end.
  match goal with
  | H : Return (bundleOutcome ?rd) = Return _ |- _ =>
      injection H as H; rewrite <- H in *
  | _ => idtac
  end.
  match goal with
  | H : bundleOutcome ?rd = Arbitrage.BundleAccepted _ |- _ =>
      apply bundleOutcome_accepted in H as (d & -> & Hd & Hne)
  end.
  match goal with
  | Htx : serialize svc transaction = Ok ?a,
    Htip : serialize svc ?t = Ok ?b |- _ =>
      exists t, a, b, d, [ECreateJitoTipTransaction tipAmount (Ok (Some t))]
  end.
  repeat split; auto. now left.
Qed.

(** A run: the calls one after the other, with pauses that double. *)
Let submitted (retryCount : Z) (r : Result Error Arbitrage.BundleResult)
  (ev : list Event) : Prop :=
  exists n res,
    r = Ok res /\
    Z.of_nat n <= Z.max 0 (bundleRetries cfg - retryCount) /\
    sleeps ev = backoff cfg retryCount n /\
    count isTipCreation ev = S n /\
    (count isBundlePost ev <= S n)%nat /\
    forall bundleId,
      res = Arbitrage.BundleAccepted bundleId ->
      accepted svc cfg transaction tipAmount bundleId ev.

Lemma submitJitoBundle_within_submitted :
  forall (budget : nat) (retryCount : Z),
    bundleRetries cfg - retryCount <= Z.of_nat budget ->
    sat (submitJitoBundle_within svc config cfg budget transaction
                                 tipAmount payer retryCount)
        (submitted retryCount).
Proof.
  induction budget as [|budget IH]; intros retryCount Hbudget;
    cbn [submitJitoBundle_within]; apply eff_bind;
    (eapply eff_weaken; [apply submitOnce_attempted|]);
    intros [[res|]|e] ev (Htips & Hposts & Hnext); try contradiction.
  - destruct Hnext as (Hsleeps & Hacc). apply eff_ret.
    exists 0%nat, res. rewrite app_nil_r.
    repeat split; auto; try lia.
  - destruct Hnext as (_ & Hlt). change (Z.of_nat 0) with 0 in Hbudget. lia.
  - destruct Hnext as (Hsleeps & Hacc). apply eff_ret.
    exists 0%nat, res. rewrite app_nil_r.
    repeat split; auto; try lia.
  - destruct Hnext as (Hsleeps & Hlt).
    eapply eff_weaken; [apply (IH (retryCount + 1)); lia|].
    intros r ev' (n & res & -> & Hn & Hs & Ht & Hp & Hacc).
    exists (S n), res. split; [reflexivity|]. split; [lia|].
    rewrite sleeps_app, !trace_count_app, Hsleeps, Hs, Htips, Ht,
      backoff_next.
    split; [reflexivity|]. split; [reflexivity|]. split; [lia|].
    intros bundleId Hres. apply accepted_after, Hacc, Hres.
Qed.

End SubmissionFacts.

(** X17. [submitJitoBundle] never throws, whatever its collaborators do.  A
    run is a number of calls one after the other, [JITO_MAX_RETRIES] more
    than the first at most, with pauses that double from
    [RETRY_DELAY_BASE * 2^retryCount] on; every call asks for a tip
    transaction once and posts one bundle at most.  The result is a
    success only when the run ends with the block engine answering with a
    bundle id, which is the id returned, to a bundle made of the base-58
    texts of the transaction and of the tip transaction, in this order. *)
Theorem submitJitoBundle_succeeds_only_when_accepted :
  forall (W : Type) (svc : Exchange.Services W) (config : Cfg.Config)
         (cfg : Exchange.Settings) (transaction : Solana.Transaction)
         (tipAmount : Z) (payer : Arbitrage.Keypair) (retryCount : Z)
         (w : W),
    0 <= retryCount ->
    let run := Exchange.submitJitoBundle svc config cfg transaction
                                         tipAmount payer retryCount w in
    exists n res,
      Eff.value run = Eff.Ok res /\
      Z.of_nat n <= Z.max 0 (Exchange.bundleRetries cfg - retryCount) /\
      Trace.sleeps (Eff.events run) = Trace.backoff cfg retryCount n /\
      Trace.count Trace.isTipCreation (Eff.events run) = S n /\
      (Trace.count Trace.isBundlePost (Eff.events run) <= S n)%nat /\
      forall bundleId,
        res = Arbitrage.BundleAccepted bundleId ->
        Trace.accepted svc cfg transaction tipAmount bundleId
                       (Eff.events run).
Proof.
  intros W svc config cfg transaction tipAmount payer retryCount w _ run.
  apply (submitJitoBundle_within_submitted
           svc config cfg transaction tipAmount payer
           (Z.to_nat (Exchange.bundleRetries cfg - retryCount)) retryCount
           ltac:(lia) w).
Qed.

Lemma submitJitoBundle_witness :
  let run := Exchange.submitJitoBundle
               Cases.engineSlow Cfg.config Exchange.settings
               Cases.trade 5000 Cases.payer 0 0%nat in
  Trace.sleeps (Eff.events run) = [2000] /\
  Trace.accepted Cases.engineSlow Exchange.settings Cases.trade 5000
                 "bundle-1" (Eff.events run).
Proof.
  split; [reflexivity|].
  destruct (submitJitoBundle_succeeds_only_when_accepted
              nat Cases.engineSlow Cfg.config Exchange.settings
              Cases.trade 5000 Cases.payer 0 0%nat ltac:(lia))
    as (n & res & Hvalue & _ & _ & _ & _ & Haccepted).
  apply Haccepted.
  assert (Hrun : Eff.value
                   (Exchange.submitJitoBundle
                      Cases.engineSlow Cfg.config Exchange.settings
                      Cases.trade 5000 Cases.payer 0 0%nat)
                 = Eff.Ok (Arbitrage.BundleAccepted "bundle-1"))
    by reflexivity.
  rewrite Hrun in Hvalue. now injection Hvalue as <-.
Defined.

(** ** ensureTokenAccount *)

Section TokenAccountFacts.
Import Eff Exchange Trace.
Context {W : Type}.
Variable svc : Services W.
Variable config : Cfg.Config.
Variable cfg : Settings.
Variable mint : string.
Variable payer : Arbitrage.Keypair.
Hypothesis mint_present : mint <> EmptyString.
Hypothesis mint_valid : PublicKey_valid svc mint = true.
Hypothesis wallet_present : Arbitrage.publicKey payer <> EmptyString.
Hypothesis wallet_valid :
  PublicKey_valid svc (Arbitrage.publicKey payer) = true.

Let wallet : string := Arbitrage.publicKey payer.

Let tokenAccount : string :=
  findProgramAddress svc [wallet; Cfg.TOKEN_PROGRAM_ID config; mint]
                     (ASSOCIATED_TOKEN_PROGRAM_ID cfg).

Lemma PublicKey_mint : PublicKey svc mint = Ok mint.
Proof. unfold PublicKey. now rewrite mint_valid. Qed.

Lemma PublicKey_wallet : PublicKey svc wallet = Ok wallet.
Proof. unfold PublicKey, wallet. now rewrite wallet_valid. Qed.

Lemma getAssociatedTokenAddress_ok :
  getAssociatedTokenAddress svc config cfg mint wallet = Ok tokenAccount.
Proof.
  unfold getAssociatedTokenAddress.
  pose proof mint_present as Hm. apply String.eqb_neq in Hm. rewrite Hm.
  pose proof wallet_present as Hw. apply String.eqb_neq in Hw.
  fold wallet in Hw. rewrite Hw.
  now rewrite PublicKey_mint, PublicKey_wallet.
Qed.

Lemma createInstruction_ok :
  exists ix,
    createAssociatedTokenAccountInstruction svc config cfg wallet mint payer
    = Ok ix.
Proof.
  unfold createAssociatedTokenAccountInstruction.
  pose proof mint_present as Hm. apply String.eqb_neq in Hm. rewrite Hm.
  pose proof wallet_present as Hw. apply String.eqb_neq in Hw.
  fold wallet in Hw. rewrite Hw.
  rewrite PublicKey_mint, PublicKey_wallet, getAssociatedTokenAddress_ok.
  eexists. reflexivity.
Qed.

(** What the result of a call says, and what the run shows for it. *)
Let shown (res : Arbitrage.TokenAccount) (ev : list Event) : Prop :=
  (res = existing tokenAccount /\
   (seen tokenAccount ev \/ inUse svc ev)) \/
  (res = justCreated tokenAccount /\
   exists ix,
     createAssociatedTokenAccountInstruction svc config cfg wallet mint
                                             payer = Ok ix /\
     confirmedCreation ix ev).

Lemma shown_after (res : Arbitrage.TokenAccount) (ev ev' : list Event) :
  shown res ev' -> shown res (ev ++ ev').
Proof.
  intros [(-> & [Hseen|(e & Hfrom & Hmsg)])
         |(-> & ix & Hix & tx & sig & Htx & Hsend & Hwait)].
  - left. split; [reflexivity|]. left. apply in_or_app. now right.
  - left. split; [reflexivity|]. right. exists e. split; [|exact Hmsg].
    destruct Hfrom as [H|[(tx & H)|H]].
    + left. apply in_or_app. now right.
    + right. left. exists tx. apply in_or_app. now right.
    + right. right. exact H.
  - right. split; [reflexivity|]. exists ix. split; [exact Hix|].
    exists tx, sig. split; [exact Htx|].
    split; apply in_or_app; now right.
Qed.

Lemma shown_before (res : Arbitrage.TokenAccount) (ev ev' : list Event) :
  shown res ev -> shown res (ev ++ ev').
Proof.
  intros [(-> & [Hseen|(e & Hfrom & Hmsg)])
         |(-> & ix & Hix & tx & sig & Htx & Hsend & Hwait)].
  - left. split; [reflexivity|]. left. apply in_or_app. now left.
  - left. split; [reflexivity|]. right. exists e. split; [|exact Hmsg].
    destruct Hfrom as [H|[(tx & H)|H]].
    + left. apply in_or_app. now left.
    + right. left. exists tx. apply in_or_app. now left.
    + right. right. exact H.
  - right. split; [reflexivity|]. exists ix. split; [exact Hix|].
    exists tx, sig. split; [exact Htx|].
    split; apply in_or_app; now left.
Qed.

Lemma createTokenAccount_spec :
  sat (createTokenAccount svc config cfg mint wallet tokenAccount payer)
      (fun r ev =>
         (count isSend ev <= 1)%nat /\
         match r with
         | Ok (Some res) => shown res ev
         | Ok None => unproven ev
         | Fail _ => False
         end).
Proof.
  unfold createTokenAccount.
  destruct createInstruction_ok as [ix Hix]. rewrite Hix.
  eff_run; try discriminate;
    repeat match goal with
           | H : Ok _ = Ok _ |- _ => injection H as <-
           end;
    (split; [cbn; lia|]).
  all: cbn [app].
  all: try (repeat constructor; fail).
  - right. split; [reflexivity|]. exists ix. split; [exact Hix|].
    eexists _, _.
    split; [|cbn; split; [right; left; reflexivity
                         |do 3 right; left; reflexivity]].
    reflexivity.
  - left. split; [reflexivity|]. right. exists error.
    split; [|assumption]. right. left. eexists. cbn. auto.
  - left. split; [reflexivity|]. right. exists error.
    split; [|assumption]. right. right. eexists. eassumption.
  - left. split; [reflexivity|]. right. exists error.
    split; [|assumption]. left. cbn. auto.
Qed.

(** One call, and a run of calls one after the other. *)
Let attempted (retryCount : Z)
  (r : Result Error (Next Arbitrage.TokenAccount)) (ev : list Event)
  : Prop :=
  (count isSend ev <= 1)%nat /\
  match r with
  | Ok (Return res) =>
      shown res ev \/
      (res = assumed tokenAccount /\ unproven ev /\ 2 <= retryCount)
  | Ok Again => unproven ev /\ retryCount < 2
  | Fail _ => False
  end.

Lemma unproven_app (ev ev' : list Event) :
  unproven ev -> unproven ev' -> unproven (ev ++ ev').
Proof. intros H H'. apply Forall_app. now split. Qed.

Lemma afterCheck_spec (retryCount : Z) (checked : list Event) :
  unproven checked -> count isSend checked = 0%nat ->
  sat (bind (createTokenAccount svc config cfg mint wallet tokenAccount
                                payer)
            (fun made =>
               match made with
               | Some r => ret (Return r)
               | None =>
                   if retryCount <? 2
                   then bind (act (ESleep 2000) (sleep svc 2000))
                             (fun _ => ret Again)
                   else ret (Return (assumed tokenAccount))
               end))
      (fun r ev =>
         match r with
         | Ok a => attempted retryCount (Ok a) (checked ++ ev)
         | Fail _ => False
         end).
Proof.
  intros Hchecked Hsends. apply eff_bind.
  eapply eff_weaken; [apply createTokenAccount_spec|].
  intros [[res|]|e] ev (Hcount & Hres); [| |contradiction].
  - apply eff_ret. rewrite app_nil_r. split.
    + rewrite trace_count_app, Hsends. exact Hcount.
    + left. apply shown_after, Hres.
  - destruct (Z.ltb_spec retryCount 2) as [Hlt|Hge].
    + apply eff_bind, eff_act, eff_ret. split.
      * rewrite !trace_count_app, Hsends. cbn. lia.
      * split; [|exact Hlt].
        apply unproven_app; [exact Hchecked|].
        apply unproven_app; [exact Hres|]. repeat constructor.
    + apply eff_ret. rewrite app_nil_r. split.
      * rewrite trace_count_app, Hsends. exact Hcount.
      * right. split; [reflexivity|]. split; [|lia].
        apply unproven_app; assumption.
Qed.

Lemma ensureOnce_attempted (retryCount : Z) :
  sat (ensureOnce svc config cfg mint payer retryCount)
      (attempted retryCount).
Proof.
  unfold ensureOnce.
  apply eff_try_catch, eff_bind. rewrite PublicKey_mint.
  apply eff_lift. cbn beta iota.
  apply eff_bind. fold wallet. rewrite getAssociatedTokenAddress_ok.
  apply eff_lift. cbn beta iota.
  apply eff_bind, eff_try_catch, eff_call.
  intros [[|]|e]; cbn beta iota.
  - apply eff_ret. cbn [app]. split; [cbn; lia|].
    left. left. split; [reflexivity|]. left. now left.
  - eapply eff_weaken;
      [apply (afterCheck_spec
                retryCount [EGetAccountInfo tokenAccount (Ok false)]);
       [repeat constructor|reflexivity]|].
    intros [a|e] ev H; [exact H|contradiction].
  - apply eff_ret. cbn beta iota.
    eapply eff_weaken;
      [apply (afterCheck_spec
                retryCount [EGetAccountInfo tokenAccount (Fail e)]);
       [repeat constructor|reflexivity]|].
    intros [a|e'] ev H; [|contradiction].
    cbn [app] in H |- *. exact H.
Qed.

(** A run of [ensureTokenAccount]. *)
Let ensured (retryCount : Z) (r : Result Error Arbitrage.TokenAccount)
  (ev : list Event) : Prop :=
  exists n res,
    r = Ok res /\
    Z.of_nat n <= Z.max 0 (2 - retryCount) /\
    (count isSend ev <= S n)%nat /\
    (shown res ev \/
     (res = assumed tokenAccount /\ unproven ev /\
      2 <= retryCount + Z.of_nat n)).

Lemma ensureTokenAccount_within_ensured :
  forall (budget : nat) (retryCount : Z),
    2 - retryCount <= Z.of_nat budget ->
    sat (ensureTokenAccount_within svc config cfg budget mint payer
                                   retryCount)
        (ensured retryCount).
Proof.
  induction budget as [|budget IH]; intros retryCount Hbudget;
    cbn [ensureTokenAccount_within]; apply eff_bind;
    (eapply eff_weaken; [apply ensureOnce_attempted|]);
    intros [[res|]|e] ev (Hsends & Hnext); try contradiction.
  - apply eff_ret. exists 0%nat, res. rewrite app_nil_r.
    split; [reflexivity|]. split; [lia|]. split; [exact Hsends|].
    destruct Hnext as [H|(-> & Hun & Hge)]; [now left|right].
    split; [reflexivity|]. split; [exact Hun|lia].
  - destruct Hnext as (_ & Hlt). change (Z.of_nat 0) with 0 in Hbudget. lia.
  - apply eff_ret. exists 0%nat, res. rewrite app_nil_r.
    split; [reflexivity|]. split; [lia|]. split; [exact Hsends|].
    destruct Hnext as [H|(-> & Hun & Hge)]; [now left|right].
    split; [reflexivity|]. split; [exact Hun|lia].
  - destruct Hnext as (Hun & Hlt).
    eapply eff_weaken; [apply (IH (retryCount + 1)); lia|].
    intros r ev' (n & res & -> & Hn & Hs & Hres).
    exists (S n), res. split; [reflexivity|]. split; [lia|].
    split; [rewrite trace_count_app; lia|].
    destruct Hres as [H|(-> & Hun' & Hge)].
    + left. apply shown_after, H.
    + right. split; [reflexivity|].
      split; [apply unproven_app; assumption|lia].
Qed.

End TokenAccountFacts.

(** X18. For a mint and a payer whose keys are valid, [ensureTokenAccount]
    never throws, and the account it returns is always the associated
    token account of the mint and the payer.  A run sends three
    transactions at most (one for each call, and the function calls itself
    while the retry count is below 2).  It says that the account exists
    only when the ledger answered so or when the creation failed with an
    error that says so; that it created the account only when it sent the
    creating transaction and the wait for its confirmation returned
    [true]; and it says [assumedValid] only when no answer of the run
    shows the account and no retry is left. *)
Theorem ensureTokenAccount_returns_the_associated_account :
  forall (W : Type) (svc : Exchange.Services W) (config : Cfg.Config)
         (cfg : Exchange.Settings) (mint : string)
         (payer : Arbitrage.Keypair) (retryCount : Z) (w : W),
    mint <> EmptyString ->
    Exchange.PublicKey_valid svc mint = true ->
    Arbitrage.publicKey payer <> EmptyString ->
    Exchange.PublicKey_valid svc (Arbitrage.publicKey payer) = true ->
    let run := Exchange.ensureTokenAccount svc config cfg mint payer
                                           retryCount w in
    let tokenAccount :=
      Exchange.findProgramAddress
        svc [Arbitrage.publicKey payer; Cfg.TOKEN_PROGRAM_ID config; mint]
        (Exchange.ASSOCIATED_TOKEN_PROGRAM_ID cfg) in
    exists n res,
      Eff.value run = Eff.Ok res /\
      Arbitrage.account res = Some tokenAccount /\
      Z.of_nat n <= Z.max 0 (2 - retryCount) /\
      (Trace.count Trace.isSend (Eff.events run) <= S n)%nat /\
      ((res = Exchange.existing tokenAccount /\
        (Trace.seen tokenAccount (Eff.events run) \/
         Trace.inUse svc (Eff.events run))) \/
       (res = Exchange.justCreated tokenAccount /\
        exists ix,
          Exchange.createAssociatedTokenAccountInstruction
            svc config cfg (Arbitrage.publicKey payer) mint payer
          = Eff.Ok ix /\
          Trace.confirmedCreation ix (Eff.events run)) \/
       (res = Exchange.assumed tokenAccount /\
        Trace.unproven (Eff.events run) /\
        2 <= retryCount + Z.of_nat n)).
Proof.
  intros W svc config cfg mint payer retryCount w Hm Hmv Hw Hwv run
         tokenAccount.
  destruct (ensureTokenAccount_within_ensured
              svc config cfg mint payer Hm Hmv Hw Hwv
              (Z.to_nat (2 - retryCount)) retryCount ltac:(lia) w)
    as (n & res & Hvalue & Hn & Hsends & Hres).
  exists n, res. split; [exact Hvalue|].
  split; [|split; [exact Hn|split; [exact Hsends|]]].
  - destruct Hres as [[(-> & _)|(-> & _)]|(-> & _)]; reflexivity.
  - destruct Hres as [[H|H]|H]; auto.
Qed.

Lemma ensureTokenAccount_witness :
  let run := Exchange.ensureTokenAccount
               Cases.ledgerSlow Cfg.config Exchange.settings
               "EPjFWdd5AufqSSqeM2qN1xzybapC8G4wEGGkZwyTDt1v" Cases.payer 0
               0%nat in
  exists res,
    Eff.value run = Eff.Ok res /\
    Arbitrage.created res = true /\
    Trace.count Trace.isSend (Eff.events run) = 3%nat.
Proof.
  destruct (ensureTokenAccount_returns_the_associated_account
              nat Cases.ledgerSlow Cfg.config Exchange.settings
              "EPjFWdd5AufqSSqeM2qN1xzybapC8G4wEGGkZwyTDt1v" Cases.payer 0
              0%nat ltac:(discriminate) eq_refl ltac:(discriminate) eq_refl)
    as (n & res & _).
  eexists. split; [reflexivity|]. split; reflexivity.
Defined.

(** X19. For a mint that is not a valid key, [ensureTokenAccount] throws at
    once, whatever the retry count: the handler that is meant to return a
    result that does not block the caller runs into the same error, and
    nothing is asked of the ledger. *)
Theorem ensureTokenAccount_throws_on_an_invalid_mint :
  forall (W : Type) (svc : Exchange.Services W) (config : Cfg.Config)
         (cfg : Exchange.Settings) (mint : string)
         (payer : Arbitrage.Keypair) (retryCount : Z) (w : W),
    Exchange.PublicKey_valid svc mint = false ->
    let run := Exchange.ensureTokenAccount svc config cfg mint payer
                                           retryCount w in
    (exists error, Eff.value run = Eff.Fail error) /\
    Eff.events run = [] /\
    Eff.world run = w.
Proof.
  intros W svc config cfg mint payer retryCount w Hinvalid run.
  subst run. unfold Exchange.ensureTokenAccount.
  destruct (Z.to_nat (2 - retryCount));
    cbn [Exchange.ensureTokenAccount_within];
    unfold Exchange.ensureOnce, Eff.bind, Eff.try_catch, Eff.lift,
      Exchange.PublicKey;
    rewrite Hinvalid; cbn; eauto.
Qed.

Lemma ensureTokenAccount_invalid_witness :
  exists error,
    Eff.value (Exchange.ensureTokenAccount
                 Cases.noKeys Cfg.config Exchange.settings "not a key"
                 Cases.payer 0 0%nat)
    = Eff.Fail error.
Proof.
  apply (ensureTokenAccount_throws_on_an_invalid_mint
           nat Cases.noKeys Cfg.config Exchange.settings "not a key"
           Cases.payer 0 0%nat eq_refl).
Defined.

(** ** utils.createJitoTipTransaction *)

Section TipFacts.
Import Eff Exchange Utils Trace.
Context {W : Type}.
Variable svc : Services W.
Variable config : Cfg.Config.

(** The loop: every request that fails takes one from [retries], and the
    loop is left with a blockhash, or by [return null] at the failure that
    brings [retries] to 0; a round that gets an answer without a blockhash
    changes nothing. *)
Let looped (rounds : nat) (retries : Z) (r : Result Error Loop)
  (ev : list Event) : Prop :=
  Forall isBlockhashRound ev /\
  Z.of_nat (count isFailedBlockhash ev) <= retries /\
  (count isBlockhashRequest ev
   = count isFailedBlockhash ev + count isEmptyBlockhash ev
     + match r with Ok (Exit _) => 1 | _ => 0 end)%nat /\
  match r with
  | Ok (Exit b) =>
      b <> EmptyString /\
      exists before, ev = before ++ [EGetLatestBlockhash (Ok b)]
  | Ok ReturnNull => Z.of_nat (count isFailedBlockhash ev) = retries
  | Ok Running =>
      count isBlockhashRequest ev = rounds /\
      Z.of_nat (count isFailedBlockhash ev) < retries
  | Fail _ => False
  end.

Local Ltac rounds_ok :=
  repeat first
    [ apply Forall_nil
    | apply Forall_cons;
      [first [left; eexists; reflexivity|right; reflexivity]|] ].

Lemma blockhashLoop_looped :
  forall (rounds : nat) (retries : Z) (blockhash : string),
    0 < retries ->
    sat (blockhashLoop svc rounds retries blockhash)
        (looped rounds retries).
Proof.
  induction rounds as [|rounds IH]; intros retries blockhash Hpos;
    cbn [blockhashLoop];
    (destruct (Z.ltb_spec 0 retries) as [_|Hle]; [|lia]).
  - apply eff_ret. unfold looped. cbn.
    split; [rounds_ok|]. repeat split; lia.
  - apply eff_bind, eff_try_catch, eff_bind, eff_call.
    intros [b|e]; cbn beta iota.
    + apply eff_ret. cbn beta iota.
      destruct (b =? "")%string eqn:Hb; cbn [negb].
      * apply String.eqb_eq in Hb. subst b.
        eapply eff_weaken; [apply (IH retries EmptyString Hpos)|].
        intros r ev (Hall & Hfail & Hcount & Hr).
        unfold looped. cbn [app].
        split; [constructor; [left; eauto|exact Hall]|].
        unfold count in *. cbn [filter isFailedBlockhash isEmptyBlockhash
                                 isBlockhashRequest String.eqb List.length].
        split; [exact Hfail|]. split; [lia|].
        destruct r as [[b| |]|e]; try exact Hr.
        -- destruct Hr as (Hb & before & ->). split; [exact Hb|].
           exists (EGetLatestBlockhash (Ok EmptyString) :: before).
           reflexivity.
        -- destruct Hr as (Hr & Hlt). split; [lia|exact Hlt].
      * apply eff_ret. apply String.eqb_neq in Hb.
        unfold looped, count. cbn.
        rewrite (proj2 (String.eqb_neq b EmptyString) Hb). cbn.
        split; [rounds_ok|].
        split; [lia|]. split; [reflexivity|]. split; [exact Hb|].
        now exists [].
    + destruct (Z.leb_spec (retries - 1) 0) as [Hlast|Hmore].
      * apply eff_ret. cbn beta iota. apply eff_ret.
        unfold looped, count. cbn.
        split; [rounds_ok|].
        split; [lia|]. split; [reflexivity|lia].
      * apply eff_bind, eff_act, eff_ret. cbn beta iota.
        eapply eff_weaken; [apply (IH (retries - 1) blockhash); lia|].
        intros r ev (Hall & Hfail & Hcount & Hr).
        unfold looped. cbn [app].
        split; [constructor; [left; eauto|constructor;
                                          [now right|exact Hall]]|].
        unfold count in *. cbn [filter isFailedBlockhash isEmptyBlockhash
                                 isBlockhashRequest List.length].
        split; [lia|]. split; [lia|].
        destruct r as [[b| |]|e']; try exact Hr.
        -- destruct Hr as (Hb & before & ->). split; [exact Hb|].
           exists (EGetLatestBlockhash (Fail e) :: ESleep 1000 :: before).
           reflexivity.
        -- lia.
        -- destruct Hr as (Hr & Hlt). split; [lia|lia].
Qed.

Lemma createJitoTipTransaction_spec (rounds : nat) (tipAmount : Z)
  (payer : Arbitrage.Keypair) :
  sat (createJitoTipTransaction svc config rounds tipAmount payer)
      (fun r ev =>
         Forall isBlockhashRound ev /\
         (count isFailedBlockhash ev <= 3)%nat /\
         (tipAmount <= 0 \/
          PublicKey_valid svc (Cfg.JITO_TIP_ACCOUNT config) = false ->
          r = Ok (Some None) /\ ev = []) /\
         match r with
         | Ok (Some (Some tx)) =>
             0 < tipAmount /\
             PublicKey_valid svc (Cfg.JITO_TIP_ACCOUNT config) = true /\
             exists b before,
               b <> EmptyString /\
               ev = before ++ [EGetLatestBlockhash (Ok b)] /\
               tx = tipOf config payer tipAmount b
         | Ok (Some None) =>
             ev = [] \/ count isFailedBlockhash ev = 3%nat
         | Ok None =>
             count isBlockhashRequest ev = rounds /\
             (rounds <= count isEmptyBlockhash ev + 2)%nat
         | Fail _ => False
         end).
Proof.
  unfold createJitoTipTransaction. apply eff_try_catch.
  destruct (Z.leb_spec tipAmount 0) as [Hle|Hpos].
  { apply eff_ret. split; [constructor|]. split; [cbn; lia|].
    split; [auto|now left]. }
  destruct (PublicKey_valid svc (Cfg.JITO_TIP_ACCOUNT config)) eqn:Hvalid;
    cbn [negb].
  2:{ apply eff_ret. split; [constructor|]. split; [cbn; lia|].
      split; [auto|now left]. }
  apply eff_bind.
  eapply eff_weaken; [apply (blockhashLoop_looped rounds 3 EmptyString); lia|].
  intros [[b| |]|e] ev (Hall & Hfail & Hcount & Hr); [| | |contradiction].
  - destruct Hr as (Hb & before & ->).
    rewrite (proj2 (String.eqb_neq b EmptyString) Hb).
    apply eff_ret. rewrite app_nil_r.
    split; [exact Hall|]. split; [lia|].
    split; [intros [H|H]; [lia|discriminate]|].
    split; [exact Hpos|]. split; [reflexivity|].
    exists b, before. auto.
  - apply eff_ret. rewrite app_nil_r.
    split; [exact Hall|]. split; [lia|].
    split; [intros [H|H]; [lia|discriminate]|].
    right. lia.
  - apply eff_ret. rewrite app_nil_r.
    split; [exact Hall|]. split; [lia|].
    split; [intros [H|H]; [lia|discriminate]|].
    destruct Hr as (Hr & Hlt). split; [exact Hr|lia].
Qed.

Lemma blockhashLoop_never_leaves :
  (forall w, fst (getLatestBlockhash svc w) = Ok EmptyString) ->
  forall (rounds : nat) (retries : Z) (blockhash : string) (w : W),
    0 < retries ->
    value (blockhashLoop svc rounds retries blockhash w) = Ok Running /\
    events (blockhashLoop svc rounds retries blockhash w)
    = repeat (EGetLatestBlockhash (Ok EmptyString)) rounds.
Proof.
  intros Hempty.
  induction rounds as [|rounds IH]; intros retries b w Hpos;
    cbn [blockhashLoop];
    (destruct (Z.ltb_spec 0 retries) as [_|Hle]; [|lia]).
  - split; reflexivity.
  - unfold bind, try_catch, call, value, events.
    pose proof (Hempty w) as Hw.
    destruct (getLatestBlockhash svc w) as [r w1]. cbn in Hw. subst r.
    cbn. specialize (IH retries EmptyString w1 Hpos).
    unfold value, events in IH.
    destruct (blockhashLoop svc rounds retries EmptyString w1)
      as [[r w2] ev].
    cbn in IH |- *. destruct IH as (-> & ->). split; reflexivity.
Qed.

End TipFacts.

(** X20. [utils.createJitoTipTransaction] never throws.  For a tip that is
    not positive or a tip account that is not a valid key it returns
    [null] without asking the connection for anything.  Otherwise all it
    does is ask for the latest blockhash, with a pause of a second after a
    request that failed; it returns [null] at the third failure; and the
    transaction it returns is a transfer of the tip from the payer to the
    tip account, signed by the payer, over the blockhash of the last
    answer.  After any number of rounds of its loop it can only be still
    going if all the answers but two at most came without a blockhash. *)
Theorem createJitoTipTransaction_gives_up_at_the_third_failure :
  forall (W : Type) (svc : Exchange.Services W) (config : Cfg.Config)
         (rounds : nat) (tipAmount : Z) (payer : Arbitrage.Keypair) (w : W),
    let run := Utils.createJitoTipTransaction svc config rounds tipAmount
                                              payer w in
    Forall Trace.isBlockhashRound (Eff.events run) /\
    (Trace.count Trace.isFailedBlockhash (Eff.events run) <= 3)%nat /\
    (tipAmount <= 0 \/
     Exchange.PublicKey_valid svc (Cfg.JITO_TIP_ACCOUNT config) = false ->
     Eff.value run = Eff.Ok (Some None) /\ Eff.events run = []) /\
    match Eff.value run with
    | Eff.Ok (Some (Some tx)) =>
        0 < tipAmount /\
        Exchange.PublicKey_valid svc (Cfg.JITO_TIP_ACCOUNT config) = true /\
        exists b before,
          b <> EmptyString /\
          Eff.events run
          = before ++ [Exchange.EGetLatestBlockhash (Eff.Ok b)] /\
          tx = Trace.tipOf config payer tipAmount b
    | Eff.Ok (Some None) =>
        Eff.events run = [] \/
        Trace.count Trace.isFailedBlockhash (Eff.events run) = 3%nat
    | Eff.Ok None =>
        Trace.count Trace.isBlockhashRequest (Eff.events run) = rounds /\
        (rounds
         <= Trace.count Trace.isEmptyBlockhash (Eff.events run) + 2)%nat
    | Eff.Fail _ => False
    end.
Proof.
  intros W svc config rounds tipAmount payer w run.
  apply (createJitoTipTransaction_spec svc config rounds tipAmount payer w).
Qed.

(** X21. The loop of [utils.createJitoTipTransaction] counts the requests
    that fail, not those that are answered without a blockhash: against a
    connection that always answers without one, the function has not
    returned after any number of rounds, and it has asked once in every
    round, without a pause. *)
Theorem createJitoTipTransaction_spins_without_a_blockhash :
  forall (W : Type) (svc : Exchange.Services W) (config : Cfg.Config)
         (tipAmount : Z) (payer : Arbitrage.Keypair),
    0 < tipAmount ->
    Exchange.PublicKey_valid svc (Cfg.JITO_TIP_ACCOUNT config) = true ->
    (forall w, fst (Exchange.getLatestBlockhash svc w)
               = Eff.Ok EmptyString) ->
    forall (rounds : nat) (w : W),
      let run := Utils.createJitoTipTransaction svc config rounds tipAmount
                                                payer w in
      Eff.value run = Eff.Ok None /\
      Eff.events run
      = repeat (Exchange.EGetLatestBlockhash (Eff.Ok EmptyString)) rounds.
Proof.
  intros W svc config tipAmount payer Hpos Hvalid Hempty rounds w run.
  subst run. unfold Utils.createJitoTipTransaction.
  destruct (Z.leb_spec tipAmount 0) as [Hle|_]; [lia|].
  rewrite Hvalid. cbn [negb].
  unfold Eff.try_catch, Eff.bind, Eff.value, Eff.events.
  destruct (blockhashLoop_never_leaves svc Hempty rounds 3 EmptyString w
                                       ltac:(lia))
    as (Hvalue & Hevents).
  unfold Eff.value, Eff.events in Hvalue, Hevents.
  destruct (Utils.blockhashLoop svc rounds 3 EmptyString w) as [[r w1] ev].
  cbn in Hvalue, Hevents. subst r ev. cbn.
  rewrite app_nil_r. split; reflexivity.
Qed.

Lemma createJitoTipTransaction_spins_witness :
  let run := Utils.createJitoTipTransaction
               Cases.noBlockhash Cfg.config 1000 5000 Cases.payer 0%nat in
  Eff.value run = Eff.Ok None /\
  List.length (Eff.events run) = 1000%nat.
Proof.
  destruct (createJitoTipTransaction_spins_without_a_blockhash
              nat Cases.noBlockhash Cfg.config 5000 Cases.payer
              ltac:(lia) eq_refl (fun w => eq_refl) 1000%nat 0%nat)
    as (Hvalue & Hevents).
  split; [exact Hvalue|]. rewrite Hevents. apply repeat_length.
Defined.

(** ** utils.extractUniqueAccounts and utils.checkAddressesInLookupTables *)

Section SetFacts.
Import Utils.

Lemma Set_has_In (x : string) (s : list string) :
  Set_has x s = true <-> In x s.
Proof.
  unfold Set_has. rewrite existsb_exists. split.
  - intros (y & Hin & Heq). apply String.eqb_eq in Heq. now subst.
  - intros Hin. exists x. split; [exact Hin|apply String.eqb_refl].
Qed.

Lemma Set_add_In (x a : string) (s : list string) :
  In a (Set_add x s) <-> a = x \/ In a s.
Proof.
  unfold Set_add. fold (Set_has x s).
  destruct (Set_has x s) eqn:Hhas.
  - apply Set_has_In in Hhas. split; [auto|]. intros [->|H]; assumption.
  - rewrite in_app_iff. cbn. intuition congruence.
Qed.

Lemma Set_add_NoDup (x : string) (s : list string) :
  NoDup s -> NoDup (Set_add x s).
Proof.
  intros Hs. unfold Set_add. fold (Set_has x s).
  destruct (Set_has x s) eqn:Hhas; [exact Hs|].
  assert (Hnot : ~ In x s).
  { intros Hin. apply Set_has_In in Hin. congruence. }
  clear Hhas. induction Hs as [|y s Hy Hs IH]; cbn.
  - constructor; [tauto|constructor].
  - constructor.
    + rewrite in_app_iff. cbn in *. intuition congruence.
    + apply IH. cbn in Hnot. tauto.
Qed.

Lemma addKeys_spec (keys : list (option string)) :
  forall (set : list string),
    NoDup set ->
    NoDup (addKeys keys set) /\
    forall a, In a (addKeys keys set) <-> In (Some a) keys \/ In a set.
Proof.
  induction keys as [|[k|] keys IH]; intros set Hset; cbn [addKeys].
  - split; [exact Hset|]. cbn. tauto.
  - destruct (IH (Set_add k set) (Set_add_NoDup k set Hset)) as (Hnd & Hin).
    split; [exact Hnd|]. intros a. rewrite Hin, Set_add_In. cbn.
    intuition congruence.
  - destruct (IH set Hset) as (Hnd & Hin).
    split; [exact Hnd|]. intros a. rewrite Hin. cbn.
    intuition congruence.
Qed.

(** The address [a] is the program id or a key of the instruction. *)
Let names (instruction : Accounts) (a : string) : Prop :=
  ix_programId instruction = Some a \/
  exists keys, ix_keys instruction = Some keys /\ In (Some a) keys.

Lemma addInstructions_spec (instructions : list (option Accounts)) :
  forall (set : list string),
    NoDup set ->
    NoDup (addInstructions instructions set) /\
    forall a,
      In a (addInstructions instructions set) <->
      (exists instruction,
          In (Some instruction) instructions /\ names instruction a) \/
      In a set.
Proof.
  induction instructions as [|[ix|] rest IH]; intros set Hset;
    cbn [addInstructions].
  - split; [exact Hset|]. intros a. cbn. split; [auto|].
    intros [(ix & [] & _)|H]; exact H.
  - set (s1 := match ix_programId ix with
               | Some programId => Set_add programId set
               | None => set
               end).
    assert (Hs1 : NoDup s1 /\
                  forall a, In a s1 <-> ix_programId ix = Some a \/ In a set).
    { subst s1. destruct (ix_programId ix) as [p|].
      - split; [now apply Set_add_NoDup|]. intros a.
        rewrite Set_add_In. intuition congruence.
      - split; [exact Hset|]. intros a. intuition congruence. }
    destruct Hs1 as (Hnd1 & Hin1).
    set (s2 := match ix_keys ix with
               | Some keys => addKeys keys s1
               | None => s1
               end).
    assert (Hs2 : NoDup s2 /\ forall a, In a s2 <-> names ix a \/ In a set).
    { subst s2. unfold names. destruct (ix_keys ix) as [keys|].
      - destruct (addKeys_spec keys s1 Hnd1) as (Hnd & Hin).
        split; [exact Hnd|]. intros a. rewrite Hin, Hin1. split.
        + intros [H|[H|H]]; eauto.
        + intros [[H|(keys' & [= <-] & H)]|H]; auto.
      - split; [exact Hnd1|]. intros a. rewrite Hin1. split.
        + intros [H|H]; auto.
        + intros [[H|(keys' & H & _)]|H]; auto. discriminate. }
    destruct Hs2 as (Hnd2 & Hin2).
    destruct (IH s2 Hnd2) as (Hnd & Hin).
    split; [exact Hnd|]. intros a. rewrite Hin, Hin2. cbn. split.
    + intros [(ix' & Hix' & Hn)|[Hn|H]]; eauto.
    + intros [(ix' & [[= <-]|Hix'] & Hn)|H]; eauto.
  - destruct (IH set Hset) as (Hnd & Hin).
    split; [exact Hnd|]. intros a. rewrite Hin. cbn. split.
    + intros [(ix' & Hix' & Hn)|H]; eauto.
    + intros [(ix' & [Hix'|Hix'] & Hn)|H]; eauto. discriminate.
Qed.

Lemma fold_Set_add_In (addresses : list string) :
  forall (set : list string) (a : string),
    In a (fold_left (fun s addr => Set_add addr s) addresses set) <->
    In a addresses \/ In a set.
Proof.
  induction addresses as [|x rest IH]; intros set a; cbn [fold_left].
  - cbn. tauto.
  - rewrite IH, Set_add_In. cbn. intuition congruence.
Qed.

Lemma tableAddresses_In (lookupTables : list (option (list string))) :
  forall (set : list string) (a : string),
    In a (tableAddresses lookupTables set) <->
    (exists addresses, In (Some addresses) lookupTables /\ In a addresses)
    \/ In a set.
Proof.
  induction lookupTables as [|[addresses|] rest IH]; intros set a;
    cbn [tableAddresses].
  - cbn. split; [auto|]. intros [(x & [] & _)|H]; exact H.
  - rewrite IH, fold_Set_add_In. cbn. split.
    + intros [(x & Hx & Ha)|[Ha|Ha]]; eauto.
    + intros [(x & [[= <-]|Hx] & Ha)|Ha]; eauto.
  - rewrite IH. cbn. split.
    + intros [(x & Hx & Ha)|Ha]; eauto.
    + intros [(x & [Hx|Hx] & Ha)|Ha]; eauto. discriminate.
Qed.

End SetFacts.

(** X22. [utils.extractUniqueAccounts] returns every address once: the
    result has no duplicate, and an address is in it exactly when it is
    the program id or a key of one of the instructions; entries that are
    absent are passed over. *)
Theorem extractUniqueAccounts_has_every_account_once :
  forall (instructions : list (option Utils.Accounts)),
    NoDup (Utils.extractUniqueAccounts instructions) /\
    forall a,
      In a (Utils.extractUniqueAccounts instructions) <->
      exists instruction,
        In (Some instruction) instructions /\
        (Utils.ix_programId instruction = Some a \/
         exists keys, Utils.ix_keys instruction = Some keys /\
                      In (Some a) keys).
Proof.
  intros instructions. unfold Utils.extractUniqueAccounts.
  destruct (addInstructions_spec instructions [] (NoDup_nil _))
    as (Hnd & Hin).
  split; [exact Hnd|]. intros a. rewrite Hin. cbn. tauto.
Qed.

(** X23. [utils.checkAddressesInLookupTables] returns [true] exactly when
    there is at least one table and at least one required address, and
    every required address is among the addresses of one of the tables.
    So it returns [false] when nothing is required, although every
    required address is then in the tables. *)
Theorem checkAddressesInLookupTables_needs_something_to_check :
  forall (lookupTables : list (option (list string)))
         (requiredAddresses : list string),
    (Utils.checkAddressesInLookupTables lookupTables requiredAddresses
     = true <->
     lookupTables <> [] /\ requiredAddresses <> [] /\
     forall a, In a requiredAddresses ->
               exists addresses,
                 In (Some addresses) lookupTables /\ In a addresses) /\
    Utils.checkAddressesInLookupTables lookupTables [] = false.
Proof.
  intros lookupTables requiredAddresses. split.
  - unfold Utils.checkAddressesInLookupTables.
    destruct lookupTables as [|table tables].
    { cbn. split; [discriminate|]. intros (H & _). congruence. }
    destruct requiredAddresses as [|address addresses].
    { cbn. split; [discriminate|]. intros (_ & H & _). congruence. }
    change (Z.of_nat (List.length (table :: tables)) =? 0) with false.
    change (Z.of_nat (List.length (address :: addresses)) =? 0) with false.
    cbn [orb]. rewrite forallb_forall. split.
    + intros Hall. split; [discriminate|]. split; [discriminate|].
      intros a Ha. specialize (Hall a Ha). apply Set_has_In in Hall.
      apply tableAddresses_In in Hall as [H|[]]. exact H.
    + intros (_ & _ & Hall) a Ha. apply Set_has_In.
      apply tableAddresses_In. left. apply Hall, Ha.
  - unfold Utils.checkAddressesInLookupTables.
    destruct (Z.of_nat (List.length lookupTables) =? 0); reflexivity.
Qed.

(** ** utils.createAddressLookupTable *)

Section BatchFacts.
Import Eff Exchange Utils Trace.

Lemma firstn_more {A : Type} (a b : nat) (l : list A) :
  firstn (a + b) l = firstn a l ++ firstn b (skipn a l).
Proof.
  revert l. induction a as [|a IH]; intros l; [reflexivity|].
  destruct l as [|x l]; cbn.
  - now rewrite firstn_nil.
  - now rewrite IH.
Qed.

Lemma skipn_more {A : Type} (a b : nat) (l : list A) :
  skipn (a + b) l = skipn b (skipn a l).
Proof.
  revert l. induction a as [|a IH]; intros l; [reflexivity|].
  destruct l as [|x l]; cbn; [now rewrite skipn_nil|apply IH].
Qed.

Lemma slice_batch {A : Type} (l : list A) (k : nat) :
  slice l (k * 30) (k * 30 + 30) = firstn 30 (skipn (k * 30) l).
Proof. unfold slice. f_equal. lia. Qed.

Lemma concat_slices {A : Type} (l : list A) (j k : nat) :
  List.concat (map (fun k => slice l (k * 30) (k * 30 + 30)) (seq k j))
  = firstn (j * 30) (skipn (k * 30) l).
Proof.
  revert k. induction j as [|j IH]; intros k; [reflexivity|].
  cbn [seq map List.concat]. rewrite IH, slice_batch.
  replace (S j * 30)%nat with (30 + j * 30)%nat by lia.
  rewrite firstn_more. f_equal. f_equal.
  replace (S k * 30)%nat with (k * 30 + 30)%nat by lia.
  apply skipn_more.
Qed.

Lemma batches_count (n : nat) :
  let m := ((n + 29) / 30)%nat in
  (n <= m * 30 /\ forall k, k * 30 < n <-> k < m)%nat.
Proof.
  intros m. subst m.
  pose proof (Nat.div_mod_eq (n + 29) 30) as Hdiv.
  pose proof (Nat.mod_upper_bound (n + 29) 30 ltac:(lia)) as Hmod.
  split; [lia|]. intros k. split; intros H; lia.
Qed.

Lemma batches_concat (addresses : list string) :
  List.concat (batches addresses) = addresses.
Proof.
  unfold batches. rewrite concat_slices. cbn [Nat.mul skipn].
  apply firstn_all2. apply (batches_count (List.length addresses)).
Qed.

Lemma batches_sizes (addresses : list string) :
  Forall (fun b => (0 < List.length b <= 30)%nat) (batches addresses).
Proof.
  unfold batches. apply Forall_forall. intros b Hb.
  apply in_map_iff in Hb as (k & <- & Hk). apply in_seq in Hk.
  rewrite slice_batch, length_firstn, length_skipn.
  destruct (batches_count (List.length addresses)) as (_ & Hlt).
  assert (k * 30 < List.length addresses)%nat by (apply Hlt; lia).
  lia.
Qed.

Lemma batches_full (addresses : list string) (k : nat) :
  (S k < List.length (batches addresses))%nat ->
  List.length (nth k (batches addresses) []) = 30%nat.
Proof.
  unfold batches. rewrite length_map, length_seq. intros Hk.
  rewrite (nth_indep _ [] (slice addresses (0 * 30) (0 * 30 + 30)))
    by (rewrite length_map, length_seq; lia).
  rewrite (map_nth (fun k => slice addresses (k * 30) (k * 30 + 30))).
  rewrite seq_nth by lia. cbn [Nat.add].
  rewrite slice_batch, length_firstn, length_skipn.
  destruct (batches_count (List.length addresses)) as (_ & Hlt).
  assert (S k * 30 < List.length addresses)%nat by (apply Hlt; lia).
  lia.
Qed.

End BatchFacts.

Section TableFacts.
Import Eff Exchange Utils Trace.
Context {W : Type}.
Variable svc : Services W.
Variable cfg : Settings.
Variable payer : Arbitrage.Keypair.

Lemma thrownBy_last (e : Error) (before : list Event) (last : Event) :
  failure last = Some e -> thrownBy svc e (before ++ [last]).
Proof. intros H. left. now exists before, last. Qed.

Lemma thrownBy_after (e : Error) (ev ev' : list Event) :
  thrownBy svc e ev' -> thrownBy svc e (ev ++ ev').
Proof.
  intros [(before & last & -> & H)|H]; [left|now right].
  exists (ev ++ before), last. now rewrite app_assoc.
Qed.

Lemma sent_app (ev ev' : list Event) : sent (ev ++ ev') = sent ev ++ sent ev'.
Proof. unfold sent. apply flat_map_app. Qed.

Section Extension.
Variable table : string.
Variable addresses : list string.

Let m : nat := ((List.length addresses + 29) / 30)%nat.

Let extension (k : nat) : list Solana.Instruction :=
  [extendLookupTableInstruction
     svc (Arbitrage.publicKey payer) table
     (slice addresses (k * 30) (k * 30 + 30))].

Let extended (k : nat) (r : Result Error unit) (ev : list Event) : Prop :=
  match r with
  | Ok _ =>
      map Solana.instructions (sent ev) = map extension (seq k (m - k)) /\
      sleeps ev = repeat 1000 (m - k) /\
      count isWait ev = (m - k)%nat
  | Fail e => thrownBy svc e ev
  end.

Lemma extendInBatches_extended :
  forall (rounds k : nat),
    (m - k <= rounds)%nat ->
    sat (extendInBatches svc cfg rounds (k * 30) payer table addresses)
        (extended k).
Proof.
  destruct (batches_count (List.length addresses)) as (_ & Hlt).
  fold m in Hlt.
  induction rounds as [|rounds IH]; intros k Hrounds;
    cbn [extendInBatches];
    (destruct (Nat.ltb_spec (k * 30) (List.length addresses)) as [Hk|Hk]).
  - apply Hlt in Hk. lia.
  - assert (m - k = 0)%nat as Hdone.
    { destruct (Nat.le_gt_cases m k) as [H|H]; [lia|].
      apply Hlt in H. lia. }
    apply eff_ret. unfold extended. rewrite Hdone. cbn. auto.
  - apply Hlt in Hk.
    apply eff_bind, eff_call. intros [blockhash|e].
    2:{ apply (thrownBy_last e []). reflexivity. }
    apply eff_bind, eff_lift.
    destruct (compileToV0Message svc _ []) as [[]|e] eqn:Hcompile.
    2:{ right. eexists. exact Hcompile. }
    apply eff_bind, eff_call. intros [signature|e].
    2:{ apply (thrownBy_last e [_]). reflexivity. }
    apply eff_bind, eff_call. intros [confirmed|e].
    2:{ apply (thrownBy_last e [_; _]). reflexivity. }
    apply eff_bind, eff_act.
    change (k * 30 + BATCH_SIZE)%nat with (k * 30 + 30)%nat.
    rewrite <- Nat.mul_succ_l.
    eapply eff_weaken; [apply (IH (S k)); lia|].
    intros [[]|e] ev Hev; unfold extended in *.
    + destruct Hev as (Hsent & Hsleeps & Hwaits).
      replace (m - k)%nat with (S (m - S k)) by lia.
      cbn [seq map repeat].
      repeat rewrite ?sent_app, ?sleeps_app, ?trace_count_app.
      cbn - [slice Nat.mul Nat.add Nat.sub].
      rewrite Hsent, Hsleeps, Hwaits.
      repeat split.
      unfold extension. now rewrite Nat.mul_succ_l.
    + repeat apply thrownBy_after. exact Hev.
  - assert (m - k = 0)%nat as Hdone.
    { destruct (Nat.le_gt_cases m k) as [H|H]; [lia|].
      apply Hlt in H. lia. }
    apply eff_ret. unfold extended. rewrite Hdone. cbn. auto.
Qed.

End Extension.

Lemma createAddressLookupTable_spec (addresses : list string) :
  sat (createAddressLookupTable svc cfg payer addresses)
      (fun r ev =>
         match r with
         | Ok created =>
             exists createIx,
               createLookupTableInstruction
                 svc (Arbitrage.publicKey payer) (slot created)
               = (createIx, lookupTableAddress created) /\
               map Solana.instructions (sent ev)
               = [createIx]
                   :: map (fun b =>
                             [extendLookupTableInstruction
                                svc (Arbitrage.publicKey payer)
                                (lookupTableAddress created) b])
                          (batches addresses) /\
               sleeps ev = repeat 1000 (List.length (batches addresses)) /\
               count isWait ev = S (List.length (batches addresses))
         | Fail e => thrownBy svc e ev
         end).
Proof.
  unfold createAddressLookupTable. apply eff_try_catch.
  apply eff_bind, eff_call. intros [recentSlot|e].
  2:{ apply eff_throw. rewrite app_nil_r.
      apply (thrownBy_last e []). reflexivity. }
  destruct (createLookupTableInstruction svc (Arbitrage.publicKey payer)
                                         recentSlot)
    as [createIx table] eqn:Hcreate.
  apply eff_bind, eff_call. intros [blockhash|e].
  2:{ apply eff_throw. rewrite app_nil_r.
      apply (thrownBy_last e [_]). reflexivity. }
  apply eff_bind, eff_lift.
  destruct (compileToV0Message svc _ []) as [[]|e] eqn:Hcompile.
  2:{ apply eff_throw. right. eexists. exact Hcompile. }
  apply eff_bind, eff_call. intros [signature|e].
  2:{ apply eff_throw. rewrite app_nil_r.
      apply (thrownBy_last e [_; _]). reflexivity. }
  apply eff_bind, eff_call. intros [confirmed|e].
  2:{ apply eff_throw. rewrite app_nil_r.
      apply (thrownBy_last e [_; _; _]). reflexivity. }
  apply eff_bind.
  assert (Hrounds : ((List.length addresses + 29) / 30 - 0
                     <= List.length addresses)%nat).
  { destruct (batches_count (List.length addresses)) as (_ & Hlt).
    destruct (Nat.le_gt_cases ((List.length addresses + 29) / 30)
                              (List.length addresses)) as [H|H]; [lia|].
    assert (((List.length addresses + 29) / 30 - 1) * 30
            < List.length addresses)%nat by (apply Hlt; lia).
    lia. }
  eapply eff_weaken;
    [apply (extendInBatches_extended table addresses
              (List.length addresses) 0 Hrounds)|].
  intros [[]|e] ev Hev.
  - apply eff_ret.
    destruct Hev as (Hsent & Hsleeps & Hwaits).
    rewrite Nat.sub_0_r in Hsent, Hsleeps, Hwaits.
    exists createIx. cbn [Utils.slot Utils.lookupTableAddress].
    split; [exact Hcreate|].
    repeat rewrite ?sent_app, ?sleeps_app, ?trace_count_app.
    unfold batches. rewrite length_map, length_seq, map_map.
    cbn - [slice Nat.mul Nat.add Nat.sub Nat.div].
    rewrite ?app_nil_r, Hsent, Hsleeps, Hwaits.
    repeat split. lia.
  - apply eff_throw. rewrite app_nil_r.
    repeat apply thrownBy_after. exact Hev.
Qed.

End TableFacts.

(** X24. [utils.createAddressLookupTable] sends one transaction that creates
    the table and then one transaction for every batch of addresses; the
    batches are of 30 addresses, the last one of what is left, and together
    they are the addresses given, each once and in their order.  It waits
    for the confirmation of every transaction and pauses for a second after
    every batch; it does not look at what the waits return, so that it
    returns the address of the table also when no transaction was
    confirmed.  An error it throws is the error of the call that failed. *)
Theorem createAddressLookupTable_adds_every_address_once :
  forall (W : Type) (svc : Exchange.Services W) (cfg : Exchange.Settings)
         (payer : Arbitrage.Keypair) (addresses : list string) (w : W),
    let run := Utils.createAddressLookupTable svc cfg payer addresses w in
    let batches := Trace.batches addresses in
    List.concat batches = addresses /\
    Forall (fun b => (0 < List.length b <= 30)%nat) batches /\
    (forall k, (S k < List.length batches)%nat ->
               List.length (nth k batches []) = 30%nat) /\
    match Eff.value run with
    | Eff.Ok created =>
        exists createIx,
          Exchange.createLookupTableInstruction
            svc (Arbitrage.publicKey payer) (Utils.slot created)
          = (createIx, Utils.lookupTableAddress created) /\
          map Solana.instructions (Trace.sent (Eff.events run))
          = [createIx]
              :: map (fun b =>
                        [Exchange.extendLookupTableInstruction
                           svc (Arbitrage.publicKey payer)
                           (Utils.lookupTableAddress created) b])
                     batches /\
          Trace.sleeps (Eff.events run)
          = repeat 1000 (List.length batches) /\
          Trace.count Trace.isWait (Eff.events run)
          = S (List.length batches)
    | Eff.Fail e => Trace.thrownBy svc e (Eff.events run)
    end.
Proof.
  intros W svc cfg payer addresses w run batches.
  split; [apply batches_concat|]. split; [apply batches_sizes|].
  split; [apply batches_full|].
  apply (createAddressLookupTable_spec svc cfg payer addresses w).
Qed.

Lemma createAddressLookupTable_witness :
  let run := Utils.createAddressLookupTable
               Cases.unconfirmed Exchange.settings Cases.payer
               Cases.manyAddresses 0%nat in
  Eff.value run
  = Eff.Ok {| Utils.lookupTableAddress := "table"; Utils.slot := 0 |} /\
  map (fun b => List.length b) (Trace.batches Cases.manyAddresses)
  = [30; 30; 1]%nat /\
  List.length (Trace.sent (Eff.events run)) = 4%nat /\
  List.concat (Trace.batches Cases.manyAddresses) = Cases.manyAddresses.
Proof.
  destruct (createAddressLookupTable_adds_every_address_once
              nat Cases.unconfirmed Exchange.settings Cases.payer
              Cases.manyAddresses 0%nat) as (Hconcat & _).
  split; [reflexivity|]. split; [reflexivity|].
  split; [reflexivity|exact Hconcat].
Defined.

(** ** The wait for a confirmation of the script that sets up the tables *)

Section SetupFacts.
Import Eff Exchange Setup Trace.
Context {W : Type}.
Variable svc : Services W.
Variable signature : string.
Variable timeout : Z.
Variable start : Z.

(** The status ends the wait. *)
Let confirming (v : Status) : Prop :=
  status_err v = None /\
  (confirmationStatus v = "confirmed"%string \/
   confirmationStatus v = "finalized"%string).

Let timedOutAfter : string :=
  ("Transaction confirmation timed out after "
     ++ Js.toString timeout ++ " seconds")%string.

Let waited (rounds : nat) (r : Result Error (option bool))
  (ev : list Event) : Prop :=
  Forall (fun e => (exists t, e = ENow t) \/
                   (exists s, e = EGetSignatureStatus signature s) \/
                   e = ESleep 1000) ev /\
  (List.length (sleeps ev) <= count isStatusRequest ev)%nat /\
  match r with
  | Ok (Some b) =>
      b = true /\
      exists before v,
        ev = before ++ [EGetSignatureStatus signature (Ok (Some v))] /\
        confirming v
  | Ok None => count isStatusRequest ev = rounds
  | Fail e =>
      message e = timedOutAfter /\
      exists before t,
        ev = before ++ [ENow t] /\ timeout * 1000 <= t - start
  end.

Local Ltac wait_events :=
  repeat first
    [ apply Forall_nil
    | apply Forall_cons;
      [first [ left; eexists; reflexivity
             | right; left; eexists; reflexivity
             | right; right; reflexivity ]|] ].

Lemma waitLoop_waited :
  forall (rounds : nat),
    sat (waitLoop svc rounds signature timeout start) (waited rounds).
Proof.
  induction rounds as [|rounds IH]; cbn [waitLoop];
    apply eff_bind, eff_ask; intros now;
    (destruct (Z.ltb_spec (now - start) (timeout * 1000)) as [Hlt|Hge]).
  - apply eff_ret. unfold waited. cbn.
    split; [wait_events|]. split; [lia|reflexivity].
  - apply eff_throw. unfold waited. cbn.
    split; [wait_events|]. split; [lia|].
    split; [reflexivity|]. exists [], now. auto.
  - apply eff_bind, eff_try_catch, eff_bind, eff_call.
    assert (Hnext :
      forall (evr : list Event),
        Forall (fun e => (exists t, e = ENow t) \/
                         (exists s, e = EGetSignatureStatus signature s) \/
                         e = ESleep 1000) evr ->
        (List.length (sleeps evr) <= 1)%nat ->
        count isStatusRequest evr = 1%nat ->
        sat (waitLoop svc rounds signature timeout start)
            (fun r ev' => waited (S rounds) r ([ENow now] ++ evr ++ ev'))).
    { intros evr Hall Hsleeps Hcount.
      eapply eff_weaken; [apply IH|].
      intros r ev' (Hall' & Hs' & Hr). unfold waited.
      split.
      { constructor; [left; eauto|]. apply Forall_app. now split. }
      rewrite !sleeps_app, !trace_count_app, !length_app, Hcount.
      cbn [sleeps flat_map List.length count filter isStatusRequest app
           Nat.add].
      split; [lia|].
      destruct r as [[b|]|e].
      - destruct Hr as (-> & before & v & -> & Hv). split; [reflexivity|].
        exists ([ENow now] ++ evr ++ before), v.
        split; [now rewrite <- !app_assoc|exact Hv].
      - lia.
      - destruct Hr as (Hm & before & t & -> & Ht). split; [exact Hm|].
        exists ([ENow now] ++ evr ++ before), t.
        split; [now rewrite <- !app_assoc|exact Ht]. }
    intros [[v|]|e]; cbn beta iota.
    + destruct (status_err v) as [err|] eqn:Herr.
      * apply eff_throw. cbn beta iota. apply eff_ret. cbn beta iota.
        rewrite app_nil_r.
        apply (Hnext [EGetSignatureStatus signature (Ok (Some v))]);
          [wait_events|cbn; lia|reflexivity].
      * destruct ((confirmationStatus v =? "confirmed")%string
                  || (confirmationStatus v =? "finalized")%string)
          eqn:Hstatus.
        -- apply eff_ret. cbn beta iota. apply eff_ret. unfold waited.
           cbn.
           split; [wait_events|].
           split; [lia|]. split; [reflexivity|].
           exists [ENow now], v. split; [reflexivity|].
           split; [exact Herr|].
           apply orb_true_iff in Hstatus as [H|H];
             apply String.eqb_eq in H; auto.
        -- apply eff_bind, eff_act, eff_ret. cbn beta iota.
           apply (Hnext [EGetSignatureStatus signature (Ok (Some v));
                         ESleep 1000]);
             [wait_events|cbn; lia|reflexivity].
    + apply eff_bind, eff_act, eff_ret. cbn beta iota.
      apply (Hnext [EGetSignatureStatus signature (Ok None); ESleep 1000]);
        [wait_events|cbn; lia|reflexivity].
    + apply eff_ret. cbn beta iota. rewrite app_nil_r.
      apply (Hnext [EGetSignatureStatus signature (Fail e)]);
        [wait_events|cbn; lia|reflexivity].
  - apply eff_throw. unfold waited. cbn.
    split; [wait_events|]. split; [lia|].
    split; [reflexivity|]. exists [], now. auto.
Qed.

Lemma waitLoop_ends :
  (forall w, Date_now svc w + 1
             <= Date_now svc (snd (getSignatureStatus svc signature w))) ->
  (forall w, Date_now svc w <= Date_now svc (sleep svc 1000 w)) ->
  forall (rounds : nat) (w : W),
    timeout * 1000 - (Date_now svc w - start) <= Z.of_nat rounds ->
    value (waitLoop svc rounds signature timeout start w) <> Ok None.
Proof.
  intros Hstatus Hsleep.
  induction rounds as [|rounds IH]; intros w Hrounds; cbn [waitLoop];
    unfold bind, ask, try_catch, call, act, throw, ret, value;
    (destruct (Z.ltb_spec (Date_now svc w - start) (timeout * 1000))
      as [Hlt|Hge]); cbn; try discriminate.
  - change (Z.of_nat 0) with 0 in Hrounds. lia.
  - pose proof (Hstatus w) as Hw.
    destruct (getSignatureStatus svc signature w) as [[[v|]|e] w1];
      cbn [snd] in Hw; cbn.
    + destruct (status_err v) as [err|]; cbn.
      * specialize (IH w1 ltac:(lia)). unfold value in IH.
        destruct (waitLoop svc rounds signature timeout start w1)
          as [[r w2] ev]. exact IH.
      * destruct ((confirmationStatus v =? "confirmed")%string
                  || (confirmationStatus v =? "finalized")%string);
          cbn; [discriminate|].
        pose proof (Hsleep w1) as Hw1.
        specialize (IH (sleep svc 1000 w1) ltac:(lia)). unfold value in IH.
        destruct (waitLoop svc rounds signature timeout start
                           (sleep svc 1000 w1)) as [[r w2] ev].
        exact IH.
    + pose proof (Hsleep w1) as Hw1.
      specialize (IH (sleep svc 1000 w1) ltac:(lia)). unfold value in IH.
      destruct (waitLoop svc rounds signature timeout start
                         (sleep svc 1000 w1)) as [[r w2] ev].
      exact IH.
    + specialize (IH w1 ltac:(lia)). unfold value in IH.
      destruct (waitLoop svc rounds signature timeout start w1)
        as [[r w2] ev]. exact IH.
Qed.

End SetupFacts.

(** X25. The wait for a confirmation of the set-up script ends in two ways
    only: it returns [true] right after a status without an error that is
    [confirmed] or [finalized], or it throws the error of the time-out at
    a reading of the clock that is [timeout] seconds or more after the
    first.  A status with an error does not end it: the error that the
    loop throws for it is caught by the loop itself, which asks again
    without a pause.  After any number of rounds in which it has not
    ended it has asked for the status once in every round. *)
Theorem setup_wait_ends_confirmed_or_timed_out :
  forall (W : Type) (svc : Exchange.Services W) (rounds : nat)
         (signature : string) (timeout : Z) (w : W),
    let run := Setup.waitForConfirmation svc rounds signature timeout w in
    let start := Exchange.Date_now svc w in
    (exists rest, Eff.events run = Exchange.ENow start :: rest) /\
    (List.length (Trace.sleeps (Eff.events run))
     <= Trace.count Trace.isStatusRequest (Eff.events run))%nat /\
    match Eff.value run with
    | Eff.Ok (Some b) =>
        b = true /\
        exists before v,
          Eff.events run
          = before
            ++ [Exchange.EGetSignatureStatus signature (Eff.Ok (Some v))] /\
          Exchange.status_err v = None /\
          (Exchange.confirmationStatus v = "confirmed"%string \/
           Exchange.confirmationStatus v = "finalized"%string)
    | Eff.Ok None =>
        Trace.count Trace.isStatusRequest (Eff.events run) = rounds
    | Eff.Fail e =>
        Exchange.message e
        = ("Transaction confirmation timed out after "
             ++ Js.toString timeout ++ " seconds")%string /\
        exists before t,
          Eff.events run = before ++ [Exchange.ENow t] /\
          timeout * 1000 <= t - start
    end.
Proof.
  intros W svc rounds signature timeout w run start. subst run.
  unfold Setup.waitForConfirmation, Eff.bind, Eff.ask.
  fold start.
  pose proof (waitLoop_waited svc signature timeout start rounds w)
    as (Hall & Hsleeps & Hr).
  unfold Eff.value, Eff.events in *.
  destruct (Setup.waitLoop svc rounds signature timeout start w)
    as [[r w1] ev].
  cbn [fst snd] in *.
  split; [now exists ev|].
  split; [exact Hsleeps|].
  destruct r as [[b|]|e].
  - destruct Hr as (-> & before & v & -> & Hv). split; [reflexivity|].
    exists (Exchange.ENow start :: before), v. split; [reflexivity|].
    exact Hv.
  - exact Hr.
  - destruct Hr as (Hm & before & t & -> & Ht). split; [exact Hm|].
    exists (Exchange.ENow start :: before), t. split; [reflexivity|].
    exact Ht.
Qed.

(** X26. The wait of the set-up script ends when time passes: if a request
    for the status takes a millisecond at least and a pause does not turn
    the clock back, the wait has returned or thrown within
    [timeout * 1000] rounds of its loop. *)
Theorem setup_wait_ends_when_time_passes :
  forall (W : Type) (svc : Exchange.Services W) (signature : string)
         (timeout : Z),
    (forall w,
        Exchange.Date_now svc w + 1
        <= Exchange.Date_now
             svc (snd (Exchange.getSignatureStatus svc signature w))) ->
    (forall w,
        Exchange.Date_now svc w
        <= Exchange.Date_now svc (Exchange.sleep svc 1000 w)) ->
    forall (rounds : nat) (w : W),
      timeout * 1000 <= Z.of_nat rounds ->
      Eff.value (Setup.waitForConfirmation svc rounds signature timeout w)
      <> Eff.Ok None.
Proof.
  intros W svc signature timeout Hstatus Hsleep rounds w Hrounds.
  unfold Setup.waitForConfirmation, Eff.bind, Eff.ask.
  pose proof (waitLoop_ends svc signature timeout (Exchange.Date_now svc w)
                            Hstatus Hsleep rounds w ltac:(lia)) as Hends.
  unfold Eff.value in *.
  destruct (Setup.waitLoop svc rounds signature timeout
                           (Exchange.Date_now svc w) w) as [[r w1] ev].
  exact Hends.
Qed.

Lemma setup_wait_witness :
  let run := Setup.waitForConfirmation
               Cases.failedTransaction 2000 "signature-1" 2 0%nat in
  Eff.value run <> Eff.Ok None /\
  Eff.value run
  = Eff.Fail (Exchange.plain
                "Transaction confirmation timed out after 2 seconds") /\
  Trace.count Trace.isStatusRequest (Eff.events run) = 2%nat /\
  Trace.sleeps (Eff.events run) = [].
Proof.
  split.
  - apply (setup_wait_ends_when_time_passes
             nat Cases.failedTransaction "signature-1" 2).
    + intros w. cbn [Exchange.Date_now Exchange.getSignatureStatus
                     Cases.failedTransaction Cases.services Cases.answer
                     snd]. lia.
    + intros w. cbn. lia.
    + cbn. lia.
  - split; [reflexivity|]. split; reflexivity.
Defined.

(** ** index.js: the loop of checks *)

Section MainFacts.
Import Arbitrage Main.
Context {W : Type}.
Variable svc : Services W.
Variable cfg : Cfg.Config.
Variable payer : Keypair.
Variable opts : Settings.

Let arbitragePromise : M W bool :=
  if USE_BELLMAN_FORD opts
  then checkForBellmanFordArbitrage svc cfg payer
  else executeFlashLoanJupiterArbitrage svc cfg payer.

(** A check: a run of the arbitrage function with its result. *)
Let checked (result : bool) (ev : list Event) : Prop :=
  exists w, value (arbitragePromise w) = Ret result /\
            events (arbitragePromise w) = ev.

Lemma arbitragePromise_returns :
  sat arbitragePromise
      (fun r ev => exists result, r = Ret result /\ checked result ev).
Proof.
  assert (Hnever : sat arbitragePromise (fun r ev => exists b, r = Ret b)).
  { unfold arbitragePromise. destruct (USE_BELLMAN_FORD opts).
    - eapply sat_weaken; [apply checkForBellmanFordArbitrage_traded|].
      intros r ev (Hb & _). exact Hb.
    - eapply sat_weaken; [apply executeFlashLoanJupiterArbitrage_gated|].
      intros r ev (Hb & _). exact Hb. }
  intros w. destruct (Hnever w) as (b & Hb).
  exists b. split; [exact Hb|]. exists w. auto.
Qed.

Let ran (turns : nat) (stats : Stats) (r : Outcome Stats)
  (ev : list Event) : Prop :=
  exists final results runs,
    r = Ret final /\
    Forall2 checked results runs /\
    List.length results = turns /\
    checks final = checks stats + Z.of_nat turns /\
    successfulTrades final
    = successfulTrades stats
      + Z.of_nat (count_occ Bool.bool_dec results true) /\
    failedTrades final
    = failedTrades stats
      + Z.of_nat (count_occ Bool.bool_dec results false) /\
    ev = flat_map (fun run => run ++ [ESetTimeout (CHECK_INTERVAL opts)])
                  runs.

Lemma runCheck_ran :
  forall (turns : nat) (stats : Stats),
    sat (runCheck svc cfg payer opts turns stats) (ran turns stats).
Proof.
  induction turns as [|turns IH]; intros stats; cbn [runCheck].
  - apply sat_ret. exists stats, [], []. cbn.
    repeat split; try lia. constructor.
  - fold arbitragePromise.
    apply sat_bind, sat_try_catch, sat_bind.
    eapply sat_weaken; [apply arbitragePromise_returns|].
    intros r ev (result & -> & Hchecked).
    apply sat_bind, sat_sleep, sat_ret.
    eapply sat_weaken; [apply IH|].
    intros r ev' (final & results & runs & -> & Hall & Hlen & Hc & Hs & Hf
                  & ->).
    exists final, (result :: results), (ev :: runs).
    split; [reflexivity|]. split; [constructor; assumption|].
    split; [cbn; lia|].
    destruct result; cbn [checks successfulTrades failedTrades] in *;
      cbn [count_occ flat_map List.length];
      (destruct (Bool.bool_dec _ _) as [Heq|Hne];
       [try discriminate|try congruence]);
      (destruct (Bool.bool_dec _ _) as [Heq'|Hne'];
       [try discriminate|try congruence]);
      repeat split; try lia;
      rewrite ?app_nil_r, <- ?app_assoc; reflexivity.
Qed.

End MainFacts.

(** X27. The loop of [main] counts every check as a success or as a
    failure.  The arbitrage function that it calls never throws, so the
    branch that waits twice the interval after an error is never taken:
    after any number of checks the counter of checks has gone up by that
    number, the counters of successful and of failed trades have gone up
    by the numbers of checks that returned [true] and [false], and every
    check was followed by a wait of [CHECK_INTERVAL]. *)
Theorem main_loop_counts_every_check :
  forall (W : Type) (svc : Arbitrage.Services W) (cfg : Cfg.Config)
         (payer : Arbitrage.Keypair) (opts : Main.Settings) (turns : nat)
         (stats : Main.Stats) (w : W),
    let run := Main.runCheck svc cfg payer opts turns stats w in
    let check :=
      if Main.USE_BELLMAN_FORD opts
      then Arbitrage.checkForBellmanFordArbitrage svc cfg payer
      else Arbitrage.executeFlashLoanJupiterArbitrage svc cfg payer in
    exists final results runs,
      Arbitrage.value run = Ret final /\
      Forall2 (fun result ev =>
                 exists w', Arbitrage.value (check w') = Ret result /\
                            Arbitrage.events (check w') = ev)
              results runs /\
      List.length results = turns /\
      Main.checks final = Main.checks stats + Z.of_nat turns /\
      Main.successfulTrades final
      = Main.successfulTrades stats
        + Z.of_nat (count_occ Bool.bool_dec results true) /\
      Main.failedTrades final
      = Main.failedTrades stats
        + Z.of_nat (count_occ Bool.bool_dec results false) /\
      Main.successfulTrades final + Main.failedTrades final
      = Main.successfulTrades stats + Main.failedTrades stats
        + Z.of_nat turns /\
      Arbitrage.events run
      = flat_map (fun ev =>
                    ev ++ [Arbitrage.ESetTimeout (Main.CHECK_INTERVAL opts)])
                 runs.
Proof.
  intros W svc cfg payer opts turns stats w run check.
  destruct (runCheck_ran svc cfg payer opts turns stats w)
    as (final & results & runs & Hv & Hall & Hlen & Hc & Hs & Hf & Hev).
  exists final, results, runs.
  split; [exact Hv|]. split; [exact Hall|]. split; [exact Hlen|].
  split; [exact Hc|]. split; [exact Hs|]. split; [exact Hf|].
  split; [|exact Hev].
  assert (Hcount : forall l : list bool,
             (count_occ Bool.bool_dec l true
              + count_occ Bool.bool_dec l false)%nat = List.length l).
  { induction l as [|[] l IHl]; cbn; lia. }
  specialize (Hcount results). lia.
Qed.

(** ** The set-up script: the addresses that are missing *)

Section MissingFacts.
Import Eff Exchange Utils Setup Trace.

Lemma existingAddresses_In (tables : list TableRecord) :
  forall (set : list string) (a : string),
    In a (fold_left
            (fun set table =>
               fold_left (fun set addr => Set_add addr set)
                         (table_addresses table) set)
            tables set) <->
    covered tables a \/ In a set.
Proof.
  induction tables as [|table rest IH]; intros set a; cbn [fold_left].
  - split; [auto|]. intros [(t & [] & _)|H]; exact H.
  - rewrite IH, fold_Set_add_In. unfold covered. split.
    + intros [(t & Hin & Ha)|[Ha|Ha]].
      * left. exists t. split; [now right|exact Ha].
      * left. exists table. split; [now left|exact Ha].
      * now right.
    + intros [(t & [<-|Hin] & Ha)|Ha].
      * right. now left.
      * left. exists t. now split.
      * right. now right.
Qed.

Lemma missingAddresses_In (common : list string)
  (tables : list TableRecord) (a : string) :
  In a (missingAddresses common tables) <->
  In a common /\ ~ covered tables a.
Proof.
  unfold missingAddresses. rewrite filter_In, negb_true_iff.
  assert (Hhas : Set_has a (existingAddresses tables) = true <->
                 covered tables a).
  { rewrite Set_has_In. unfold existingAddresses.
    rewrite existingAddresses_In. cbn. tauto. }
  destruct (Set_has a (existingAddresses tables)).
  - split; [intros (_ & [=])|]. intros (_ & Hnot). exfalso.
    now apply Hnot, Hhas.
  - split; intros (Hin & _); (split; [exact Hin|]); [|reflexivity].
    intros Hc. apply Hhas in Hc. discriminate Hc.
Qed.

Lemma covered_app (tables more : list TableRecord) (a : string) :
  covered (tables ++ more) a <-> covered tables a \/ covered more a.
Proof.
  unfold covered. split.
  - intros (t & Hin & Ha). apply in_app_or in Hin as [Hin|Hin];
      [left|right]; exists t; now split.
  - intros [(t & Hin & Ha)|(t & Hin & Ha)]; exists t;
      (split; [apply in_or_app; auto|exact Ha]).
Qed.

Lemma updateLast_covered :
  forall (tables : list TableRecord) (lastTable : TableRecord)
         (addresses : list string) (a : string),
    List.last (map Some tables) None = Some lastTable ->
    covered tables a \/ In a addresses ->
    covered (updateLast tables (table_addresses lastTable ++ addresses)) a.
Proof.
  induction tables as [|table rest IH]; intros lastTable addresses a Hlast H.
  - discriminate Hlast.
  - destruct rest as [|table' rest].
    + cbn in Hlast. injection Hlast as <-. cbn [updateLast].
      eexists. split; [now left|]. cbn [table_addresses].
      apply in_or_app. destruct H as [(t & [<-|[]] & Ha)|Ha]; auto.
    + change (updateLast (table :: table' :: rest)
                         (table_addresses lastTable ++ addresses))
        with (table :: updateLast (table' :: rest)
                         (table_addresses lastTable ++ addresses)).
      change (List.last (map Some (table' :: rest)) None = Some lastTable)
        in Hlast.
      destruct H as [(t & [<-|Hin] & Ha)|Ha].
      * exists table. split; [now left|exact Ha].
      * destruct (IH lastTable addresses a Hlast) as (u & Hu & Hua).
        { left. exists t. now split. }
        exists u. split; [now right|exact Hua].
      * destruct (IH lastTable addresses a Hlast) as (u & Hu & Hua).
        { now right. }
        exists u. split; [now right|exact Hua].
Qed.

Lemma batches_some (addresses : list string) :
  addresses <> [] -> batches addresses <> [].
Proof.
  intros Hsome Hnone. apply (f_equal (@List.length _)) in Hnone.
  unfold batches in Hnone. rewrite length_map, length_seq in Hnone.
  destruct (batches_count (List.length addresses)) as (Hle & _).
  cbn zeta in Hle. rewrite Hnone in Hle. cbn in Hle.
  destruct addresses; [congruence|cbn in Hle; lia].
Qed.

Lemma writes_app (ev ev' : list Event) :
  writes (ev ++ ev') = writes ev ++ writes ev'.
Proof. apply flat_map_app. Qed.

Lemma lookedUp_app (a : string) (ev ev' : list Event) :
  lookedUp a (ev ++ ev') <-> lookedUp a ev \/ lookedUp a ev'.
Proof.
  unfold lookedUp. split.
  - intros (address & addresses & Hin & Ha).
    apply in_app_or in Hin as [Hin|Hin]; [left|right];
      exists address, addresses; now split.
  - intros [(address & addresses & Hin & Ha)
           |(address & addresses & Hin & Ha)];
      exists address, addresses; (split; [apply in_or_app; auto|exact Ha]).
Qed.

Lemma untouched_writes (ev : list Event) : untouched ev -> writes ev = [].
Proof.
  induction 1 as [|e ev He _ IH]; [reflexivity|].
  cbn [writes flat_map]. fold (writes ev). rewrite IH.
  destruct e; try reflexivity; discriminate He.
Qed.

Lemma untouched_lookedUp (a : string) (ev : list Event) :
  untouched ev -> ~ lookedUp a ev.
Proof.
  intros Hu (address & addresses & Hin & _).
  unfold untouched in Hu. rewrite Forall_forall in Hu.
  specialize (Hu _ Hin). discriminate Hu.
Qed.

Lemma covered_dec (tables : list TableRecord) (a : string) :
  covered tables a \/ ~ covered tables a.
Proof.
  assert (Hhas : Set_has a (existingAddresses tables) = true <->
                 covered tables a).
  { rewrite Set_has_In. unfold existingAddresses.
    rewrite existingAddresses_In. cbn. tauto. }
  destruct (Set_has a (existingAddresses tables)).
  - left. now apply Hhas.
  - right. intros Hc. apply Hhas in Hc. discriminate Hc.
Qed.

Lemma missing_none (common : list string) (tables : list TableRecord) :
  missingAddresses common tables = [] <->
  forall a, In a common -> covered tables a.
Proof.
  split.
  - intros Hnone a Hin. destruct (covered_dec tables a) as [H|H];
      [exact H|].
    assert (Hm : In a (missingAddresses common tables))
      by (apply missingAddresses_In; now split).
    rewrite Hnone in Hm. destruct Hm.
  - intros Hall. destruct (missingAddresses common tables) as [|a rest]
      eqn:Hm; [reflexivity|].
    assert (Ha : In a (missingAddresses common tables))
      by (rewrite Hm; now left).
    apply missingAddresses_In in Ha as (Hin & Hnot).
    exfalso. apply Hnot, Hall, Hin.
Qed.

Lemma lookups_quiet (ev : list Event) :
  Forall (fun e => exists address answer,
              e = EGetLookupTableAddresses address answer) ev ->
  writes ev = [] /\ sent ev = [] /\ count isStatusRequest ev = 0%nat.
Proof.
  induction 1 as [|e ev (address & answer & ->) _ IH];
    [now repeat split|]. exact IH.
Qed.

Lemma settled_unsent (ev : list Event) : sent ev = [] -> settled ev.
Proof.
  intros Hnone tx signature Hin. exfalso.
  assert (Hf : In tx (sent ev)).
  { unfold sent. apply in_flat_map. eexists. split; [exact Hin|].
    now left. }
  rewrite Hnone in Hf. exact Hf.
Qed.

End MissingFacts.

(** ** The set-up script: tables created and extended *)

Section ScriptFacts.
Import Eff Exchange Utils Setup Trace.
Context {W : Type}.
Variable svc : Services W.
Variable rounds : nat.
Variable payer : Arbitrage.Keypair.

Lemma untouched_app (ev ev' : list Event) :
  untouched ev -> untouched ev' -> untouched (ev ++ ev').
Proof. intros H H'. apply Forall_app. now split. Qed.

Lemma settled_app (ev ev' : list Event) :
  settled ev -> settled ev' -> settled (ev ++ ev').
Proof.
  intros H H' tx signature Hin. apply in_app_or in Hin as [Hin|Hin].
  - destruct (H tx signature Hin) as (v & Hv & Hc). exists v.
    split; [apply in_or_app; now left|exact Hc].
  - destruct (H' tx signature Hin) as (v & Hv & Hc). exists v.
    split; [apply in_or_app; now right|exact Hc].
Qed.

Lemma settled_quiet (ev : list Event) : count isSend ev = 0%nat -> settled ev.
Proof.
  intros Hnone tx signature Hin. exfalso.
  unfold count in Hnone. apply length_zero_iff_nil in Hnone.
  assert (Hf : In (ESendTransaction tx (Ok signature)) (filter isSend ev))
    by (apply filter_In; auto).
  rewrite Hnone in Hf. exact Hf.
Qed.

(** What a wait leaves behind. *)
Let awaited (signature : string) (r : Result Error (option bool))
  (ev : list Event) : Prop :=
  untouched ev /\
  count isSend ev = 0%nat /\
  match r with
  | Ok (Some _) =>
      exists v, In (EGetSignatureStatus signature (Ok (Some v))) ev /\
                confirming v
  | Ok None => (rounds <= count isStatusRequest ev)%nat
  | Fail e => message e = timedOutAfter 60
  end.

Lemma waitForConfirmation_awaited (signature : string) :
  sat (Setup.waitForConfirmation svc rounds signature 60)
      (awaited signature).
Proof.
  unfold Setup.waitForConfirmation. apply eff_bind, eff_ask. intros start.
  eapply eff_weaken; [apply (waitLoop_waited svc signature 60 start)|].
  intros r ev (Hall & _ & Hr). unfold awaited. cbn [app].
  assert (Hkinds : untouched ev /\ count isSend ev = 0%nat).
  { clear Hr. induction Hall as [|e ev He Hall IH]; [split; [constructor|]|].
    - reflexivity.
    - destruct IH as (Hu & Hs).
      destruct He as [(t & ->)|[(s & ->)| ->]];
        (split; [constructor; [reflexivity|exact Hu]|exact Hs]). }
  destruct Hkinds as (Hu & Hs).
  split; [constructor; [reflexivity|exact Hu]|].
  split; [exact Hs|].
  destruct r as [[b|]|e].
  - destruct Hr as (_ & before & v & -> & Hv). exists v.
    split; [right; apply in_or_app; right; now left|exact Hv].
  - unfold count in *. cbn [filter isStatusRequest]. lia.
  - destruct Hr as (Hm & _). exact Hm.
Qed.

Lemma sent_none (ev : list Event) : count isSend ev = 0%nat -> sent ev = [].
Proof.
  unfold count, sent. induction ev as [|e ev IH]; [reflexivity|].
  destruct e; cbn; try exact IH. discriminate.
Qed.

Lemma settled_sent (tx : Solana.Transaction) (signature : string)
  (before waiting : list Event) (v : Status) :
  count isSend before = 0%nat -> count isSend waiting = 0%nat ->
  In (EGetSignatureStatus signature (Ok (Some v))) waiting ->
  confirming v ->
  settled (before ++ [ESendTransaction tx (Ok signature)] ++ waiting).
Proof.
  intros Hb Hw Hin Hv tx' signature' Hin'.
  apply in_app_or in Hin' as [Hin'|Hin'].
  { apply settled_quiet in Hb. destruct (Hb tx' signature' Hin')
      as (v' & Hv' & Hc). exists v'. split; [apply in_or_app; now left|].
    exact Hc. }
  cbn [app] in Hin'. destruct Hin' as [[= <- <-]|Hin'].
  - exists v. split; [|exact Hv].
    apply in_or_app. right. right. exact Hin.
  - apply settled_quiet in Hw. destruct (Hw tx' signature' Hin')
      as (v' & Hv' & Hc). exists v'. split; [|exact Hc].
    apply in_or_app. right. right. exact Hv'.
Qed.

Section Extension.
Variable table : string.
Variable addresses : list string.

Let m : nat := ((List.length addresses + 29) / 30)%nat.

Let extension (k : nat) : list Solana.Instruction :=
  [extendLookupTableInstruction
     svc (Arbitrage.publicKey payer) table
     (slice addresses (k * 30) (k * 30 + 30))].

Let extendedAll (k : nat) (r : Result Error (option unit))
  (ev : list Event) : Prop :=
  untouched ev /\
  match r with
  | Ok (Some _) =>
      map Solana.instructions (sent ev) = map extension (seq k (m - k)) /\
      settled ev
  | Ok None => (rounds <= count isStatusRequest ev)%nat
  | Fail e => thrownBy svc e ev \/ message e = timedOutAfter 60
  end.

Lemma extendedAll_after (k : nat) (e : Error) (ev ev' : list Event) :
  untouched ev ->
  extendedAll k (Fail e) ev' -> extendedAll k (Fail e) (ev ++ ev').
Proof.
  intros Hu (Hu' & Hr). split; [now apply untouched_app|].
  destruct Hr as [H|H]; [left; now apply thrownBy_after|now right].
Qed.

Lemma extendFrom_extendedAll :
  forall (room k : nat),
    (m - k <= room)%nat ->
    sat (extendFrom svc room rounds (k * 30) payer table addresses)
        (extendedAll k).
Proof.
  destruct (batches_count (List.length addresses)) as (_ & Hlt).
  fold m in Hlt.
  assert (Hdone : forall k, (List.length addresses <= k * 30)%nat ->
                            (m - k = 0)%nat).
  { intros k Hk. destruct (Nat.le_gt_cases m k) as [H|H]; [lia|].
    apply Hlt in H. lia. }
  induction room as [|room IH]; intros k Hroom;
    cbn [extendFrom];
    (destruct (Nat.ltb_spec (k * 30) (List.length addresses)) as [Hk|Hk]).
  - apply Hlt in Hk. lia.
  - apply eff_ret. split; [constructor|]. rewrite (Hdone k Hk). cbn.
    split; [reflexivity|]. intros tx s [].
  - apply Hlt in Hk.
    change (k * 30 + BATCH_SIZE)%nat with (k * 30 + 30)%nat.
    assert (Hext : extension k
                   = [extendLookupTableInstruction
                        svc (Arbitrage.publicKey payer) table
                        (slice addresses (k * 30) (k * 30 + 30))])
      by reflexivity.
    set (batch := slice addresses (k * 30) (k * 30 + 30)) in *.
    apply eff_bind, eff_call. intros [blockhash|e].
    2:{ split; [repeat constructor|]. left.
        apply (thrownBy_last svc e []). reflexivity. }
    apply eff_bind, eff_lift.
    destruct (compileToV0Message svc _ []) as [[]|e] eqn:Hcompile.
    2:{ split; [repeat constructor|]. left. right. eexists.
        exact Hcompile. }
    apply eff_bind, eff_call. intros [signature|e].
    2:{ split; [repeat constructor|]. left.
        apply (thrownBy_last svc e [_]). reflexivity. }
    apply eff_bind.
    eapply eff_weaken; [apply waitForConfirmation_awaited|].
    intros [[b|]|e] evw (Huw & Hsw & Hw).
    3:{ split; [repeat constructor; exact Huw|]. now right. }
    2:{ apply eff_ret. split.
        - repeat (constructor; [reflexivity|]).
          apply untouched_app; [exact Huw|constructor].
        - repeat rewrite ?trace_count_app. cbn. lia. }
    destruct Hw as (v & Hv & Hconf).
    set (pause := if (k * 30 + 30 <? List.length addresses)%nat
                  then act (ESleep 1000) (sleep svc 1000)
                  else ret tt).
    assert (Hpause : sat pause
                         (fun r ev => r = Ok tt /\ untouched ev /\
                                      count isSend ev = 0%nat)).
    { subst pause. destruct (_ <? _)%nat.
      - apply eff_act. repeat split. repeat constructor.
      - apply eff_ret. repeat split. constructor. }
    apply eff_bind. eapply eff_weaken; [exact Hpause|].
    intros r evp (-> & Hup & Hsp).
    replace (k * 30 + 30)%nat with (S k * 30)%nat by lia.
    eapply eff_weaken; [apply (IH (S k)); lia|].
    intros r ev Hev.
    set (tx := singleInstruction
                 payer
                 (extendLookupTableInstruction
                    svc (Arbitrage.publicKey payer) table batch)
                 blockhash).
    assert (Hprefix : untouched
                        ([EGetLatestBlockhash (Ok blockhash)]
                           ++ []
                           ++ [ESendTransaction tx (Ok signature)]
                           ++ evw ++ evp)).
    { cbn [app]. repeat (constructor; [reflexivity|]).
      apply untouched_app; assumption. }
    destruct r as [[[]|]|e].
    + destruct Hev as (Hu & Hsent & Hsettled).
      split.
      { rewrite !app_assoc. apply untouched_app; [|exact Hu].
        rewrite <- !app_assoc. exact Hprefix. }
      replace (m - k)%nat with (S (m - S k)) by lia.
      cbn [seq map]. split.
      * repeat rewrite ?sent_app.
        rewrite (sent_none evw Hsw), (sent_none evp Hsp).
        cbn [app sent flat_map map]. rewrite Hsent, Hext.
        reflexivity.
      * cbn [app].
        apply (settled_app
                 [EGetLatestBlockhash (Ok blockhash)] _
                 (settled_quiet [EGetLatestBlockhash (Ok blockhash)]
                                eq_refl)).
        change (settled
                  (([] ++ [ESendTransaction tx (Ok signature)] ++ evw)
                     ++ evp ++ ev)).
        apply settled_app;
          [|apply settled_app; [apply settled_quiet, Hsp|exact Hsettled]].
        apply (settled_sent tx signature [] evw v eq_refl Hsw Hv Hconf).
    + destruct Hev as (Hu & Hr). split.
      { rewrite !app_assoc. apply untouched_app; [|exact Hu].
        rewrite <- !app_assoc. exact Hprefix. }
      repeat rewrite ?trace_count_app. lia.
    + rewrite !app_assoc. apply extendedAll_after; [|exact Hev].
      rewrite <- !app_assoc. exact Hprefix.
  - apply eff_ret. split; [constructor|]. rewrite (Hdone k Hk). cbn.
    split; [reflexivity|]. intros tx s [].
Qed.

End Extension.

(** What [extendLookupTable] and [createLookupTable] leave behind. *)
Let extendedWith (table : string) (addresses : list string)
  (r : Result Error (option unit)) (ev : list Event) : Prop :=
  untouched ev /\
  match r with
  | Ok (Some _) =>
      map Solana.instructions (sent ev)
      = map (fun b =>
               [extendLookupTableInstruction
                  svc (Arbitrage.publicKey payer) table b])
            (batches addresses) /\
      settled ev
  | Ok None => (rounds <= count isStatusRequest ev)%nat
  | Fail e => thrownBy svc e ev \/ message e = timedOutAfter 60
  end.

Lemma extendLookupTable_extendedWith (table : string)
  (addresses : list string) :
  sat (Setup.extendLookupTable svc rounds payer table addresses)
      (extendedWith table addresses).
Proof.
  unfold Setup.extendLookupTable.
  destruct (Z.eqb_spec (Z.of_nat (List.length addresses)) 0) as [Hnone|Hsome].
  - apply eff_ret. destruct addresses; [|cbn in Hnone; lia].
    split; [constructor|]. split; [reflexivity|]. intros tx s [].
  - assert (Hroom : ((List.length addresses + 29) / 30 - 0
                     <= List.length addresses)%nat).
    { destruct (batches_count (List.length addresses)) as (_ & Hlt).
      destruct (Nat.le_gt_cases ((List.length addresses + 29) / 30)
                                (List.length addresses)) as [H|H]; [lia|].
      assert (((List.length addresses + 29) / 30 - 1) * 30
              < List.length addresses)%nat by (apply Hlt; lia).
      lia. }
    eapply eff_weaken;
      [apply (extendFrom_extendedAll table addresses
                (List.length addresses) 0 Hroom)|].
    intros r ev (Hu & Hr). split; [exact Hu|].
    destruct r as [[[]|]|e]; try exact Hr.
    rewrite Nat.sub_0_r in Hr. unfold batches. rewrite map_map.
    exact Hr.
Qed.

Let createdWith (addresses : list string)
  (r : Result Error (option CreatedTable)) (ev : list Event) : Prop :=
  untouched ev /\
  match r with
  | Ok (Some created) =>
      (exists createIx,
          createLookupTableInstruction
            svc (Arbitrage.publicKey payer) (Utils.slot created)
          = (createIx, lookupTableAddress created) /\
          map Solana.instructions (sent ev)
          = [createIx]
              :: map (fun b =>
                        [extendLookupTableInstruction
                           svc (Arbitrage.publicKey payer)
                           (lookupTableAddress created) b])
                     (batches addresses)) /\
      settled ev
  | Ok None => (rounds <= count isStatusRequest ev)%nat
  | Fail e => thrownBy svc e ev \/ message e = timedOutAfter 60
  end.

Lemma createLookupTable_createdWith (addresses : list string) :
  sat (Setup.createLookupTable svc rounds payer addresses)
      (createdWith addresses).
Proof.
  unfold Setup.createLookupTable.
  apply eff_bind, eff_call. intros [recentSlot|e].
  2:{ split; [repeat constructor|]. left.
      apply (thrownBy_last svc e []). reflexivity. }
  destruct (createLookupTableInstruction svc (Arbitrage.publicKey payer)
                                         recentSlot)
    as [createIx table] eqn:Hcreate.
  apply eff_bind, eff_call. intros [blockhash|e].
  2:{ split; [repeat constructor|]. left.
      apply (thrownBy_last svc e [_]). reflexivity. }
  apply eff_bind, eff_lift.
  destruct (compileToV0Message svc _ []) as [[]|e] eqn:Hcompile.
  2:{ split; [repeat constructor|]. left. right. eexists. exact Hcompile. }
  apply eff_bind, eff_call. intros [signature|e].
  2:{ split; [repeat constructor|]. left.
      apply (thrownBy_last svc e [_; _]). reflexivity. }
  set (tx := singleInstruction payer createIx blockhash).
  apply eff_bind.
  eapply eff_weaken; [apply waitForConfirmation_awaited|].
  intros [[b|]|e] evw (Huw & Hsw & Hw).
  3:{ split; [repeat constructor; exact Huw|]. now right. }
  2:{ apply eff_ret. split.
      - repeat (constructor; [reflexivity|]).
        apply untouched_app; [exact Huw|constructor].
      - repeat rewrite ?trace_count_app. cbn. lia. }
  destruct Hw as (v & Hv & Hconf).
  assert (Hprefix : untouched
                      ([EGetSlot (Ok recentSlot)]
                         ++ [EGetLatestBlockhash (Ok blockhash)]
                         ++ []
                         ++ [ESendTransaction tx (Ok signature)] ++ evw)).
  { cbn [app]. repeat (constructor; [reflexivity|]). exact Huw. }
  assert (Hsettled : settled
                       ([EGetSlot (Ok recentSlot)]
                          ++ [EGetLatestBlockhash (Ok blockhash)]
                          ++ []
                          ++ [ESendTransaction tx (Ok signature)] ++ evw)).
  { apply (settled_sent tx signature
                        [EGetSlot (Ok recentSlot);
                         EGetLatestBlockhash (Ok blockhash)]
                        evw v eq_refl Hsw Hv Hconf). }
  apply eff_bind.
  assert (Hextend :
    sat (if 0 <? Z.of_nat (List.length addresses)
         then Setup.extendLookupTable svc rounds payer table addresses
         else ret (Some tt))
        (extendedWith table addresses)).
  { destruct (Z.ltb_spec 0 (Z.of_nat (List.length addresses))) as [H|H].
    - apply extendLookupTable_extendedWith.
    - apply eff_ret. destruct addresses; [|cbn in H; lia].
      split; [constructor|]. split; [reflexivity|]. intros ? ? []. }
  eapply eff_weaken; [exact Hextend|].
  intros [[[]|]|e] ev (Hu & Hr).
  - apply eff_ret. rewrite app_nil_r. destruct Hr as (Hsent & Hset).
    split.
    { rewrite !app_assoc. apply untouched_app; [|exact Hu].
      rewrite <- !app_assoc. exact Hprefix. }
    cbn [Utils.slot lookupTableAddress]. split.
    + exists createIx. split; [exact Hcreate|].
      repeat rewrite ?sent_app. rewrite (sent_none evw Hsw).
      cbn [app sent flat_map map]. rewrite Hsent. reflexivity.
    + rewrite !app_assoc. apply settled_app; [|exact Hset].
      rewrite <- !app_assoc. exact Hsettled.
  - apply eff_ret. rewrite app_nil_r. split.
    { rewrite !app_assoc. apply untouched_app; [|exact Hu].
      rewrite <- !app_assoc. exact Hprefix. }
    repeat rewrite ?trace_count_app. lia.
  - split.
    { rewrite !app_assoc. apply untouched_app; [|exact Hu].
      rewrite <- !app_assoc. exact Hprefix. }
    destruct Hr as [H|H]; [left|now right].
    repeat apply thrownBy_after. exact H.
Qed.

Lemma publicKeys_ok :
  forall (addresses keys : list string),
    publicKeys svc addresses = Ok keys -> keys = addresses.
Proof.
  induction addresses as [|addr rest IH]; intros keys; cbn [publicKeys].
  - now intros [= <-].
  - unfold PublicKey. destruct (PublicKey_valid svc addr); [|discriminate].
    destruct (publicKeys svc rest) as [keys'|e]; [|discriminate].
    intros [= <-]. now rewrite (IH keys' eq_refl).
Qed.

(** What adding the missing addresses leaves behind. *)
Let added (verifiedTables : list TableRecord) (missing : list string)
  (r : Result Error (option (list TableRecord))) (ev : list Event) : Prop :=
  untouched ev /\
  (missing = [] -> ev = []) /\
  match r with
  | Ok (Some updated) =>
      (forall a, covered verifiedTables a \/ In a missing ->
                 covered updated a) /\
      (missing <> [] -> sent ev <> []) /\
      settled ev
  | Ok None => (rounds <= count isStatusRequest ev)%nat
  | Fail e => True
  end.

Lemma created_added (verifiedTables : list TableRecord)
  (missing : list string) :
  missing <> [] ->
  sat (keys <- lift (publicKeys svc missing) ;;
       created <- Setup.createLookupTable svc rounds payer keys ;;
       match created with
       | None => ret None
       | Some created =>
           ret (Some (verifiedTables
                        ++ [{| table_address := lookupTableAddress created;
                               table_slot := Utils.slot created;
                               table_addresses := missing |}]))
       end)%eff
      (added verifiedTables missing).
Proof.
  intros Hsome. apply eff_bind, eff_lift.
  destruct (publicKeys svc missing) as [keys|e] eqn:Hkeys.
  2:{ split; [constructor|]. split; [congruence|exact I]. }
  apply publicKeys_ok in Hkeys as ->. cbn [app]. apply eff_bind.
  eapply eff_weaken; [apply createLookupTable_createdWith|].
  intros [[created|]|e] ev (Hu & Hr).
  - apply eff_ret. rewrite app_nil_r. split; [exact Hu|].
    split; [congruence|]. destruct Hr as ((createIx & _ & Hsent) & Hset).
    split; [|split; [|exact Hset]].
    + intros a [Ha|Ha]; apply covered_app; [now left|right].
      eexists. split; [now left|exact Ha].
    + intros _ Hnone. rewrite Hnone in Hsent. discriminate Hsent.
  - apply eff_ret. rewrite app_nil_r. split; [exact Hu|].
    split; [congruence|exact Hr].
  - split; [exact Hu|]. split; [congruence|exact I].
Qed.

Lemma addMissing_added (verifiedTables : list TableRecord)
  (missing : list string) :
  sat (addMissing svc rounds payer verifiedTables missing)
      (added verifiedTables missing).
Proof.
  unfold addMissing.
  destruct (Z.ltb_spec 0 (Z.of_nat (List.length missing))) as [Hsome|Hnone].
  2:{ apply eff_ret. destruct missing; [|cbn in Hnone; lia].
      split; [constructor|]. split; [reflexivity|].
      split; [|split; [congruence|intros ? ? []]].
      intros a [Ha|[]]. exact Ha. }
  assert (Hmissing : missing <> []).
  { intros ->. cbn in Hsome. lia. }
  destruct (Z.of_nat (List.length verifiedTables) =? 0).
  { now apply created_added. }
  destruct (List.last (map Some verifiedTables) None)
    as [lastTable|] eqn:Hlast.
  2:{ apply eff_throw. split; [constructor|]. split; [congruence|exact I]. }
  destruct (Z.of_nat (List.length (table_addresses lastTable))
            + Z.of_nat (List.length missing) <=? MAX_ADDRESSES_PER_TABLE).
  2:{ now apply created_added. }
  apply eff_bind, eff_lift.
  destruct (PublicKey svc (table_address lastTable)) as [tableKey|e].
  2:{ split; [constructor|]. split; [congruence|exact I]. }
  apply eff_bind, eff_lift.
  destruct (publicKeys svc missing) as [keys|e] eqn:Hkeys.
  2:{ split; [constructor|]. split; [congruence|exact I]. }
  apply publicKeys_ok in Hkeys as ->. cbn [app]. apply eff_bind.
  eapply eff_weaken; [apply extendLookupTable_extendedWith|].
  intros [[[]|]|e] ev (Hu & Hr).
  - apply eff_ret. rewrite app_nil_r. split; [exact Hu|].
    split; [congruence|]. destruct Hr as (Hsent & Hset).
    split; [|split; [|exact Hset]].
    + intros a Ha. now apply updateLast_covered.
    + intros _ Hnone. rewrite Hnone in Hsent. cbn in Hsent.
      symmetry in Hsent. apply map_eq_nil in Hsent.
      now apply batches_some in Hsent.
  - apply eff_ret. rewrite app_nil_r. split; [exact Hu|].
    split; [congruence|exact Hr].
  - split; [exact Hu|]. split; [congruence|exact I].
Qed.

End ScriptFacts.

(** X28. [createLookupTable] of the set-up script, unlike the utility of the
    same purpose, returns only when every transaction it sent was
    confirmed: it sends the transaction that creates the table and one
    transaction for every batch of 30 addresses, in order, and for each of
    them a status came back that is free of error and [confirmed] or
    [finalized].  When it throws, the error is that of the call that
    failed or the time-out of a wait; and while it has neither returned
    nor thrown, a wait is still going. *)
Theorem setup_createLookupTable_returns_after_every_confirmation :
  forall (W : Type) (svc : Exchange.Services W) (rounds : nat)
         (payer : Arbitrage.Keypair) (addresses : list string) (w : W),
    let run := Setup.createLookupTable svc rounds payer addresses w in
    match Eff.value run with
    | Eff.Ok (Some created) =>
        (exists createIx,
            Exchange.createLookupTableInstruction
              svc (Arbitrage.publicKey payer) (Utils.slot created)
            = (createIx, Utils.lookupTableAddress created) /\
            map Solana.instructions (Trace.sent (Eff.events run))
            = [createIx]
                :: map (fun b =>
                          [Exchange.extendLookupTableInstruction
                             svc (Arbitrage.publicKey payer)
                             (Utils.lookupTableAddress created) b])
                       (Trace.batches addresses)) /\
        Trace.settled (Eff.events run)
    | Eff.Ok None =>
        (rounds <= Trace.count Trace.isStatusRequest (Eff.events run))%nat
    | Eff.Fail e =>
        Trace.thrownBy svc e (Eff.events run) \/
        Exchange.message e = Trace.timedOutAfter 60
    end.
Proof.
  intros W svc rounds payer addresses w run.
  apply (createLookupTable_createdWith svc rounds payer addresses w).
Qed.

Lemma setup_createLookupTable_witness :
  let run := Setup.createLookupTable
               Cases.confirmingLedger 1 Cases.payer Cases.manyAddresses
               0%nat in
  Eff.value run
  = Eff.Ok (Some {| Utils.lookupTableAddress := "table";
                    Utils.slot := 0 |}) /\
  List.length (Trace.sent (Eff.events run)) = 4%nat /\
  Trace.settled (Eff.events run).
Proof.
  pose proof (setup_createLookupTable_returns_after_every_confirmation
                nat Cases.confirmingLedger 1 Cases.payer
                Cases.manyAddresses 0%nat) as H.
  cbv zeta in H.
  assert (Hrun : Eff.value (Setup.createLookupTable
                              Cases.confirmingLedger 1 Cases.payer
                              Cases.manyAddresses 0%nat)
                 = Eff.Ok (Some {| Utils.lookupTableAddress := "table";
                                   Utils.slot := 0 |}))
    by reflexivity.
  rewrite Hrun in H. destruct H as (_ & Hsettled).
  split; [exact Hrun|]. split; [reflexivity|exact Hsettled].
Defined.

(** ** The set-up script: the tables that it records *)

Section RecordFacts.
Import Eff Exchange Utils Setup Trace.
Context {W : Type}.
Variable svc : Services W.
Variable rounds : nat.

(** What the verification of the tables of the file leaves behind. *)
Let verified (before : list TableRecord)
  (r : Result Error (list TableRecord)) (ev : list Event) : Prop :=
  Forall (fun e => exists address answer,
              e = EGetLookupTableAddresses address answer) ev /\
  exists more,
    r = Ok (before ++ more) /\
    forall a, covered more a <-> lookedUp a ev.

Lemma verifyTables_verified :
  forall (existingTables before : list TableRecord),
    sat (verifyTables svc existingTables before) (verified before).
Proof.
  induction existingTables as [|table rest IH]; intros before;
    cbn [verifyTables].
  - apply eff_ret. split; [constructor|]. exists [].
    split; [now rewrite app_nil_r|]. intros a. split.
    + intros (t & [] & _).
    + intros (address & addresses & [] & _).
  - apply eff_bind, eff_try_catch, eff_bind, eff_lift.
    unfold PublicKey. destruct (PublicKey_valid svc (table_address table)).
    2:{ apply eff_ret. cbn [app].
        eapply eff_weaken; [apply (IH before)|].
        intros r ev H. exact H. }
    apply eff_bind, eff_call. intros [[addresses|]|e].
    + apply eff_ret.
      eapply eff_weaken; [apply (IH (before ++ [_]))|].
      intros r ev (Hall & more & -> & Hmore). cbn [app].
      split; [constructor; [eauto|exact Hall]|].
      eexists (_ :: more). split; [now rewrite <- app_assoc|].
      intros a. split.
      * intros (t & [<-|Hin] & Ha).
        -- exists (table_address table), addresses.
           split; [now left|exact Ha].
        -- destruct (proj1 (Hmore a)) as (address & found & Hf & Hfa).
           { exists t. now split. }
           exists address, found. split; [now right|exact Hfa].
      * intros (address & found & [[= <- <-]|Hin] & Ha).
        -- eexists. split; [now left|exact Ha].
        -- destruct (proj2 (Hmore a)) as (t & Ht & Hta).
           { exists address, found. now split. }
           exists t. split; [now right|exact Hta].
    + apply eff_ret.
      eapply eff_weaken; [apply (IH before)|].
      intros r ev (Hall & more & -> & Hmore). cbn [app].
      split; [constructor; [eauto|exact Hall]|].
      exists more. split; [reflexivity|]. intros a. rewrite Hmore.
      split.
      * intros (address & found & Hin & Ha).
        exists address, found. split; [now right|exact Ha].
      * intros (address & found & [[=]|Hin] & Ha).
        exists address, found. now split.
    + apply eff_ret.
      eapply eff_weaken; [apply (IH before)|].
      intros r ev (Hall & more & -> & Hmore). cbn [app].
      split; [constructor; [eauto|exact Hall]|].
      exists more. split; [reflexivity|]. intros a. rewrite Hmore.
      split.
      * intros (address & found & Hin & Ha).
        exists address, found. split; [now right|exact Ha].
      * intros (address & found & [[=]|Hin] & Ha).
        exists address, found. now split.
Qed.

Variable config : Cfg.Config.
Variable cfg : Exchange.Settings.
Variable opts : Setup.Settings.

Let accounts (payer : Arbitrage.Keypair) : list string :=
  getCommonArbitrageAccounts config cfg opts ++ [Arbitrage.publicKey payer].

(** The file was not written, or the one attempt to write it failed. *)
Let unsaved (ev : list Event) : Prop :=
  writes ev = [] \/ exists saved e, writes ev = [(saved, Fail e)].

Let done (r : option bool) (ev : list Event) : Prop :=
  match r with
  | None => (rounds <= count isStatusRequest ev)%nat /\ writes ev = []
  | Some true =>
      exists bytes payer saved,
        Base58.base58Decode (PRIVATE_KEY opts) = Some bytes /\
        fromSecretKey svc bytes = Ok payer /\
        writes ev = [(saved, Ok tt)] /\
        (forall a, In a (accounts payer) -> covered saved a) /\
        settled ev /\
        (sent ev = [] <->
         forall a, In a (accounts payer) -> lookedUp a ev)
  | Some false => unsaved ev
  end.

Lemma setupLookupTables_done :
  sat (setupLookupTables svc config cfg opts rounds)
      (fun r ev => match r with Ok b => done b ev | Fail _ => False end).
Proof.
  unfold setupLookupTables. apply eff_try_catch.
  apply (eff_weaken _ (fun r ev => match r with
                                   | Ok b => done b ev
                                   | Fail _ => unsaved ev
                                   end)).
  2:{ intros [b|e] ev H; [exact H|]. apply eff_ret.
      rewrite app_nil_r. exact H. }
  apply eff_bind.
  destruct (Base58.base58Decode (PRIVATE_KEY opts)) as [bytes|] eqn:Hkey.
  2:{ apply eff_throw. now left. }
  apply eff_ret, eff_bind, eff_lift.
  destruct (fromSecretKey svc bytes) as [payer|e] eqn:Hpayer.
  2:{ now left. }
  apply eff_bind, eff_call. intros [balance|e].
  2:{ now left. }
  destruct (balance <? 10000000).
  { apply eff_ret. now left. }
  apply eff_bind.
  apply (eff_weaken _ (fun r ev =>
                         (exists tables, r = Ok tables) /\
                         untouched ev /\ sent ev = [] /\
                         count isStatusRequest ev = 0%nat)).
  { apply eff_try_catch, eff_bind, eff_ask. intros [|].
    - apply eff_bind, eff_call. intros [[tables|]|e].
      + apply eff_ret. split; [eauto|]. now repeat constructor.
      + apply eff_ret. split; [eauto|]. now repeat constructor.
      + apply eff_ret. split; [eauto|]. now repeat constructor.
    - apply eff_ret. split; [eauto|]. now repeat constructor. }
  intros r evf ((existingTables & ->) & Huf & Hsf & Hcf).
  apply eff_bind.
  eapply eff_weaken; [apply (verifyTables_verified existingTables [])|].
  intros r evv (Hall & verifiedTables & -> & Hverified).
  apply lookups_quiet in Hall as (Hwv & Hsv & Hcv).
  cbn [app].
  set (missing := missingAddresses (accounts payer) verifiedTables).
  apply eff_bind.
  eapply eff_weaken;
    [apply (addMissing_added svc rounds payer verifiedTables missing)|].
  assert (Hlooked : forall a eva saved r,
             untouched eva ->
             lookedUp a (EGetBalance (Arbitrage.publicKey payer) (Ok balance)
                           :: evf ++ evv ++ eva
                           ++ [EWriteLookupTables saved r] ++ []) <->
             covered verifiedTables a).
  { intros a eva saved r Hua.
    change (EGetBalance (Arbitrage.publicKey payer) (Ok balance)
              :: evf ++ evv ++ eva ++ [EWriteLookupTables saved r] ++ [])
      with ([EGetBalance (Arbitrage.publicKey payer) (Ok balance)]
              ++ evf ++ evv ++ eva ++ [EWriteLookupTables saved r] ++ []).
    rewrite !lookedUp_app, Hverified. split; [|tauto].
    intros [H|[H|[H|[H|[H|H]]]]]; try exact H; exfalso.
    - destruct H as (? & ? & [[=]|[]] & _).
    - exact (untouched_lookedUp a evf Huf H).
    - exact (untouched_lookedUp a eva Hua H).
    - destruct H as (? & ? & [[=]|[]] & _).
    - destruct H as (? & ? & [] & _). }
  intros [[updated|]|e] eva (Hua & Hnone & Hr).
  - apply eff_bind, eff_call. intros [[]|e].
    + apply eff_ret. cbn [app] in *.
      destruct Hr as (Hcovered & Hsome & Hsettled).
      exists bytes, payer, updated.
      split; [reflexivity|]. split; [exact Hpayer|].
      assert (Hsent : forall r,
                 sent (EGetBalance (Arbitrage.publicKey payer) (Ok balance)
                         :: evf ++ evv ++ eva
                         ++ [EWriteLookupTables updated r])
                 = sent eva).
      { intros r. cbn [sent flat_map app]. fold (sent (evf ++ evv ++ eva
                                   ++ [EWriteLookupTables updated r])).
        rewrite !sent_app, Hsf, Hsv. cbn. now rewrite app_nil_r. }
      split; [|split; [|split]].
      * cbn [writes flat_map app].
        fold (writes (evf ++ evv ++ eva
                        ++ [EWriteLookupTables updated (Ok tt)])).
        rewrite !writes_app, (untouched_writes evf Huf), Hwv,
          (untouched_writes eva Hua). reflexivity.
      * intros a Ha. apply Hcovered.
        destruct (covered_dec verifiedTables a) as [H|H]; [now left|].
        right. apply missingAddresses_In. now split.
      * change (settled
                  ([EGetBalance (Arbitrage.publicKey payer) (Ok balance)]
                     ++ evf ++ evv ++ eva
                     ++ [EWriteLookupTables updated (Ok tt)])).
        apply settled_app; [now apply settled_unsent|].
        apply settled_app; [now apply settled_unsent|].
        apply settled_app; [now apply settled_unsent|].
        apply settled_app; [exact Hsettled|now apply settled_unsent].
      * rewrite Hsent. split.
        -- intros Hunsent a Ha.
           apply (Hlooked a eva updated (Ok tt) Hua).
           assert (Hm : missing = []).
           { destruct missing as [|x rest] eqn:Hm; [reflexivity|].
             exfalso. apply Hsome; [discriminate|exact Hunsent]. }
           exact (proj1 (missing_none _ _) Hm a Ha).
        -- intros Hall.
           assert (Hm : missing = []).
           { apply missing_none. intros a Ha.
             apply (Hlooked a eva updated (Ok tt) Hua), Hall, Ha. }
           now rewrite (Hnone Hm).
    + right. exists updated, e. cbn [app].
      cbn [writes flat_map app].
      fold (writes (evf ++ evv ++ eva
                      ++ [EWriteLookupTables updated (Fail e)])).
      rewrite !writes_app, (untouched_writes evf Huf), Hwv,
        (untouched_writes eva Hua). reflexivity.
  - apply eff_ret. cbn [app]. split.
    + change (EGetBalance (Arbitrage.publicKey payer) (Ok balance)
                :: evf ++ evv ++ eva ++ [])
        with ([EGetBalance (Arbitrage.publicKey payer) (Ok balance)]
                ++ evf ++ evv ++ eva ++ []).
      rewrite !trace_count_app. lia.
    + cbn [writes flat_map app]. fold (writes (evf ++ evv ++ eva ++ [])).
      rewrite !writes_app, (untouched_writes evf Huf), Hwv,
        (untouched_writes eva Hua). reflexivity.
  - left. cbn [app]. cbn [writes flat_map app].
    fold (writes (evf ++ evv ++ eva)).
    rewrite !writes_app, (untouched_writes evf Huf), Hwv,
      (untouched_writes eva Hua). reflexivity.
Qed.

End RecordFacts.

(** X29. [setupLookupTables] never throws.  When it returns [true] it has
    written the file once, as the last thing it did, and the tables
    written hold every common account of [getCommonArbitrageAccounts]
    and the address of the wallet; every transaction that it sent was
    confirmed before, and it sent none exactly when each of these
    addresses was in a table that it looked up.  When it returns [false]
    the file was not written, or the one attempt to write it failed; and
    while it has not returned, a wait for a confirmation is still going
    and the file is not written. *)
Theorem setupLookupTables_records_tables_that_hold_every_account :
  forall (W : Type) (svc : Exchange.Services W) (config : Cfg.Config)
         (cfg : Exchange.Settings) (opts : Setup.Settings) (rounds : nat)
         (w : W),
    let run := Setup.setupLookupTables svc config cfg opts rounds w in
    match Eff.value run with
    | Eff.Fail _ => False
    | Eff.Ok None =>
        (rounds <= Trace.count Trace.isStatusRequest (Eff.events run))%nat
        /\ Trace.writes (Eff.events run) = []
    | Eff.Ok (Some true) =>
        exists bytes payer saved,
          Base58.base58Decode (Setup.PRIVATE_KEY opts) = Some bytes /\
          Exchange.fromSecretKey svc bytes = Eff.Ok payer /\
          Trace.writes (Eff.events run) = [(saved, Eff.Ok tt)] /\
          (forall a,
              In a (Setup.getCommonArbitrageAccounts config cfg opts
                      ++ [Arbitrage.publicKey payer]) ->
              Trace.covered saved a) /\
          Trace.settled (Eff.events run) /\
          (Trace.sent (Eff.events run) = [] <->
           forall a,
             In a (Setup.getCommonArbitrageAccounts config cfg opts
                     ++ [Arbitrage.publicKey payer]) ->
             Trace.lookedUp a (Eff.events run))
    | Eff.Ok (Some false) =>
        Trace.writes (Eff.events run) = [] \/
        exists saved e, Trace.writes (Eff.events run) = [(saved, Eff.Fail e)]
    end.
Proof.
  intros W svc config cfg opts rounds w run.
  pose proof (setupLookupTables_done svc rounds config cfg opts w) as H.
  fold run in H. destruct (Eff.value run) as [[[|]|]|e]; exact H.
Qed.

Lemma setupLookupTables_witness :
  let run := Setup.setupLookupTables
               Cases.confirmingLedger Cfg.config Exchange.settings
               Cases.funded 1 0%nat in
  Eff.value run = Eff.Ok (Some true) /\
  List.length (Trace.sent (Eff.events run)) = 2%nat /\
  Trace.settled (Eff.events run).
Proof.
  pose proof (setupLookupTables_records_tables_that_hold_every_account
                nat Cases.confirmingLedger Cfg.config Exchange.settings
                Cases.funded 1 0%nat) as H.
  cbv zeta in H.
  assert (Hrun : Eff.value (Setup.setupLookupTables
                              Cases.confirmingLedger Cfg.config
                              Exchange.settings Cases.funded 1 0%nat)
                 = Eff.Ok (Some true))
    by (vm_compute; reflexivity).
  rewrite Hrun in H.
  destruct H as (bytes & payer & saved & _ & _ & _ & _ & Hsettled & _).
  split; [exact Hrun|].
  split; [vm_compute; reflexivity|exact Hsettled].
Defined.
